(** * VideoProcessor: a shallow embedding of the transcoding and splitting
      pipeline (services/VideoProcessor.js) and the properties of its
      specification.

    The class drives ffmpeg/ffprobe, the file system and a few Node
    built-ins.  Those collaborators are not code of the repository: they are
    gathered in the [Host] interface below and every theorem is proved for an
    arbitrary host.  The methods of the class are translated one by one into
    a state-and-exception monad whose state carries the instance ([this]),
    [process.env], the files of the working directory and the trace of the
    calls made to the collaborators.

    JavaScript numbers are binary64 floating-point numbers.  A finite one is
    modelled by the rational it denotes, next to [+Infinity], [-Infinity] and
    [NaN]; every arithmetic operation rounds its exact result to the nearest
    binary64 number, ties to even, and overflows to an infinity.  The sign of
    zero is not modelled.  Strings are sequences of bytes, the UTF-8 encoding
    of the JavaScript string. *)

From Stdlib Require Import ZArith QArith Qround Qabs Qpower String Ascii List
  Lia Lqa.
From stdpp Require Import base strings gmap pretty.
Import ListNotations.
Local Open Scope Z_scope.
#[local] Set Warnings "-register-all".

(** ** JavaScript numbers and values *)

Inductive jsnum : Type :=
| Fin (q : Q)
| PosInf
| NegInf
| NaN.

Definition num (z : Z) : jsnum := Fin (inject_Z z).

Definition Qis_zero (q : Q) : bool := Qeq_bool q 0.
Definition Qis_neg (q : Q) : bool := negb (Qle_bool 0 q).

(** *** Rounding to binary64

    A positive binary64 number is [m * 2^e] with [m < 2^53] and
    [-1074 <= e]; the normal ones have [2^52 <= m].  A positive rational [a]
    with [2^k <= a < 2^(k+1)] is rounded at the exponent [k - 52], or at
    [-1074] when that is larger (the subnormal range): [a / 2^e] is rounded
    to the nearest integer, a tie going to the even one.  A result of
    [2^1024] or more is an infinity. *)

Definition pow2 (e : Z) : Q := (2 ^ e)%Q.

(** The integer [k] with [2^k <= a < 2^(k+1)], for [a] positive. *)
Definition floor_log2 (a : Q) : Z :=
  let k := Z.log2 (Qnum a) - Z.log2 (Zpos (Qden a)) in
  if Qle_bool (pow2 k) a then k else k - 1.

Definition round_half_even (y : Q) : Z :=
  let f := Qfloor y in
  match (y - inject_Z f ?= 1 # 2)%Q with
  | Lt => f
  | Gt => f + 1
  | Eq => if Z.even f then f else f + 1
  end.

Definition exponent_of (a : Q) : Z := Z.max (floor_log2 a - 52) (-1074).

Definition mantissa_of (a : Q) : Z :=
  round_half_even (a / pow2 (exponent_of a)).

(** The rounding of a positive rational, before the overflow test. *)
Definition rounded (a : Q) : Q :=
  (inject_Z (mantissa_of a) * pow2 (exponent_of a))%Q.

(** The Number value for the real number [q]. *)
Definition nearest (q : Q) : jsnum :=
  if Qis_zero q then Fin 0
  else
    if Qle_bool (pow2 1024) (rounded (Qabs q))
    then (if Qis_neg q then NegInf else PosInf)
    else Fin (Qred (if Qis_neg q then - rounded (Qabs q)
                    else rounded (Qabs q))).

(** The Number value for the integer [z]: [z] itself up to [2^53]. *)
Definition js_int (z : Z) : jsnum := nearest (inject_Z z).

(** [x / y] *)
Definition js_div (x y : jsnum) : jsnum :=
  match x, y with
  | NaN, _ | _, NaN => NaN
  | Fin a, Fin b =>
      if Qis_zero b
      then (if Qis_zero a then NaN else if Qis_neg a then NegInf else PosInf)
      else nearest (a / b)
  | Fin _, (PosInf | NegInf) => Fin 0
  | PosInf, Fin b => if Qis_neg b then NegInf else PosInf
  | NegInf, Fin b => if Qis_neg b then PosInf else NegInf
  | (PosInf | NegInf), (PosInf | NegInf) => NaN
  end.

(** [x * y] *)
Definition js_mul (x y : jsnum) : jsnum :=
  match x, y with
  | NaN, _ | _, NaN => NaN
  | Fin a, Fin b => nearest (a * b)
  | Fin a, PosInf | PosInf, Fin a =>
      if Qis_zero a then NaN else if Qis_neg a then NegInf else PosInf
  | Fin a, NegInf | NegInf, Fin a =>
      if Qis_zero a then NaN else if Qis_neg a then PosInf else NegInf
  | PosInf, PosInf | NegInf, NegInf => PosInf
  | PosInf, NegInf | NegInf, PosInf => NegInf
  end.

(** [x - y] *)
Definition js_sub (x y : jsnum) : jsnum :=
  match x, y with
  | NaN, _ | _, NaN => NaN
  | Fin a, Fin b => nearest (a - b)
  | Fin _, PosInf => NegInf
  | Fin _, NegInf => PosInf
  | PosInf, PosInf | NegInf, NegInf => NaN
  | PosInf, _ => PosInf
  | NegInf, _ => NegInf
  end.

(** [Math.ceil(x)] *)
Definition js_ceil (x : jsnum) : jsnum :=
  match x with
  | Fin a => num (Qceiling a)
  | other => other
  end.

(** [x < y] and [x <= y]: every comparison with [NaN] is false. *)
Definition js_lt (x y : jsnum) : bool :=
  match x, y with
  | NaN, _ | _, NaN => false
  | Fin a, Fin b => negb (Qle_bool b a)
  | Fin _, PosInf | NegInf, Fin _ | NegInf, PosInf => true
  | _, _ => false
  end.

Definition js_le (x y : jsnum) : bool :=
  match x, y with
  | NaN, _ | _, NaN => false
  | Fin a, Fin b => Qle_bool a b
  | PosInf, (Fin _ | NegInf) | Fin _, NegInf => false
  | _, _ => true
  end.

(** Truthiness of a number, and [x || d] on numbers. *)
Definition js_truthy_num (x : jsnum) : bool :=
  match x with
  | Fin a => negb (Qis_zero a)
  | NaN => false
  | PosInf | NegInf => true
  end.

Definition js_or_num (x d : jsnum) : jsnum :=
  if js_truthy_num x then x else d.

(** [s || d] where [s] is a string or [undefined]. *)
Definition js_or_str (s : option string) (d : string) : string :=
  match s with
  | Some (String c r) => String c r
  | Some EmptyString | None => d
  end.

(** Values that are only passed around: the parsed preset and the fields
    ffprobe reports. *)
Inductive jsval : Type :=
| JUndefined
| JNull
| JBool (b : bool)
| JNumber (n : jsnum)
| JString (s : string)
| JArray (items : list jsval)
| JObject (fields : list (string * jsval)).

(** ** [parseInt] on an environment variable

    ECMAScript's algorithm with no radix argument: leading white space is
    skipped, one sign is read, a [0x]/[0X] prefix selects radix 16, and the
    longest prefix of digits is converted to the nearest Number; no digit at
    all gives [NaN].  An unset variable is [undefined], whose string form
    has no digit.

    White space is what [StrWhiteSpaceChar] lists: TAB, LF, VT, FF, CR and
    SP, in UTF-8 one byte each; U+00A0, two bytes; U+1680, U+2000 to U+200A,
    U+2028, U+2029, U+202F, U+205F, U+3000 and U+FEFF, three bytes each. *)

Definition is_js_space (c : ascii) : bool :=
  let n := N_of_ascii c in
  (((9 <=? n) && (n <=? 13)) || (n =? 32))%N.

(** The second byte of U+00A0, after the byte 194. *)
Definition is_js_space2 (c2 : ascii) : bool := (N_of_ascii c2 =? 160)%N.

(** The three bytes of the other white-space characters. *)
Definition is_js_space3 (c1 c2 c3 : ascii) : bool :=
  let n1 := N_of_ascii c1 in
  let n2 := N_of_ascii c2 in
  let n3 := N_of_ascii c3 in
  ((n1 =? 225) && (n2 =? 154) && (n3 =? 128)
   || (n1 =? 226) && (n2 =? 128)
      && ((128 <=? n3) && (n3 <=? 138) || (n3 =? 168) || (n3 =? 169)
          || (n3 =? 175))
   || (n1 =? 226) && (n2 =? 129) && (n3 =? 159)
   || (n1 =? 227) && (n2 =? 128) && (n3 =? 128)
   || (n1 =? 239) && (n2 =? 187) && (n3 =? 191))%N.

(** What is left of [s] after one white-space character, when it starts with
    one. *)
Definition strip_space (s : string) : option string :=
  match s with
  | String c r =>
      if is_js_space c then Some r
      else if (N_of_ascii c =? 194)%N then
        match r with
        | String c2 r2 => if is_js_space2 c2 then Some r2 else None
        | EmptyString => None
        end
      else if (224 <=? N_of_ascii c)%N then
        match r with
        | String c2 (String c3 r3) =>
            if is_js_space3 c c2 c3 then Some r3 else None
        | _ => None
        end
      else None
  | EmptyString => None
  end.

Fixpoint skip_ws_upto (n : nat) (s : string) : string :=
  match n with
  | S n' =>
      match strip_space s with
      | Some r => skip_ws_upto n' r
      | None => s
      end
  | O => s
  end.

(** Each white-space character takes at least one byte. *)
Definition skip_ws (s : string) : string := skip_ws_upto (String.length s) s.

Definition digit_of (c : ascii) : option Z :=
  let n := Z.of_N (N_of_ascii c) in
  if (48 <=? n) && (n <=? 57) then Some (n - 48)
  else if (97 <=? n) && (n <=? 122) then Some (n - 87)
  else if (65 <=? n) && (n <=? 90) then Some (n - 55)
  else None.

Definition digit_in (radix : Z) (c : ascii) : option Z :=
  match digit_of c with
  | Some d => if d <? radix then Some d else None
  | None => None
  end.

Fixpoint read_digits (radix : Z) (s : string) (acc : option Z) : option Z :=
  match s with
  | String c r =>
      match digit_in radix c with
      | Some d => read_digits radix r (Some (radix * default 0 acc + d))
      | None => acc
      end
  | EmptyString => acc
  end.

Definition strip_sign (s : string) : Z * string :=
  match s with
  | String "-"%char r => (-1, r)
  | String "+"%char r => (1, r)
  | _ => (1, s)
  end.

Definition strip_hex_prefix (s : string) : Z * string :=
  match s with
  | String "0"%char (String "x"%char r) => (16, r)
  | String "0"%char (String "X"%char r) => (16, r)
  | _ => (10, s)
  end.

Definition parseInt_string (s : string) : jsnum :=
  let '(sign, s1) := strip_sign (skip_ws s) in
  let '(radix, s2) := strip_hex_prefix s1 in
  match read_digits radix s2 None with
  | Some n => js_int (sign * n)
  | None => NaN
  end.

Definition parseInt (v : option string) : jsnum :=
  match v with
  | Some s => parseInt_string s
  | None => NaN
  end.

(** A string is non-numeric when, after white space and a sign, it does not
    start with a decimal digit. *)
Definition non_numeric (s : string) : Prop :=
  match snd (strip_sign (skip_ws s)) with
  | String c _ => digit_in 10 c = None
  | EmptyString => True
  end.

(** ** Data of the pipeline *)

(** One entry of [metadata.streams] as ffprobe reports it.  Pixel dimensions
    are integers, the frame rate is a string; an absent key is [None] or
    [JUndefined]. *)
Module Stream.
Record t : Type := mk {
  codec_type : string;
  codec_name : jsval;
  width : option Z;
  height : option Z;
  r_frame_rate : option string;
  channels : jsval;
  sample_rate : jsval
}.
End Stream.

(** [metadata.format] *)
Module Format.
Record t : Type := mk {
  duration : jsval;
  size : jsval;
  bit_rate : jsval
}.
End Format.

Module Metadata.
Record t : Type := mk {
  streams : list Stream.t;
  format : Format.t
}.
End Metadata.

(** The object [analyzeVideo] resolves with. *)
Module VideoInfo.
Record t : Type := mk {
  duration : jsval;
  size : jsval;
  bitrate : jsval;
  videoCodec : jsval;
  audioCodec : jsval;
  resolution : string;
  fps : jsval;
  audioChannels : jsval;
  audioSampleRate : jsval
}.
End VideoInfo.

(** An element of the array [processVideo] returns.  [part] and
    [totalParts] are [None] when the object literal has no such key. *)
Module Artifact.
Record t : Type := mk {
  path : string;
  name : string;
  type : string;
  size : Z;
  part : option Z;
  totalParts : option jsnum
}.
End Artifact.

(** The fields of a [VideoProcessor] instance. *)
Record VideoProcessor : Type := mkVideoProcessor {
  maxVideoSizeMB : jsnum;
  frameCaptureTime : jsnum;
  presetPath : string;
  preset : jsval
}.

(** ** The collaborators

    Node's [path] module, the built-ins [eval], [parseFloat] and
    [JSON.parse], and the tools reached through fluent-ffmpeg and fs-extra.
    A tool that fails gives its message ([inl]); a tool that succeeds has
    written its output file and gives the size of that file ([inr]).  Each
    collaborator is a function of its arguments: asked the same thing twice,
    it answers the same.  [console.log] and [console.error] are not
    modelled; [console.warn] is an event of the trace. *)
Class Host : Type := {
  (** [path.parse(p).name], [path.basename(p)], [path.join(d, n)] *)
  path_parse_name : string -> string;
  path_basename : string -> string;
  path_join : string -> string -> string;
  (** [eval] on a program that is not a decimal literal or a quotient of
      two; [None] when evaluation throws *)
  eval_other : string -> option jsval;
  (** [parseFloat] on a value that is not a number *)
  parseFloat_other : jsval -> jsnum;
  (** [JSON.parse]; [None] when it throws *)
  JSON_parse : string -> option jsval;
  (** [fs.readFileSync(p, 'utf8')]; [None] when it throws *)
  readFileSync : string -> option string;
  (** [ffmpeg.ffprobe(p, cb)]: the error, or the metadata *)
  ffprobe : string -> string + Metadata.t;
  (** [fs.ensureDir(d)] and [fs.remove(p)]: [Some] is the error message *)
  ensureDir : string -> option string;
  remove_error : string -> option string;
  (** [ffmpeg(input).screenshots({timestamps, filename, folder, size})] *)
  screenshots : string -> jsnum -> string -> string -> string -> string + Z;
  (** the transcoding command of [compressVideo]: input, preset, output *)
  transcode : string -> jsval -> string -> string + Z;
  (** the command of [extractVideoSegment]: input, output, start, duration *)
  extract : string -> string -> jsnum -> jsnum -> string + Z
}.

(** Calls made to the collaborators, in the order they are made. *)
Inductive Event : Type :=
| EvWarn (msg : string)
| EvProbe (input : string)
| EvEnsureDir (dir : string)
| EvScreenshot (input : string) (timestamp : jsnum) (filename folder size : string)
| EvTranscode (input : string) (preset : jsval) (output : string)
| EvExtract (input output : string) (start dur : jsnum)
| EvStat (p : string)
| EvRemove (p : string).

(** ** State, outcomes and the monad of the methods *)

Record St : Type := mkSt {
  this : VideoProcessor;
  env : gmap string string;
  files : gmap string Z;
  events : list Event
}.

(** How an [async] method ends: its promise is fulfilled, it is rejected with
    an error of the given message, an exception escapes a callback so that
    the promise is never settled, or the model ran out of fuel. *)
Inductive outcome (A : Type) : Type :=
| Returned (a : A)
| Thrown (msg : string)
| Escaped
| OutOfFuel.
Arguments Returned {A} a.
Arguments Thrown {A} msg.
Arguments Escaped {A}.
Arguments OutOfFuel {A}.

Definition M (A : Type) : Type := St -> outcome A * St.

Definition ret {A} (a : A) : M A := fun s => (Returned a, s).

Definition bind {A B} (c : M A) (k : A -> M B) : M B :=
  fun s =>
    match c s with
    | (Returned a, s') => k a s'
    | (Thrown msg, s') => (Thrown msg, s')
    | (Escaped, s') => (Escaped, s')
    | (OutOfFuel, s') => (OutOfFuel, s')
    end.

#[export] Instance M_ret : MRet M := @ret.
#[export] Instance M_bind : MBind M := fun A B k c => bind c k.

Definition throw {A} (msg : string) : M A := fun s => (Thrown msg, s).
Definition escape {A} : M A := fun s => (Escaped, s).
Definition out_of_fuel {A} : M A := fun s => (OutOfFuel, s).

(** [try { c } catch (error) { h(error.message) }] *)
Definition try_catch {A} (c : M A) (h : string -> M A) : M A :=
  fun s =>
    match c s with
    | (Thrown msg, s') => h msg s'
    | other => other
    end.

Definition get_this : M VideoProcessor := fun s => (Returned (this s), s).
Definition get_env : M (gmap string string) := fun s => (Returned (env s), s).

Definition emit (e : Event) : M unit :=
  fun s => (Returned tt,
            {| this := this s; env := env s; files := files s;
               events := events s ++ [e] |}).

Definition write_file (p : string) (sz : Z) : M unit :=
  fun s => (Returned tt,
            {| this := this s; env := env s; files := <[p := sz]> (files s);
               events := events s |}).

Definition delete_file (p : string) : M unit :=
  fun s => (Returned tt,
            {| this := this s; env := env s; files := delete p (files s);
               events := events s |}).

Definition set_preset (v : jsval) : M unit :=
  fun s => (Returned tt,
            {| this := {| maxVideoSizeMB := maxVideoSizeMB (this s);
                          frameCaptureTime := frameCaptureTime (this s);
                          presetPath := presetPath (this s);
                          preset := v |};
               env := env s; files := files s; events := events s |}).


(** ** [eval] on a frame-rate string

    The programs ffprobe produces are a decimal literal or a quotient of two
    decimal literals; on these [eval] is JavaScript's division of the Number
    values of the literals.  A literal with a leading zero is not a decimal
    literal.  Every other program is left to the host. *)

Fixpoint all_digits (s : string) : bool :=
  match s with
  | String c r =>
      match digit_in 10 c with
      | Some _ => all_digits r
      | None => false
      end
  | EmptyString => true
  end.

Definition has_leading_zero (s : string) : bool :=
  match s with
  | String c (String _ _) => Ascii.eqb c "0"%char
  | _ => false
  end.

Definition decimal_literal (s : string) : option Z :=
  if has_leading_zero s then None
  else if all_digits s then read_digits 10 s None
  else None.

Fixpoint split_slash (s : string) : string * option string :=
  match s with
  | String c r =>
      if Ascii.eqb c "/"%char then (EmptyString, Some r)
      else let '(a, b) := split_slash r in (String c a, b)
  | EmptyString => (EmptyString, None)
  end.

Section Methods.
Context {host : Host}.

Definition js_eval (s : string) : option jsval :=
  match split_slash s with
  | (a, None) =>
      match decimal_literal a with
      | Some n => Some (JNumber (js_int n))
      | None => eval_other s
      end
  | (a, Some b) =>
      match decimal_literal a, decimal_literal b with
      | Some n, Some d => Some (JNumber (js_div (js_int n) (js_int d)))
      | _, _ => eval_other s
      end
  end.

(** [parseFloat(v)]: a number reads back as itself. *)
Definition js_parseFloat (v : jsval) : jsnum :=
  match v with
  | JNumber n => n
  | other => parseFloat_other other
  end.

(** ** The methods of [VideoProcessor] *)

(** The fallback preset.  Its [fps] is the literal 29.97 of the source,
    written as the decimal it reads; the pipeline never computes with it. *)
Definition default_preset : jsval :=
  JObject [ ("videoCodec", JString "h264");
            ("audioCodec", JString "aac");
            ("resolution", JString "1920x1080");
            ("bitrate", JNumber (num 974));
            ("fps", JNumber (Fin (2997 # 100)));
            ("audioChannels", JNumber (num 2));
            ("audioSampleRate", JNumber (num 48000)) ].

Definition preset_warning : string :=
  "Failed to load video preset, using defaults".

Definition loadPreset : M jsval :=
  self ← get_this;
  match readFileSync (presetPath self) with
  | Some presetData =>
      match JSON_parse presetData with
      | Some v => ret v
      | None => emit (EvWarn preset_warning);; ret default_preset
      end
  | None => emit (EvWarn preset_warning);; ret default_preset
  end.

(** [new VideoProcessor()]: the three settings are computed from
    [process.env], then [loadPreset] runs on the new instance. *)
Definition constructor : M unit :=
  fun s =>
    let self :=
      {| maxVideoSizeMB :=
           js_or_num (parseInt (env s !! "MAX_VIDEO_SIZE_MB")) (num 98);
         frameCaptureTime :=
           js_or_num (parseInt (env s !! "FRAME_CAPTURE_TIME")) (num 2);
         presetPath :=
           js_or_str (env s !! "VIDEO_PRESET_PATH") "./video-preset.json";
         preset := JUndefined |} in
    (p ← loadPreset; set_preset p)
      {| this := self; env := env s; files := files s; events := events s |}.

Definition stat_error (p : string) : string :=
  "ENOENT: no such file or directory, stat '" +:+ p +:+ "'".

(** [fs.stat(p)] on the files of the model, and [getFileSize], which wraps
    its error. *)
Definition fs_stat (p : string) : M Z :=
  fun s =>
    match files s !! p with
    | Some sz => (Returned sz, s)
    | None => (Thrown (stat_error p), s)
    end.

Definition getFileSize (filePath : string) : M Z :=
  emit (EvStat filePath);;
  try_catch (fs_stat filePath)
    (fun message => throw ("Failed to get file size: " +:+ message)).

(** [await fs.ensureDir(d)] and [await fs.remove(p)] *)
Definition fs_ensureDir (d : string) : M unit :=
  emit (EvEnsureDir d);;
  match ensureDir d with
  | Some msg => throw msg
  | None => ret tt
  end.

Definition fs_remove (p : string) : M unit :=
  emit (EvRemove p);;
  match remove_error p with
  | Some msg => throw msg
  | None => delete_file p
  end.

Definition find_stream (kind : string) (l : list Stream.t) : option Stream.t :=
  List.find (fun st => String.eqb (Stream.codec_type st) kind) l.

(** [stream?.field] *)
Definition opt_field (o : option Stream.t) (f : Stream.t -> jsval) : jsval :=
  match o with
  | Some st => f st
  | None => JUndefined
  end.

(** A pixel dimension inside a template string. *)
Definition show_dim (o : option Z) : string :=
  match o with
  | Some z => pretty z
  | None => "undefined"
  end.

Definition analyzeVideo (inputPath : string) : M VideoInfo.t :=
  emit (EvProbe inputPath);;
  match ffprobe inputPath with
  | inl err => throw ("Failed to analyze video: " +:+ err)
  | inr metadata =>
      let videoStream := find_stream "video" (Metadata.streams metadata) in
      let audioStream := find_stream "audio" (Metadata.streams metadata) in
      match js_eval (js_or_str (videoStream ≫= Stream.r_frame_rate) "0") with
      | Some rate =>
          ret {| VideoInfo.duration := Format.duration (Metadata.format metadata);
                 VideoInfo.size := Format.size (Metadata.format metadata);
                 VideoInfo.bitrate := Format.bit_rate (Metadata.format metadata);
                 VideoInfo.videoCodec := opt_field videoStream Stream.codec_name;
                 VideoInfo.audioCodec := opt_field audioStream Stream.codec_name;
                 VideoInfo.resolution :=
                   show_dim (videoStream ≫= Stream.width) +:+ "x"
                   +:+ show_dim (videoStream ≫= Stream.height);
                 VideoInfo.fps := rate;
                 VideoInfo.audioChannels := opt_field audioStream Stream.channels;
                 VideoInfo.audioSampleRate :=
                   opt_field audioStream Stream.sample_rate |}
      | None => escape
      end
  end.

Definition temp_dir : M string :=
  e ← get_env; ret (js_or_str (e !! "TEMP_DIR") "temp").

Definition captureFrame (inputPath originalFileName : string) : M string :=
  outputDir ← temp_dir;
  let thumbnailName := path_parse_name originalFileName +:+ "_thumbnail.jpg" in
  let thumbnailPath := path_join outputDir thumbnailName in
  fs_ensureDir outputDir;;
  self ← get_this;
  emit (EvScreenshot inputPath (frameCaptureTime self) thumbnailName
              outputDir "1280x720");;
  match screenshots inputPath (frameCaptureTime self) thumbnailName
          outputDir "1280x720" with
  | inr sz => write_file thumbnailPath sz;; ret thumbnailPath
  | inl err => throw ("Failed to capture frame: " +:+ err)
  end.

(** [v.videoCodec], the first property the promise executor of
    [compressVideo] reads from [this.preset]: reading a property of [null]
    or [undefined] throws a TypeError, whose message is [Some]; every other
    value has the property or gives [undefined] for it. *)
Definition read_videoCodec_error (v : jsval) : option string :=
  match v with
  | JNull => Some "Cannot read properties of null (reading 'videoCodec')"
  | JUndefined =>
      Some "Cannot read properties of undefined (reading 'videoCodec')"
  | _ => None
  end.

(** The codec, size, bitrate, frame rate and audio settings are all read from
    [this.preset] inside the promise executor, where an exception rejects
    the promise with the error as it is; once the first of them is read the
    others are read without error, and the command is modelled as receiving
    the preset whole. *)
Definition compressVideo (inputPath originalFileName : string) : M string :=
  outputDir ← temp_dir;
  let outputName := path_parse_name originalFileName +:+ "_processed.mp4" in
  let outputPath := path_join outputDir outputName in
  fs_ensureDir outputDir;;
  self ← get_this;
  match read_videoCodec_error (preset self) with
  | Some message => throw message
  | None =>
      emit (EvTranscode inputPath (preset self) outputPath);;
      match transcode inputPath (preset self) outputPath with
      | inr sz => write_file outputPath sz;; ret outputPath
      | inl err => throw ("Failed to compress video: " +:+ err)
      end
  end.

Definition extractVideoSegment (inputPath outputPath : string)
    (startTime endTime : jsnum) : M string :=
  let dur := js_sub endTime startTime in
  emit (EvExtract inputPath outputPath startTime dur);;
  match extract inputPath outputPath startTime dur with
  | inr sz => write_file outputPath sz;; ret outputPath
  | inl err => throw ("Failed to extract video segment: " +:+ err)
  end.

(** The [for] loop of [splitVideo], from counter [i] with [parts] collected
    so far.  The test [i < partsNeeded] is evaluated at each turn; [fuel]
    bounds the number of turns. *)
Fixpoint split_loop (fuel : nat) (videoPath outputDir baseName : string)
    (partsNeeded durationPerPart : jsnum) (i : Z) (parts : list Artifact.t)
    : M (list Artifact.t) :=
  match fuel with
  | O => out_of_fuel
  | S fuel' =>
      if js_lt (num i) partsNeeded then
        let startTime := js_mul (num i) durationPerPart in
        let endTime := js_mul (num (i + 1)) durationPerPart in
        let partName := baseName +:+ "_part" +:+ pretty (i + 1) +:+ ".mp4" in
        let partPath := path_join outputDir partName in
        extractVideoSegment videoPath partPath startTime endTime;;
        partSize ← getFileSize partPath;
        split_loop fuel' videoPath outputDir baseName partsNeeded
          durationPerPart (i + 1)
          (parts ++ [ {| Artifact.path := partPath;
                         Artifact.name := partName;
                         Artifact.type := "video";
                         Artifact.size := partSize;
                         Artifact.part := Some (i + 1);
                         Artifact.totalParts := Some partsNeeded |} ])
      else ret parts
  end.

Definition splitVideo (fuel : nat) (videoPath originalFileName : string)
    : M (list Artifact.t) :=
  videoInfo ← analyzeVideo videoPath;
  let duration := js_parseFloat (VideoInfo.duration videoInfo) in
  fileSize ← getFileSize videoPath;
  let fileSizeMB := js_div (num fileSize) (num (1024 * 1024)) in
  self ← get_this;
  let partsNeeded := js_ceil (js_div fileSizeMB (maxVideoSizeMB self)) in
  let durationPerPart := js_div duration partsNeeded in
  outputDir ← temp_dir;
  let baseName := path_parse_name originalFileName in
  parts ← split_loop fuel videoPath outputDir baseName partsNeeded
                durationPerPart 0 [];
  fs_remove videoPath;;
  ret parts.

Definition checkAndSplitVideo (fuel : nat) (videoPath originalFileName : string)
    : M (list Artifact.t) :=
  fileSize ← getFileSize videoPath;
  let fileSizeMB := js_div (num fileSize) (num (1024 * 1024)) in
  self ← get_this;
  if js_le fileSizeMB (maxVideoSizeMB self) then
    ret [ {| Artifact.path := videoPath;
             Artifact.name := path_basename videoPath;
             Artifact.type := "video";
             Artifact.size := fileSize;
             Artifact.part := None;
             Artifact.totalParts := None |} ]
  else splitVideo fuel videoPath originalFileName.

Definition processVideo (fuel : nat) (inputPath originalFileName : string)
    : M (list Artifact.t) :=
  try_catch
    (videoInfo ← analyzeVideo inputPath;
     thumbnailPath ← captureFrame inputPath originalFileName;
     processedPath ← compressVideo inputPath originalFileName;
     processedVideos ← checkAndSplitVideo fuel processedPath originalFileName;
     thumbnailSize ← getFileSize thumbnailPath;
     ret (processedVideos ++
          [ {| Artifact.path := thumbnailPath;
               Artifact.name :=
                 path_parse_name originalFileName +:+ "_thumbnail.jpg";
               Artifact.type := "thumbnail";
               Artifact.size := thumbnailSize;
               Artifact.part := None;
               Artifact.totalParts := None |} ]))
    (fun message => throw ("Failed to process video: " +:+ message)).

(** [cleanupFiles]: removal errors are logged as warnings and skipped. *)
Fixpoint cleanupFiles (filePaths : list string) : M unit :=
  match filePaths with
  | filePath :: rest =>
      try_catch (fs_remove filePath)
            (fun message =>
               emit (EvWarn ("Failed to cleanup " +:+ filePath +:+ ": "
                             +:+ message)));;
      cleanupFiles rest
  | [] => ret tt
  end.

End Methods.

(** ** Concrete hosts

    POSIX behaviour of the [path] functions on plain relative names, and
    tools whose outcome is fixed in advance; they serve the concrete runs
    below. *)

Fixpoint after_last_slash (s acc : string) : string :=
  match s with
  | String c r =>
      if Ascii.eqb c "/"%char then after_last_slash r EmptyString
      else after_last_slash r (acc +:+ String c EmptyString)
  | EmptyString => acc
  end.

Definition posix_basename (p : string) : string :=
  after_last_slash p EmptyString.

(** The part of [s] before its last dot; [None] when [s] has no dot. *)
Fixpoint before_last_dot (s : string) : option string :=
  match s with
  | String c r =>
      match before_last_dot r with
      | Some pre => Some (String c pre)
      | None => if Ascii.eqb c "."%char then Some EmptyString else None
      end
  | EmptyString => None
  end.

Definition posix_parse_name (p : string) : string :=
  let base := posix_basename p in
  match before_last_dot base with
  | Some (String c r) => String c r
  | Some EmptyString | None => base
  end.

Definition posix_join (d n : string) : string := d +:+ "/" +:+ n.

Definition sample_video : Stream.t :=
  {| Stream.codec_type := "video";
     Stream.codec_name := JString "h264";
     Stream.width := Some 1920;
     Stream.height := Some 1080;
     Stream.r_frame_rate := Some "30000/1001";
     Stream.channels := JUndefined;
     Stream.sample_rate := JUndefined |}.

Definition sample_audio : Stream.t :=
  {| Stream.codec_type := "audio";
     Stream.codec_name := JString "aac";
     Stream.width := None;
     Stream.height := None;
     Stream.r_frame_rate := Some "0/0";
     Stream.channels := JNumber (num 2);
     Stream.sample_rate := JNumber (num 48000) |}.

(** A probe result with the given streams and duration. *)
Definition sample_metadata (l : list Stream.t) (seconds : jsval) : Metadata.t :=
  {| Metadata.streams := l;
     Metadata.format :=
       {| Format.duration := seconds;
          Format.size := JNumber (num 734003200);
          Format.bit_rate := JNumber (num 8000000) |} |}.

(** A host whose probe, transcoder and segment extractor behave as given;
    the preset file is missing and screenshots always succeed. *)
Definition demo_host (probe : string + Metadata.t) (enc : string + Z)
    (ext : string -> string + Z) : Host :=
  {| path_parse_name := posix_parse_name;
     path_basename := posix_basename;
     path_join := posix_join;
     eval_other := fun _ => None;
     parseFloat_other := fun _ => NaN;
     JSON_parse := fun _ => None;
     readFileSync := fun _ => None;
     ffprobe := fun _ => probe;
     ensureDir := fun _ => None;
     remove_error := fun _ => None;
     screenshots := fun _ _ _ _ _ => inr 40000;
     transcode := fun _ _ _ => enc;
     extract := fun _ out _ _ => ext out |}.

Definition MB : Z := 1024 * 1024.

Definition two_minutes : Metadata.t :=
  sample_metadata [sample_video; sample_audio] (JNumber (num 120)).

(** 250 MB after transcoding; every segment comes out at 90 MB. *)
Definition host_large : Host :=
  demo_host (inr two_minutes) (inr (250 * MB)) (fun _ => inr (90 * MB)).

(** 50 MB after transcoding. *)
Definition host_small : Host :=
  demo_host (inr two_minutes) (inr (50 * MB)) (fun _ => inr (50 * MB)).

(** The transcoder exits with an error. *)
Definition host_transcode_fails : Host :=
  demo_host (inr two_minutes) (inl "ffmpeg exited with code 1")
    (fun _ => inr 0).

(** 250 MB after transcoding; the second segment cannot be extracted. *)
Definition host_second_segment_fails : Host :=
  demo_host (inr two_minutes) (inr (250 * MB))
    (fun out => if String.eqb out "temp/clip_part2.mp4"
                then inl "ffmpeg exited with code 1" else inr (90 * MB)).

(** A one-second clip. *)
Definition host_one_second : Host :=
  demo_host (inr (sample_metadata [sample_video; sample_audio] (JNumber (num 1))))
    (inr MB) (fun _ => inr MB).

(** An audio-only file whose duration is reported as 0. *)
Definition host_audio_only : Host :=
  demo_host (inr (sample_metadata [sample_audio] (JNumber (num 0))))
    (inr MB) (fun _ => inr MB).

Definition zero_denominator_video : Stream.t :=
  {| Stream.codec_type := "video";
     Stream.codec_name := JString "h264";
     Stream.width := Some 1920;
     Stream.height := Some 1080;
     Stream.r_frame_rate := Some "30/0";
     Stream.channels := JUndefined;
     Stream.sample_rate := JUndefined |}.

(** A video stream whose frame rate is reported as ["30/0"]. *)
Definition host_zero_denominator : Host :=
  demo_host (inr (sample_metadata [zero_denominator_video] (JNumber (num 120))))
    (inr MB) (fun _ => inr MB).

Definition expression_video : Stream.t :=
  {| Stream.codec_type := "video";
     Stream.codec_name := JString "h264";
     Stream.width := Some 1920;
     Stream.height := Some 1080;
     Stream.r_frame_rate := Some "25+5";
     Stream.channels := JUndefined;
     Stream.sample_rate := JUndefined |}.

(** A video stream whose frame rate is reported as the program ["25+5"], on
    an engine whose [eval] computes the sum. *)
Definition host_expression : Host :=
  {| path_parse_name := posix_parse_name;
     path_basename := posix_basename;
     path_join := posix_join;
     eval_other := fun program =>
       if String.eqb program "25+5" then Some (JNumber (num 30)) else None;
     parseFloat_other := fun _ => NaN;
     JSON_parse := fun _ => None;
     readFileSync := fun _ => None;
     ffprobe := fun _ =>
       inr (sample_metadata [expression_video] (JNumber (num 120)));
     ensureDir := fun _ => None;
     remove_error := fun _ => None;
     screenshots := fun _ _ _ _ _ => inr 40000;
     transcode := fun _ _ _ => inr MB;
     extract := fun _ _ _ _ => inr MB |}.

(** The state before [new VideoProcessor()]: the given environment, an empty
    working directory, nothing logged.  [this] is overwritten by the
    constructor. *)
Definition boot (e : gmap string string) : St :=
  {| this := {| maxVideoSizeMB := NaN; frameCaptureTime := NaN;
                presetPath := EmptyString; preset := JUndefined |};
     env := e; files := ∅; events := [] |}.

(** The state after construction in an empty environment. *)
Definition fresh {host : Host} : St := snd (constructor (boot ∅)).

(** The events of a run that were not there before it. *)
Definition new_events (before after : St) : list Event :=
  drop (length (events before)) (events after).

(** The state [s] with further events logged, and with a file written. *)
Definition log (s : St) (evs : list Event) : St :=
  {| this := this s; env := env s; files := files s;
     events := events s ++ evs |}.

Definition put (s : St) (p : string) (sz : Z) : St :=
  {| this := this s; env := env s; files := <[p := sz]> (files s);
     events := events s |}.

(** ** Vocabulary of the statements *)

Section Vocabulary.
Context {host : Host}.

(** Name, artifact and collaborator calls of the segment with counter [i]
    (part [i + 1]). *)
Definition part_name (baseName : string) (i : Z) : string :=
  baseName +:+ "_part" +:+ pretty (i + 1) +:+ ".mp4".

Definition part_artifact (outputDir baseName : string) (partsNeeded : jsnum)
    (i sz : Z) : Artifact.t :=
  {| Artifact.path := path_join outputDir (part_name baseName i);
     Artifact.name := part_name baseName i;
     Artifact.type := "video";
     Artifact.size := sz;
     Artifact.part := Some (i + 1);
     Artifact.totalParts := Some partsNeeded |}.

Definition segment_events (videoPath outputDir baseName : string)
    (durationPerPart : jsnum) (i : Z) : list Event :=
  [ EvExtract videoPath (path_join outputDir (part_name baseName i))
      (js_mul (num i) durationPerPart)
      (js_sub (js_mul (num (i + 1)) durationPerPart)
         (js_mul (num i) durationPerPart));
    EvStat (path_join outputDir (part_name baseName i)) ].

(** The calls every job starts with, up to the first look at the transcoded
    file. *)
Definition stage_events (inputPath originalFileName : string) (s : St)
    : list Event :=
  let outputDir := js_or_str (env s !! "TEMP_DIR") "temp" in
  let baseName := path_parse_name originalFileName in
  [ EvProbe inputPath;
    EvEnsureDir outputDir;
    EvScreenshot inputPath (frameCaptureTime (this s))
      (baseName +:+ "_thumbnail.jpg") outputDir "1280x720";
    EvEnsureDir outputDir;
    EvTranscode inputPath (preset (this s))
      (path_join outputDir (baseName +:+ "_processed.mp4"));
    EvStat (path_join outputDir (baseName +:+ "_processed.mp4")) ].

(** What can happen to an instance once it is constructed: a call of one of
    its methods, or a change of [process.env] by the process. *)
Inductive Call : Type :=
| CallLoadPreset
| CallProcessVideo (fuel : nat) (inputPath originalFileName : string)
| CallAnalyzeVideo (inputPath : string)
| CallCaptureFrame (inputPath originalFileName : string)
| CallCompressVideo (inputPath originalFileName : string)
| CallCheckAndSplitVideo (fuel : nat) (videoPath originalFileName : string)
| CallSplitVideo (fuel : nat) (videoPath originalFileName : string)
| CallExtractVideoSegment (inputPath outputPath : string)
    (startTime endTime : jsnum)
| CallGetFileSize (filePath : string)
| CallCleanupFiles (filePaths : list string)
| SetEnv (key value : string)
| DeleteEnv (key : string).

Definition with_env (s : St) (e : gmap string string) : St :=
  {| this := this s; env := e; files := files s; events := events s |}.

(** The state a call leaves behind, whether it returns or throws. *)
Definition after_call (c : Call) (s : St) : St :=
  match c with
  | CallLoadPreset => snd (loadPreset s)
  | CallProcessVideo fuel i o => snd (processVideo fuel i o s)
  | CallAnalyzeVideo i => snd (analyzeVideo i s)
  | CallCaptureFrame i o => snd (captureFrame i o s)
  | CallCompressVideo i o => snd (compressVideo i o s)
  | CallCheckAndSplitVideo fuel v o => snd (checkAndSplitVideo fuel v o s)
  | CallSplitVideo fuel v o => snd (splitVideo fuel v o s)
  | CallExtractVideoSegment i o a b => snd (extractVideoSegment i o a b s)
  | CallGetFileSize p => snd (getFileSize p s)
  | CallCleanupFiles l => snd (cleanupFiles l s)
  | SetEnv k v => with_env s (<[k := v]> (env s))
  | DeleteEnv k => with_env s (delete k (env s))
  end.

Definition lifetime (calls : list Call) (s : St) : St :=
  foldl (fun st c => after_call c st) s calls.

End Vocabulary.

(** The time ranges asked of the segment extractor, as (start, duration). *)
Definition requested (evs : list Event) : list (jsnum * jsnum) :=
  omap (fun e => match e with
                 | EvExtract _ _ start dur => Some (start, dur)
                 | _ => None
                 end) evs.

(** A bound on the rounding error of one requested duration, the difference
    of two consecutive multiples of the duration per part [p]. *)
Definition step_error (p : Q) : Q :=
  ((3 * p + 2 * pow2 (-1075)) * pow2 (-53) + pow2 (-1075))%Q.

(** [x + y] *)
Definition js_add (x y : jsnum) : jsnum :=
  match x, y with
  | NaN, _ | _, NaN => NaN
  | Fin a, Fin b => nearest (a + b)
  | PosInf, NegInf | NegInf, PosInf => NaN
  | PosInf, _ | _, PosInf => PosInf
  | NegInf, _ | _, NegInf => NegInf
  end.

(** Position of the first event satisfying [P]. *)
Fixpoint first_index (P : Event -> bool) (evs : list Event) : option nat :=
  match evs with
  | e :: rest => if P e then Some O else S <$> first_index P rest
  | [] => None
  end.

Definition is_screenshot (e : Event) : bool :=
  match e with EvScreenshot _ _ _ _ _ => true | _ => false end.

Definition is_transcode (e : Event) : bool :=
  match e with EvTranscode _ _ _ => true | _ => false end.

Definition is_remove (e : Event) : bool :=
  match e with EvRemove _ => true | _ => false end.

Definition is_thumbnail (a : Artifact.t) : bool :=
  String.eqb (Artifact.type a) "thumbnail".

Definition unset_or_non_numeric (v : option string) : Prop :=
  match v with
  | Some s => non_numeric s
  | None => True
  end.

(** A method keeps the instance and the environment and only adds to the
    trace. *)
Definition preserves {A} (c : M A) : Prop :=
  forall s,
    this (snd (c s)) = this s /\ env (snd (c s)) = env s
    /\ exists evs, events (snd (c s)) = events s ++ evs.

(** ** Vocabulary for the behaviour of the file system and of errors *)

Section FileVocabulary.
Context {host : Host}.

(** The state [s] with a file removed. *)
Definition unlink (s : St) (p : string) : St :=
  {| this := this s; env := env s; files := delete p (files s);
     events := events s |}.

(** What [cleanupFiles] logs and what it leaves of the files. *)
Definition cleanup_warning (filePath message : string) : string :=
  "Failed to cleanup " +:+ filePath +:+ ": " +:+ message.

Fixpoint cleanup_events (filePaths : list string) : list Event :=
  match filePaths with
  | p :: rest =>
      match remove_error p with
      | Some message =>
          EvRemove p :: EvWarn (cleanup_warning p message) :: cleanup_events rest
      | None => EvRemove p :: cleanup_events rest
      end
  | [] => []
  end.

Fixpoint cleanup_files (filePaths : list string) (m : gmap string Z)
    : gmap string Z :=
  match filePaths with
  | p :: rest =>
      cleanup_files rest
        (match remove_error p with Some _ => m | None => delete p m end)
  | [] => m
  end.

(** The removals requested in a trace, and its warnings. *)
Definition removals (evs : list Event) : list string :=
  omap (fun e => match e with EvRemove p => Some p | _ => None end) evs.

Definition warnings (evs : list Event) : list string :=
  omap (fun e => match e with EvWarn m => Some m | _ => None end) evs.

(** The messages a stage of the job can fail with. *)
Definition stage_failure (inner : string) : Prop :=
  (exists p err, ffprobe p = inl err
                 /\ inner = "Failed to analyze video: " +:+ err)
  \/ (exists d, ensureDir d = Some inner)
  \/ (exists err, inner = "Failed to capture frame: " +:+ err)
  \/ (exists v, read_videoCodec_error v = Some inner)
  \/ (exists err, inner = "Failed to compress video: " +:+ err)
  \/ (exists err, inner = "Failed to get file size: " +:+ err)
  \/ (exists err, inner = "Failed to extract video segment: " +:+ err)
  \/ (exists p, remove_error p = Some inner).

End FileVocabulary.

(** Every rejection of [c] carries a message satisfying [P]. *)
Definition throws_only {A} (P : string -> Prop) (c : M A) : Prop :=
  forall s msg, fst (c s) = Thrown msg -> P msg.

(** [c] removes no file. *)
Definition keeps_files {A} (c : M A) : Prop :=
  forall s p, is_Some (files s !! p) -> is_Some (files (snd (c s)) !! p).

(** A string after which a number ends: it is empty or starts with something
    other than a decimal digit; and one that does not make ["0"] a hex
    prefix. *)
Definition ends_number (tail : string) : Prop :=
  match tail with
  | String c _ => digit_in 10 c = None
  | EmptyString => True
  end.

Definition no_hex_mark (tail : string) : Prop :=
  match tail with
  | String c _ => c <> "x"%char /\ c <> "X"%char
  | EmptyString => True
  end.

(** The names of the files a job writes in the working directory, for an
    input whose name without extension is [baseName]. *)
Definition job_name (baseName name : string) : Prop :=
  name = baseName +:+ "_thumbnail.jpg"
  \/ name = baseName +:+ "_processed.mp4"
  \/ exists i : Z, name = baseName +:+ "_part" +:+ pretty (i + 1) +:+ ".mp4".


(** * The services and scripts around the processor

    GoogleSheetsService, GoogleDriveService, ImageKitService, the script
    process-video.js (class VideoProcessingScript), the script
    check-and-process.js (class CheckAndProcessScript) and the /process route
    of the server.  The remote APIs, the clock and a few more built-ins are
    gathered in the [Cloud] interface.  What a remote API answers may depend
    on everything that was asked before: each of them receives the calls
    made so far. *)

(** ** Data *)

(** A row of a sheet: its cells, as the values API returns them. *)
Definition Row : Type := list jsval.

(** One sheet of a spreadsheet: [sheet.properties.title] and
    [sheet.properties.sheetId]. *)
Module SheetProps.
Record t : Type := mk {
  title : string;
  sheetId : Z
}.
End SheetProps.

(** An element of [imageKitUrls] and of [data.processedVideos]: the script
    copies [type] from the artifact, the server route copies no [type]. *)
Module Uploaded.
Record t : Type := mk {
  name : string;
  url : string;
  size : Z;
  type : option string
}.
End Uploaded.

(** The argument of [addVideoEntry]; a key that is absent is [None]. *)
Module VideoData.
Record t : Type := mk {
  fileName : string;
  originalFileId : string;
  processedVideos : list Uploaded.t;
  timestamp : option string;
  processingTime : option jsnum;
  errorMessage : option string
}.
End VideoData.

(** An element of what [getVideoEntries] returns. *)
Module Entry.
Record t : Type := mk {
  timestamp : jsval;
  fileName : jsval;
  originalFileId : jsval;
  status : jsval;
  videoParts : jsval;
  videoUrls : jsval;
  thumbnailUrl : jsval;
  totalSizeMB : jsval;
  processingTime : jsval;
  errorMessage : jsval
}.
End Entry.

(** The third argument of [updateEntryStatus]. *)
Module Additional.
Record t : Type := mk {
  processingTime : option jsnum;
  errorMessage : option string
}.
End Additional.

(** An element of the listing of the Drive folder. *)
Module DriveFile.
Record t : Type := mk {
  id : string;
  name : string
}.
End DriveFile.

(** What the script's [processVideo] resolves with. *)
Module JobResult.
Record t : Type := mk {
  success : bool;
  processingTime : jsnum;
  urls : list Uploaded.t
}.
End JobResult.

(** An element of what [processNewVideos] returns. *)
Module VideoOutcome.
Record t : Type := mk {
  fileId : string;
  fileName : string;
  success : bool;
  result : option JobResult.t;
  error : option string
}.
End VideoOutcome.

(** The argument of [imagekit.upload]; the file is known by its size. *)
Module UploadRequest.
Record t : Type := mk {
  file : Z;
  fileName : string;
  folder : string;
  useUniqueFileName : bool;
  tags : list string;
  responseFields : list string
}.
End UploadRequest.

(** How the stream of a Drive download ends: at its end, the local file
    holding [written] bytes, or with an error, the local file holding what
    was written until then, if it was created at all. *)
Inductive StreamEnd : Type :=
| StreamDone (written : Z)
| StreamFailed (message : string) (written : option Z).

(** The requests of [spreadsheets.batchUpdate] the code makes. *)
Inductive BatchRequest : Type :=
| AddSheet (title : string)
| FormatHeaders (sheetId : Z) (columns : Z).

(** Calls made to the remote services, the clock and the timer. *)
Inductive CloudEvent : Type :=
| SpreadsheetsGet (spreadsheetId : option string)
| SpreadsheetsBatchUpdate (spreadsheetId : option string) (request : BatchRequest)
| ValuesUpdate (spreadsheetId : option string) (range : string) (values : list Row)
| ValuesAppend (spreadsheetId : option string) (range : string) (values : list Row)
| ValuesGet (spreadsheetId : option string) (range : string) (unformatted : bool)
| DriveFilesGet (fileId : string)
| DriveFilesList (q : string)
| ImageKitUpload (request : UploadRequest.t)
| ReadFile (p : string)
| ReadClock
| Delay (ms : Z)
| CloudWarn (message : string)
| ProcessExit (code : Z).

(** ** The remote collaborators *)
Class Cloud : Type := {
  (** [path.extname], [String.prototype.toLowerCase] and
      [Number.prototype.toFixed(2)] *)
  path_extname : string -> string;
  toLowerCase : string -> string;
  toFixed2 : jsnum -> string;
  (** [Date.now()] and [new Date().toISOString()] *)
  date_now : list CloudEvent -> Z;
  iso_now : list CloudEvent -> string;
  (** [sheets.spreadsheets.get]: the error, or the sheets of the
      spreadsheet *)
  spreadsheets_get :
    list CloudEvent -> option string -> string + list SheetProps.t;
  (** [sheets.spreadsheets.batchUpdate], [values.update], [values.append]:
      [Some] is the error message *)
  spreadsheets_batchUpdate :
    list CloudEvent -> option string -> BatchRequest -> option string;
  values_update :
    list CloudEvent -> option string -> string -> list Row -> option string;
  values_append :
    list CloudEvent -> option string -> string -> list Row -> option string;
  (** [values.get]: the error, or [response.data.values], which is absent
      when the range is empty *)
  values_get :
    list CloudEvent -> option string -> string -> bool
    -> string + option (list Row);
  (** of two updates in flight that both fail, whether the first one is
      the first to fail *)
  first_fails_first : list CloudEvent -> bool;
  (** [drive.files.get(..., {responseType: 'stream'})] and how the stream
      ends; [drive.files.list] *)
  drive_files_get : list CloudEvent -> string -> string + StreamEnd;
  drive_files_list : list CloudEvent -> string -> string + list DriveFile.t;
  (** [imagekit.upload]: the error, or [url] of the response *)
  imagekit_upload : list CloudEvent -> UploadRequest.t -> string + string
}.

(** The fields of the service instances that the methods read. *)
Record Services : Type := mkServices {
  spreadsheetId : option string;
  sheetName : string;
  folderId : option string
}.

(** ** State and monad of the scripts

    The state of the processor with its files, the calls made to the remote
    services, and [this.processedFileIds] of CheckAndProcessScript, a [Set]
    of which only [has] and [add] are used: its elements in the order they
    were added. *)
Record World : Type := mkWorld {
  local : St;
  services : Services;
  calls : list CloudEvent;
  processedFileIds : list jsval
}.

Definition C (A : Type) : Type := World -> outcome A * World.

Definition cret {A} (a : A) : C A := fun w => (Returned a, w).

Definition cbind {A B} (c : C A) (k : A -> C B) : C B :=
  fun w =>
    match c w with
    | (Returned a, w') => k a w'
    | (Thrown msg, w') => (Thrown msg, w')
    | (Escaped, w') => (Escaped, w')
    | (OutOfFuel, w') => (OutOfFuel, w')
    end.

#[export] Instance C_ret : MRet C := @cret.
#[export] Instance C_bind : MBind C := fun A B k c => cbind c k.

Definition cthrow {A} (msg : string) : C A := fun w => (Thrown msg, w).

(** [try { c } catch (error) { h(error.message) }] *)
Definition ctry {A} (c : C A) (h : string -> C A) : C A :=
  fun w =>
    match c w with
    | (Thrown msg, w') => h msg w'
    | other => other
    end.

(** A method of the processor, or an operation on the local files, run from
    a script. *)
Definition lift {A} (c : M A) : C A :=
  fun w =>
    let '(o, s') := c (local w) in
    (o, {| local := s'; services := services w; calls := calls w;
           processedFileIds := processedFileIds w |}).

Definition record (e : CloudEvent) : C unit :=
  fun w => (Returned tt,
            {| local := local w; services := services w;
               calls := calls w ++ [e];
               processedFileIds := processedFileIds w |}).

Definition history : C (list CloudEvent) := fun w => (Returned (calls w), w).
Definition the_services : C Services := fun w => (Returned (services w), w).

(** [this.processedFileIds.add(v)] and [this.processedFileIds.has(id)] for a
    string [id] *)
Definition add_processed (v : jsval) : C unit :=
  fun w => (Returned tt,
            {| local := local w; services := services w; calls := calls w;
               processedFileIds := processedFileIds w ++ [v] |}).

Definition the_processed : C (list jsval) :=
  fun w => (Returned (processedFileIds w), w).

Definition is_string (id : string) (v : jsval) : bool :=
  match v with
  | JString s => String.eqb s id
  | _ => false
  end.

Definition has_processed (ids : list jsval) (id : string) : bool :=
  existsb (is_string id) ids.

(** Truthiness of a value, and [v || ''] *)
Definition js_truthy (v : jsval) : bool :=
  match v with
  | JUndefined | JNull => false
  | JBool b => b
  | JNumber n => js_truthy_num n
  | JString EmptyString => false
  | JString (String _ _) => true
  | JArray _ | JObject _ => true
  end.

Definition or_empty (cell : option jsval) : jsval :=
  match cell with
  | Some v => if js_truthy v then v else JString ""
  | None => JString ""
  end.

(** [list.join(sep)] on strings *)
Fixpoint join (sep : string) (l : list string) : string :=
  match l with
  | [] => ""
  | [x] => x
  | x :: rest => x +:+ sep +:+ join sep rest
  end.

Section Services.
Context {host : Host} {cloud : Cloud}.

(** A call to a remote API: it is recorded, then answered from the calls
    made before it. *)
Definition api_read {A} (e : CloudEvent)
    (answer : list CloudEvent -> string + A) : C A :=
  before ← history;
  record e;;
  match answer before with
  | inr a => mret a
  | inl message => cthrow message
  end.

Definition api_write (e : CloudEvent)
    (answer : list CloudEvent -> option string) : C unit :=
  before ← history;
  record e;;
  match answer before with
  | None => mret tt
  | Some message => cthrow message
  end.

(** ** GoogleSheetsService *)

Definition type_error_properties : string :=
  "Cannot read properties of undefined (reading 'properties')".

Definition getSheetId : C Z :=
  ctry
    (svc ← the_services;
     sheets ← api_read (SpreadsheetsGet (spreadsheetId svc))
                (fun h => spreadsheets_get h (spreadsheetId svc));
     match List.find (fun sh => String.eqb (SheetProps.title sh) (sheetName svc))
             sheets with
     | Some sheet => mret (SheetProps.sheetId sheet)
     | None => cthrow type_error_properties
     end)
    (fun message => cthrow ("Failed to get sheet ID: " +:+ message)).

Definition createSheet : C unit :=
  ctry
    (svc ← the_services;
     api_write (SpreadsheetsBatchUpdate (spreadsheetId svc)
                  (AddSheet (sheetName svc)))
       (fun h => spreadsheets_batchUpdate h (spreadsheetId svc)
                   (AddSheet (sheetName svc))))
    (fun message => cthrow ("Failed to create Google Sheet: " +:+ message)).

Definition sheet_headers : list string :=
  [ "Timestamp"; "Original File Name"; "Original File ID";
    "Processing Status"; "Video Parts"; "Video URLs"; "Thumbnail URL";
    "Total Size (MB)"; "Processing Time (s)"; "Error Message" ].

Definition ensureHeaders : C unit :=
  ctry
    (svc ← the_services;
     let range := sheetName svc +:+ "!A1:J1" in
     let values := [JString <$> sheet_headers] in
     api_write (ValuesUpdate (spreadsheetId svc) range values)
       (fun h => values_update h (spreadsheetId svc) range values);;
     sheetId ← getSheetId;
     let request := FormatHeaders sheetId (Z.of_nat (length sheet_headers)) in
     api_write (SpreadsheetsBatchUpdate (spreadsheetId svc) request)
       (fun h => spreadsheets_batchUpdate h (spreadsheetId svc) request))
    (fun message => cthrow ("Failed to set up headers: " +:+ message)).

Definition initializeSheet : C unit :=
  ctry
    (svc ← the_services;
     sheets ← api_read (SpreadsheetsGet (spreadsheetId svc))
                (fun h => spreadsheets_get h (spreadsheetId svc));
     let sheetExists :=
       existsb (fun sh => String.eqb (SheetProps.title sh) (sheetName svc))
         sheets in
     (if sheetExists then mret tt else createSheet);;
     ensureHeaders)
    (fun message => cthrow ("Failed to initialize Google Sheet: " +:+ message)).

(** [rowData] of [addVideoEntry] *)
Definition is_type (t : string) (v : Uploaded.t) : bool :=
  match Uploaded.type v with
  | Some t' => String.eqb t' t
  | None => false
  end.

Definition total_size_MB (processedVideos : list Uploaded.t) : jsnum :=
  fold_left (fun sum v => js_add sum (js_div (num (Uploaded.size v))
                                        (num (1024 * 1024))))
    processedVideos (num 0).

Definition row_data (now : string) (data : VideoData.t) : Row :=
  let videos := List.filter (is_type "video") (VideoData.processedVideos data) in
  let thumbnails :=
    List.filter (is_type "thumbnail") (VideoData.processedVideos data) in
  let totalSizeMB := total_size_MB (VideoData.processedVideos data) in
  let videoUrls := join " | " (Uploaded.url <$> videos) in
  let thumbnailUrl :=
    match thumbnails with
    | first :: _ => Uploaded.url first
    | [] => ""
    end in
  [ JString (js_or_str (VideoData.timestamp data) now);
    JString (VideoData.fileName data);
    JString (VideoData.originalFileId data);
    JString (match VideoData.errorMessage data with
             | Some (String _ _) => "ERROR"
             | _ => "COMPLETED"
             end);
    JNumber (num (Z.of_nat (length videos)));
    JString videoUrls;
    JString thumbnailUrl;
    JString (toFixed2 totalSizeMB);
    JString (match VideoData.processingTime data with
             | Some t => if js_truthy_num t then toFixed2 t else ""
             | None => ""
             end);
    JString (js_or_str (VideoData.errorMessage data) "") ].

Definition addVideoEntry (data : VideoData.t) : C unit :=
  ctry
    (initializeSheet;;
     svc ← the_services;
     h ← history;
     let rowData := row_data (iso_now h) data in
     let range := sheetName svc +:+ "!A:J" in
     api_write (ValuesAppend (spreadsheetId svc) range [rowData])
       (fun h => values_append h (spreadsheetId svc) range [rowData]))
    (fun message =>
       cthrow ("Failed to add entry to Google Sheets: " +:+ message)).

Definition entry_of_row (row : Row) : Entry.t :=
  {| Entry.timestamp := or_empty (row !! 0%nat);
     Entry.fileName := or_empty (row !! 1%nat);
     Entry.originalFileId := or_empty (row !! 2%nat);
     Entry.status := or_empty (row !! 3%nat);
     Entry.videoParts := or_empty (row !! 4%nat);
     Entry.videoUrls := or_empty (row !! 5%nat);
     Entry.thumbnailUrl := or_empty (row !! 6%nat);
     Entry.totalSizeMB := or_empty (row !! 7%nat);
     Entry.processingTime := or_empty (row !! 8%nat);
     Entry.errorMessage := or_empty (row !! 9%nat) |}.

Definition getVideoEntries (limit : Z) : C (list Entry.t) :=
  ctry
    (svc ← the_services;
     let range := sheetName svc +:+ "!A2:J" +:+ pretty (limit + 1) in
     values ← api_read (ValuesGet (spreadsheetId svc) range true)
                (fun h => values_get h (spreadsheetId svc) range true);
     let rows := default [] values in
     mret (entry_of_row <$> rows))
    (fun message =>
       cthrow ("Failed to get entries from Google Sheets: " +:+ message)).

(** The loop of [updateEntryStatus]: the 1-based number of the first row
    whose third cell is the string [fileId]; [None] stands for -1. *)
Fixpoint find_row (rows : list Row) (fileId : string) (i : Z) : option Z :=
  match rows with
  | row :: rest =>
      match row !! 2%nat with
      | Some cell =>
          if is_string fileId cell then Some (i + 1)
          else find_row rest fileId (i + 1)
      | None => find_row rest fileId (i + 1)
      end
  | [] => None
  end.

(** [await Promise.all([a, b])] for two updates already in flight. *)
Definition settle_both (a b : option string) (first : bool) : option string :=
  match a, b with
  | Some ma, Some mb => Some (if first then ma else mb)
  | Some ma, None => Some ma
  | None, other => other
  end.

Definition updateEntryStatus (fileId status : string)
    (additionalData : Additional.t) : C unit :=
  ctry
    (svc ← the_services;
     let range := sheetName svc +:+ "!A:C" in
     values ← api_read (ValuesGet (spreadsheetId svc) range false)
                (fun h => values_get h (spreadsheetId svc) range false);
     let rows := default [] values in
     match find_row rows fileId 0 with
     | None => cthrow ("Entry not found for file ID: " +:+ fileId)
     | Some rowIndex =>
         let cell := fun column => sheetName svc +:+ "!" +:+ column
                                   +:+ pretty rowIndex in
         api_write (ValuesUpdate (spreadsheetId svc) (cell "D")
                      [[JString status]])
           (fun h => values_update h (spreadsheetId svc) (cell "D")
                       [[JString status]]);;
         h0 ← history;
         let timeValues := fun t => [[JString (toFixed2 t)]] in
         let errorValues := fun m => [[JString m]] in
         (match Additional.processingTime additionalData with
          | Some t => record (ValuesUpdate (spreadsheetId svc) (cell "I")
                                (timeValues t))
          | None => mret tt
          end);;
         h1 ← history;
         (match Additional.errorMessage additionalData with
          | Some m => record (ValuesUpdate (spreadsheetId svc) (cell "J")
                                (errorValues m))
          | None => mret tt
          end);;
         h2 ← history;
         let first :=
           Additional.processingTime additionalData ≫= fun t =>
             values_update h0 (spreadsheetId svc) (cell "I") (timeValues t) in
         let second :=
           Additional.errorMessage additionalData ≫= fun m =>
             values_update h1 (spreadsheetId svc) (cell "J") (errorValues m) in
         match settle_both first second (first_fails_first h2) with
         | Some message => cthrow message
         | None => mret tt
         end
     end)
    (fun message =>
       cthrow ("Failed to update status in Google Sheets: " +:+ message)).

End Services.

Section Scripts.
Context {host : Host} {cloud : Cloud}.

(** [Date.now()] *)
Definition clock : C Z :=
  before ← history;
  record ReadClock;;
  mret (date_now before).

(** [await fs.readFile(p)]: the content of a file is known by its size. *)
Definition read_error (p : string) : string :=
  "ENOENT: no such file or directory, open '" +:+ p +:+ "'".

Definition file_content (p : string) : C Z :=
  fun w =>
    match files (local w) !! p with
    | Some sz => (Returned sz, w)
    | None => (Thrown (read_error p), w)
    end.

Definition fs_readFile (p : string) : C Z :=
  record (ReadFile p);;
  file_content p.

(** [await fs.pathExists(p)] *)
Definition fs_pathExists (p : string) : C bool :=
  fun w => (Returned (bool_decide (is_Some (files (local w) !! p))), w).

(** ** GoogleDriveService *)

(** [downloadFile]: a failure of the request is caught and wrapped; the
    promise built around the stream is returned without being awaited, so
    that a failure of the stream is not caught by the [catch] of the
    method. *)
Definition downloadFile (fileId fileName : string) : C string :=
  settled ←
    ctry
      (tempDir ← lift temp_dir;
       now ← clock;
       let localPath := path_join tempDir (pretty now +:+ "-" +:+ fileName) in
       lift (fs_ensureDir tempDir);;
       stream ← api_read (DriveFilesGet fileId)
                  (fun h => drive_files_get h fileId);
       match stream with
       | StreamDone written =>
           lift (write_file localPath written);;
           mret (inr localPath)
       | StreamFailed message written =>
           (match written with
            | Some sz => lift (write_file localPath sz)
            | None => mret tt
            end);;
           mret (inl ("Failed to download file: " +:+ message))
       end)
      (fun message =>
         cthrow ("Failed to download file from Google Drive: " +:+ message));
  match settled with
  | inr localPath => mret localPath
  | inl message => cthrow message
  end.

Definition listFiles : C (list DriveFile.t) :=
  ctry
    (svc ← the_services;
     let q := "'" +:+ default "undefined" (folderId svc) +:+ "' in parents" in
     api_read (DriveFilesList q) (fun h => drive_files_list h q))
    (fun message => cthrow ("Failed to list files: " +:+ message)).

(** ** ImageKitService *)

(** [folderMap[extension] || 'videos'], for an [extension] that
    [path.extname] produced: it is empty or starts with a dot, so that no
    inherited property is ever looked up. *)
Definition folderMap : list (string * string) :=
  [ (".mp4", "videos"); (".avi", "videos"); (".mov", "videos");
    (".mkv", "videos"); (".wmv", "videos"); (".flv", "videos");
    (".webm", "videos"); (".jpg", "thumbnails"); (".jpeg", "thumbnails");
    (".png", "thumbnails"); (".gif", "thumbnails") ].

Definition getFolderByExtension (extension : string) : string :=
  match List.find (fun kv => String.eqb (fst kv) extension) folderMap with
  | Some kv => snd kv
  | None => "videos"
  end.

Definition response_fields : list string := ["url"; "fileId"; "name"; "size"].

Definition uploadVideo (filePath fileName : string) : C string :=
  ctry
    (fileBuffer ← fs_readFile filePath;
     let fileExtension := toLowerCase (path_extname fileName) in
     let folder := getFolderByExtension fileExtension in
     let request :=
       {| UploadRequest.file := fileBuffer;
          UploadRequest.fileName := fileName;
          UploadRequest.folder := folder;
          UploadRequest.useUniqueFileName := true;
          UploadRequest.tags := ["video-processing"; "automated"];
          UploadRequest.responseFields := response_fields |} in
     api_read (ImageKitUpload request) (fun h => imagekit_upload h request))
    (fun message => cthrow ("Failed to upload to ImageKit: " +:+ message)).

Definition uploadThumbnail (filePath fileName : string) : C string :=
  ctry
    (fileBuffer ← fs_readFile filePath;
     let request :=
       {| UploadRequest.file := fileBuffer;
          UploadRequest.fileName := fileName;
          UploadRequest.folder := "thumbnails";
          UploadRequest.useUniqueFileName := true;
          UploadRequest.tags := ["thumbnail"; "video-processing"];
          UploadRequest.responseFields := response_fields |} in
     api_read (ImageKitUpload request) (fun h => imagekit_upload h request))
    (fun message =>
       cthrow ("Failed to upload thumbnail to ImageKit: " +:+ message)).

(** [uploadFile(filePath, fileName, fileType = 'video')] *)
Definition uploadFile (filePath fileName : string) (fileType : option string)
    : C string :=
  ctry
    (let fileExtension := toLowerCase (path_extname fileName) in
     if String.eqb (default "video" fileType) "thumbnail"
        || String.eqb fileExtension ".jpg"
        || String.eqb fileExtension ".png"
     then uploadThumbnail filePath fileName
     else uploadVideo filePath fileName)
    (fun message => cthrow ("Failed to upload file to ImageKit: " +:+ message)).

(** ** The script process-video.js (class VideoProcessingScript) *)

(** [cleanupFiles(localPath, processedVideos)]; [localPath] is [null] until
    the download has returned. *)
Definition remove_if_exists (p : string) : C unit :=
  match p with
  | EmptyString => mret tt
  | String _ _ =>
      present ← fs_pathExists p;
      if present : bool then lift (fs_remove p) else mret tt
  end.

Fixpoint remove_artifacts (processedVideos : list Artifact.t) : C unit :=
  match processedVideos with
  | video :: rest =>
      remove_if_exists (Artifact.path video);;
      remove_artifacts rest
  | [] => mret tt
  end.

Definition script_cleanupFiles (localPath : option string)
    (processedVideos : list Artifact.t) : C unit :=
  ctry
    ((match localPath with
      | Some p => remove_if_exists p
      | None => mret tt
      end);;
     remove_artifacts processedVideos)
    (fun message => lift (emit (EvWarn ("Cleanup error: " +:+ message)))).

(** The loop of the script over the artifacts. *)
Fixpoint upload_all (processedVideos : list Artifact.t)
    (imageKitUrls : list Uploaded.t) : C (list Uploaded.t) :=
  match processedVideos with
  | video :: rest =>
      url ← uploadFile (Artifact.path video) (Artifact.name video)
              (Some (Artifact.type video));
      upload_all rest
        (imageKitUrls ++
         [ {| Uploaded.name := Artifact.name video;
              Uploaded.url := url;
              Uploaded.size := Artifact.size video;
              Uploaded.type := Some (Artifact.type video) |} ])
  | [] => mret imageKitUrls
  end.

Definition no_additional : Additional.t :=
  {| Additional.processingTime := None; Additional.errorMessage := None |}.

(** [(Date.now() - startTime) / 1000] *)
Definition elapsed_seconds (startTime : Z) : C jsnum :=
  now ← clock;
  mret (js_div (num (now - startTime)) (num 1000)).

(** The [catch] and [finally] blocks of the script's [processVideo], with
    [localPath] and [processedVideos] as they are when the error is caught:
    the status is set to ERROR, then the error is thrown again, unless
    setting the status fails, whose error is thrown instead; the cleanup
    runs before the error leaves the method. *)
Definition catch_finally (startTime : Z) (fileId : string)
    (localPath : option string) (processedVideos : list Artifact.t)
    (message : string) : C JobResult.t :=
  raised ←
    ctry
      (processingTime ← elapsed_seconds startTime;
       updateEntryStatus fileId "ERROR"
         {| Additional.processingTime := Some processingTime;
            Additional.errorMessage := Some message |};;
       mret message)
      (fun other => mret other);
  script_cleanupFiles localPath processedVideos;;
  cthrow raised.

(** A step of the [try] block, with the values [localPath] and
    [processedVideos] have while it runs. *)
Definition guarded {A} (startTime : Z) (fileId : string)
    (localPath : option string) (processedVideos : list Artifact.t)
    (c : C A) (k : A -> C JobResult.t) : C JobResult.t :=
  fun w =>
    match c w with
    | (Returned a, w') => k a w'
    | (Thrown message, w') =>
        catch_finally startTime fileId localPath processedVideos message w'
    | (Escaped, w') => (Escaped, w')
    | (OutOfFuel, w') => (OutOfFuel, w')
    end.

Definition script_processVideo (fuel : nat) (fileId fileName : string)
    : C JobResult.t :=
  startTime ← clock;
  guarded startTime fileId None []
    (updateEntryStatus fileId "PROCESSING" no_additional) (fun _ =>
  guarded startTime fileId None []
    (downloadFile fileId fileName) (fun localPath =>
  guarded startTime fileId (Some localPath) []
    (lift (processVideo fuel localPath fileName)) (fun processedVideos =>
  guarded startTime fileId (Some localPath) processedVideos
    (imageKitUrls ← upload_all processedVideos [];
     processingTime ← elapsed_seconds startTime;
     h ← history;
     addVideoEntry
       {| VideoData.fileName := fileName;
          VideoData.originalFileId := fileId;
          VideoData.processedVideos := imageKitUrls;
          VideoData.timestamp := Some (iso_now h);
          VideoData.processingTime := Some processingTime;
          VideoData.errorMessage := None |};;
     updateEntryStatus fileId "COMPLETED"
       {| Additional.processingTime := Some processingTime;
          Additional.errorMessage := None |};;
     mret {| JobResult.success := true;
             JobResult.processingTime := processingTime;
             JobResult.urls := imageKitUrls |})
    (fun result =>
       script_cleanupFiles (Some localPath) processedVideos;;
       mret result)))).

(** The steps of the [try] block of [processVideo] one after the other,
    without the [catch] and the [finally]. *)
Definition job_steps (fuel : nat) (fileId fileName : string) (startTime : Z)
    : C JobResult.t :=
  updateEntryStatus fileId "PROCESSING" no_additional;;
  localPath ← downloadFile fileId fileName;
  processedVideos ← lift (processVideo fuel localPath fileName);
  imageKitUrls ← upload_all processedVideos [];
  processingTime ← elapsed_seconds startTime;
  h ← history;
  addVideoEntry
    {| VideoData.fileName := fileName;
       VideoData.originalFileId := fileId;
       VideoData.processedVideos := imageKitUrls;
       VideoData.timestamp := Some (iso_now h);
       VideoData.processingTime := Some processingTime;
       VideoData.errorMessage := None |};;
  updateEntryStatus fileId "COMPLETED"
    {| Additional.processingTime := Some processingTime;
       Additional.errorMessage := None |};;
  mret {| JobResult.success := true;
          JobResult.processingTime := processingTime;
          JobResult.urls := imageKitUrls |}.

(** ** The script check-and-process.js (class CheckAndProcessScript) *)

Definition videoExtensions : list string :=
  [".mp4"; ".avi"; ".mov"; ".mkv"; ".wmv"; ".flv"; ".webm"].

Definition isVideoFile (fileName : string) : bool :=
  let extension := toLowerCase (path_extname fileName) in
  existsb (String.eqb extension) videoExtensions.

Fixpoint add_entries (entries : list Entry.t) : C unit :=
  match entries with
  | entry :: rest =>
      (if js_truthy (Entry.originalFileId entry)
       then add_processed (Entry.originalFileId entry)
       else mret tt);;
      add_entries rest
  | [] => mret tt
  end.

Definition loadProcessedFileIds : C unit :=
  ctry
    (entries ← getVideoEntries 1000;
     add_entries entries)
    (fun message =>
       record (CloudWarn ("Failed to load processed file IDs: " +:+ message))).

Definition checkForNewVideos : C (list DriveFile.t) :=
  ctry
    (files ← listFiles;
     let videoFiles :=
       List.filter (fun file => isVideoFile (DriveFile.name file)) files in
     processed ← the_processed;
     mret (List.filter
             (fun file => negb (has_processed processed (DriveFile.id file)))
             videoFiles))
    (fun message => cthrow message).

Definition delay (ms : Z) : C unit := record (Delay ms).

(** [process.exit(code)]: the process ends, the call never returns. *)
Definition process_exit {A} (code : Z) : C A :=
  record (ProcessExit code);;
  (fun w => (Escaped, w)) : C A.

Fixpoint processNewVideos_from (fuel : nat) (videos : list DriveFile.t)
    (results : list VideoOutcome.t) : C (list VideoOutcome.t) :=
  match videos with
  | video :: rest =>
      results' ←
        ctry
          (result ← script_processVideo fuel (DriveFile.id video)
                      (DriveFile.name video);
           add_processed (JString (DriveFile.id video));;
           delay 2000;;
           mret (results ++
                 [ {| VideoOutcome.fileId := DriveFile.id video;
                      VideoOutcome.fileName := DriveFile.name video;
                      VideoOutcome.success := true;
                      VideoOutcome.result := Some result;
                      VideoOutcome.error := None |} ]))
          (fun message =>
             mret (results ++
                   [ {| VideoOutcome.fileId := DriveFile.id video;
                        VideoOutcome.fileName := DriveFile.name video;
                        VideoOutcome.success := false;
                        VideoOutcome.result := None;
                        VideoOutcome.error := Some message |} ]));
      processNewVideos_from fuel rest results'
  | [] => mret results
  end.

Definition processNewVideos (fuel : nat) (videos : list DriveFile.t)
    : C (list VideoOutcome.t) :=
  processNewVideos_from fuel videos [].

Definition run (fuel : nat) : C unit :=
  ctry
    (loadProcessedFileIds;;
     newVideos ← checkForNewVideos;
     match newVideos with
     | [] => mret tt
     | _ :: _ =>
         results ← processNewVideos fuel newVideos;
         mret tt
     end)
    (fun message => process_exit 1).

(** ** The server: the upload filter and the route POST /process/:fileId *)

Definition allowedTypes : list string :=
  ["mp4"; "avi"; "mov"; "mkv"; "wmv"; "flv"; "webm"].

(** [t] occurs somewhere in [s]. *)
Fixpoint occurs_in (t s : string) : bool :=
  String.prefix t s
  || match s with
     | String _ rest => occurs_in t rest
     | EmptyString => false
     end.

(** [/mp4|avi|mov|mkv|wmv|flv|webm/.test(s)] *)
Definition allowedTypes_test (s : string) : bool :=
  existsb (fun t => occurs_in t s) allowedTypes.

(** [fileFilter]: [None] accepts the file, [Some] is the error passed to the
    callback. *)
Definition fileFilter (originalname mimetype : string) : option string :=
  let extname := allowedTypes_test (toLowerCase (path_extname originalname)) in
  let mimetype_ok := allowedTypes_test mimetype in
  if mimetype_ok && extname then None else Some "Only video files are allowed!".

Fixpoint upload_videos (processedVideos : list Artifact.t)
    (imageKitUrls : list Uploaded.t) : C (list Uploaded.t) :=
  match processedVideos with
  | video :: rest =>
      url ← uploadVideo (Artifact.path video) (Artifact.name video);
      upload_videos rest
        (imageKitUrls ++
         [ {| Uploaded.name := Artifact.name video;
              Uploaded.url := url;
              Uploaded.size := Artifact.size video;
              Uploaded.type := None |} ])
  | [] => mret imageKitUrls
  end.

Fixpoint remove_all (processedVideos : list Artifact.t) : C unit :=
  match processedVideos with
  | video :: rest =>
      lift (fs_remove (Artifact.path video));;
      remove_all rest
  | [] => mret tt
  end.

(** What the route answers: the status and the JSON body. *)
Inductive ResponseBody : Type :=
| Processed (urls : list Uploaded.t)
| Failure (error : string).

Definition route_process (fuel : nat) (fileId fileName : string)
    : C (Z * ResponseBody) :=
  ctry
    (localPath ← downloadFile fileId fileName;
     processedVideos ← lift (processVideo fuel localPath fileName);
     imageKitUrls ← upload_videos processedVideos [];
     h ← history;
     addVideoEntry
       {| VideoData.fileName := fileName;
          VideoData.originalFileId := fileId;
          VideoData.processedVideos := imageKitUrls;
          VideoData.timestamp := Some (iso_now h);
          VideoData.processingTime := None;
          VideoData.errorMessage := None |};;
     lift (fs_remove localPath);;
     remove_all processedVideos;;
     mret (200, Processed imageKitUrls))
    (fun message => mret (500, Failure message)).

End Scripts.

(** ** Vocabulary for the behaviour of the services and scripts *)

(** The calls made from one state to a later one. *)
Definition new_calls (w w' : World) : list CloudEvent :=
  drop (length (calls w)) (calls w').

(** The relation that holds of any two states. *)
Definition any {X} : X -> X -> Prop := fun _ _ => True.

(** [c] adds only calls satisfying [Q] to the trace, changes the state of
    the processor and the files along [L] and the set of processed ids along
    [G], and leaves the fields of the services as they are. *)
Definition confined {A} (Q : CloudEvent -> Prop) (L : St -> St -> Prop)
    (G : list jsval -> list jsval -> Prop) (c : C A) : Prop :=
  forall w,
    L (local w) (local (snd (c w)))
    /\ G (processedFileIds w) (processedFileIds (snd (c w)))
    /\ services (snd (c w)) = services w
    /\ exists new, calls (snd (c w)) = calls w ++ new /\ Forall Q new.

(** [c] is fulfilled or rejected, and every rejection carries a message
    satisfying [P]. *)
Definition settles {A} (P : string -> Prop) (c : C A) : Prop :=
  forall w,
    match fst (c w) with
    | Returned _ => True
    | Thrown message => P message
    | Escaped | OutOfFuel => False
    end.

(** A promise that is fulfilled or rejected. *)
Definition is_settled {A} (o : outcome A) : Prop :=
  match o with
  | Returned _ | Thrown _ => True
  | Escaped | OutOfFuel => False
  end.

(** The state with one more call in its trace. *)
Definition called (w : World) (new : list CloudEvent) : World :=
  {| local := local w; services := services w; calls := calls w ++ new;
     processedFileIds := processedFileIds w |}.

(** Reading the clock, reading the sheet or updating its cells. *)
Definition status_call (e : CloudEvent) : Prop :=
  match e with
  | ReadClock | ValuesGet _ _ _ | ValuesUpdate _ _ _ => True
  | _ => False
  end.

(** The paths the script's [cleanupFiles] is asked to remove. *)
Definition cleanup_targets (localPath : option string)
    (processedVideos : list Artifact.t) : list string :=
  option_list localPath ++ (Artifact.path <$> processedVideos).

Section CleanupVocabulary.
Context {host : Host}.

(** A removal step from [w] that ended as [r]: it returned, or was rejected
    with the error of removing one of the paths [targets]; it made no call;
    it created or changed no file and removed none outside [targets]; and if
    it returned, no non-empty path of [targets] is left. *)
Definition removes_within (targets : list string) (w : World)
    (r : outcome unit * World) : Prop :=
  (fst r = Returned tt
   \/ exists p m, p ∈ targets /\ remove_error p = Some m /\ fst r = Thrown m)
  /\ calls (snd r) = calls w
  /\ (forall p z, files (local (snd r)) !! p = Some z ->
                  files (local w) !! p = Some z)
  /\ (forall p, p ∉ targets ->
                files (local (snd r)) !! p = files (local w) !! p)
  /\ (fst r = Returned tt ->
      forall p, p ∈ targets -> p <> "" -> files (local (snd r)) !! p = None).

End CleanupVocabulary.

(** The state [w] with the state [s] of the processor and the files. *)
Definition with_local (w : World) (s : St) : World :=
  {| local := s; services := services w; calls := calls w;
     processedFileIds := processedFileIds w |}.

(** The waits asked of the timer in a trace, in milliseconds. *)
Definition delays (evs : list CloudEvent) : list Z :=
  omap (fun e => match e with Delay ms => Some ms | _ => None end) evs.

(** The outcomes of the videos that were processed with success. *)
Definition succeeded (results : list VideoOutcome.t) : list VideoOutcome.t :=
  List.filter VideoOutcome.success results.

(** The extensions [getFolderByExtension] sends to the folder of the
    thumbnails. *)
Definition image_extensions : list string := [".jpg"; ".jpeg"; ".png"; ".gif"].

(** A call that is no append to the sheet, or appends one row that counts
    0 video parts and has empty cells for the video URLs and the thumbnail
    URL. *)
Definition lists_no_media (e : CloudEvent) : Prop :=
  match e with
  | ValuesAppend _ _ rows =>
      exists row,
        rows = [row]
        /\ row !! 4%nat = Some (JNumber (num 0))
        /\ row !! 5%nat = Some (JString "")
        /\ row !! 6%nat = Some (JString "")
  | _ => True
  end.

(** Every value [c] returns satisfies [P]. *)
Definition returns_only {A} (P : A -> Prop) (c : C A) : Prop :=
  forall w a, fst (c w) = Returned a -> P a.

(** The state [w] with [ids] as the set of processed ids. *)
Definition with_processed (w : World) (ids : list jsval) : World :=
  {| local := local w; services := services w; calls := calls w;
     processedFileIds := ids |}.

(** What [loadProcessedFileIds] adds for the rows read: the third cell of
    each row, when it is truthy. *)
Definition recorded_ids (rows : list Row) : list jsval :=
  List.filter js_truthy ((fun row => or_empty (row !! 2%nat)) <$> rows).

(** A call that does not end the process. *)
Definition keeps_running (e : CloudEvent) : Prop :=
  forall code, e <> ProcessExit code.

(** Every rejection of [c] carries a message satisfying [P]. *)
Definition rejects_only {A} (P : string -> Prop) (c : C A) : Prop :=
  forall w m, fst (c w) = Thrown m -> P m.

(** How the message of a rejected job of the script starts: with the
    prefix of the step that failed. *)
Definition job_failure_prefixes : list string :=
  [ "Failed to update status in Google Sheets: ";
    "Failed to download file from Google Drive: ";
    "Failed to download file: ";
    "Failed to process video: ";
    "Failed to upload file to ImageKit: ";
    "Failed to add entry to Google Sheets: " ].

Definition job_failure (m : string) : Prop :=
  exists prefix inner, prefix ∈ job_failure_prefixes /\ m = prefix +:+ inner.

Definition has_prefix (prefix m : string) : Prop :=
  exists inner, m = prefix +:+ inner.

(** The state [w'] comes after [w]: same fields of the services, and the
    trace of [w] with further calls. *)
Definition later (w w' : World) : Prop :=
  services w' = services w /\ exists new, calls w' = calls w ++ new.

(** An uploaded file carries the type of the artifact it was made from. *)
Definition typed_as (a : Artifact.t) (u : Uploaded.t) : Prop :=
  Uploaded.type u = Some (Artifact.type a).

(** A call that does not ask for a new sheet. *)
Definition adds_no_sheet (e : CloudEvent) : Prop :=
  forall i title, e <> SpreadsheetsBatchUpdate i (AddSheet title).

(** ** Concrete clouds

    A spreadsheet with the sheet VideoProcessing and given rows below its
    header row, a Drive folder with three files, and remote services that
    answer every request; [path.extname], [toLowerCase] and [toFixed(2)] on
    plain ASCII names and on finite numbers.  They serve the concrete runs
    of the services and scripts. *)

Definition ascii_lower (c : ascii) : ascii :=
  let n := nat_of_ascii c in
  if ((65 <=? n) && (n <=? 90))%nat then ascii_of_nat (n + 32) else c.

Fixpoint lower (s : string) : string :=
  match s with
  | String c r => String (ascii_lower c) (lower r)
  | EmptyString => EmptyString
  end.

(** The part of [s] from its last dot on; [None] when [s] has no dot. *)
Fixpoint from_last_dot (s : string) : option string :=
  match s with
  | String c r =>
      match from_last_dot r with
      | Some ext => Some ext
      | None => if Ascii.eqb c "."%char then Some (String c r) else None
      end
  | EmptyString => None
  end.

(** A dot that starts the name does not start an extension. *)
Definition posix_extname (p : string) : string :=
  match posix_basename p with
  | String _ r => default "" (from_last_dot r)
  | EmptyString => ""
  end.

Definition two_digits (n : Z) : string :=
  if n <? 10 then "0" +:+ pretty n else pretty n.

(** Two decimals, halves rounded away from zero. *)
Definition fixed2 (x : jsnum) : string :=
  match x with
  | Fin q =>
      let magnitude := if Qis_neg q then (- q)%Q else q in
      let cents := Qfloor (magnitude * 100 + (1 # 2)) in
      (if Qis_neg q && (0 <? cents) then "-" else "")
      +:+ pretty (cents / 100) +:+ "." +:+ two_digits (cents mod 100)
  | PosInf => "Infinity"
  | NegInf => "-Infinity"
  | NaN => "NaN"
  end.

Definition header_row : Row := JString <$> sheet_headers.

(** The row of a video that was recorded as processed. *)
Definition recorded_row (fileId fileName : string) : Row :=
  [ JString "2024-05-01T10:00:00.000Z"; JString fileName; JString fileId;
    JString "COMPLETED"; JNumber (num 1); JString "https://ik.example/v";
    JString "https://ik.example/t"; JString "47.68"; JString "12.50";
    JString "" ].

Definition drive_folder : list DriveFile.t :=
  [ {| DriveFile.id := "vid-1"; DriveFile.name := "clip.mp4" |};
    {| DriveFile.id := "doc-7"; DriveFile.name := "notes.txt" |};
    {| DriveFile.id := "vid-2"; DriveFile.name := "talk.MOV" |} ].

(** The cloud whose sheet holds [rows] below the header row; [listing] is
    the answer to the listing of the Drive folder. *)
Definition demo_cloud (rows : list Row)
    (listing : string + list DriveFile.t) : Cloud :=
  {| path_extname := posix_extname;
     toLowerCase := lower;
     toFixed2 := fixed2;
     date_now := fun h => 1714557600000 + 1000 * Z.of_nat (length h);
     iso_now := fun _ => "2024-05-01T10:00:00.000Z";
     spreadsheets_get := fun _ _ =>
       inr [ {| SheetProps.title := "VideoProcessing";
                SheetProps.sheetId := 0 |} ];
     spreadsheets_batchUpdate := fun _ _ _ => None;
     values_update := fun _ _ _ _ => None;
     values_append := fun _ _ _ _ => None;
     values_get := fun _ _ range _ =>
       inr (Some (if String.eqb range "VideoProcessing!A:C"
                  then header_row :: rows else rows));
     first_fails_first := fun _ => true;
     drive_files_get := fun _ _ => inr (StreamDone (700 * MB));
     drive_files_list := fun _ _ => listing;
     imagekit_upload := fun _ request =>
       inr ("https://ik.example/" +:+ UploadRequest.folder request +:+ "/"
            +:+ UploadRequest.fileName request) |}.

(** The sheet lists the video vid-1. *)
Definition cloud_recorded : Cloud :=
  demo_cloud [recorded_row "vid-1" "clip.mp4"] (inr drive_folder).

(** The sheet has no row but its header. *)
Definition cloud_blank : Cloud := demo_cloud [] (inr drive_folder).

(** The listing of the Drive folder fails. *)
Definition cloud_no_listing : Cloud :=
  demo_cloud [] (inl "invalid_grant").

(** [base] with a fixed answer to the download request. *)
Definition with_download (base : Cloud) (answer : string + StreamEnd) : Cloud :=
  {| path_extname := @path_extname base;
     toLowerCase := @toLowerCase base;
     toFixed2 := @toFixed2 base;
     date_now := @date_now base;
     iso_now := @iso_now base;
     spreadsheets_get := @spreadsheets_get base;
     spreadsheets_batchUpdate := @spreadsheets_batchUpdate base;
     values_update := @values_update base;
     values_append := @values_append base;
     values_get := @values_get base;
     first_fails_first := @first_fails_first base;
     drive_files_get := fun _ _ => answer;
     drive_files_list := @drive_files_list base;
     imagekit_upload := @imagekit_upload base |}.

(** The download request is refused. *)
Definition cloud_download_refused : Cloud :=
  with_download cloud_recorded (inl "File not found: vid-1.").

(** The download starts and its stream breaks after 3 MB. *)
Definition cloud_stream_broken : Cloud :=
  with_download cloud_recorded
    (inr (StreamFailed "socket hang up" (Some (3 * MB)))).

(** Whether a sheet has been added in the calls made so far. *)
Definition sheet_added (h : list CloudEvent) : bool :=
  existsb (fun e => match e with
                    | SpreadsheetsBatchUpdate _ (AddSheet _) => true
                    | _ => false
                    end) h.

(** A spreadsheet that starts with the one sheet "Sheet1"; a sheet that is
    added is listed from then on, titled "VideoProcessing".  [refusal] is the
    answer to the request that adds a sheet. *)
Definition cloud_without_sheet (refusal : option string) : Cloud :=
  {| path_extname := posix_extname;
     toLowerCase := lower;
     toFixed2 := fixed2;
     date_now := fun h => 1714557600000 + 1000 * Z.of_nat (length h);
     iso_now := fun _ => "2024-05-01T10:00:00.000Z";
     spreadsheets_get := fun h _ =>
       inr ({| SheetProps.title := "Sheet1"; SheetProps.sheetId := 0 |}
            :: if sheet_added h && bool_decide (refusal = None)
               then [ {| SheetProps.title := "VideoProcessing";
                         SheetProps.sheetId := 1 |} ]
               else []);
     spreadsheets_batchUpdate := fun _ _ request =>
       match request with
       | AddSheet _ => refusal
       | _ => None
       end;
     values_update := fun _ _ _ _ => None;
     values_append := fun _ _ _ _ => None;
     values_get := fun _ _ _ _ => inr None;
     first_fails_first := fun _ => true;
     drive_files_get := fun _ _ => inr (StreamDone (700 * MB));
     drive_files_list := fun _ _ => inr drive_folder;
     imagekit_upload := fun _ request =>
       inr ("https://ik.example/" +:+ UploadRequest.folder request +:+ "/"
            +:+ UploadRequest.fileName request) |}.

Definition cloud_no_sheet : Cloud := cloud_without_sheet None.

Definition cloud_sheet_refused : Cloud :=
  cloud_without_sheet (Some "The caller does not have permission").

Definition demo_services : Services :=
  {| spreadsheetId := Some "sheet-1";
     sheetName := "VideoProcessing";
     folderId := Some "folder-1" |}.

(** The scripts at their start, with the processor in state [s]. *)
Definition start (s : St) : World :=
  {| local := s; services := demo_services; calls := [];
     processedFileIds := [] |}.

(** A host on which the working directory cannot be made. *)
Definition host_no_directory : Host :=
  {| path_parse_name := posix_parse_name;
     path_basename := posix_basename;
     path_join := posix_join;
     eval_other := fun _ => None;
     parseFloat_other := fun _ => NaN;
     JSON_parse := fun _ => None;
     readFileSync := fun _ => None;
     ffprobe := fun _ => inr two_minutes;
     ensureDir := fun _ => Some "EACCES: permission denied, mkdir 'temp'";
     remove_error := fun _ => None;
     screenshots := fun _ _ _ _ _ => inr 40000;
     transcode := fun _ _ _ => inr MB;
     extract := fun _ _ _ _ => inr MB |}.

(** A host whose preset file holds [null]. *)
Definition host_null_preset : Host :=
  {| path_parse_name := posix_parse_name;
     path_basename := posix_basename;
     path_join := posix_join;
     eval_other := fun _ => None;
     parseFloat_other := fun _ => NaN;
     JSON_parse := fun text =>
       if String.eqb text "null" then Some JNull else None;
     readFileSync := fun _ => Some "null";
     ffprobe := fun _ => inr two_minutes;
     ensureDir := fun _ => None;
     remove_error := fun _ => None;
     screenshots := fun _ _ _ _ _ => inr 40000;
     transcode := fun _ _ _ => inr MB;
     extract := fun _ _ _ _ => inr MB |}.

(** A host on which one file cannot be removed. *)
Definition host_locked : Host :=
  {| path_parse_name := posix_parse_name;
     path_basename := posix_basename;
     path_join := posix_join;
     eval_other := fun _ => None;
     parseFloat_other := fun _ => NaN;
     JSON_parse := fun _ => None;
     readFileSync := fun _ => None;
     ffprobe := fun _ => inr two_minutes;
     ensureDir := fun _ => None;
     remove_error := fun p =>
       if String.eqb p "temp/locked.mp4"
       then Some "EBUSY: resource busy or locked" else None;
     screenshots := fun _ _ _ _ _ => inr 40000;
     transcode := fun _ _ _ => inr MB;
     extract := fun _ _ _ _ => inr MB |}.

(** * Properties *)

(** ** Rounding to binary64 *)

Section Rounding.

Lemma pow2_pos e : (0 < pow2 e)%Q.
Proof. unfold pow2. apply Qpower_0_lt. reflexivity. Qed.

Lemma pow2_add a b : (pow2 (a + b) == pow2 a * pow2 b)%Q.
Proof. unfold pow2. apply Qpower_plus. discriminate. Qed.

Lemma pow2_le a b : a <= b -> (pow2 a <= pow2 b)%Q.
Proof. intros H. unfold pow2. apply Qpower_le_compat_l; [exact H | discriminate]. Qed.

Lemma pow2_lt a b : a < b -> (pow2 a < pow2 b)%Q.
Proof. intros H. unfold pow2. apply Qpower_lt_compat_l; [exact H | reflexivity]. Qed.

Lemma pow2_lt_inv a b : (pow2 a < pow2 b)%Q -> a < b.
Proof.
  intros H. destruct (Z_lt_le_dec a b) as [|Hle]; [assumption |].
  apply pow2_le in Hle. exfalso. apply (Qlt_irrefl (pow2 a)).
  eapply Qlt_le_trans; eassumption.
Qed.

Lemma pow2_Z n : 0 <= n -> (pow2 n == inject_Z (2 ^ n))%Q.
Proof. intros H. unfold pow2. rewrite Zpower_Qpower by exact H. reflexivity. Qed.

Lemma pow2_succ e : (pow2 (e + 1) == 2 * pow2 e)%Q.
Proof. rewrite pow2_add. change (pow2 1) with 2%Q. ring. Qed.

Lemma pow2_pred e : (pow2 (e - 1) == pow2 e / 2)%Q.
Proof.
  replace e with ((e - 1) + 1) at 2 by lia. rewrite pow2_succ. field.
Qed.

Lemma pow2_inv e : (pow2 (- e) == / pow2 e)%Q.
Proof. unfold pow2. apply Qpower_opp. Qed.

Lemma floor_log2_spec (a : Q) :
  (0 < a)%Q -> (pow2 (floor_log2 a) <= a)%Q /\ (a < pow2 (floor_log2 a + 1))%Q.
Proof.
  intros Ha. destruct a as [n d]. unfold floor_log2. cbn [Qnum Qden].
  assert (Hn : 0 < n).
  { unfold Qlt in Ha. cbn in Ha. lia. }
  set (ln := Z.log2 n). set (ld := Z.log2 (Z.pos d)).
  assert (Hln : 2 ^ ln <= n < 2 ^ (ln + 1)).
  { pose proof (Z.log2_spec n Hn) as H. unfold Z.succ in H. exact H. }
  assert (Hld : 2 ^ ld <= Z.pos d < 2 ^ (ld + 1)).
  { pose proof (Z.log2_spec (Z.pos d) eq_refl) as H. unfold Z.succ in H. exact H. }
  assert (Hln0 : 0 <= ln) by apply Z.log2_nonneg.
  assert (Hld0 : 0 <= ld) by apply Z.log2_nonneg.
  (* n/d in terms of pow2 *)
  assert (Hlow : (pow2 (ln - ld - 1) <= n # d)%Q).
  { (* 2^(ln) * d <= n * 2^(ld+1) *)
    assert (E : (pow2 (ln - ld - 1) == pow2 ln / pow2 (ld + 1))%Q).
    { replace (ln - ld - 1) with (ln + - (ld + 1)) by lia.
      rewrite pow2_add, pow2_inv. reflexivity. }
    rewrite E. apply Qle_shift_div_r; [apply pow2_pos |].
    rewrite !pow2_Z by lia.
    unfold Qle, Qmult, inject_Z; cbn [Qnum Qden].
    rewrite !Z.mul_1_r. change (Z.pos (d * 1)) with (Z.pos d * 1). nia. }
  assert (Hhigh : (n # d < pow2 (ln - ld + 1))%Q).
  { assert (E : (pow2 (ln - ld + 1) == pow2 (ln + 1) / pow2 ld)%Q).
    { replace (ln - ld + 1) with ((ln + 1) + - ld) by lia.
      rewrite pow2_add, pow2_inv. reflexivity. }
    rewrite E. apply Qlt_shift_div_l; [apply pow2_pos |].
    rewrite !pow2_Z by lia.
    unfold Qlt, Qmult, inject_Z; cbn [Qnum Qden].
    rewrite !Z.mul_1_r. nia. }
  destruct (Qle_bool (pow2 (ln - ld)) (n # d)) eqn:E.
  - apply Qle_bool_iff in E. split; [exact E | exact Hhigh].
  - split; [exact Hlow |].
    replace (ln - ld - 1 + 1) with (ln - ld) by lia.
    apply Qnot_le_lt. intros H. apply Qle_bool_iff in H. congruence.
Qed.

Lemma round_half_even_spec (y : Q) :
  (Qabs (inject_Z (round_half_even y) - y) <= 1 # 2)%Q.
Proof.
  unfold round_half_even.
  pose proof (Qfloor_le y) as Hl. pose proof (Qlt_floor y) as Hu.
  set (f := Qfloor y) in *. rewrite inject_Z_plus in Hu.
  change (inject_Z 1) with 1%Q in Hu.
  apply Qabs_Qle_condition.
  destruct (Qcompare_spec (y - inject_Z f) (1 # 2)) as [E | E | E].
  - destruct (Z.even f);
      [| rewrite inject_Z_plus; change (inject_Z 1) with 1%Q]; split; lra.
  - split; lra.
  - rewrite inject_Z_plus. change (inject_Z 1) with 1%Q. split; lra.
Qed.

Lemma round_half_even_nonneg (y : Q) : (0 <= y)%Q -> 0 <= round_half_even y.
Proof.
  intros H. unfold round_half_even.
  assert (Hf : 0 <= Qfloor y).
  { change 0 with (Qfloor 0). apply Qfloor_resp_le. exact H. }
  destruct (_ ?= _)%Q; [destruct (Z.even _) | |]; lia.
Qed.

Lemma round_half_even_Z (y : Q) (k : Z) :
  (y == inject_Z k)%Q -> round_half_even y = k.
Proof.
  intros E. unfold round_half_even.
  assert (Hf : Qfloor y = k).
  { rewrite (Qfloor_comp _ _ E). apply Qfloor_Z. }
  rewrite Hf.
  assert (Hc : (y - inject_Z k ?= 1 # 2)%Q = Lt).
  { rewrite <- Qlt_alt. rewrite E. lra. }
  rewrite Hc. reflexivity.
Qed.

Lemma Qis_zero_false (m : Q) : ~ (m == 0)%Q -> Qis_zero m = false.
Proof.
  intros H. unfold Qis_zero. destruct (Qeq_bool m 0) eqn:E; [| reflexivity].
  apply Qeq_bool_iff in E. contradiction.
Qed.

Lemma Qis_zero_true (m : Q) : (m == 0)%Q -> Qis_zero m = true.
Proof. intros H. unfold Qis_zero. apply Qeq_bool_iff. exact H. Qed.

Lemma Qis_neg_true (q : Q) : (q < 0)%Q -> Qis_neg q = true.
Proof.
  intros H. unfold Qis_neg. destruct (Qle_bool 0 q) eqn:E; [| reflexivity].
  apply Qle_bool_iff in E. lra.
Qed.

Lemma Qis_neg_false (q : Q) : (0 <= q)%Q -> Qis_neg q = false.
Proof.
  intros H. unfold Qis_neg. apply Qle_bool_iff in H. rewrite H. reflexivity.
Qed.

Lemma nearest_unfold (q : Q) :
  ~ (q == 0)%Q ->
  nearest q =
  if Qle_bool (pow2 1024) (rounded (Qabs q))
  then (if Qis_neg q then NegInf else PosInf)
  else Fin (Qred (if Qis_neg q then - rounded (Qabs q) else rounded (Qabs q))).
Proof. intros H. unfold nearest. rewrite (Qis_zero_false q H). reflexivity. Qed.

Lemma rounded_error (a : Q) :
  (0 < a)%Q ->
  (0 <= rounded a)%Q
  /\ (Qabs (rounded a - a) <= a * pow2 (-53) + pow2 (-1075))%Q.
Proof.
  intros Ha. unfold rounded, mantissa_of.
  set (e := exponent_of a).
  pose proof (pow2_pos e) as He.
  pose proof (round_half_even_spec (a / pow2 e)) as Hr.
  assert (Hy : (0 <= a / pow2 e)%Q).
  { apply Qle_shift_div_l; [exact He | lra]. }
  pose proof (round_half_even_nonneg _ Hy) as Hm.
  set (m := round_half_even (a / pow2 e)) in *.
  assert (Hm' : (0 <= inject_Z m)%Q).
  { change 0%Q with (inject_Z 0). rewrite <- Zle_Qle. exact Hm. }
  split; [apply Qmult_le_0_compat; lra |].
  assert (Herr : (Qabs (inject_Z m * pow2 e - a) <= pow2 e * (1 # 2))%Q).
  { assert (E : (inject_Z m * pow2 e - a
                 == (inject_Z m - a / pow2 e) * pow2 e)%Q).
    { field. lra. }
    rewrite E, Qabs_Qmult, (Qabs_pos (pow2 e)) by lra.
    rewrite (Qmult_comm (pow2 e)).
    apply Qmult_le_compat_r; [exact Hr | lra]. }
  eapply Qle_trans; [exact Herr |].
  destruct (floor_log2_spec a Ha) as [Hlo _].
  unfold e, exponent_of.
  destruct (Z.max_spec (floor_log2 a - 52) (-1074)) as [[_ ->] | [_ ->]].
  - assert (E : (pow2 (-1074) * (1 # 2) == pow2 (-1075))%Q) by reflexivity.
    rewrite E. pose proof (pow2_pos (-53)).
    assert (0 <= a * pow2 (-53))%Q by (apply Qmult_le_0_compat; lra).
    lra.
  - assert (E : (pow2 (floor_log2 a - 52) * (1 # 2)
                 == pow2 (floor_log2 a) * pow2 (-53))%Q).
    { replace (floor_log2 a - 52) with (floor_log2 a + -52) by lia.
      rewrite pow2_add.
      assert (E2 : (pow2 (-52) * (1 # 2) == pow2 (-53))%Q) by reflexivity.
      rewrite <- E2. ring. }
    rewrite E. pose proof (pow2_pos (-53)). pose proof (pow2_pos (-1075)).
    assert (pow2 (floor_log2 a) * pow2 (-53) <= a * pow2 (-53))%Q.
    { apply Qmult_le_compat_r; lra. }
    lra.
Qed.

Lemma nearest_error (q : Q) :
  (Qabs q <= pow2 1023)%Q ->
  exists r,
    nearest q = Fin r
    /\ (Qabs (r - q) <= Qabs q * pow2 (-53) + pow2 (-1075))%Q
    /\ ((0 <= q)%Q -> (0 <= r)%Q)
    /\ ((q <= 0)%Q -> (r <= 0)%Q).
Proof.
  intros Hb.
  destruct (Qeq_dec q 0) as [E | Hnz].
  { exists 0%Q. unfold nearest. rewrite (Qis_zero_true q E).
    split; [reflexivity |]. rewrite E. split; [| split; intros; lra].
    vm_compute. discriminate. }
  rewrite (nearest_unfold q Hnz).
  assert (Ha : (0 < Qabs q)%Q).
  { pose proof (Qabs_nonneg q) as H0.
    destruct (Qle_lt_or_eq _ _ H0) as [H | H]; [exact H |].
    exfalso. apply Hnz.
    assert (H1 : (Qabs q <= 0)%Q) by lra.
    apply Qabs_Qle_condition in H1. lra. }
  destruct (rounded_error (Qabs q) Ha) as [Hv0 Herr].
  set (a := Qabs q) in *. set (v := rounded a) in *.
  assert (Hlt : Qle_bool (pow2 1024) v = false).
  { destruct (Qle_bool (pow2 1024) v) eqn:E; [| reflexivity].
    apply Qle_bool_iff in E. exfalso.
    apply Qabs_Qle_condition in Herr. destruct Herr as [_ Hu].
    assert (a * pow2 (-53) <= pow2 1023 * pow2 (-53))%Q.
    { apply Qmult_le_compat_r; [exact Hb | apply Qlt_le_weak, pow2_pos]. }
    assert (pow2 1023 * pow2 (-53) + pow2 (-1075) + pow2 1023 < pow2 1024)%Q
      by (vm_compute; reflexivity).
    lra. }
  rewrite Hlt.
  destruct (Qlt_le_dec q 0) as [Hneg | Hpos].
  - rewrite (Qis_neg_true q Hneg). eexists. split; [reflexivity |].
    rewrite Qred_correct.
    assert (Eq : (q == - a)%Q).
    { unfold a. rewrite Qabs_neg by lra. ring. }
    split; [| split; intros; lra].
    assert (E : (- v - q == - (v - a))%Q) by (rewrite Eq; ring).
    rewrite E, Qabs_opp. exact Herr.
  - rewrite (Qis_neg_false q Hpos). eexists. split; [reflexivity |].
    rewrite Qred_correct.
    assert (Eq : (q == a)%Q).
    { unfold a. rewrite Qabs_pos by lra. reflexivity. }
    split; [| split; intros; lra].
    rewrite Eq at 1. exact Herr.
Qed.

(** A number that has a 53-bit significand at an exponent of binary64 is
    its own rounding. *)
Lemma rounded_exact (a : Q) (m e : Z) :
  (a == inject_Z m * pow2 e)%Q ->
  0 < m < 2 ^ 53 -> -1074 <= e ->
  (rounded a == a)%Q.
Proof.
  intros Ea Hm He.
  assert (Hm' : (0 < inject_Z m)%Q).
  { change 0%Q with (inject_Z 0). rewrite <- Zlt_Qlt. lia. }
  assert (Ha : (0 < a)%Q).
  { rewrite Ea. apply Qmult_lt_0_compat; [exact Hm' | apply pow2_pos]. }
  destruct (floor_log2_spec a Ha) as [Hlo _].
  assert (Hlog : floor_log2 a < e + 53).
  { apply pow2_lt_inv. eapply Qle_lt_trans; [exact Hlo |].
    rewrite Ea, pow2_add, (Qmult_comm (pow2 e)).
    apply Qmult_lt_compat_r; [apply pow2_pos |].
    rewrite pow2_Z by lia. rewrite <- Zlt_Qlt. lia. }
  unfold rounded, mantissa_of.
  set (e' := exponent_of a).
  assert (He' : e' <= e) by (unfold e', exponent_of; lia).
  assert (Ey : (a / pow2 e' == inject_Z (m * 2 ^ (e - e')))%Q).
  { rewrite Ea, inject_Z_mult, <- pow2_Z by lia.
    replace (e - e') with (e + - e') by lia. rewrite pow2_add, pow2_inv.
    field. pose proof (pow2_pos e'). lra. }
  rewrite (round_half_even_Z _ _ Ey).
  rewrite Ea, inject_Z_mult, <- pow2_Z by lia.
  replace (e - e') with (e + - e') by lia. rewrite pow2_add, pow2_inv.
  field. pose proof (pow2_pos e'). lra.
Qed.

Lemma nearest_exact (q : Q) (m e : Z) :
  (q == inject_Z m * pow2 e)%Q ->
  Z.abs m < 2 ^ 53 -> -1074 <= e <= 970 ->
  nearest q = Fin (Qred q).
Proof.
  intros Eq Hm He.
  destruct (Z.eq_dec m 0) as [-> | Hnz].
  { unfold nearest.
    assert (E : (q == 0)%Q) by (rewrite Eq; ring).
    rewrite (Qis_zero_true _ E). f_equal. symmetry.
    apply (Qred_complete _ 0 E). }
  assert (Hq : ~ (q == 0)%Q).
  { rewrite Eq. intros E. apply Qmult_integral in E. destruct E as [E | E].
    - apply Hnz. unfold Qeq in E. cbn in E. lia.
    - pose proof (pow2_pos e). lra. }
  rewrite (nearest_unfold _ Hq).
  assert (Eabs : (Qabs q == inject_Z (Z.abs m) * pow2 e)%Q).
  { rewrite Eq, Qabs_Qmult, (Qabs_pos (pow2 e))
      by apply Qlt_le_weak, pow2_pos.
    reflexivity. }
  assert (Er : (rounded (Qabs q) == Qabs q)%Q).
  { apply (rounded_exact _ (Z.abs m) e Eabs); lia. }
  assert (Hlt : Qle_bool (pow2 1024) (rounded (Qabs q)) = false).
  { destruct (Qle_bool _ _) eqn:E; [| reflexivity].
    apply Qle_bool_iff in E. exfalso. rewrite Er, Eabs in E.
    assert (H1 : (inject_Z (Z.abs m) * pow2 e < pow2 53 * pow2 970)%Q).
    { apply Qle_lt_trans with (inject_Z (Z.abs m) * pow2 970)%Q.
      - apply Qmult_le_l.
        + change 0%Q with (inject_Z 0). rewrite <- Zlt_Qlt. lia.
        + apply pow2_le. lia.
      - apply Qmult_lt_compat_r; [apply pow2_pos |].
        rewrite pow2_Z by lia. rewrite <- Zlt_Qlt. lia. }
    assert (H2 : (pow2 53 * pow2 970 <= pow2 1024)%Q)
      by (vm_compute; discriminate).
    lra. }
  rewrite Hlt. f_equal. apply Qred_complete.
  destruct (Qlt_le_dec q 0) as [Hneg | Hpos].
  - rewrite (Qis_neg_true q Hneg), Er, Qabs_neg by lra. ring.
  - rewrite (Qis_neg_false q Hpos), Er, Qabs_pos by lra. reflexivity.
Qed.

Lemma Qred_inject_Z (z : Z) : Qred (inject_Z z) = inject_Z z.
Proof.
  unfold Qred, inject_Z.
  pose proof (Z.ggcd_gcd z 1) as Hg.
  pose proof (Z.ggcd_correct_divisors z 1) as Hd.
  destruct (Z.ggcd z 1) as [g [aa bb]]. cbn [fst snd] in *.
  rewrite Z.gcd_1_r in Hg. subst g. destruct Hd as [Ha Hb].
  f_equal; [lia |]. replace bb with 1 by lia. reflexivity.
Qed.

Lemma nearest_Z (z : Z) :
  Z.abs z <= 2 ^ 53 -> nearest (inject_Z z) = Fin (inject_Z z).
Proof.
  intros H.
  destruct (Z.eq_dec (Z.abs z) (2 ^ 53)) as [E | Hne].
  - assert (Hz : z = 2 ^ 53 \/ z = - 2 ^ 53) by lia.
    destruct Hz as [-> | ->]; vm_compute; reflexivity.
  - rewrite (nearest_exact (inject_Z z) z 0); [| | lia | lia].
    + f_equal. apply Qred_inject_Z.
    + change (pow2 0) with 1%Q. ring.
Qed.

(** Rounding never takes a number that is at least 1 to zero or below. *)
Lemma nearest_positive (q : Q) :
  (1 <= q)%Q ->
  nearest q = PosInf \/ exists r, nearest q = Fin r /\ (0 < r)%Q.
Proof.
  intros Hq.
  assert (Hnz : ~ (q == 0)%Q) by (intros E; rewrite E in Hq; lra).
  rewrite (nearest_unfold q Hnz), (Qis_neg_false q) by lra.
  destruct (Qle_bool _ _); [left; reflexivity | right].
  eexists. split; [reflexivity |]. rewrite Qred_correct.
  assert (Ha : (0 < Qabs q)%Q) by (rewrite Qabs_pos; lra).
  destruct (rounded_error (Qabs q) Ha) as [_ Herr].
  assert (Eabs : (Qabs q == q)%Q) by (apply Qabs_pos; lra).
  apply Qabs_Qle_condition in Herr. destruct Herr as [Hl _].
  assert (H1 : (Qabs q * pow2 (-53) <= Qabs q * (1 # 2))%Q).
  { apply Qmult_le_l; [lra | vm_compute; discriminate]. }
  assert (H2 : (pow2 (-1075) < 1 # 2)%Q) by (vm_compute; reflexivity).
  lra.
Qed.

Lemma js_int_exact (z : Z) : Z.abs z <= 2 ^ 53 -> js_int z = num z.
Proof. apply nearest_Z. Qed.

End Rounding.

Section Properties.
Context {host : Host}.

(** ** The instance and the environment are never written by a method *)

Ltac preserves_here :=
  intros s; split; [| split]; try reflexivity;
  first [ exists []; cbn; rewrite app_nil_r; reflexivity
        | eexists; reflexivity ].

Lemma preserves_ret {A} (a : A) : preserves (mret a).
Proof. preserves_here. Qed.

Lemma preserves_bind {A B} (c : M A) (k : A -> M B) :
  preserves c -> (forall a, preserves (k a)) -> preserves (c ≫= k).
Proof.
  intros Hc Hk s. unfold mbind, M_bind, bind.
  destruct (Hc s) as (Ht & He & evs & Hv).
  destruct (c s) as [[a | msg | | ] s1]; cbn [snd] in *; eauto.
  destruct (Hk a s1) as (Ht' & He' & evs' & Hv').
  split; [congruence | split; [congruence |]].
  exists (evs ++ evs'). rewrite Hv', Hv, app_assoc. reflexivity.
Qed.

Lemma preserves_try_catch {A} (c : M A) (h : string -> M A) :
  preserves c -> (forall m, preserves (h m)) -> preserves (try_catch c h).
Proof.
  intros Hc Hh s. unfold try_catch.
  destruct (Hc s) as (Ht & He & evs & Hv).
  destruct (c s) as [[a | msg | | ] s1]; cbn [snd] in *; eauto.
  destruct (Hh msg s1) as (Ht' & He' & evs' & Hv').
  split; [congruence | split; [congruence |]].
  exists (evs ++ evs'). rewrite Hv', Hv, app_assoc. reflexivity.
Qed.

Lemma preserves_throw {A} (msg : string) : preserves (@throw A msg).
Proof. preserves_here. Qed.

Lemma preserves_escape {A} : preserves (@escape A).
Proof. preserves_here. Qed.

Lemma preserves_out_of_fuel {A} : preserves (@out_of_fuel A).
Proof. preserves_here. Qed.

Lemma preserves_get_this : preserves get_this.
Proof. preserves_here. Qed.

Lemma preserves_get_env : preserves get_env.
Proof. preserves_here. Qed.

Lemma preserves_emit (e : Event) : preserves (emit e).
Proof. preserves_here. Qed.

Lemma preserves_write_file p sz : preserves (write_file p sz).
Proof. preserves_here. Qed.

Lemma preserves_delete_file p : preserves (delete_file p).
Proof. preserves_here. Qed.

Lemma preserves_fs_stat p : preserves (fs_stat p).
Proof.
  intros s; unfold fs_stat; destruct (files s !! p);
    (split; [| split]; try reflexivity; exists []; cbn;
     rewrite app_nil_r; reflexivity).
Qed.

Create HintDb preserves.
#[local] Hint Resolve preserves_ret preserves_throw preserves_escape
  preserves_out_of_fuel preserves_get_this preserves_get_env preserves_emit
  preserves_write_file preserves_delete_file preserves_fs_stat : preserves.

(** One step through a method body: split a bind or a handler, or branch on
    what a collaborator answered. *)
Ltac preserves_step :=
  first
    [ solve [auto with preserves]
    | apply preserves_bind; [| intros ?]
    | apply preserves_try_catch; [| intros ?]
    | match goal with
      | |- preserves (match ?x with _ => _ end) => destruct x
      | |- preserves (if ?b then _ else _) => destruct b
      end ].

Lemma preserves_getFileSize p : preserves (getFileSize p).
Proof. unfold getFileSize. repeat preserves_step. Qed.

Lemma preserves_fs_ensureDir d : preserves (fs_ensureDir d).
Proof. unfold fs_ensureDir. repeat preserves_step. Qed.

Lemma preserves_fs_remove p : preserves (fs_remove p).
Proof. unfold fs_remove. repeat preserves_step. Qed.

Lemma preserves_temp_dir : preserves temp_dir.
Proof. unfold temp_dir. repeat preserves_step. Qed.

Lemma preserves_loadPreset : preserves loadPreset.
Proof. unfold loadPreset. repeat preserves_step. Qed.

Lemma preserves_analyzeVideo p : preserves (analyzeVideo p).
Proof. unfold analyzeVideo. repeat preserves_step. Qed.

#[local] Hint Resolve preserves_getFileSize preserves_fs_ensureDir
  preserves_fs_remove preserves_temp_dir preserves_loadPreset
  preserves_analyzeVideo : preserves.

Lemma preserves_captureFrame i o : preserves (captureFrame i o).
Proof. unfold captureFrame. repeat preserves_step. Qed.

Lemma preserves_compressVideo i o : preserves (compressVideo i o).
Proof. unfold compressVideo. repeat preserves_step. Qed.

Lemma preserves_extractVideoSegment i o a b :
  preserves (extractVideoSegment i o a b).
Proof. unfold extractVideoSegment. repeat preserves_step. Qed.

#[local] Hint Resolve preserves_captureFrame preserves_compressVideo
  preserves_extractVideoSegment : preserves.

Lemma preserves_split_loop fuel v d b n dpp :
  forall i parts, preserves (split_loop fuel v d b n dpp i parts).
Proof.
  induction fuel as [| fuel IH]; intros i parts; cbn [split_loop].
  - auto with preserves.
  - destruct (js_lt (num i) n); [| auto with preserves].
    repeat preserves_step.
Qed.

#[local] Hint Resolve preserves_split_loop : preserves.

Lemma preserves_splitVideo fuel v o : preserves (splitVideo fuel v o).
Proof. unfold splitVideo. repeat preserves_step. Qed.

#[local] Hint Resolve preserves_splitVideo : preserves.

Lemma preserves_checkAndSplitVideo fuel v o :
  preserves (checkAndSplitVideo fuel v o).
Proof. unfold checkAndSplitVideo. repeat preserves_step. Qed.

#[local] Hint Resolve preserves_checkAndSplitVideo : preserves.

Lemma preserves_processVideo fuel i o : preserves (processVideo fuel i o).
Proof. unfold processVideo. repeat preserves_step. Qed.

Lemma preserves_cleanupFiles l : preserves (cleanupFiles l).
Proof.
  induction l as [| p l IH]; cbn [cleanupFiles]; [auto with preserves |].
  repeat preserves_step.
Qed.

(** ** Construction *)

Lemma non_numeric_parseInt (s : string) :
  non_numeric s -> parseInt_string s = NaN.
Proof.
  unfold non_numeric, parseInt_string.
  destruct (strip_sign (skip_ws s)) as [sign s1]; cbn [snd].
  destruct s1 as [| c r]; [reflexivity |].
  intros H.
  assert (E : strip_hex_prefix (String c r) = (10, String c r)).
  { destruct c as [[] [] [] [] [] [] [] []]; try reflexivity;
      vm_compute in H; discriminate H. }
  rewrite E. cbn [read_digits]. rewrite H. reflexivity.
Qed.

Lemma unset_or_non_numeric_parseInt (v : option string) :
  unset_or_non_numeric v -> parseInt v = NaN.
Proof.
  destruct v as [s |]; cbn; [apply non_numeric_parseInt | reflexivity].
Qed.

Lemma loadPreset_returns (s : St) :
  exists v evs,
    loadPreset s =
    (Returned v,
     {| this := this s; env := env s; files := files s;
        events := events s ++ evs |}).
Proof.
  unfold loadPreset, mbind, M_bind, bind, get_this.
  destruct (readFileSync (presetPath (this s))) as [data |].
  - destruct (JSON_parse data) as [v |].
    + exists v, []. cbn. rewrite app_nil_r. destruct s; reflexivity.
    + eexists _, _. reflexivity.
  - eexists _, _. reflexivity.
Qed.

Lemma constructor_this (s0 : St) :
  exists p,
    this (snd (constructor s0)) =
    {| maxVideoSizeMB :=
         js_or_num (parseInt (env s0 !! "MAX_VIDEO_SIZE_MB")) (num 98);
       frameCaptureTime :=
         js_or_num (parseInt (env s0 !! "FRAME_CAPTURE_TIME")) (num 2);
       presetPath :=
         js_or_str (env s0 !! "VIDEO_PRESET_PATH") "./video-preset.json";
       preset := p |}.
Proof.
  unfold constructor.
  match goal with
  | |- context [ (_ ≫= _) ?s1 ] =>
      destruct (loadPreset_returns s1) as (v & evs & E)
  end.
  unfold mbind, M_bind, bind. rewrite E. exists v. reflexivity.
Qed.

Lemma lifetime_this (calls : list Call) :
  forall s, this (lifetime calls s) = this s.
Proof.
  unfold lifetime.
  induction calls as [| c calls IH]; intros s; [reflexivity |].
  cbn [foldl]. rewrite IH.
  destruct c; cbn [after_call with_env this];
    first [ reflexivity
          | apply preserves_loadPreset | apply preserves_processVideo
          | apply preserves_analyzeVideo | apply preserves_captureFrame
          | apply preserves_compressVideo | apply preserves_checkAndSplitVideo
          | apply preserves_splitVideo | apply preserves_extractVideoSegment
          | apply preserves_getFileSize | apply preserves_cleanupFiles ].
Qed.


(** ** Preset resolution *)

(** C6: [loadPreset] always returns a value; when the preset file cannot be
    read or its content cannot be parsed, it logs one warning and returns the
    default preset h264 / aac / 1920x1080 / 974 / 29.97 / 2 / 48000. *)
Theorem loadPreset_never_raises :
  forall s : St,
    (exists v s', loadPreset s = (Returned v, s'))
    /\ (readFileSync (presetPath (this s)) = None
        \/ (exists data, readFileSync (presetPath (this s)) = Some data
                         /\ JSON_parse data = None) ->
        loadPreset s =
        (Returned
           (JObject [ ("videoCodec", JString "h264");
                      ("audioCodec", JString "aac");
                      ("resolution", JString "1920x1080");
                      ("bitrate", JNumber (num 974));
                      ("fps", JNumber (Fin (2997 # 100)));
                      ("audioChannels", JNumber (num 2));
                      ("audioSampleRate", JNumber (num 48000)) ]),
         {| this := this s; env := env s; files := files s;
            events :=
              events s ++
              [EvWarn "Failed to load video preset, using defaults"] |})).
Proof.
  intros s. split.
  - destruct (loadPreset_returns s) as (v & evs & E). eauto.
  - unfold loadPreset, mbind, M_bind, bind, get_this.
    intros [H | (data & H & Hp)]; rewrite H; [| rewrite Hp]; reflexivity.
Qed.

(** ** Analysis *)

Lemma Qis_zero_inject (z : Z) : Qis_zero (inject_Z z) = (z =? 0).
Proof.
  unfold Qis_zero, Qeq_bool, inject_Z; cbn.
  rewrite Z.mul_1_r. reflexivity.
Qed.

Lemma Qis_neg_inject (z : Z) : Qis_neg (inject_Z z) = (z <? 0).
Proof.
  unfold Qis_neg, Qle_bool, inject_Z; cbn. rewrite Z.mul_1_r.
  destruct (Z.leb_spec 0 z), (Z.ltb_spec z 0); (reflexivity || lia).
Qed.

Lemma digit_not_slash (c : ascii) (d : Z) :
  digit_in 10 c = Some d -> Ascii.eqb c "/"%char = false.
Proof.
  intros H. destruct (Ascii.eqb_spec c "/"%char) as [-> |]; [| reflexivity].
  vm_compute in H. discriminate H.
Qed.

Lemma split_slash_digits (a b : string) :
  all_digits a = true -> split_slash (a +:+ "/" +:+ b) = (a, Some b).
Proof.
  induction a as [| c a IH]; cbn [all_digits].
  - intros _. reflexivity.
  - destruct (digit_in 10 c) as [d |] eqn:Hd; [| discriminate].
    intros Ha. change (String c a +:+ "/" +:+ b)
      with (String c (a +:+ "/" +:+ b)).
    cbn [split_slash]. rewrite (digit_not_slash c d Hd), (IH Ha). reflexivity.
Qed.

Lemma decimal_literal_digits (a : string) (n : Z) :
  decimal_literal a = Some n -> all_digits a = true.
Proof.
  unfold decimal_literal. destruct (has_leading_zero a); [discriminate |].
  destruct (all_digits a); [reflexivity | discriminate].
Qed.

Lemma decimal_literal_nonempty (a : string) (n : Z) :
  decimal_literal a = Some n -> exists c r, a = String c r.
Proof.
  destruct a as [| c r]; [discriminate | eauto].
Qed.

Lemma js_eval_quotient (a b : string) (n d : Z) :
  decimal_literal a = Some n -> decimal_literal b = Some d ->
  js_eval (a +:+ "/" +:+ b) = Some (JNumber (js_div (js_int n) (js_int d))).
Proof.
  intros Ha Hb. unfold js_eval.
  rewrite (split_slash_digits a b (decimal_literal_digits a n Ha)).
  rewrite Ha, Hb. reflexivity.
Qed.

(** What [analyzeVideo] does, by cases on the probe and on [eval]. *)
Lemma analyzeVideo_run (inputPath : string) (s : St) :
  analyzeVideo inputPath s =
  match ffprobe inputPath with
  | inl err => (Thrown ("Failed to analyze video: " +:+ err),
                log s [EvProbe inputPath])
  | inr metadata =>
      let videoStream := find_stream "video" (Metadata.streams metadata) in
      let audioStream := find_stream "audio" (Metadata.streams metadata) in
      match js_eval (js_or_str (videoStream ≫= Stream.r_frame_rate) "0") with
      | Some rate =>
          (Returned
             {| VideoInfo.duration := Format.duration (Metadata.format metadata);
                VideoInfo.size := Format.size (Metadata.format metadata);
                VideoInfo.bitrate := Format.bit_rate (Metadata.format metadata);
                VideoInfo.videoCodec := opt_field videoStream Stream.codec_name;
                VideoInfo.audioCodec := opt_field audioStream Stream.codec_name;
                VideoInfo.resolution :=
                  show_dim (videoStream ≫= Stream.width) +:+ "x"
                  +:+ show_dim (videoStream ≫= Stream.height);
                VideoInfo.fps := rate;
                VideoInfo.audioChannels := opt_field audioStream Stream.channels;
                VideoInfo.audioSampleRate :=
                  opt_field audioStream Stream.sample_rate |},
           log s [EvProbe inputPath])
      | None => (Escaped, log s [EvProbe inputPath])
      end
  end.
Proof.
  unfold analyzeVideo, mbind, M_bind, bind, emit.
  destruct (ffprobe inputPath) as [err | metadata]; [reflexivity |].
  cbv zeta. destruct (js_eval _); reflexivity.
Qed.

Lemma read_digits_nonneg (radix : Z) (s : string) :
  0 <= radix ->
  forall acc n,
    (forall a, acc = Some a -> 0 <= a) ->
    read_digits radix s acc = Some n -> 0 <= n.
Proof.
  intros Hr. induction s as [| c r IH]; intros acc n Hacc; cbn [read_digits].
  - intros ->. apply Hacc. reflexivity.
  - destruct (digit_in radix c) as [d |] eqn:Hd; [| intros ->; auto].
    apply IH. intros a [= <-].
    assert (0 <= d).
    { unfold digit_in, digit_of in Hd. cbv zeta in Hd.
      repeat match type of Hd with
             | context [if ?b then _ else _] => destruct b eqn:?
             end; try discriminate; injection Hd as <-; lia. }
    assert (0 <= default 0 acc).
    { destruct acc as [a |]; cbn; [apply Hacc; reflexivity | lia]. }
    nia.
Qed.

Lemma decimal_literal_nonneg (a : string) (n : Z) :
  decimal_literal a = Some n -> 0 <= n.
Proof.
  unfold decimal_literal. destruct (has_leading_zero a); [discriminate |].
  destruct (all_digits a); [| discriminate].
  apply read_digits_nonneg; [lia | discriminate].
Qed.

(** C4, as the code has it: the frame-rate string is handed to [eval].  When
    the probe succeeds the analysis is never rejected, whatever that string
    is; when it is a quotient [a/b] of two decimal literals, analysis
    succeeds and [fps] is the JavaScript quotient of their values: the
    binary64 number nearest to the exact quotient when both literals are at
    most 2^53 and the denominator is not zero, and [Infinity] for a zero
    denominator under a positive numerator. *)
Theorem analyzeVideo_frame_rate :
  forall (inputPath : string) (s : St) (metadata : Metadata.t),
    ffprobe inputPath = inr metadata ->
    (forall msg, fst (analyzeVideo inputPath s) <> Thrown msg)
    /\ forall (videoStream : Stream.t) (a b : string) (n d : Z),
         find_stream "video" (Metadata.streams metadata) = Some videoStream ->
         Stream.r_frame_rate videoStream = Some (a +:+ "/" +:+ b) ->
         decimal_literal a = Some n ->
         decimal_literal b = Some d ->
         exists info,
           fst (analyzeVideo inputPath s) = Returned info
           /\ VideoInfo.fps info = JNumber (js_div (js_int n) (js_int d))
           /\ (d <> 0 -> n <= 2 ^ 53 -> d <= 2 ^ 53 ->
               VideoInfo.fps info
               = JNumber (nearest (inject_Z n / inject_Z d)))
           /\ (d = 0 -> 0 < n -> VideoInfo.fps info = JNumber PosInf).
Proof.
  intros inputPath s metadata Hp.
  rewrite analyzeVideo_run, Hp. cbv zeta. split.
  { intros msg. destruct (js_eval _); discriminate. }
  intros videoStream a b n d Hv Hr Ha Hb.
  rewrite Hv. cbn [mbind option_bind].
  rewrite Hr.
  destruct (decimal_literal_nonempty a n Ha) as (c & r & ->).
  change (js_or_str (Some (String c r +:+ "/" +:+ b)) "0")
    with (String c r +:+ "/" +:+ b).
  rewrite (js_eval_quotient _ _ n d Ha Hb).
  eexists. split; [reflexivity |]. cbn [VideoInfo.fps].
  split; [reflexivity |].
  pose proof (decimal_literal_nonneg _ _ Ha) as Hn0.
  pose proof (decimal_literal_nonneg _ _ Hb) as Hd0.
  split.
  - intros Hd Hn53 Hd53. rewrite !js_int_exact by lia.
    unfold js_div, num. rewrite Qis_zero_inject.
    destruct (Z.eqb_spec d 0); [contradiction | reflexivity].
  - intros -> Hn. change (js_int 0) with (Fin 0).
    assert (H1 : (1 <= inject_Z n)%Q).
    { change 1%Q with (inject_Z 1). rewrite <- Zle_Qle. lia. }
    unfold js_int.
    destruct (nearest_positive _ H1) as [-> | (q & -> & Hq0)];
      [reflexivity |].
    unfold js_div. change (Qis_zero 0) with true. cbv iota.
    rewrite (Qis_zero_false q), (Qis_neg_false q) by lra. reflexivity.
Qed.

(** C5, as the code has it: [analyzeVideo] is rejected exactly when the probe
    reports an error.  When the probe succeeds the duration is the probe's
    value, unchecked; with no video stream the promise is still fulfilled,
    with an undefined codec, the resolution 'undefinedxundefined' and a
    frame rate of 0. *)
Theorem analyzeVideo_outcomes :
  forall (inputPath : string) (s : St),
    (forall err, ffprobe inputPath = inl err ->
       fst (analyzeVideo inputPath s)
       = Thrown ("Failed to analyze video: " +:+ err))
    /\ (forall msg, fst (analyzeVideo inputPath s) = Thrown msg ->
          exists err, ffprobe inputPath = inl err)
    /\ (forall metadata info,
          ffprobe inputPath = inr metadata ->
          fst (analyzeVideo inputPath s) = Returned info ->
          VideoInfo.duration info = Format.duration (Metadata.format metadata))
    /\ (forall metadata,
          ffprobe inputPath = inr metadata ->
          find_stream "video" (Metadata.streams metadata) = None ->
          exists info,
            fst (analyzeVideo inputPath s) = Returned info
            /\ VideoInfo.videoCodec info = JUndefined
            /\ VideoInfo.resolution info = "undefinedxundefined"
            /\ VideoInfo.fps info = JNumber (num 0)).
Proof.
  intros inputPath s. rewrite analyzeVideo_run. repeat split.
  - intros err ->. reflexivity.
  - intros msg. destruct (ffprobe inputPath) as [err | metadata]; [eauto |].
    cbv zeta. destruct (js_eval _); discriminate.
  - intros metadata info ->. cbv zeta.
    destruct (js_eval _); cbn [fst]; [| discriminate].
    intros [= <-]. reflexivity.
  - intros metadata -> Hv. cbv zeta. rewrite Hv.
    eexists. split; [reflexivity |]. repeat split.
Qed.

(** ** Thumbnail capture *)

Lemma captureFrame_run (inputPath originalFileName : string) (s : St) :
  let outputDir := js_or_str (env s !! "TEMP_DIR") "temp" in
  let thumbnailName := path_parse_name originalFileName +:+ "_thumbnail.jpg" in
  let shot :=
    EvScreenshot inputPath (frameCaptureTime (this s)) thumbnailName outputDir
      "1280x720" in
  captureFrame inputPath originalFileName s =
  match ensureDir outputDir with
  | Some msg => (Thrown msg, log s [EvEnsureDir outputDir])
  | None =>
      match screenshots inputPath (frameCaptureTime (this s)) thumbnailName
              outputDir "1280x720" with
      | inr sz =>
          (Returned (path_join outputDir thumbnailName),
           put (log s [EvEnsureDir outputDir; shot])
             (path_join outputDir thumbnailName) sz)
      | inl err =>
          (Thrown ("Failed to capture frame: " +:+ err),
           log s [EvEnsureDir outputDir; shot])
      end
  end.
Proof.
  intros outputDir thumbnailName shot. subst shot.
  unfold captureFrame, temp_dir, fs_ensureDir, mbind, M_bind, bind, emit,
    get_env, get_this, ret, throw. cbn [this env files events].
  fold outputDir. fold thumbnailName.
  destruct (ensureDir outputDir); [reflexivity |]. cbn [this env files events].
  destruct (screenshots _ _ _ _ _); unfold log, put, write_file;
    cbn [this env files events]; rewrite <- app_assoc; reflexivity.
Qed.

(** C3, as the code has it: the capture step hands the configured timestamp
    to the encoder as it is, whatever the duration of the video, which it
    never looks up; it is rejected only when the output directory cannot be
    created or the screenshot command reports an error. *)
Theorem captureFrame_timestamp_unchanged :
  forall (inputPath originalFileName : string) (s : St),
    let outputDir := js_or_str (env s !! "TEMP_DIR") "temp" in
    let thumbnailName := path_parse_name originalFileName +:+ "_thumbnail.jpg" in
    let r := captureFrame inputPath originalFileName s in
    match ensureDir outputDir with
    | Some msg =>
        fst r = Thrown msg /\ events (snd r) = events s ++ [EvEnsureDir outputDir]
    | None =>
        events (snd r) =
        events s ++
        [EvEnsureDir outputDir;
         EvScreenshot inputPath (frameCaptureTime (this s)) thumbnailName
           outputDir "1280x720"]
        /\ match screenshots inputPath (frameCaptureTime (this s)) thumbnailName
                   outputDir "1280x720" with
           | inr _ => fst r = Returned (path_join outputDir thumbnailName)
           | inl err => fst r = Thrown ("Failed to capture frame: " +:+ err)
           end
    end.
Proof.
  intros inputPath originalFileName s outputDir thumbnailName r. subst r.
  rewrite captureFrame_run. cbv zeta. fold outputDir. fold thumbnailName.
  destruct (ensureDir outputDir); [split; reflexivity |].
  destruct (screenshots _ _ _ _ _); split; reflexivity.
Qed.

(** ** File sizes, transcoding and segment extraction *)

Lemma getFileSize_run (filePath : string) (s : St) :
  getFileSize filePath s =
  match files s !! filePath with
  | Some sz => (Returned sz, log s [EvStat filePath])
  | None =>
      (Thrown ("Failed to get file size: " +:+ stat_error filePath),
       log s [EvStat filePath])
  end.
Proof.
  unfold getFileSize, try_catch, fs_stat, mbind, M_bind, bind, emit, throw.
  cbn [files]. destruct (files s !! filePath); reflexivity.
Qed.

Lemma compressVideo_run (inputPath originalFileName : string) (s : St) :
  let outputDir := js_or_str (env s !! "TEMP_DIR") "temp" in
  let outputPath :=
    path_join outputDir (path_parse_name originalFileName +:+ "_processed.mp4") in
  let enc := EvTranscode inputPath (preset (this s)) outputPath in
  compressVideo inputPath originalFileName s =
  match ensureDir outputDir with
  | Some msg => (Thrown msg, log s [EvEnsureDir outputDir])
  | None =>
      match read_videoCodec_error (preset (this s)) with
      | Some message => (Thrown message, log s [EvEnsureDir outputDir])
      | None =>
          match transcode inputPath (preset (this s)) outputPath with
          | inr sz =>
              (Returned outputPath,
               put (log s [EvEnsureDir outputDir; enc]) outputPath sz)
          | inl err =>
              (Thrown ("Failed to compress video: " +:+ err),
               log s [EvEnsureDir outputDir; enc])
          end
      end
  end.
Proof.
  intros outputDir outputPath enc. subst enc.
  unfold compressVideo, temp_dir, fs_ensureDir, mbind, M_bind, bind, emit,
    get_env, get_this, ret, throw. cbn [this env files events].
  fold outputDir. fold outputPath.
  destruct (ensureDir outputDir); [reflexivity |]. cbn [this env files events].
  destruct (read_videoCodec_error _); [reflexivity |].
  cbn [this env files events].
  destruct (transcode _ _ _); unfold log, put, write_file;
    cbn [this env files events]; rewrite <- app_assoc; reflexivity.
Qed.

Lemma extractVideoSegment_run (inputPath outputPath : string)
    (startTime endTime : jsnum) (s : St) :
  let ev :=
    EvExtract inputPath outputPath startTime (js_sub endTime startTime) in
  extractVideoSegment inputPath outputPath startTime endTime s =
  match extract inputPath outputPath startTime (js_sub endTime startTime) with
  | inr sz => (Returned outputPath, put (log s [ev]) outputPath sz)
  | inl err =>
      (Thrown ("Failed to extract video segment: " +:+ err), log s [ev])
  end.
Proof.
  intros ev. subst ev.
  unfold extractVideoSegment, mbind, M_bind, bind, emit.
  destruct (extract _ _ _ _); reflexivity.
Qed.

Lemma js_lt_num (i n : Z) : js_lt (num i) (num n) = (i <? n).
Proof.
  unfold js_lt, num, Qle_bool, inject_Z; cbn. rewrite !Z.mul_1_r.
  destruct (Z.leb_spec n i), (Z.ltb_spec i n); (reflexivity || lia).
Qed.

(** ** The splitting loop *)

(** A loop that returns has extracted the segments [i], [i+1], ... up to the
    bound, one artifact and two calls for each, in order. *)
Lemma split_loop_returned (v dir base : string) (n : Z) (dpp : jsnum) :
  forall (fuel : nat) (i : Z) (parts : list Artifact.t) (s s' : St)
         (arts : list Artifact.t),
    split_loop fuel v dir base (num n) dpp i parts s = (Returned arts, s') ->
    exists sizes : list Z,
      length sizes = Z.to_nat (n - i)
      /\ arts = parts ++ zip_with (part_artifact dir base (num n))
                           (seqZ i (n - i)) sizes
      /\ events s' =
         events s ++ concat (segment_events v dir base dpp <$> seqZ i (n - i)).
Proof.
  induction fuel as [| fuel IH]; intros i parts s s' arts; cbn [split_loop].
  - discriminate.
  - rewrite js_lt_num. destruct (Z.ltb_spec i n) as [Hlt | Hge].
    + unfold mbind, M_bind, bind. rewrite extractVideoSegment_run. cbv zeta.
      fold (part_name base i).
      destruct (extract _ _ _ _) as [err | sz]; [discriminate |].
      rewrite getFileSize_run. cbn [files put log].
      rewrite lookup_insert_eq.
      intros H. apply IH in H. destruct H as (sizes & Hlen & Harts & Hev).
      exists (sz :: sizes).
      rewrite (seqZ_cons i (n - i)) by lia.
      replace (Z.pred (n - i)) with (n - (i + 1)) by lia.
      replace (Z.succ i) with (i + 1) by lia.
      split; [cbn [length]; rewrite Hlen; lia |]. split.
      * rewrite Harts, <- app_assoc. reflexivity.
      * rewrite Hev. cbn [log put events fmap list_fmap concat].
        rewrite <- !app_assoc. reflexivity.
    + intros [= <- <-]. exists [].
      rewrite seqZ_nil by lia.
      split; [cbn; lia |]. split; cbn; rewrite app_nil_r; reflexivity.
Qed.

(** With more fuel than segments left, the loop ends by itself. *)
Lemma split_loop_fuel (v dir base : string) (n : Z) (dpp : jsnum) :
  forall (fuel : nat) (i : Z) (parts : list Artifact.t) (s : St),
    (Z.to_nat (n - i) < fuel)%nat ->
    fst (split_loop fuel v dir base (num n) dpp i parts s) <> OutOfFuel.
Proof.
  induction fuel as [| fuel IH]; intros i parts s Hf; [lia |].
  cbn [split_loop]. rewrite js_lt_num.
  destruct (Z.ltb_spec i n) as [Hlt | Hge]; [| discriminate].
  unfold mbind, M_bind, bind. rewrite extractVideoSegment_run. cbv zeta.
  destruct (extract _ _ _ _) as [err | sz]; [discriminate |].
  rewrite getFileSize_run. cbn [files put log]. rewrite lookup_insert_eq.
  apply IH. lia.
Qed.


Lemma analyzeVideo_state (inputPath : string) (s : St) :
  snd (analyzeVideo inputPath s) = log s [EvProbe inputPath].
Proof.
  rewrite analyzeVideo_run. destruct (ffprobe inputPath); [reflexivity |].
  cbv zeta. destruct (js_eval _); reflexivity.
Qed.

Lemma analyzeVideo_uses_no_fuel (inputPath : string) (s : St) :
  fst (analyzeVideo inputPath s) <> OutOfFuel.
Proof.
  rewrite analyzeVideo_run. destruct (ffprobe inputPath); [discriminate |].
  cbv zeta. destruct (js_eval _); discriminate.
Qed.

(** The size in megabytes of a file below 2^53 bytes is exact. *)
Lemma js_div_MB (z : Z) :
  0 <= z < 2 ^ 53 ->
  js_div (num z) (num (1024 * 1024))
  = Fin (Qred (inject_Z z / inject_Z (1024 * 1024))).
Proof.
  intros Hz. unfold js_div, num. rewrite Qis_zero_inject.
  change (1024 * 1024 =? 0) with false. cbv iota.
  apply (nearest_exact _ z (-20)); [| lia | lia].
  change (pow2 (-20)) with (/ inject_Z (1024 * 1024))%Q. reflexivity.
Qed.

Lemma Qceiling_unique (r : Q) (c : Z) :
  (inject_Z (c - 1) < r)%Q -> (r <= inject_Z c)%Q -> Qceiling r = c.
Proof.
  intros Hl Hu.
  pose proof (Qceiling_lt r) as H1. pose proof (Qle_ceiling r) as H2.
  assert (H3 : (inject_Z (Qceiling r - 1) < inject_Z c)%Q) by lra.
  assert (H4 : (inject_Z (c - 1) < inject_Z (Qceiling r))%Q) by lra.
  rewrite <- Zlt_Qlt in H3, H4. lia.
Qed.

(** Below 2^53 bytes and above an integer ceiling of at least 1, rounding
    does not change the number of parts. *)
Lemma partsNeeded_exact (z k : Z) :
  0 <= z < 2 ^ 53 -> 1 <= k ->
  (inject_Z k < inject_Z z / inject_Z (1024 * 1024))%Q ->
  js_ceil (js_div (js_div (num z) (num (1024 * 1024))) (num k))
  = num (Qceiling (inject_Z z / inject_Z (1024 * 1024) / inject_Z k)).
Proof.
  intros Hz Hk Hgt.
  rewrite js_div_MB by exact Hz.
  set (zq := inject_Z z) in *. set (kq := inject_Z k) in *.
  set (M := inject_Z (1024 * 1024)) in *.
  assert (HM : (M == 1048576)%Q) by reflexivity.
  assert (Hkq : (1 <= kq)%Q).
  { unfold kq. change 1%Q with (inject_Z 1). rewrite <- Zle_Qle. exact Hk. }
  assert (Hzq : (0 <= zq)%Q /\ (zq <= 9007199254740991)%Q).
  { unfold zq. change 0%Q with (inject_Z 0).
    change 9007199254740991%Q with (inject_Z (2 ^ 53 - 1)).
    rewrite <- !Zle_Qle. lia. }
  assert (Hknz : ~ (kq == 0)%Q) by (intros E; rewrite E in Hkq; lra).
  unfold js_div at 1, num at 1. fold kq. rewrite (Qis_zero_false kq Hknz).
  set (x := (Qred (zq / M) / kq)%Q).
  set (dq := (M * kq)%Q).
  assert (Hdq : (1048576 <= dq)%Q).
  { unfold dq. rewrite HM.
    assert (H := Qmult_le_l 1 kq 1048576). lra. }
  assert (Hdnz : ~ (dq == 0)%Q) by (intros E; rewrite E in Hdq; lra).
  assert (Hx : (x == zq / dq)%Q).
  { unfold x, dq. rewrite Qred_correct. field.
    repeat split; first [exact Hknz | rewrite HM; discriminate]. }
  assert (Hxd : (x * dq == zq)%Q) by (rewrite Hx; field; exact Hdnz).
  assert (Hzk : (kq * M < zq)%Q).
  { assert (H : (kq * M < zq / M * M)%Q).
    { apply Qmult_lt_compat_r; [rewrite HM; reflexivity | exact Hgt]. }
    assert (E : (zq / M * M == zq)%Q) by (field; rewrite HM; discriminate).
    lra. }
  assert (Hzd : (dq < zq)%Q) by (unfold dq; lra).
  assert (Hdq53 : (dq <= 9007199254740991)%Q) by lra.
  set (u := (/ dq)%Q).
  assert (Hud : (u * dq == 1)%Q) by (unfold u; field; exact Hdnz).
  assert (Hu0 : (0 < u)%Q) by (unfold u; apply Qinv_lt_0_compat; lra).
  assert (Hxu : (x == zq * u)%Q) by (rewrite Hx; unfold u; field; exact Hdnz).
  assert (Hx1 : (1 < x)%Q).
  { rewrite Hx. apply Qlt_shift_div_l; lra. }
  assert (Hxb : (x <= zq)%Q).
  { rewrite Hx. apply Qle_shift_div_r; [lra |].
    assert (zq * 1 <= zq * dq)%Q by (apply Qmult_le_l; lra). lra. }
  (* bounds on u *)
  assert (Hu53 : (1 <= u * 9007199254740991)%Q).
  { assert (u * dq <= u * 9007199254740991)%Q by (apply Qmult_le_l; lra).
    lra. }
  assert (Hxu53 : (x <= 9007199254740991 * u)%Q).
  { rewrite Hxu. apply Qmult_le_compat_r; lra. }
  destruct (nearest_error x) as (r & Hr & Herr & _).
  { rewrite Qabs_pos by lra.
    assert (9007199254740991 <= pow2 1023)%Q by (vm_compute; discriminate).
    lra. }
  rewrite Hr. cbn [js_ceil]. f_equal.
  rewrite (Qabs_pos x) in Herr by lra.
  change (pow2 (-53)) with (1 # 9007199254740992)%Q in Herr.
  assert (Heta : (pow2 (-1075) * 9007199254740992 * 9007199254740992 < 1)%Q)
    by (vm_compute; reflexivity).
  set (eta := pow2 (-1075)) in *.
  assert (Heta0 : (0 < eta)%Q) by apply pow2_pos.
  apply Qabs_Qle_condition in Herr. destruct Herr as [Hel Heu].
  set (c := Qceiling (zq / M / kq)).
  assert (Hcx : Qceiling x = c).
  { unfold c. apply Qceiling_comp. rewrite Hx. unfold dq. field.
    repeat split; first [exact Hknz | rewrite HM; discriminate]. }
  pose proof (Qceiling_lt x) as Hc1. pose proof (Qle_ceiling x) as Hc2.
  rewrite Hcx in Hc1, Hc2.
  (* the gaps *)
  assert (Hlow : (inject_Z (c - 1) + u <= x)%Q).
  { assert (H1 : (inject_Z (c - 1) * dq < zq)%Q).
    { rewrite <- Hxd. apply Qmult_lt_compat_r; lra. }
    assert (H2 : (inject_Z (c - 1) * dq + 1 <= zq)%Q).
    { unfold dq, M, kq, zq in *. rewrite <- !inject_Z_mult in *.
      change 1%Q with (inject_Z 1). rewrite <- inject_Z_plus.
      rewrite <- Zlt_Qlt in H1. rewrite <- Zle_Qle. lia. }
    assert (H3 : ((inject_Z (c - 1) * dq + 1) * u <= zq * u)%Q).
    { apply Qmult_le_compat_r; lra. }
    assert (E : ((inject_Z (c - 1) * dq + 1) * u == inject_Z (c - 1) + u)%Q).
    { unfold u. field. exact Hdnz. }
    lra. }
  assert (Hhigh : (x == inject_Z c)%Q \/ (x + u <= inject_Z c)%Q).
  { destruct (Qle_lt_or_eq _ _ Hc2) as [Hlt | Heq]; [right | left; exact Heq].
    assert (H1 : (zq < inject_Z c * dq)%Q).
    { rewrite <- Hxd. apply Qmult_lt_compat_r; lra. }
    assert (H2 : (zq + 1 <= inject_Z c * dq)%Q).
    { unfold dq, M, kq, zq in *. rewrite <- !inject_Z_mult in *.
      change 1%Q with (inject_Z 1). rewrite <- inject_Z_plus.
      rewrite <- Zlt_Qlt in H1. rewrite <- Zle_Qle. lia. }
    assert (H3 : ((zq + 1) * u <= inject_Z c * dq * u)%Q).
    { apply Qmult_le_compat_r; lra. }
    assert (E : (inject_Z c * dq * u == inject_Z c)%Q).
    { unfold u. field. exact Hdnz. }
    lra. }
  assert (Heta_u : (eta * 9007199254740992 < u)%Q).
  { assert (eta * 9007199254740992 * 9007199254740991
            <= eta * 9007199254740992 * 9007199254740992)%Q.
    { apply Qmult_le_l; [| lra].
      apply Qmult_lt_0_compat; [exact Heta0 | reflexivity]. }
    assert (H5 : (eta * 9007199254740992 * 9007199254740991 < u * 9007199254740991)%Q) by lra.
    apply Qmult_lt_r in H5; [exact H5 | reflexivity]. }
  apply Qceiling_unique.
  - lra.
  - destruct Hhigh as [Heq | Hlt]; [| lra].
    assert (Hexact : nearest x = Fin (Qred x)).
    { apply (nearest_exact x c 0).
      - rewrite Heq. change (pow2 0) with 1%Q. ring.
      - assert (H6 : (inject_Z c <= 9007199254740991)%Q) by lra.
        assert (H7 : (0 < inject_Z c)%Q) by lra.
        change 9007199254740991%Q with (inject_Z (2 ^ 53 - 1)) in H6.
        change 0%Q with (inject_Z 0) in H7.
        rewrite <- Zle_Qle in H6. rewrite <- Zlt_Qlt in H7. lia.
      - lia. }
    rewrite Hexact in Hr. injection Hr as <-. rewrite Qred_correct. lra.
Qed.

Lemma parts_at_least_two (a m : Q) :
  (0 < m)%Q -> ~ (a <= m)%Q -> 2 <= Qceiling (a / m).
Proof.
  intros Hm Hgt. apply Qnot_le_lt in Hgt.
  assert (H1 : (1 < a / m)%Q).
  { apply Qlt_shift_div_l; [exact Hm |]. rewrite Qmult_1_l. exact Hgt. }
  pose proof (Qle_ceiling (a / m)) as Hc.
  assert (H2 : (inject_Z 1 < inject_Z (Qceiling (a / m)))%Q).
  { eapply Qlt_le_trans; [exact H1 | exact Hc]. }
  rewrite <- Zlt_Qlt in H2. lia.
Qed.

(** A split that returns: one probe and one stat of the transcoded file, the
    segments in order, then the removal of the transcoded file. *)
Lemma splitVideo_returned (fuel : nat) (v o : string) (s s' : St)
    (arts : list Artifact.t) (fileSize n : Z) :
  files s !! v = Some fileSize ->
  js_ceil (js_div (js_div (num fileSize) (num (1024 * 1024)))
             (maxVideoSizeMB (this s))) = num n ->
  splitVideo fuel v o s = (Returned arts, s') ->
  let dir := js_or_str (env s !! "TEMP_DIR") "temp" in
  let base := path_parse_name o in
  exists (info : VideoInfo.t) (sizes : list Z),
    fst (analyzeVideo v s) = Returned info
    /\ length sizes = Z.to_nat n
    /\ arts = zip_with (part_artifact dir base (num n)) (seqZ 0 n) sizes
    /\ events s' =
       events s ++ [EvProbe v; EvStat v]
       ++ concat (segment_events v dir base
                    (js_div (js_parseFloat (VideoInfo.duration info)) (num n))
                  <$> seqZ 0 n)
       ++ [EvRemove v].
Proof.
  intros Hfile Hn. unfold splitVideo, mbind, M_bind, bind.
  pose proof (analyzeVideo_state v s) as Hs1.
  destruct (analyzeVideo v s) as [[info | | | ] s1]; try discriminate.
  cbn [snd] in Hs1. subst s1.
  rewrite getFileSize_run. cbn [files log]. rewrite Hfile.
  unfold get_this, temp_dir, get_env, ret, mbind, M_bind, bind.
  cbn [this env log]. rewrite Hn.
  set (dir := js_or_str _ _).
  destruct (split_loop _ _ _ _ _ _ _ _ _) as [[parts | | | ] s2] eqn:Hloop;
    try discriminate.
  apply split_loop_returned in Hloop.
  destruct Hloop as (sizes & Hlen & Harts & Hev).
  unfold fs_remove, emit, delete_file, throw, mbind, M_bind, bind.
  destruct (remove_error v); [discriminate |].
  intros [= <- <-]. cbv zeta. exists info, sizes.
  rewrite Z.sub_0_r in *. cbn [app] in Harts.
  split; [reflexivity |]. split; [exact Hlen |]. split; [exact Harts |].
  cbn [events]. rewrite Hev. cbn [events log].
  rewrite <- !app_assoc. reflexivity.
Qed.

Lemma checkAndSplitVideo_run (fuel : nat) (v o : string) (s : St) :
  checkAndSplitVideo fuel v o s =
  match files s !! v with
  | Some fileSize =>
      if js_le (js_div (num fileSize) (num (1024 * 1024)))
           (maxVideoSizeMB (this s))
      then (Returned [ {| Artifact.path := v;
                          Artifact.name := path_basename v;
                          Artifact.type := "video";
                          Artifact.size := fileSize;
                          Artifact.part := None;
                          Artifact.totalParts := None |} ],
            log s [EvStat v])
      else splitVideo fuel v o (log s [EvStat v])
  | None =>
      (Thrown ("Failed to get file size: " +:+ stat_error v), log s [EvStat v])
  end.
Proof.
  unfold checkAndSplitVideo, mbind, M_bind, bind. rewrite getFileSize_run.
  destruct (files s !! v) as [fileSize |]; [| reflexivity].
  unfold get_this. cbn [this log].
  destruct (js_le _ _); reflexivity.
Qed.

Lemma splitVideo_fuel (fuel : nat) (v o : string) (s : St) (fileSize n : Z) :
  files s !! v = Some fileSize ->
  js_ceil (js_div (js_div (num fileSize) (num (1024 * 1024)))
             (maxVideoSizeMB (this s))) = num n ->
  (Z.to_nat n < fuel)%nat ->
  fst (splitVideo fuel v o s) <> OutOfFuel.
Proof.
  intros Hfile Hn Hfuel. unfold splitVideo, mbind, M_bind, bind.
  pose proof (analyzeVideo_state v s) as Hs1.
  pose proof (analyzeVideo_uses_no_fuel v s) as Hnf.
  destruct (analyzeVideo v s) as [[info | | | ] s1]; try discriminate;
    [| exfalso; apply Hnf; reflexivity].
  cbn [snd] in Hs1. subst s1.
  rewrite getFileSize_run. cbn [files log]. rewrite Hfile.
  unfold get_this, temp_dir, get_env, ret, mbind, M_bind, bind.
  cbn [this env log]. rewrite Hn.
  match goal with
  | |- context [ split_loop ?f ?a ?b ?c (num ?n) ?d ?i ?p ?st ] =>
      pose proof (split_loop_fuel a b c n d f i p st) as Hl;
      destruct (split_loop f a b c (num n) d i p st) as [[parts | | | ] s2]
  end; try (cbn [fst]; discriminate).
  - unfold fs_remove, emit, delete_file, throw, mbind, M_bind, bind.
    destruct (remove_error v); cbn [fst]; discriminate.
  - exfalso. apply Hl; [| reflexivity]. rewrite Z.sub_0_r. exact Hfuel.
Qed.


(** When every extraction it asks for succeeds, the loop returns. *)
Lemma split_loop_succeeds (v dir base : string) (n : Z) (dpp : jsnum) :
  forall (fuel : nat) (i : Z) (parts : list Artifact.t) (s : St),
    (Z.to_nat (n - i) < fuel)%nat ->
    (forall j, i <= j < n ->
       exists sz,
         extract v (path_join dir (part_name base j)) (js_mul (num j) dpp)
           (js_sub (js_mul (num (j + 1)) dpp) (js_mul (num j) dpp)) = inr sz) ->
    exists arts s',
      split_loop fuel v dir base (num n) dpp i parts s = (Returned arts, s').
Proof.
  induction fuel as [| fuel IH]; intros i parts s Hf Hx; [lia |].
  cbn [split_loop]. rewrite js_lt_num.
  destruct (Z.ltb_spec i n) as [Hlt | Hge]; [| eauto].
  unfold mbind, M_bind, bind. rewrite extractVideoSegment_run. cbv zeta.
  fold (part_name base i).
  destruct (Hx i) as [sz Hsz]; [lia |]. rewrite Hsz.
  rewrite getFileSize_run. cbn [files put log]. rewrite lookup_insert_eq.
  apply IH; [lia |]. intros j Hj. apply Hx. lia.
Qed.

Lemma analyzeVideo_outcome_fixed (inputPath : string) (s s' : St) :
  fst (analyzeVideo inputPath s) = fst (analyzeVideo inputPath s').
Proof.
  rewrite !analyzeVideo_run. destruct (ffprobe inputPath); [reflexivity |].
  cbv zeta. destruct (js_eval _); reflexivity.
Qed.

(** When the probe, every extraction and the final removal succeed, and the
    fuel exceeds the number of parts, [splitVideo] returns. *)
Lemma splitVideo_succeeds (fuel : nat) (v o : string) (s : St)
    (fileSize n : Z) (info : VideoInfo.t) :
  files s !! v = Some fileSize ->
  js_ceil (js_div (js_div (num fileSize) (num (1024 * 1024)))
             (maxVideoSizeMB (this s))) = num n ->
  let dir := js_or_str (env s !! "TEMP_DIR") "temp" in
  let base := path_parse_name o in
  let dpp := js_div (js_parseFloat (VideoInfo.duration info)) (num n) in
  fst (analyzeVideo v s) = Returned info ->
  remove_error v = None ->
  (forall j, 0 <= j < n ->
     exists sz,
       extract v (path_join dir (part_name base j)) (js_mul (num j) dpp)
         (js_sub (js_mul (num (j + 1)) dpp) (js_mul (num j) dpp)) = inr sz) ->
  (Z.to_nat n < fuel)%nat ->
  exists arts, fst (splitVideo fuel v o s) = Returned arts.
Proof.
  intros Hfile Hn dir base dpp Hinfo Hrm Hx Hfuel.
  unfold splitVideo, mbind, M_bind, bind.
  pose proof (analyzeVideo_state v s) as Hs1.
  destruct (analyzeVideo v s) as [[info' | | | ] s1]; try discriminate.
  cbn [fst] in Hinfo. injection Hinfo as ->.
  cbn [snd] in Hs1. subst s1.
  rewrite getFileSize_run. cbn [files log]. rewrite Hfile.
  unfold get_this, temp_dir, get_env, ret, mbind, M_bind, bind.
  cbn [this env log]. rewrite Hn.
  fold dir. fold base. fold dpp.
  match goal with
  | |- context [ split_loop fuel v dir base (num n) dpp 0 [] ?st ] =>
      destruct (split_loop_succeeds v dir base n dpp fuel 0 [] st)
        as (arts & s2 & Hloop)
  end.
  { rewrite Z.sub_0_r. exact Hfuel. }
  { exact Hx. }
  rewrite Hloop.
  unfold fs_remove, emit, delete_file, throw, mbind, M_bind, bind.
  rewrite Hrm. exists arts. reflexivity.
Qed.

(** ** Size check and split *)

(** C1, as the code has it.  A transcoded file whose size in megabytes is at
    most [maxVideoSizeMB] is returned as the single video artifact, the file
    itself, with no [part] and [totalParts] and nothing done but reading its
    size.  A larger one is cut: with [partsNeeded] the value of
    [Math.ceil(fileSizeMB / maxVideoSizeMB)], a list that is returned has
    [partsNeeded] video artifacts named <base>_part1.mp4 ...
    <base>_part<partsNeeded>.mp4, the i-th tagged [part = i] and
    [totalParts = partsNeeded], and none at all when [partsNeeded] is zero
    or negative; with more fuel than parts the loop ends by itself, and the
    list is returned whenever the probe, the extractions and the final
    removal succeed.  Under an integer ceiling of at least 1 and for a file
    below 2^53 bytes, rounding plays no part: the size in megabytes is exact,
    it is compared with the ceiling as in exact arithmetic, and above the
    ceiling [partsNeeded] is the ceiling of the exact quotient, which is at
    least 2. *)
Theorem checkAndSplitVideo_result :
  forall (fuel : nat) (videoPath originalFileName : string) (s : St)
         (fileSize : Z),
    files s !! videoPath = Some fileSize ->
    let fileSizeMB := js_div (num fileSize) (num (1024 * 1024)) in
    let outputDir := js_or_str (env s !! "TEMP_DIR") "temp" in
    let baseName := path_parse_name originalFileName in
    let r := checkAndSplitVideo fuel videoPath originalFileName s in
    (js_le fileSizeMB (maxVideoSizeMB (this s)) = true ->
     r = (Returned [ {| Artifact.path := videoPath;
                        Artifact.name := path_basename videoPath;
                        Artifact.type := "video";
                        Artifact.size := fileSize;
                        Artifact.part := None;
                        Artifact.totalParts := None |} ],
          log s [EvStat videoPath]))
    /\ (js_le fileSizeMB (maxVideoSizeMB (this s)) = false ->
        forall partsNeeded : Z,
          js_ceil (js_div fileSizeMB (maxVideoSizeMB (this s)))
          = num partsNeeded ->
          ((Z.to_nat partsNeeded < fuel)%nat -> fst r <> OutOfFuel)
          /\ (forall info,
                (Z.to_nat partsNeeded < fuel)%nat ->
                fst (analyzeVideo videoPath s) = Returned info ->
                remove_error videoPath = None ->
                (forall i,
                   0 <= i < partsNeeded ->
                   exists sz,
                     extract videoPath
                       (path_join outputDir
                          (baseName +:+ "_part" +:+ pretty (i + 1) +:+ ".mp4"))
                       (js_mul (num i)
                          (js_div (js_parseFloat (VideoInfo.duration info))
                             (num partsNeeded)))
                       (js_sub
                          (js_mul (num (i + 1))
                             (js_div (js_parseFloat (VideoInfo.duration info))
                                (num partsNeeded)))
                          (js_mul (num i)
                             (js_div (js_parseFloat (VideoInfo.duration info))
                                (num partsNeeded))))
                     = inr sz) ->
                exists arts, fst r = Returned arts)
          /\ forall arts,
               fst r = Returned arts ->
               Z.of_nat (length arts) = Z.max 0 partsNeeded
               /\ forall i,
                    0 <= i < partsNeeded ->
                    exists sz,
                      arts !! Z.to_nat i =
                      Some {| Artifact.path :=
                                path_join outputDir
                                  (baseName +:+ "_part" +:+ pretty (i + 1)
                                   +:+ ".mp4");
                              Artifact.name :=
                                baseName +:+ "_part" +:+ pretty (i + 1)
                                +:+ ".mp4";
                              Artifact.type := "video";
                              Artifact.size := sz;
                              Artifact.part := Some (i + 1);
                              Artifact.totalParts :=
                                Some (num partsNeeded) |})
    /\ (forall k : Z,
          maxVideoSizeMB (this s) = num k -> 1 <= k ->
          0 <= fileSize < 2 ^ 53 ->
          let exactMB := (inject_Z fileSize / inject_Z (1024 * 1024))%Q in
          (js_le fileSizeMB (num k) = true <-> (exactMB <= inject_Z k)%Q)
          /\ (~ (exactMB <= inject_Z k)%Q ->
              js_ceil (js_div fileSizeMB (num k))
              = num (Qceiling (exactMB / inject_Z k))
              /\ 2 <= Qceiling (exactMB / inject_Z k))).
Proof.
  intros fuel v o s fileSize Hfile sizeMB dir base r. subst r.
  rewrite checkAndSplitVideo_run, Hfile. fold sizeMB. split; [| split].
  3: { intros k Hmax Hk Hsz exactMB.
       assert (Hkq : (0 < inject_Z k)%Q).
       { change 0%Q with (inject_Z 0). rewrite <- Zlt_Qlt. lia. }
       split.
       - unfold sizeMB. rewrite (js_div_MB fileSize Hsz). cbn [js_le num].
         rewrite Qle_bool_iff, Qred_correct. reflexivity.
       - intros Hgt. split.
         + unfold sizeMB. apply partsNeeded_exact; [exact Hsz | exact Hk |].
           apply Qnot_le_lt. exact Hgt.
         + apply parts_at_least_two; assumption. }
  - intros ->. reflexivity.
  - intros -> n Hn.
    assert (Hn' : js_ceil
                    (js_div (js_div (num fileSize) (num (1024 * 1024)))
                       (maxVideoSizeMB (this (log s [EvStat v])))) = num n)
      by exact Hn.
    assert (Hfile' : files (log s [EvStat v]) !! v = Some fileSize)
      by exact Hfile.
    split; [| split].
    + intros Hfuel.
      exact (splitVideo_fuel fuel v o _ fileSize n Hfile' Hn' Hfuel).
    + intros info Hfuel Hinfo Hrm Hx.
      apply (splitVideo_succeeds fuel v o _ fileSize n info Hfile' Hn');
        auto.
      rewrite <- Hinfo. apply analyzeVideo_outcome_fixed.
    + intros arts Hr.
      destruct (splitVideo fuel v o (log s [EvStat v])) as [out s'] eqn:Hsplit.
      cbn [fst] in Hr. subst out.
      apply (splitVideo_returned fuel v o _ s' arts fileSize n Hfile' Hn')
        in Hsplit.
      cbv zeta in Hsplit. cbn [env log] in Hsplit.
      fold dir in Hsplit. fold base in Hsplit.
      destruct Hsplit as (info & sizes & _ & Hlen & Harts & _).
      assert (Hlen' : length arts = Z.to_nat n).
      { rewrite Harts, length_zip_with, length_seqZ, Hlen. lia. }
      split; [lia |].
      intros i Hi.
      destruct (lookup_lt_is_Some_2 sizes (Z.to_nat i)) as [sz Hsz]; [lia |].
      exists sz. rewrite Harts, lookup_zip_with.
      rewrite lookup_seqZ_lt by lia. cbn [mbind option_bind].
      rewrite Hsz. cbn [mbind option_bind].
      rewrite Z2Nat.id by lia. reflexivity.
Qed.

(** ** The requested time ranges *)

Lemma requested_segments (v dir base : string) (dpp : jsnum) (l : list Z) :
  requested (concat (segment_events v dir base dpp <$> l)) =
  (fun i => (js_mul (num i) dpp,
             js_sub (js_mul (num (i + 1)) dpp) (js_mul (num i) dpp))) <$> l.
Proof.
  induction l as [| i l IH]; [reflexivity |].
  cbn [fmap list_fmap concat]. unfold requested in *.
  rewrite omap_app, IH. reflexivity.
Qed.

(** The product of the number of parts and the rounded quotient of the
    duration by it misses the duration by little. *)
Lemma last_bound_near (D : Q) (n : Z) :
  (0 <= D)%Q -> (D <= pow2 1000)%Q -> 1 <= n <= 2 ^ 53 ->
  js_mul (num 0) (js_div (Fin D) (num n)) = Fin 0
  /\ exists E,
       js_mul (num n) (js_div (Fin D) (num n)) = Fin E
       /\ (Qabs (E - D) <= D * pow2 (-51) + pow2 (-1020))%Q.
Proof.
  intros HD0 HD Hn.
  set (nq := inject_Z n).
  assert (Hnq : (1 <= nq)%Q).
  { unfold nq. change 1%Q with (inject_Z 1). rewrite <- Zle_Qle. lia. }
  assert (Hnq' : (nq <= 9007199254740992)%Q).
  { unfold nq. change 9007199254740992%Q with (inject_Z (2 ^ 53)).
    rewrite <- Zle_Qle. lia. }
  set (x := (D / nq)%Q).
  assert (Hnz : ~ (nq == 0)%Q) by (intros E; rewrite E in Hnq; lra).
  assert (Hx : (nq * x == D)%Q) by (unfold x; field; exact Hnz).
  assert (Hx0 : (0 <= x)%Q).
  { unfold x. apply Qle_shift_div_l; lra. }
  assert (HxD : (x <= D)%Q).
  { unfold x. apply Qle_shift_div_r; [lra |].
    assert (H := Qmult_le_l 1 nq D). nra. }
  assert (H1000 : (pow2 1000 + pow2 1000 + 1 <= pow2 1023)%Q)
    by (vm_compute; discriminate).
  unfold js_div, num. fold nq. rewrite (Qis_zero_false nq Hnz). fold x.
  destruct (nearest_error x) as (p & -> & Hp & Hp0 & _).
  { rewrite Qabs_pos by lra. lra. }
  specialize (Hp0 Hx0). rewrite (Qabs_pos x) in Hp by lra.
  apply Qabs_Qle_condition in Hp. destruct Hp as [Hpl Hpu].
  change (pow2 (-53)) with (1 # 9007199254740992)%Q in *.
  change (pow2 (-51)) with (1 # 2251799813685248)%Q.
  set (eta := pow2 (-1075)) in *.
  assert (Heta0 : (0 < eta)%Q) by apply pow2_pos.
  assert (Heta : (eta * 18014398509481984 <= pow2 (-1020))%Q)
    by (vm_compute; discriminate).
  assert (Heta1 : (eta * 9007199254740992 <= 1)%Q)
    by (vm_compute; discriminate).
  assert (Hne : (nq * eta <= 9007199254740992 * eta)%Q).
  { apply Qmult_le_compat_r; lra. }
  split.
  { unfold js_mul.
    assert (E : (inject_Z 0 * p == 0)%Q) by ring.
    unfold nearest. rewrite (Qis_zero_true _ E). reflexivity. }
  unfold js_mul.
  assert (Hy1 : (nq * (p - x)
                 <= nq * (x * (1 # 9007199254740992) + eta))%Q).
  { apply Qmult_le_l; lra. }
  assert (Hy2 : (nq * (- (x * (1 # 9007199254740992) + eta))
                 <= nq * (p - x))%Q).
  { apply Qmult_le_l; lra. }
  assert (Hy0 : (0 <= nq * p)%Q) by (apply Qmult_le_0_compat; lra).
  destruct (nearest_error (nq * p)) as (E & -> & HE & _).
  { rewrite Qabs_pos by lra. lra. }
  exists E. split; [reflexivity |].
  rewrite (Qabs_pos (nq * p)) in HE by lra.
  change (pow2 (-53)) with (1 # 9007199254740992)%Q in HE. fold eta in HE.
  apply Qabs_Qle_condition in HE. destruct HE as [HEl HEu].
  apply Qabs_Qle_condition.
  split; lra.
Qed.

(** A multiple of the duration per part, rounded. *)
Lemma bound_error (p : Q) (n i : Z) :
  (0 <= p)%Q -> (inject_Z n * p <= pow2 1002)%Q ->
  0 <= i <= n -> n <= 2 ^ 53 ->
  exists b,
    js_mul (num i) (Fin p) = Fin b
    /\ (0 <= b)%Q
    /\ (Qabs (b - inject_Z i * p) <= p + pow2 (-1075))%Q
    /\ (b <= pow2 1004)%Q.
Proof.
  intros Hp Hnp Hi Hn.
  set (iq := inject_Z i). set (nq := inject_Z n) in *.
  assert (Hiq0 : (0 <= iq)%Q).
  { unfold iq. change 0%Q with (inject_Z 0). rewrite <- Zle_Qle. lia. }
  assert (Hiqn : (iq <= nq)%Q).
  { unfold iq, nq. rewrite <- Zle_Qle. lia. }
  assert (Hnq : (nq <= 9007199254740992)%Q).
  { unfold nq. change 9007199254740992%Q with (inject_Z (2 ^ 53)).
    rewrite <- Zle_Qle. lia. }
  assert (Hip0 : (0 <= iq * p)%Q) by (apply Qmult_le_0_compat; lra).
  assert (Hipn : (iq * p <= nq * p)%Q) by (apply Qmult_le_compat_r; lra).
  assert (Hipp : (iq * p <= 9007199254740992 * p)%Q)
    by (apply Qmult_le_compat_r; lra).
  assert (H1 : (pow2 1002 <= pow2 1023)%Q) by (vm_compute; discriminate).
  assert (H2 : (pow2 1002 + pow2 1002 + 1 <= pow2 1004)%Q)
    by (vm_compute; discriminate).
  assert (H3 : (pow2 (-1075) <= 1)%Q) by (vm_compute; discriminate).
  unfold js_mul, num. fold iq.
  destruct (nearest_error (iq * p)%Q) as (b & E & Hb & Hb0 & _).
  { rewrite Qabs_pos by lra. lra. }
  rewrite E.
  exists b. split; [reflexivity |]. split; [apply Hb0; lra |].
  rewrite (Qabs_pos (iq * p)) in Hb by lra.
  change (pow2 (-53)) with (1 # 9007199254740992)%Q in Hb.
  set (eta := pow2 (-1075)) in *.
  split.
  - eapply Qle_trans; [exact Hb |]. lra.
  - apply Qabs_Qle_condition in Hb. lra.
Qed.

(** One requested duration misses the difference of its bounds by at most
    [step_error]. *)
Lemma duration_error (p : Q) (n i : Z) :
  (0 <= p)%Q -> (inject_Z n * p <= pow2 1002)%Q ->
  0 <= i < n -> n <= 2 ^ 53 ->
  exists b b' d,
    js_mul (num i) (Fin p) = Fin b
    /\ js_mul (num (i + 1)) (Fin p) = Fin b'
    /\ js_sub (Fin b') (Fin b) = Fin d
    /\ (Qabs (d - (b' - b)) <= step_error p)%Q.
Proof.
  intros Hp Hnp Hi Hn.
  destruct (bound_error p n i Hp Hnp ltac:(lia) Hn) as (b & Eb & Hb0 & Hb & Hbm).
  destruct (bound_error p n (i + 1) Hp Hnp ltac:(lia) Hn)
    as (b' & Eb' & Hb0' & Hb' & Hbm').
  assert (Hi1 : (inject_Z (i + 1) * p == inject_Z i * p + p)%Q).
  { rewrite inject_Z_plus. change (inject_Z 1) with 1%Q. ring. }
  rewrite Hi1 in Hb'. clear Hi1.
  set (ip := (inject_Z i * p)%Q) in *.
  apply Qabs_Qle_condition in Hb, Hb'.
  set (eta := pow2 (-1075)) in *.
  assert (H3 : (eta <= 1)%Q) by (vm_compute; discriminate).
  assert (H4 : (pow2 1004 + pow2 1004 <= pow2 1023)%Q)
    by (vm_compute; discriminate).
  assert (Hdiff : (Qabs (b' - b) <= 3 * p + 2 * eta)%Q).
  { apply Qabs_Qle_condition. lra. }
  assert (Hdiff' : (Qabs (b' - b) <= pow2 1023)%Q).
  { apply Qabs_Qle_condition. lra. }
  destruct (nearest_error (b' - b) Hdiff') as (d & Ed & Hd & _).
  exists b, b', d. split; [exact Eb |]. split; [exact Eb' |].
  split; [exact Ed |].
  eapply Qle_trans; [exact Hd |]. unfold step_error. fold eta.
  change (pow2 (-53)) with (1 # 9007199254740992)%Q.
  lra.
Qed.

(** [k] requested durations in a row add up to the difference of the outer
    bounds, within [k] times [step_error]. *)
Lemma durations_sum (p : Q) (n : Z) :
  (0 <= p)%Q -> (inject_Z n * p <= pow2 1002)%Q -> n <= 2 ^ 53 ->
  forall (k : nat) (a : Z),
    0 <= a -> a + Z.of_nat k <= n ->
    exists (ds : list Q) (b b' : Q),
      (fun i => js_sub (js_mul (num (i + 1)) (Fin p)) (js_mul (num i) (Fin p)))
        <$> seqZ a (Z.of_nat k) = Fin <$> ds
      /\ js_mul (num a) (Fin p) = Fin b
      /\ js_mul (num (a + Z.of_nat k)) (Fin p) = Fin b'
      /\ (Qabs (foldr Qplus 0 ds - (b' - b))
          <= inject_Z (Z.of_nat k) * step_error p)%Q.
Proof.
  intros Hp Hnp Hn k. induction k as [| k IH]; intros a Ha Hak.
  - destruct (bound_error p n a Hp Hnp ltac:(lia) Hn) as (b & Eb & _).
    exists [], b, b. split; [reflexivity |]. split; [exact Eb |].
    split; [rewrite Z.add_0_r; exact Eb |].
    cbn [foldr]. apply Qabs_Qle_condition. change (inject_Z (Z.of_nat 0)) with 0%Q.
    lra.
  - destruct (duration_error p n a Hp Hnp ltac:(lia) Hn)
      as (b & b1 & d & Eb & Eb1 & Ed & Hd).
    destruct (IH (a + 1) ltac:(lia) ltac:(lia))
      as (ds & b1' & b' & Eds & Eb1' & Eb' & Hds).
    rewrite Eb1 in Eb1'. injection Eb1' as <-.
    exists (d :: ds), b, b'.
    split.
    { rewrite seqZ_cons by lia. cbn [fmap list_fmap].
      rewrite Eb, Eb1, Ed. f_equal.
      replace (Z.pred (Z.of_nat (S k))) with (Z.of_nat k) by lia.
      exact Eds. }
    split; [exact Eb |].
    split.
    { replace (a + Z.of_nat (S k)) with (a + 1 + Z.of_nat k) by lia. exact Eb'. }
    cbn [foldr].
    replace (Z.of_nat (S k)) with (Z.of_nat k + 1) by lia.
    rewrite inject_Z_plus. change (inject_Z 1) with 1%Q.
    set (kq := inject_Z (Z.of_nat k)) in *.
    set (c := step_error p) in *.
    apply Qabs_Qle_condition in Hd, Hds. apply Qabs_Qle_condition.
    lra.
Qed.

(** The rounded quotient of the duration by the number of parts. *)
Lemma durationPerPart_error (D : Q) (n : Z) :
  (0 <= D)%Q -> (D <= pow2 1000)%Q -> 1 <= n <= 2 ^ 53 ->
  exists p,
    js_div (Fin D) (num n) = Fin p
    /\ (0 <= p)%Q
    /\ (inject_Z n * p
        <= D + D * pow2 (-53) + 9007199254740992 * pow2 (-1075))%Q.
Proof.
  intros HD0 HD Hn.
  set (nq := inject_Z n).
  assert (Hnq : (1 <= nq)%Q).
  { unfold nq. change 1%Q with (inject_Z 1). rewrite <- Zle_Qle. lia. }
  assert (Hnq' : (nq <= 9007199254740992)%Q).
  { unfold nq. change 9007199254740992%Q with (inject_Z (2 ^ 53)).
    rewrite <- Zle_Qle. lia. }
  set (x := (D / nq)%Q).
  assert (Hnz : ~ (nq == 0)%Q) by (intros E; rewrite E in Hnq; lra).
  assert (Hx : (nq * x == D)%Q) by (unfold x; field; exact Hnz).
  assert (Hx0 : (0 <= x)%Q).
  { unfold x. apply Qle_shift_div_l; lra. }
  assert (HxD : (x <= D)%Q).
  { unfold x. apply Qle_shift_div_r; [lra |].
    assert (H := Qmult_le_l 1 nq D). nra. }
  assert (H1000 : (pow2 1000 <= pow2 1023)%Q) by (vm_compute; discriminate).
  unfold js_div, num. fold nq. rewrite (Qis_zero_false nq Hnz). fold x.
  destruct (nearest_error x) as (p & -> & Hp & Hp0 & _).
  { rewrite Qabs_pos by lra. lra. }
  exists p. split; [reflexivity |]. split; [apply Hp0; exact Hx0 |].
  rewrite (Qabs_pos x) in Hp by lra.
  apply Qabs_Qle_condition in Hp. destruct Hp as [_ Hpu].
  change (pow2 (-53)) with (1 # 9007199254740992)%Q in *.
  set (eta := pow2 (-1075)) in *.
  assert (Heta0 : (0 < eta)%Q) by apply pow2_pos.
  assert (Hne : (nq * eta <= 9007199254740992 * eta)%Q).
  { apply Qmult_le_compat_r; lra. }
  assert (Hy1 : (nq * (p - x)
                 <= nq * (x * (1 # 9007199254740992) + eta))%Q).
  { apply Qmult_le_l; lra. }
  lra.
Qed.

(** The requested durations add up to the duration, nearly. *)
Lemma durations_near (D : Q) (n : Z) :
  (0 <= D)%Q -> (D <= pow2 1000)%Q -> 1 <= n <= 2 ^ 53 ->
  let bound := fun i : Z => js_mul (num i) (js_div (Fin D) (num n)) in
  exists ds : list Q,
    (fun i => js_sub (bound (i + 1)) (bound i)) <$> seqZ 0 n = Fin <$> ds
    /\ (Qabs (foldr Qplus 0 ds - D) <= D * pow2 (-49) + pow2 (-1019))%Q.
Proof.
  intros HD0 HD Hn bound.
  destruct (last_bound_near D n HD0 HD Hn) as (E0 & E & EE & HE).
  destruct (durationPerPart_error D n HD0 HD Hn) as (p & Ep & Hp0 & Hnp).
  unfold bound. rewrite Ep in *.
  assert (Hnp' : (inject_Z n * p <= pow2 1002)%Q).
  { eapply Qle_trans; [exact Hnp |].
    assert (H1 : (pow2 1000 + pow2 1000 * pow2 (-53)
                  + 9007199254740992 * pow2 (-1075) <= pow2 1002)%Q)
      by (vm_compute; discriminate).
    change (pow2 (-53)) with (1 # 9007199254740992)%Q in *. lra. }
  destruct (durations_sum p n Hp0 Hnp' ltac:(lia) (Z.to_nat n) 0
              ltac:(lia) ltac:(lia)) as (ds & b & b' & Eds & Eb & Eb' & Hds).
  rewrite Z2Nat.id in * by lia. rewrite Z.add_0_l in Eb'.
  rewrite E0 in Eb. injection Eb as <-.
  rewrite EE in Eb'. injection Eb' as <-.
  exists ds. split; [exact Eds |].
  unfold step_error in Hds.
  change (pow2 (-53)) with (1 # 9007199254740992)%Q in *.
  change (pow2 (-51)) with (1 # 2251799813685248)%Q in *.
  change (pow2 (-49)) with (1 # 562949953421312)%Q.
  set (eta := pow2 (-1075)) in *.
  set (nq := inject_Z n) in *.
  assert (Hnq : (1 <= nq)%Q).
  { unfold nq. change 1%Q with (inject_Z 1). rewrite <- Zle_Qle. lia. }
  assert (Hnq' : (nq <= 9007199254740992)%Q).
  { unfold nq. change 9007199254740992%Q with (inject_Z (2 ^ 53)).
    rewrite <- Zle_Qle. lia. }
  assert (Heta0 : (0 < eta)%Q) by apply pow2_pos.
  assert (Hne : (nq * eta <= 9007199254740992 * eta)%Q).
  { apply Qmult_le_compat_r; lra. }
  assert (Heta : (pow2 (-1020) + 9007199254740997 * eta <= pow2 (-1019))%Q)
    by (vm_compute; discriminate).
  apply Qabs_Qle_condition in HE, Hds. apply Qabs_Qle_condition.
  split; lra.
Qed.

(** C8, as the code has it.  In a split into [partsNeeded] parts, with
    [durationPerPart] the quotient of the duration by [partsNeeded] and
    [bound i] the product of [i] and [durationPerPart], segment [i] is
    requested from [bound i] for [bound (i+1) - bound i] seconds, for [i]
    from 0 below [partsNeeded], and no segment is requested when
    [partsNeeded] is zero or negative.  For a duration [D] of at most 2^1000
    seconds and at least one part, the first range starts at 0, the last
    bound is within [D * 2^-51 + 2^-1020] of [D], and the requested durations
    are finite and add up to [D] within [D * 2^-49 + 2^-1019]. *)
Theorem splitVideo_ranges_tile :
  forall (fuel : nat) (videoPath originalFileName : string) (s s' : St)
         (arts : list Artifact.t) (fileSize : Z) (info : VideoInfo.t)
         (partsNeeded : Z),
    files s !! videoPath = Some fileSize ->
    js_ceil (js_div (js_div (num fileSize) (num (1024 * 1024)))
               (maxVideoSizeMB (this s))) = num partsNeeded ->
    fst (analyzeVideo videoPath s) = Returned info ->
    splitVideo fuel videoPath originalFileName s = (Returned arts, s') ->
    let duration := js_parseFloat (VideoInfo.duration info) in
    let durationPerPart := js_div duration (num partsNeeded) in
    let bound := fun i : Z => js_mul (num i) durationPerPart in
    requested (new_events s s')
    = (fun i => (bound i, js_sub (bound (i + 1)) (bound i)))
      <$> seqZ 0 partsNeeded
    /\ (forall D : Q,
          duration = Fin D -> (0 <= D)%Q -> (D <= pow2 1000)%Q ->
          1 <= partsNeeded <= 2 ^ 53 ->
          bound 0 = Fin 0
          /\ (exists E,
                bound partsNeeded = Fin E
                /\ (Qabs (E - D) <= D * pow2 (-51) + pow2 (-1020))%Q)
          /\ exists durations : list Q,
               snd <$> requested (new_events s s') = Fin <$> durations
               /\ (Qabs (foldr Qplus 0 durations - D)
                   <= D * pow2 (-49) + pow2 (-1019))%Q).
Proof.
  intros fuel v o s s' arts fileSize info n Hfile Hn Hinfo Hsplit
    duration dpp bound.
  assert (Hreq : requested (new_events s s')
                 = (fun i => (bound i, js_sub (bound (i + 1)) (bound i)))
                   <$> seqZ 0 n); [| split; [exact Hreq |]].
  - apply (splitVideo_returned fuel v o s s' arts fileSize n Hfile Hn)
      in Hsplit.
    cbv zeta in Hsplit.
    destruct Hsplit as (info' & sizes & Hinfo' & _ & _ & Hev).
    rewrite Hinfo in Hinfo'. injection Hinfo' as <-.
    unfold new_events. rewrite Hev, drop_app_length.
    unfold requested at 1. rewrite !omap_app. cbn [omap list_omap app].
    rewrite app_nil_r.
    change (omap _ (concat ?l)) with (requested (concat l)).
    rewrite requested_segments. reflexivity.
  - intros D HD HD0 HD1 Hparts. rewrite Hreq. unfold bound, dpp. rewrite HD.
    destruct (last_bound_near D n HD0 HD1 Hparts) as (Hfirst & Hlast).
    split; [exact Hfirst |]. split; [exact Hlast |].
    destruct (durations_near D n HD0 HD1 Hparts) as (ds & Hds & Hsum).
    exists ds. split; [| exact Hsum].
    rewrite <- list_fmap_compose. exact Hds.
Qed.


(** ** The whole job *)

Lemma log_log (s : St) (a b : list Event) :
  log (log s a) b = log s (a ++ b).
Proof. unfold log. cbn [this env files events]. rewrite app_assoc. reflexivity. Qed.

(** The part of [processVideo] that runs once the transcoded file exists. *)
Lemma processVideo_cases_transcoded (fuel : nat) (inputPath originalFileName : string)
    (s : St) :
  let dir := js_or_str (env s !! "TEMP_DIR") "temp" in
  let base := path_parse_name originalFileName in
  let thumbnailPath := path_join dir (base +:+ "_thumbnail.jpg") in
  let processedPath := path_join dir (base +:+ "_processed.mp4") in
  let r := processVideo fuel inputPath originalFileName s in
  (exists evs rest,
     events (snd r) = events s ++ evs
     /\ stage_events inputPath originalFileName s = evs ++ rest
     /\ forall arts, fst r <> Returned arts)
  \/ (exists sz1 sz2,
        transcode inputPath (preset (this s)) processedPath = inr sz2 /\
        let s3 :=
          put (log (put (log s (take 3 (stage_events inputPath originalFileName s)))
                      thumbnailPath sz1)
                 (take 2 (drop 3 (stage_events inputPath originalFileName s))))
            processedPath sz2 in
        r = try_catch
              (processedVideos ← checkAndSplitVideo fuel processedPath
                                   originalFileName;
               thumbnailSize ← getFileSize thumbnailPath;
               mret (processedVideos ++
                     [ {| Artifact.path := thumbnailPath;
                          Artifact.name := base +:+ "_thumbnail.jpg";
                          Artifact.type := "thumbnail";
                          Artifact.size := thumbnailSize;
                          Artifact.part := None;
                          Artifact.totalParts := None |} ]))
              (fun message => throw ("Failed to process video: " +:+ message))
              s3).
Proof.
  intros dir base thumbnailPath processedPath r.
  unfold stage_events. fold dir. fold base. fold processedPath.
  cbn [take drop].
  assert (Hr : r = processVideo fuel inputPath originalFileName s)
    by reflexivity.
  clearbody r.
  unfold processVideo, try_catch in Hr.
  unfold mbind at 1, M_bind at 1, bind at 1 in Hr.
  pose proof (analyzeVideo_state inputPath s) as Hs1.
  destruct (analyzeVideo inputPath s) as [[info | msg | | ] s1];
    cbn [snd] in Hs1; subst s1.
  2,3,4: left; subst r; eexists [_], _; cbn [throw fst snd log put events];
    (split; [reflexivity |]);
    (split; [reflexivity | intros ?; discriminate]).
  unfold mbind at 1, M_bind at 1, bind at 1 in Hr.
  rewrite captureFrame_run in Hr. cbv zeta in Hr. cbn [env this log] in Hr.
  fold dir in Hr. fold base in Hr. fold thumbnailPath in Hr.
  destruct (ensureDir dir) as [msg |] eqn:Hdir.
  { left. subst r. eexists [_; _], _. cbn [throw fst snd log put events].
    rewrite <- ?app_assoc.
    split; [reflexivity |]. split; [reflexivity | intros ?; discriminate]. }
  destruct (screenshots _ _ _ _ _) as [err | sz1].
  { left. subst r. eexists [_; _; _], _. cbn [throw fst snd log put events].
    rewrite <- ?app_assoc.
    split; [reflexivity |]. split; [reflexivity | intros ?; discriminate]. }
  unfold mbind at 1, M_bind at 1, bind at 1 in Hr.
  rewrite compressVideo_run in Hr. cbv zeta in Hr.
  cbn [env this log put] in Hr. fold dir in Hr. fold base in Hr.
  fold processedPath in Hr. rewrite Hdir in Hr.
  destruct (read_videoCodec_error _) as [message |].
  { left. subst r. eexists [_; _; _; _], _. cbn [throw fst snd log put events].
    rewrite <- ?app_assoc.
    split; [reflexivity |]. split; [reflexivity | intros ?; discriminate]. }
  destruct (transcode _ _ _) as [err | sz2] eqn:Henc.
  { left. subst r. eexists [_; _; _; _; _], _. cbn [throw fst snd log put events].
    rewrite <- ?app_assoc.
    split; [reflexivity |]. split; [reflexivity | intros ?; discriminate]. }
  right. exists sz1, sz2. split; [reflexivity |].
  cbv zeta. rewrite Hr, log_log. reflexivity.
Qed.


Lemma processVideo_cases (fuel : nat) (inputPath originalFileName : string)
    (s : St) :
  let dir := js_or_str (env s !! "TEMP_DIR") "temp" in
  let base := path_parse_name originalFileName in
  let thumbnailPath := path_join dir (base +:+ "_thumbnail.jpg") in
  let processedPath := path_join dir (base +:+ "_processed.mp4") in
  let r := processVideo fuel inputPath originalFileName s in
  (exists evs rest,
     events (snd r) = events s ++ evs
     /\ stage_events inputPath originalFileName s = evs ++ rest
     /\ forall arts, fst r <> Returned arts)
  \/ (exists sz1 sz2,
        let s3 :=
          put (log (put (log s (take 3 (stage_events inputPath originalFileName s)))
                      thumbnailPath sz1)
                 (take 2 (drop 3 (stage_events inputPath originalFileName s))))
            processedPath sz2 in
        r = try_catch
              (processedVideos ← checkAndSplitVideo fuel processedPath
                                   originalFileName;
               thumbnailSize ← getFileSize thumbnailPath;
               mret (processedVideos ++
                     [ {| Artifact.path := thumbnailPath;
                          Artifact.name := base +:+ "_thumbnail.jpg";
                          Artifact.type := "thumbnail";
                          Artifact.size := thumbnailSize;
                          Artifact.part := None;
                          Artifact.totalParts := None |} ]))
              (fun message => throw ("Failed to process video: " +:+ message))
              s3).
Proof.
  intros dir base thumbnailPath processedPath r.
  destruct (processVideo_cases_transcoded fuel inputPath originalFileName s)
    as [H | (sz1 & sz2 & _ & Hr)].
  - left. exact H.
  - right. exists sz1, sz2. exact Hr.
Qed.

Lemma bind_events {A B} (c : M A) (k : A -> M B) (s : St) (e1 : list Event) :
  events (snd (c s)) = events s ++ e1 ->
  (forall a, preserves (k a)) ->
  exists e2, events (snd ((c ≫= k) s)) = events s ++ e1 ++ e2.
Proof.
  intros Hc Hk. unfold mbind, M_bind, bind.
  destruct (c s) as [[a | msg | | ] s1]; cbn [snd] in *;
    try (exists []; rewrite app_nil_r; exact Hc).
  destruct (Hk a s1) as (_ & _ & e2 & He2).
  exists e2. rewrite He2, Hc, app_assoc. reflexivity.
Qed.

Lemma bind_returned {A B} (c : M A) (k : A -> M B) (s : St) (b : B) :
  fst ((c ≫= k) s) = Returned b ->
  exists a s1, c s = (Returned a, s1) /\ fst (k a s1) = Returned b.
Proof.
  unfold mbind, M_bind, bind.
  destruct (c s) as [[a | msg | | ] s1]; cbn [fst]; try discriminate.
  intros H. eauto.
Qed.

Lemma try_catch_throw_snd {A} (c : M A) (f : string -> string) (s : St) :
  snd (try_catch c (fun m => throw (f m)) s) = snd (c s).
Proof. unfold try_catch. destruct (c s) as [[a | msg | | ] s1]; reflexivity. Qed.

Lemma try_catch_throw_returned {A} (c : M A) (f : string -> string) (s : St)
    (a : A) :
  fst (try_catch c (fun m => throw (f m)) s) = Returned a ->
  fst (c s) = Returned a.
Proof.
  unfold try_catch. destruct (c s) as [[a' | msg | | ] s1]; cbn; congruence.
Qed.

Lemma checkAndSplitVideo_first_event (fuel : nat) (v o : string) (s : St)
    (sz : Z) :
  files s !! v = Some sz ->
  exists rest,
    events (snd (checkAndSplitVideo fuel v o s)) = events s ++ [EvStat v] ++ rest.
Proof.
  intros Hfile. rewrite checkAndSplitVideo_run, Hfile.
  destruct (js_le _ _).
  - exists []. reflexivity.
  - destruct (preserves_splitVideo fuel v o (log s [EvStat v]))
      as (_ & _ & rest & Hrest).
    exists rest. rewrite Hrest. cbn [events log]. rewrite <- app_assoc.
    reflexivity.
Qed.

(** C7, as the code has it: a job probes the input, then captures the
    thumbnail, then transcodes, then looks at the size of the transcoded file
    to decide on splitting.  Each stage starts only when the previous one has
    completed: the calls of a job are an initial part of that sequence, or
    the whole of it followed by the calls of the split stage; a job that
    returns went through the whole of it, the screenshot being its third call
    and the transcoding its fifth. *)
Theorem processVideo_stage_order :
  forall (fuel : nat) (inputPath originalFileName : string) (s : St),
    let r := processVideo fuel inputPath originalFileName s in
    let stages := stage_events inputPath originalFileName s in
    exists evs,
      events (snd r) = events s ++ evs
      /\ ((exists rest, stages = evs ++ rest)
          \/ (exists rest, evs = stages ++ rest))
      /\ (forall arts,
            fst r = Returned arts ->
            (exists rest, evs = stages ++ rest)
            /\ first_index is_screenshot evs = Some 2%nat
            /\ first_index is_transcode evs = Some 4%nat).
Proof.
  intros fuel inputPath originalFileName s r stages.
  destruct (processVideo_cases fuel inputPath originalFileName s)
    as [(evs & rest & Hev & Hst & Hnot) | (sz1 & sz2 & Hr)].
  - exists evs. split; [exact Hev |]. split; [left; eauto |].
    intros arts Ha. exfalso. exact (Hnot arts Ha).
  - cbv zeta in Hr. fold r in Hr.
    set (dir := js_or_str (env s !! "TEMP_DIR") "temp") in *.
    set (base := path_parse_name originalFileName) in *.
    set (processedPath := path_join dir (base +:+ "_processed.mp4")) in *.
    set (thumbnailPath := path_join dir (base +:+ "_thumbnail.jpg")) in *.
    set (s3 := put _ processedPath sz2) in Hr.
    assert (Hfile : files s3 !! processedPath = Some sz2)
      by apply lookup_insert_eq.
    destruct (checkAndSplitVideo_first_event fuel processedPath
                originalFileName s3 sz2 Hfile) as (e1 & He1).
    match type of Hr with
    | _ = try_catch (_ ≫= ?k) _ _ =>
        destruct (bind_events _ k s3 _ He1) as (e2 & He2)
    end.
    { intros a. repeat preserves_step. }
    assert (Hev : events (snd r)
                  = events s ++ stages ++ e1 ++ e2).
    { rewrite Hr, try_catch_throw_snd, He2. subst s3.
      cbn [events put log take drop]. unfold stages, stage_events.
      fold dir. fold base. fold processedPath. cbn [take drop].
      rewrite <- !app_assoc. reflexivity. }
    exists (stages ++ e1 ++ e2). split; [exact Hev |]. split; [right; eauto |].
    intros arts _. split; [eauto |]. split; reflexivity.
Qed.


(** ** The returned list *)

(** Whatever the bound, a loop that returns has appended consecutive parts. *)
Lemma split_loop_shape (v dir base : string) (pn dpp : jsnum) :
  forall (fuel : nat) (i : Z) (parts : list Artifact.t) (s s' : St)
         (arts : list Artifact.t),
    split_loop fuel v dir base pn dpp i parts s = (Returned arts, s') ->
    exists sizes : list Z,
      arts = parts ++ zip_with (part_artifact dir base pn)
                        (seqZ i (Z.of_nat (length sizes))) sizes.
Proof.
  induction fuel as [| fuel IH]; intros i parts s s' arts; cbn [split_loop].
  - discriminate.
  - destruct (js_lt (num i) pn).
    + unfold mbind, M_bind, bind. rewrite extractVideoSegment_run. cbv zeta.
      fold (part_name base i).
      destruct (extract _ _ _ _) as [err | sz]; [discriminate |].
      rewrite getFileSize_run. cbn [files put log].
      rewrite lookup_insert_eq.
      intros H. apply IH in H. destruct H as (sizes & Harts).
      exists (sz :: sizes). cbn [length].
      rewrite seqZ_cons by lia.
      replace (Z.pred (Z.of_nat (S (length sizes))))
        with (Z.of_nat (length sizes)) by lia.
      replace (Z.succ i) with (i + 1) by lia.
      rewrite Harts, <- app_assoc. reflexivity.
    + intros [= <- <-]. exists []. cbn. rewrite app_nil_r. reflexivity.
Qed.

Lemma splitVideo_shape (fuel : nat) (v o : string) (s s' : St)
    (arts : list Artifact.t) :
  splitVideo fuel v o s = (Returned arts, s') ->
  exists (dir : string) (pn : jsnum) (sizes : list Z),
    arts = zip_with (part_artifact dir (path_parse_name o) pn)
             (seqZ 0 (Z.of_nat (length sizes))) sizes.
Proof.
  unfold splitVideo, mbind, M_bind, bind.
  destruct (analyzeVideo v s) as [[info | | | ] s1]; try discriminate.
  destruct (getFileSize v s1) as [[fileSize | | | ] s2]; try discriminate.
  unfold get_this, temp_dir, get_env, ret, mbind, M_bind, bind.
  destruct (split_loop _ _ _ _ _ _ _ _ _) as [[parts | | | ] s3] eqn:Hloop;
    try discriminate.
  apply split_loop_shape in Hloop. destruct Hloop as (sizes & Hparts).
  destruct (fs_remove v s3) as [[[] | | | ] s4]; try discriminate.
  intros [= <- <-]. eauto.
Qed.

Lemma part_artifact_lookup (dir base : string) (pn : jsnum) (sizes : list Z)
    (i : nat) (a : Artifact.t) :
  zip_with (part_artifact dir base pn) (seqZ 0 (Z.of_nat (length sizes))) sizes
    !! i = Some a ->
  Artifact.type a = "video" /\ Artifact.part a = Some (Z.of_nat i + 1).
Proof.
  rewrite lookup_zip_with_Some. intros (j & sz & -> & Hj & _).
  apply lookup_seqZ in Hj. destruct Hj as [-> _]. split; reflexivity.
Qed.

(** The parts of a loop that returns are as many as the test of the loop
    lets through. *)
Lemma split_loop_count (v dir base : string) (pn dpp : jsnum) :
  forall (fuel : nat) (i : Z) (parts : list Artifact.t) (s s' : St)
         (arts : list Artifact.t),
    split_loop fuel v dir base pn dpp i parts s = (Returned arts, s') ->
    exists sizes : list Z,
      arts = parts ++ zip_with (part_artifact dir base pn)
                        (seqZ i (Z.of_nat (length sizes))) sizes
      /\ js_lt (num (i + Z.of_nat (length sizes))) pn = false
      /\ forall j, i <= j < i + Z.of_nat (length sizes) ->
                   js_lt (num j) pn = true.
Proof.
  induction fuel as [| fuel IH]; intros i parts s s' arts; cbn [split_loop].
  - discriminate.
  - destruct (js_lt (num i) pn) eqn:Hlt.
    + unfold mbind, M_bind, bind. rewrite extractVideoSegment_run. cbv zeta.
      fold (part_name base i).
      destruct (extract _ _ _ _) as [err | sz]; [discriminate |].
      rewrite getFileSize_run. cbn [files put log].
      rewrite lookup_insert_eq.
      intros H. apply IH in H. destruct H as (sizes & Harts & Hend & Hin).
      exists (sz :: sizes). cbn [length].
      rewrite seqZ_cons by lia.
      replace (Z.pred (Z.of_nat (S (length sizes))))
        with (Z.of_nat (length sizes)) by lia.
      replace (Z.succ i) with (i + 1) by lia.
      split; [rewrite Harts, <- app_assoc; reflexivity |]. split.
      * replace (i + Z.of_nat (S (length sizes)))
          with (i + 1 + Z.of_nat (length sizes)) by lia.
        exact Hend.
      * intros j Hj. destruct (Z.eq_dec j i) as [-> | Hne]; [exact Hlt |].
        apply Hin. lia.
    + intros [= <- <-]. exists []. cbn [length Z.of_nat].
      rewrite Z.add_0_r. split; [cbn; rewrite app_nil_r; reflexivity |].
      split; [exact Hlt | intros j Hj; lia].
Qed.

Lemma splitVideo_count (fuel : nat) (v o : string) (s s' : St)
    (arts : list Artifact.t) (fileSize : Z) :
  files s !! v = Some fileSize ->
  splitVideo fuel v o s = (Returned arts, s') ->
  let pn := js_ceil (js_div (js_div (num fileSize) (num (1024 * 1024)))
                       (maxVideoSizeMB (this s))) in
  exists sizes : list Z,
    arts = zip_with (part_artifact (js_or_str (env s !! "TEMP_DIR") "temp")
                       (path_parse_name o) pn)
             (seqZ 0 (Z.of_nat (length sizes))) sizes
    /\ js_lt (num (Z.of_nat (length sizes))) pn = false
    /\ forall j, 0 <= j < Z.of_nat (length sizes) -> js_lt (num j) pn = true.
Proof.
  intros Hfile. unfold splitVideo, mbind, M_bind, bind.
  pose proof (analyzeVideo_state v s) as Hs1.
  destruct (analyzeVideo v s) as [[info | | | ] s1]; try discriminate.
  cbn [snd] in Hs1. subst s1.
  rewrite getFileSize_run. cbn [files log]. rewrite Hfile.
  unfold get_this, temp_dir, get_env, ret, mbind, M_bind, bind.
  cbn [this env log].
  destruct (split_loop _ _ _ _ _ _ _ _ _) as [[parts | | | ] s2] eqn:Hloop;
    try discriminate.
  apply split_loop_count in Hloop.
  destruct Hloop as (sizes & Hparts & Hend & Hin).
  destruct (fs_remove v s2) as [[[] | | | ] s4]; try discriminate.
  intros [= <- <-]. cbv zeta. exists sizes.
  rewrite Z.add_0_l in *. cbn [app] in Hparts. auto.
Qed.

(** Above an integer ceiling of at least 1 the loop is entered. *)
Lemma partsNeeded_positive (sizeMB : jsnum) (k : Z) :
  1 <= k ->
  js_le sizeMB (num k) = false ->
  js_lt (num 0) (js_ceil (js_div sizeMB (num k))) = true
  \/ sizeMB = NaN \/ sizeMB = NegInf
  \/ exists a, sizeMB = Fin a /\ (a < 0)%Q.
Proof.
  intros Hk Hle.
  assert (Hkq : (1 <= inject_Z k)%Q).
  { change 1%Q with (inject_Z 1). rewrite <- Zle_Qle. exact Hk. }
  destruct sizeMB as [a | | |]; [| left | auto | auto].
  - destruct (Qlt_le_dec a 0) as [Hneg | Hpos]; [eauto 6 |]. left.
    cbn [js_le num] in Hle.
    assert (Hgt : (inject_Z k < a)%Q).
    { apply Qnot_le_lt. intros H. apply Qle_bool_iff in H. congruence. }
    unfold js_div, num. rewrite (Qis_zero_false (inject_Z k)) by lra.
    assert (Hq : (1 <= a / inject_Z k)%Q).
    { apply Qle_shift_div_l; lra. }
    destruct (nearest_positive _ Hq) as [-> | (r & -> & Hr)]; [reflexivity |].
    cbn [js_ceil js_lt num].
    pose proof (Qle_ceiling r) as Hc.
    destruct (Qle_bool (inject_Z (Qceiling r)) (inject_Z 0)) eqn:E;
      [| reflexivity].
    apply Qle_bool_iff in E. change (inject_Z 0) with 0%Q in E. lra.
  - unfold js_div, num. rewrite (Qis_neg_false (inject_Z k)) by lra.
    reflexivity.
Qed.

(** C9, as the code has it: the list of a job that returns is the video
    artifacts followed by the thumbnail artifact as last element, the only
    thumbnail of the list.  The video artifacts are the transcoded file
    alone when its size in megabytes is at most [maxVideoSizeMB]; otherwise
    they are the parts numbered 1, 2, ... in that order, as many as there are
    counters below [Math.ceil(fileSizeMB / maxVideoSizeMB)], which is none
    when that number is zero or negative.  Under an integer ceiling of at
    least 1 there is at least one video artifact. *)
Theorem processVideo_artifact_order :
  forall (fuel : nat) (inputPath originalFileName : string) (s : St)
         (arts : list Artifact.t),
    fst (processVideo fuel inputPath originalFileName s) = Returned arts ->
    let outputDir := js_or_str (env s !! "TEMP_DIR") "temp" in
    let baseName := path_parse_name originalFileName in
    let processedPath := path_join outputDir (baseName +:+ "_processed.mp4") in
    exists (fileSize : Z) (videos : list Artifact.t) (thumb : Artifact.t),
      transcode inputPath (preset (this s)) processedPath = inr fileSize
      /\ arts = videos ++ [thumb]
      /\ Artifact.type thumb = "thumbnail"
      /\ Artifact.path thumb
         = path_join outputDir (baseName +:+ "_thumbnail.jpg")
      /\ (let fileSizeMB := js_div (num fileSize) (num (1024 * 1024)) in
          let partsNeeded :=
            js_ceil (js_div fileSizeMB (maxVideoSizeMB (this s))) in
          if js_le fileSizeMB (maxVideoSizeMB (this s))
          then videos = [ {| Artifact.path := processedPath;
                             Artifact.name := path_basename processedPath;
                             Artifact.type := "video";
                             Artifact.size := fileSize;
                             Artifact.part := None;
                             Artifact.totalParts := None |} ]
          else exists sizes : list Z,
                 videos = zip_with
                            (part_artifact outputDir baseName partsNeeded)
                            (seqZ 0 (Z.of_nat (length sizes))) sizes
                 /\ js_lt (num (Z.of_nat (length sizes))) partsNeeded = false
                 /\ forall i, 0 <= i < Z.of_nat (length sizes) ->
                              js_lt (num i) partsNeeded = true)
      /\ (forall i a, videos !! i = Some a -> Artifact.type a = "video")
      /\ ((exists a, videos = [a] /\ Artifact.part a = None)
          \/ (forall (i : nat) a,
                videos !! i = Some a -> Artifact.part a = Some (Z.of_nat i + 1)))
      /\ length (List.filter is_thumbnail arts) = 1%nat
      /\ (forall k, maxVideoSizeMB (this s) = num k -> 1 <= k -> 0 <= fileSize ->
                    videos <> []).
Proof.
  intros fuel inputPath originalFileName s arts Hret dir base processedPath.
  destruct (processVideo_cases_transcoded fuel inputPath originalFileName s)
    as [(evs & rest & _ & _ & Hnot) | (sz1 & sz2 & Henc & Hr)];
    [exfalso; exact (Hnot arts Hret) |].
  cbv zeta in Hr. fold dir in Hr, Henc. fold base in Hr, Henc.
  fold processedPath in Hr, Henc.
  rewrite Hr in Hret. clear Hr.
  apply try_catch_throw_returned in Hret.
  apply bind_returned in Hret. destruct Hret as (videos & s4 & Hcheck & Hret).
  apply bind_returned in Hret. destruct Hret as (tsz & s5 & _ & Hret).
  cbn in Hret. injection Hret as <-.
  exists sz2, videos. eexists. split; [exact Henc |].
  split; [reflexivity |]. split; [reflexivity |]. split; [reflexivity |].
  rewrite checkAndSplitVideo_run in Hcheck.
  cbn [files put] in Hcheck. rewrite lookup_insert_eq in Hcheck.
  cbn [this put log] in Hcheck.
  set (sizeMB := js_div (num sz2) (num (1024 * 1024))) in *.
  assert (Hshape :
    if js_le sizeMB (maxVideoSizeMB (this s))
    then videos = [ {| Artifact.path := processedPath;
                       Artifact.name := path_basename processedPath;
                       Artifact.type := "video";
                       Artifact.size := sz2;
                       Artifact.part := None;
                       Artifact.totalParts := None |} ]
    else exists sizes : list Z,
           videos = zip_with
                      (part_artifact dir base
                         (js_ceil (js_div sizeMB (maxVideoSizeMB (this s)))))
                      (seqZ 0 (Z.of_nat (length sizes))) sizes
           /\ js_lt (num (Z.of_nat (length sizes)))
                (js_ceil (js_div sizeMB (maxVideoSizeMB (this s)))) = false
           /\ forall i, 0 <= i < Z.of_nat (length sizes) ->
                        js_lt (num i)
                          (js_ceil (js_div sizeMB (maxVideoSizeMB (this s))))
                        = true).
  { destruct (js_le sizeMB _).
    - injection Hcheck as <- _. reflexivity.
    - eapply (splitVideo_count fuel processedPath originalFileName _ s4 videos
                sz2) in Hcheck; [| apply lookup_insert_eq].
      exact Hcheck. }
  split; [exact Hshape |].
  assert (Hvideo : forall i a, videos !! i = Some a -> Artifact.type a = "video").
  { destruct (js_le sizeMB _).
    - subst videos. intros [| i] a' H; [| destruct i; discriminate].
      injection H as <-. reflexivity.
    - destruct Hshape as (sizes & -> & _).
      intros i a H. apply part_artifact_lookup in H. tauto. }
  split; [exact Hvideo |]. split; [| split].
  - destruct (js_le sizeMB _).
    + left. eexists. split; [exact Hshape | reflexivity].
    + right. destruct Hshape as (sizes & -> & _).
      intros i a H. apply part_artifact_lookup in H. tauto.
  - rewrite List.filter_app. cbn [List.filter is_thumbnail Artifact.type].
    assert (Hnone : List.filter is_thumbnail videos = []).
    { clear Hcheck Hshape. induction videos as [| a l IH]; [reflexivity |].
      cbn [List.filter]. unfold is_thumbnail at 1.
      rewrite (Hvideo O a eq_refl). cbn.
      apply IH. intros i a' H. exact (Hvideo (S i) a' H). }
    rewrite Hnone. reflexivity.
  - intros k Hmax Hk Hsz. rewrite Hmax in Hshape.
    destruct (js_le sizeMB (num k)) eqn:Hle; [subst videos; discriminate |].
    destruct Hshape as (sizes & -> & Hend & _).
    destruct sizes as [| sz sizes].
    2: { intros H. apply (f_equal length) in H.
         rewrite length_zip_with, length_seqZ in H. cbn [length] in H. lia. }
    exfalso. cbn [length] in Hend. change (Z.of_nat 0) with 0 in Hend.
    assert (Hfin : exists a, sizeMB = PosInf \/ (sizeMB = Fin a /\ (0 <= a)%Q)).
    { unfold sizeMB, js_div, num. rewrite Qis_zero_inject.
      change (1024 * 1024 =? 0) with false. cbv iota.
      destruct (Z.eq_dec sz2 0) as [-> | Hnz].
      - exists 0%Q. right. split; [reflexivity | lra].
      - assert (H1 : (0 < inject_Z sz2 / inject_Z (1024 * 1024))%Q).
        { apply Qlt_shift_div_l; [reflexivity |]. rewrite Qmult_0_l.
          change 0%Q with (inject_Z 0). rewrite <- Zlt_Qlt. lia. }
        assert (Hq : ~ (inject_Z sz2 / inject_Z (1024 * 1024) == 0)%Q)
          by (intros E; rewrite E in H1; lra).
        rewrite (nearest_unfold _ Hq), (Qis_neg_false _) by lra.
        destruct (Qle_bool _ _); [exists 0%Q; left; reflexivity |].
        eexists. right. split; [reflexivity |]. rewrite Qred_correct.
        apply rounded_error. rewrite Qabs_pos by lra. exact H1. }
    destruct (partsNeeded_positive sizeMB k Hk Hle)
      as [H | [H | [H | (a & H & Ha)]]].
    + congruence.
    + destruct Hfin as (a & [E | [E _]]); congruence.
    + destruct Hfin as (a & [E | [E _]]); congruence.
    + destruct Hfin as (b & [E | [E Hb]]); [congruence |].
      rewrite H in E. injection E as ->. lra.
Qed.

End Properties.

(** ** Concrete runs *)


Lemma loadPreset_never_raises_witness :
  fst (@loadPreset host_large (boot ∅)) = Returned default_preset.
Proof.
  destruct (@loadPreset_never_raises host_large (boot ∅)) as [_ H].
  rewrite H; [reflexivity |].
  left. reflexivity.
Defined.

(** A 250 MB transcoded file waiting in the working directory of a freshly
    constructed processor. *)
Lemma checkAndSplitVideo_result_witness :
  let s := put (@fresh host_large) "temp/clip_processed.mp4" (250 * MB) in
  let r := @checkAndSplitVideo host_large 10 "temp/clip_processed.mp4"
             "clip.mp4" s in
  exists arts sz,
    fst r = Returned arts
    /\ Z.of_nat (length arts) = 3
    /\ arts !! 2%nat =
       Some {| Artifact.path := "temp/clip_part3.mp4";
               Artifact.name := "clip_part3.mp4";
               Artifact.type := "video";
               Artifact.size := sz;
               Artifact.part := Some 3;
               Artifact.totalParts := Some (num 3) |}.
Proof.
  intros s r.
  assert (Hfile : files s !! "temp/clip_processed.mp4" = Some (250 * MB))
    by (vm_compute; reflexivity).
  destruct (@checkAndSplitVideo_result host_large 10 "temp/clip_processed.mp4"
              "clip.mp4" s (250 * MB) Hfile) as (_ & Hsplit & Hexact).
  assert (Hgt : js_le (js_div (num (250 * MB)) (num (1024 * 1024)))
                  (maxVideoSizeMB (this s)) = false)
    by (vm_compute; reflexivity).
  destruct (Hexact 98) as (_ & Hceil).
  { reflexivity. }
  { lia. }
  { vm_compute. split; [discriminate | reflexivity]. }
  destruct Hceil as (Hparts & _).
  { vm_compute. intros H. apply H. reflexivity. }
  change (Qceiling _) with 3 in Hparts.
  destruct (Hsplit Hgt 3 Hparts) as (_ & _ & Harts).
  fold r in Harts.
  destruct (fst r) as [arts | | | ] eqn:Hr;
    try (vm_compute in Hr; discriminate Hr).
  destruct (Harts arts eq_refl) as [Hlen Hpart].
  destruct (Hpart 2) as [sz Hsz].
  { vm_compute. split; [discriminate | reflexivity]. }
  exists arts, sz. split; [reflexivity |]. split; [exact Hlen | exact Hsz].
Defined.

(** The claim of C1 fails under a negative ceiling, which the constructor
    stores as it is: with MAX_VIDEO_SIZE_MB=-5 a transcoded file of 250 MB is
    above the ceiling, the number of parts is ceil(250 / -5) = -50, no
    artifact is returned and the transcoded file is removed. *)
Lemma checkAndSplitVideo_negative_ceiling :
  let s0 := snd (@constructor host_large
                   (boot (<["MAX_VIDEO_SIZE_MB" := "-5"]> ∅))) in
  let s := put s0 "temp/clip_processed.mp4" (250 * MB) in
  let r := @checkAndSplitVideo host_large 10 "temp/clip_processed.mp4"
             "clip.mp4" s in
  maxVideoSizeMB (this s) = num (-5)
  /\ js_le (js_div (num (250 * MB)) (num (1024 * 1024))) (num (-5)) = false
  /\ js_ceil (js_div (js_div (num (250 * MB)) (num (1024 * 1024))) (num (-5)))
     = num (-50)
  /\ fst r = Returned []
  /\ files (snd r) !! "temp/clip_processed.mp4" = None.
Proof. vm_compute. repeat split. Qed.

(** C2 at two failing jobs.  When the transcoder fails, the thumbnail captured
    before it is still in the working directory once the error has reached
    the caller; when the second segment cannot be extracted, the thumbnail,
    the transcoded file and the first segment are all still there.  In both
    jobs no removal was ever requested. *)
Theorem processVideo_leaves_artifacts_on_failure :
  (let r := @processVideo host_transcode_fails 10 "in/clip.mp4" "clip.mp4"
              (@fresh host_transcode_fails) in
   fst r = Thrown ("Failed to process video: Failed to compress video: "
                   +:+ "ffmpeg exited with code 1")
   /\ files (snd r) !! "temp/clip_thumbnail.jpg" = Some 40000
   /\ first_index is_remove (events (snd r)) = None)
  /\ (let r := @processVideo host_second_segment_fails 10 "in/clip.mp4"
                 "clip.mp4" (@fresh host_second_segment_fails) in
      fst r = Thrown ("Failed to process video: "
                      +:+ "Failed to extract video segment: "
                      +:+ "ffmpeg exited with code 1")
      /\ files (snd r) !! "temp/clip_thumbnail.jpg" = Some 40000
      /\ files (snd r) !! "temp/clip_processed.mp4" = Some (250 * MB)
      /\ files (snd r) !! "temp/clip_part1.mp4" = Some (90 * MB)
      /\ first_index is_remove (events (snd r)) = None).
Proof. vm_compute. repeat split. Qed.

(** The claim of C3 fails on a one-second clip: with the default setting the
    encoder is asked for the frame at 2 s, which is not below the duration. *)
Lemma captureFrame_timestamp_not_clamped :
  let s := @fresh host_one_second in
  (exists info,
     fst (@analyzeVideo host_one_second "in/clip.mp4" s) = Returned info
     /\ @js_parseFloat host_one_second (VideoInfo.duration info) = num 1)
  /\ new_events s (snd (@captureFrame host_one_second "in/clip.mp4" "clip.mp4" s))
     = [ EvEnsureDir "temp";
         EvScreenshot "in/clip.mp4" (num 2) "clip_thumbnail.jpg" "temp"
           "1280x720" ]
  /\ js_lt (num 2) (num 1) = false.
Proof.
  split; [| split; reflexivity].
  eexists. split; reflexivity.
Qed.

(** The claim of C4 fails on a zero denominator, which is not rejected, and
    on a string that is a program rather than a quotient, which is
    evaluated. *)
Lemma analyzeVideo_evaluates_frame_rate :
  (exists info,
     fst (@analyzeVideo host_zero_denominator "in/clip.mp4"
            (@fresh host_zero_denominator)) = Returned info
     /\ VideoInfo.fps info = JNumber PosInf)
  /\ (exists info,
        fst (@analyzeVideo host_expression "in/clip.mp4"
               (@fresh host_expression)) = Returned info
        /\ VideoInfo.fps info = JNumber (num 30)).
Proof. split; eexists; split; reflexivity. Qed.

(** The frame rate 30000/1001 is the binary64 number 29.97002997002997. *)
Lemma analyzeVideo_frame_rate_witness :
  exists info,
    fst (@analyzeVideo host_large "in/clip.mp4" (@fresh host_large))
    = Returned info
    /\ VideoInfo.fps info
       = JNumber (Fin (1054476685978981 # 35184372088832)).
Proof.
  destruct (@analyzeVideo_frame_rate host_large "in/clip.mp4"
              (@fresh host_large) two_minutes eq_refl) as [_ Hrate].
  destruct (Hrate sample_video "30000" "1001" 30000 1001
              eq_refl eq_refl eq_refl eq_refl)
    as (info & Hret & _ & Hfin & _).
  exists info. split; [exact Hret |].
  rewrite Hfin; [vm_compute; reflexivity | lia | lia | lia].
Defined.

(** The claim of C5 fails on an audio-only file of reported duration 0: the
    analysis is fulfilled, with a zero duration and no video fields. *)
Lemma analyzeVideo_accepts_audio_only :
  @ffprobe host_audio_only "voice.mp3"
  = inr (sample_metadata [sample_audio] (JNumber (num 0)))
  /\ find_stream "video" [sample_audio] = None
  /\ fst (@analyzeVideo host_audio_only "voice.mp3" (@fresh host_audio_only))
     = Returned
         {| VideoInfo.duration := JNumber (num 0);
            VideoInfo.size := JNumber (num 734003200);
            VideoInfo.bitrate := JNumber (num 8000000);
            VideoInfo.videoCodec := JUndefined;
            VideoInfo.audioCodec := JString "aac";
            VideoInfo.resolution := "undefinedxundefined";
            VideoInfo.fps := JNumber (num 0);
            VideoInfo.audioChannels := JNumber (num 2);
            VideoInfo.audioSampleRate := JNumber (num 48000) |}.
Proof. repeat split. Qed.

Lemma analyzeVideo_outcomes_witness :
  exists info,
    fst (@analyzeVideo host_audio_only "voice.mp3" (@fresh host_audio_only))
    = Returned info
    /\ VideoInfo.duration info = JNumber (num 0)
    /\ VideoInfo.videoCodec info = JUndefined.
Proof.
  destruct (@analyzeVideo_outcomes host_audio_only "voice.mp3"
              (@fresh host_audio_only)) as (_ & _ & Hdur & Hnone).
  destruct (Hnone _ eq_refl eq_refl) as (info & Hret & Hcodec & _).
  exists info. split; [exact Hret |]. split; [| exact Hcodec].
  exact (Hdur _ info eq_refl Hret).
Defined.

(** The claim of C7 fails on a job that returns: the screenshot is requested
    before the transcoding, not after it. *)
Lemma processVideo_captures_before_transcoding :
  let s := @fresh host_small in
  let r := @processVideo host_small 10 "in/clip.mp4" "clip.mp4" s in
  (exists arts, fst r = Returned arts)
  /\ exists i j,
       first_index is_screenshot (new_events s (snd r)) = Some i
       /\ first_index is_transcode (new_events s (snd r)) = Some j
       /\ (i < j)%nat.
Proof.
  split; [eexists; vm_compute; reflexivity |].
  exists 2%nat, 4%nat. vm_compute. repeat split; lia.
Qed.

Lemma processVideo_stage_order_witness :
  let s := @fresh host_small in
  let r := @processVideo host_small 10 "in/clip.mp4" "clip.mp4" s in
  exists evs rest,
    events (snd r) = events s ++ evs
    /\ evs = @stage_events host_small "in/clip.mp4" "clip.mp4" s ++ rest
    /\ first_index is_screenshot evs = Some 2%nat.
Proof.
  intros s r.
  destruct (@processVideo_stage_order host_small 10 "in/clip.mp4" "clip.mp4" s)
    as (evs & Hev & _ & Hret).
  destruct (fst r) as [arts | | | ] eqn:Hr; try (vm_compute in Hr; discriminate Hr).
  destruct (Hret arts Hr) as ((rest & Hrest) & Hshot & _).
  exists evs, rest. split; [exact Hev |]. split; [exact Hrest | exact Hshot].
Defined.

Lemma splitVideo_ranges_tile_witness :
  let s := put (@fresh host_large) "temp/clip_processed.mp4" (250 * MB) in
  let r := @splitVideo host_large 10 "temp/clip_processed.mp4" "clip.mp4" s in
  requested (new_events s (snd r))
  = [ (num 0, num 40); (num 40, num 40); (num 80, num 40) ]
  /\ (exists E,
        js_mul (num 3) (js_div (num 120) (num 3)) = Fin E
        /\ (Qabs (E - 120) <= 120 * pow2 (-51) + pow2 (-1020))%Q)
  /\ exists durations : list Q,
       snd <$> requested (new_events s (snd r)) = Fin <$> durations
       /\ (Qabs (foldr Qplus 0 durations - 120)
           <= 120 * pow2 (-49) + pow2 (-1019))%Q.
Proof.
  intros s r.
  destruct r as [out s'] eqn:Hr.
  assert (Hout : exists arts, out = Returned arts).
  { pose proof Hr as Hc. vm_compute in Hc. injection Hc as <- _. eauto. }
  destruct Hout as (arts & ->).
  assert (Hfile : files s !! "temp/clip_processed.mp4" = Some (250 * MB))
    by (vm_compute; reflexivity).
  assert (Hparts : js_ceil
                     (js_div (js_div (num (250 * MB)) (num (1024 * 1024)))
                        (maxVideoSizeMB (this s))) = num 3)
    by (vm_compute; reflexivity).
  destruct (@splitVideo_ranges_tile host_large 10 "temp/clip_processed.mp4"
              "clip.mp4" s s' arts (250 * MB) _ 3 Hfile Hparts eq_refl Hr)
    as (Hreq & Hend).
  split.
  - cbn [snd]. rewrite Hreq. vm_compute. reflexivity.
  - destruct (Hend 120%Q eq_refl) as (_ & Hlast & Hsum).
    + discriminate.
    + vm_compute. discriminate.
    + lia.
    + split; [exact Hlast | exact Hsum].
Defined.

(** The claim of C8 fails in two ways.  Under MAX_VIDEO_SIZE_MB=-5 the split
    of a 250 MB file returns and no range at all was requested.  Under
    MAX_VIDEO_SIZE_MB=23 the same file, 120 seconds long, is cut into 11
    parts: the last requested range ends at 120 - 2^-46 and the requested
    durations add up to 120 - 2^-46, not to 120. *)
Lemma splitVideo_ranges_miss_the_end :
  (let s := put (snd (@constructor host_large
                        (boot (<["MAX_VIDEO_SIZE_MB" := "-5"]> ∅))))
              "temp/clip_processed.mp4" (250 * MB) in
   let r := @splitVideo host_large 20 "temp/clip_processed.mp4" "clip.mp4" s in
   fst r = Returned [] /\ requested (new_events s (snd r)) = [])
  /\ (let s := put (snd (@constructor host_large
                           (boot (<["MAX_VIDEO_SIZE_MB" := "23"]> ∅))))
                 "temp/clip_processed.mp4" (250 * MB) in
      let r := @splitVideo host_large 20 "temp/clip_processed.mp4" "clip.mp4"
                 s in
      (exists arts, fst r = Returned arts /\ length arts = 11%nat)
      /\ exists ranges : list (Q * Q),
           requested (new_events s (snd r))
           = (fun range => (Fin (fst range), Fin (snd range))) <$> ranges
           /\ (exists start dur,
                 last ranges = Some (start, dur)
                 /\ (start + dur == 120 - (1 # 70368744177664))%Q)
           /\ (foldr Qplus 0 (snd <$> ranges)
               == 120 - (1 # 70368744177664))%Q).
Proof.
  split; [vm_compute; split; reflexivity |].
  cbv zeta. split.
  - eexists. split; vm_compute; reflexivity.
  - match goal with
    | |- context [ requested ?evs ] =>
        exists (omap (fun x => match x with
                               | (Fin a, Fin b) => Some (a, b)
                               | _ => None
                               end) (requested evs))
    end.
    split; [vm_compute; reflexivity |]. split.
    + eexists _, _. split; vm_compute; reflexivity.
    + vm_compute. reflexivity.
Qed.

Lemma processVideo_artifact_order_witness :
  exists arts videos thumb,
    fst (@processVideo host_large 10 "in/clip.mp4" "clip.mp4"
           (@fresh host_large)) = Returned arts
    /\ arts = videos ++ [thumb]
    /\ videos <> []
    /\ Artifact.type thumb = "thumbnail"
    /\ length (List.filter is_thumbnail arts) = 1%nat.
Proof.
  destruct (fst (@processVideo host_large 10 "in/clip.mp4" "clip.mp4"
                   (@fresh host_large))) as [arts | | | ] eqn:Hr;
    try (vm_compute in Hr; discriminate Hr).
  destruct (@processVideo_artifact_order host_large 10 "in/clip.mp4"
              "clip.mp4" (@fresh host_large) arts Hr)
    as (fileSize & videos & thumb & Henc & Harts & Hthumb & _ & _ & _ & _
        & Hone & Hsome).
  exists arts, videos, thumb.
  split; [reflexivity |]. split; [exact Harts |].
  split; [| split; assumption].
  apply (Hsome 98); [reflexivity | lia |].
  vm_compute in Henc. injection Henc as <-. discriminate.
Defined.

(** The claim of C9 fails under a negative ceiling: with
    MAX_VIDEO_SIZE_MB=-5 the job returns the thumbnail alone, with no video
    artifact before it. *)
Lemma processVideo_returns_thumbnail_alone :
  let s := snd (@constructor host_large
                  (boot (<["MAX_VIDEO_SIZE_MB" := "-5"]> ∅))) in
  let r := @processVideo host_large 10 "in/clip.mp4" "clip.mp4" s in
  maxVideoSizeMB (this s) = num (-5)
  /\ fst r = Returned [ {| Artifact.path := "temp/clip_thumbnail.jpg";
                           Artifact.name := "clip_thumbnail.jpg";
                           Artifact.type := "thumbnail";
                           Artifact.size := 40000;
                           Artifact.part := None;
                           Artifact.totalParts := None |} ]
  /\ files (snd r) !! "temp/clip_processed.mp4" = None.
Proof. vm_compute. repeat split. Qed.

(** * Further properties of the processor *)

Section ProcessorProperties.
Context {host : Host}.

(** ** [cleanupFiles] *)

Lemma cleanupFiles_run (filePaths : list string) :
  forall s,
    cleanupFiles filePaths s =
    (Returned tt,
     {| this := this s; env := env s;
        files := cleanup_files filePaths (files s);
        events := events s ++ cleanup_events filePaths |}).
Proof.
  induction filePaths as [| p rest IH]; intros s; cbn [cleanupFiles].
  - unfold ret. cbn. rewrite app_nil_r. destruct s; reflexivity.
  - unfold mbind, M_bind, bind, try_catch, fs_remove, emit, delete_file, throw.
    unfold mbind, M_bind, bind.
    cbn [cleanup_files cleanup_events].
    destruct (remove_error p) as [message |]; rewrite IH;
      cbn [this env files events]; rewrite <- ?app_assoc; reflexivity.
Qed.

Lemma cleanup_files_lookup (filePaths : list string) :
  forall (m : gmap string Z) (p : string),
    cleanup_files filePaths m !! p =
    if decide (p ∈ filePaths /\ remove_error p = None) then None else m !! p.
Proof.
  induction filePaths as [| q rest IH]; intros m p; cbn [cleanup_files].
  - case_decide as H; [| reflexivity]. destruct H as [H _].
    apply not_elem_of_nil in H. contradiction.
  - rewrite IH. destruct (remove_error q) as [message |] eqn:Hq.
    + repeat case_decide; try reflexivity.
      * exfalso. destruct H as [Hin Hp]. apply H0. split; [| exact Hp].
        apply elem_of_cons. right. exact Hin.
      * exfalso. destruct H0 as [Hin Hp]. apply elem_of_cons in Hin.
        destruct Hin as [-> | Hin]; [congruence |]. apply H. auto.
    + repeat case_decide; try reflexivity.
      * exfalso. destruct H as [Hin Hp]. apply H0. split; [| exact Hp].
        apply elem_of_cons. right. exact Hin.
      * destruct H0 as [Hin Hp]. apply elem_of_cons in Hin.
        destruct Hin as [-> | Hin]; [apply lookup_delete_eq |].
        exfalso. apply H. auto.
      * apply lookup_delete_ne. intros ->. apply H0. split; [| exact Hq].
        apply elem_of_cons. left. reflexivity.
Qed.

Lemma cleanup_events_removals (filePaths : list string) :
  removals (cleanup_events filePaths) = filePaths.
Proof.
  induction filePaths as [| p rest IH]; [reflexivity |].
  cbn [cleanup_events]. destruct (remove_error p); cbn; unfold removals in IH;
    rewrite IH; reflexivity.
Qed.

Lemma cleanup_events_warnings (filePaths : list string) :
  warnings (cleanup_events filePaths) =
  omap (fun p => cleanup_warning p <$> remove_error p) filePaths.
Proof.
  induction filePaths as [| p rest IH]; [reflexivity |].
  cbn [cleanup_events omap list_omap]. unfold warnings in *.
  destruct (remove_error p); cbn; rewrite IH; reflexivity.
Qed.

(** X1: [cleanupFiles] never rejects.  It asks for the removal of every path
    of its list, once each and in order; a path whose removal fails costs one
    warning and does not stop the removals after it.  Afterwards a listed
    path whose removal worked is gone, and every other file is as it was. *)
Theorem cleanupFiles_best_effort :
  forall (filePaths : list string) (s : St),
    let r := cleanupFiles filePaths s in
    fst r = Returned tt
    /\ removals (new_events s (snd r)) = filePaths
    /\ warnings (new_events s (snd r)) =
       omap (fun p => cleanup_warning p <$> remove_error p) filePaths
    /\ (forall p, p ∈ filePaths -> remove_error p = None ->
                  files (snd r) !! p = None)
    /\ (forall p, p ∉ filePaths \/ is_Some (remove_error p) ->
                  files (snd r) !! p = files s !! p).
Proof.
  intros filePaths s r. subst r. rewrite cleanupFiles_run. cbn [fst snd files].
  unfold new_events. cbn [events]. rewrite drop_app_length.
  split; [reflexivity |].
  split; [apply cleanup_events_removals |].
  split; [apply cleanup_events_warnings |].
  split.
  - intros p Hin Hp. rewrite cleanup_files_lookup.
    case_decide as H; [reflexivity |]. exfalso. apply H. auto.
  - intros p Hp. rewrite cleanup_files_lookup.
    case_decide as H; [| reflexivity]. exfalso. destruct H as [Hin Hnone].
    destruct Hp as [Hp | [m Hm]]; [contradiction | congruence].
Qed.

(** ** The messages of a failed job *)

Lemma throws_only_ret {A} (P : string -> Prop) (a : A) : throws_only P (mret a).
Proof. intros s msg H. discriminate H. Qed.

Lemma throws_only_bind {A B} (P : string -> Prop) (c : M A) (k : A -> M B) :
  throws_only P c -> (forall a, throws_only P (k a)) -> throws_only P (c ≫= k).
Proof.
  intros Hc Hk s msg. unfold mbind, M_bind, bind.
  specialize (Hc s). destruct (c s) as [[a | m | | ] s1]; cbn [fst] in *;
    try discriminate.
  - apply Hk.
  - intros [= <-]. apply Hc. reflexivity.
Qed.

Lemma throws_only_throw {A} (P : string -> Prop) (m : string) :
  P m -> throws_only P (@throw A m).
Proof. intros HP s msg [= <-]. exact HP. Qed.

Lemma throws_only_quiet {A} (P : string -> Prop) (c : M A) :
  (forall s, exists a s', c s = (Returned a, s')) -> throws_only P c.
Proof. intros H s msg. destruct (H s) as (a & s' & ->). discriminate. Qed.

Lemma throws_only_escape {A} (P : string -> Prop) : throws_only P (@escape A).
Proof. intros s msg H. discriminate H. Qed.

Lemma throws_only_out_of_fuel {A} (P : string -> Prop) :
  throws_only P (@out_of_fuel A).
Proof. intros s msg H. discriminate H. Qed.

Lemma throws_only_emit (P : string -> Prop) (e : Event) : throws_only P (emit e).
Proof. intros s msg H. discriminate H. Qed.

Lemma throws_only_get_this (P : string -> Prop) : throws_only P get_this.
Proof. intros s msg H. discriminate H. Qed.

Lemma throws_only_get_env (P : string -> Prop) : throws_only P get_env.
Proof. intros s msg H. discriminate H. Qed.

Lemma throws_only_write_file (P : string -> Prop) p sz :
  throws_only P (write_file p sz).
Proof. intros s msg H. discriminate H. Qed.

Lemma throws_only_delete_file (P : string -> Prop) p :
  throws_only P (delete_file p).
Proof. intros s msg H. discriminate H. Qed.

Create HintDb throws.
#[local] Hint Resolve throws_only_ret throws_only_escape
  throws_only_out_of_fuel throws_only_emit throws_only_get_this
  throws_only_get_env throws_only_write_file throws_only_delete_file : throws.

Ltac throws_step :=
  first
    [ solve [auto with throws]
    | apply throws_only_bind; [| intros ?]
    | match goal with
      | |- throws_only _ (match ?x with _ => _ end) => destruct x eqn:?
      | |- throws_only _ (if ?b then _ else _) => destruct b
      end ].

Lemma throws_only_getFileSize p : throws_only stage_failure (getFileSize p).
Proof.
  intros s msg. rewrite getFileSize_run.
  destruct (files s !! p); [discriminate |]. intros [= <-].
  unfold stage_failure. do 5 right. left. eauto.
Qed.

Lemma throws_only_fs_ensureDir d : throws_only stage_failure (fs_ensureDir d).
Proof.
  unfold fs_ensureDir. repeat throws_step.
  apply throws_only_throw. unfold stage_failure. right. left. eauto.
Qed.

Lemma throws_only_fs_remove p : throws_only stage_failure (fs_remove p).
Proof.
  unfold fs_remove. repeat throws_step.
  apply throws_only_throw. unfold stage_failure. do 7 right. eauto.
Qed.

Lemma throws_only_temp_dir : throws_only stage_failure temp_dir.
Proof. unfold temp_dir. repeat throws_step. Qed.

Lemma throws_only_analyzeVideo p : throws_only stage_failure (analyzeVideo p).
Proof.
  unfold analyzeVideo. repeat throws_step.
  apply throws_only_throw. unfold stage_failure. left. eauto.
Qed.

#[local] Hint Resolve throws_only_getFileSize throws_only_fs_ensureDir
  throws_only_fs_remove throws_only_temp_dir throws_only_analyzeVideo : throws.

Lemma throws_only_captureFrame i o : throws_only stage_failure (captureFrame i o).
Proof.
  unfold captureFrame. repeat throws_step.
  apply throws_only_throw. unfold stage_failure. do 2 right. left. eauto.
Qed.

Lemma throws_only_compressVideo i o :
  throws_only stage_failure (compressVideo i o).
Proof.
  unfold compressVideo. repeat throws_step.
  - apply throws_only_throw. unfold stage_failure. do 3 right. left. eauto.
  - apply throws_only_throw. unfold stage_failure. do 4 right. left. eauto.
Qed.

Lemma throws_only_extractVideoSegment i o a b :
  throws_only stage_failure (extractVideoSegment i o a b).
Proof.
  unfold extractVideoSegment. repeat throws_step.
  apply throws_only_throw. unfold stage_failure. do 6 right. left. eauto.
Qed.

#[local] Hint Resolve throws_only_captureFrame throws_only_compressVideo
  throws_only_extractVideoSegment : throws.

Lemma throws_only_split_loop fuel v d b n dpp :
  forall i parts, throws_only stage_failure (split_loop fuel v d b n dpp i parts).
Proof.
  induction fuel as [| fuel IH]; intros i parts; cbn [split_loop].
  - auto with throws.
  - destruct (js_lt (num i) n); [| auto with throws].
    repeat throws_step.
Qed.

#[local] Hint Resolve throws_only_split_loop : throws.

Lemma throws_only_splitVideo fuel v o :
  throws_only stage_failure (splitVideo fuel v o).
Proof. unfold splitVideo. repeat throws_step. Qed.

#[local] Hint Resolve throws_only_splitVideo : throws.

Lemma throws_only_checkAndSplitVideo fuel v o :
  throws_only stage_failure (checkAndSplitVideo fuel v o).
Proof. unfold checkAndSplitVideo. repeat throws_step. Qed.

#[local] Hint Resolve throws_only_checkAndSplitVideo : throws.


(** ** Files are removed by [fs.remove] only *)

Lemma keeps_files_ret {A} (a : A) : keeps_files (mret a).
Proof. intros s p H. exact H. Qed.

Lemma keeps_files_bind {A B} (c : M A) (k : A -> M B) :
  keeps_files c -> (forall a, keeps_files (k a)) -> keeps_files (c ≫= k).
Proof.
  intros Hc Hk s p Hp. unfold mbind, M_bind, bind.
  specialize (Hc s p Hp). destruct (c s) as [[a | m | | ] s1]; cbn [snd] in *;
    try exact Hc.
  apply Hk. exact Hc.
Qed.

Lemma keeps_files_try_catch {A} (c : M A) (h : string -> M A) :
  keeps_files c -> (forall m, keeps_files (h m)) -> keeps_files (try_catch c h).
Proof.
  intros Hc Hh s p Hp. unfold try_catch.
  specialize (Hc s p Hp). destruct (c s) as [[a | m | | ] s1]; cbn [snd] in *;
    try exact Hc.
  apply Hh. exact Hc.
Qed.

Lemma keeps_files_same {A} (c : M A) :
  (forall s, files (snd (c s)) = files s) -> keeps_files c.
Proof. intros H s p Hp. rewrite H. exact Hp. Qed.

Lemma keeps_files_write_file p sz : keeps_files (write_file p sz).
Proof.
  intros s q Hq. cbn. destruct (decide (p = q)) as [-> | Hne].
  - rewrite lookup_insert_eq. eauto.
  - rewrite lookup_insert_ne by exact Hne. exact Hq.
Qed.

Create HintDb keeps.
#[local] Hint Resolve keeps_files_ret keeps_files_write_file : keeps.
#[local] Hint Extern 1 (keeps_files (throw _)) =>
  apply keeps_files_same; reflexivity : keeps.
#[local] Hint Extern 1 (keeps_files escape) =>
  apply keeps_files_same; reflexivity : keeps.
#[local] Hint Extern 1 (keeps_files out_of_fuel) =>
  apply keeps_files_same; reflexivity : keeps.
#[local] Hint Extern 1 (keeps_files (emit _)) =>
  apply keeps_files_same; reflexivity : keeps.
#[local] Hint Extern 1 (keeps_files get_this) =>
  apply keeps_files_same; reflexivity : keeps.
#[local] Hint Extern 1 (keeps_files get_env) =>
  apply keeps_files_same; reflexivity : keeps.

Ltac keeps_step :=
  first
    [ solve [auto with keeps]
    | apply keeps_files_bind; [| intros ?]
    | apply keeps_files_try_catch; [| intros ?]
    | match goal with
      | |- keeps_files (match ?x with _ => _ end) => destruct x
      | |- keeps_files (if ?b then _ else _) => destruct b
      end ].

Lemma keeps_files_getFileSize p : keeps_files (getFileSize p).
Proof.
  apply keeps_files_same. intros s. rewrite getFileSize_run.
  destruct (files s !! p); reflexivity.
Qed.

Lemma keeps_files_analyzeVideo p : keeps_files (analyzeVideo p).
Proof.
  apply keeps_files_same. intros s. rewrite analyzeVideo_state. reflexivity.
Qed.

Lemma keeps_files_temp_dir : keeps_files temp_dir.
Proof. unfold temp_dir. repeat keeps_step. Qed.

Lemma keeps_files_fs_ensureDir d : keeps_files (fs_ensureDir d).
Proof. unfold fs_ensureDir. repeat keeps_step. Qed.

#[local] Hint Resolve keeps_files_getFileSize keeps_files_analyzeVideo
  keeps_files_temp_dir keeps_files_fs_ensureDir : keeps.

Lemma keeps_files_extractVideoSegment i o a b :
  keeps_files (extractVideoSegment i o a b).
Proof. unfold extractVideoSegment. repeat keeps_step. Qed.

Lemma keeps_files_captureFrame i o : keeps_files (captureFrame i o).
Proof. unfold captureFrame. repeat keeps_step. Qed.

Lemma keeps_files_compressVideo i o : keeps_files (compressVideo i o).
Proof. unfold compressVideo. repeat keeps_step. Qed.

#[local] Hint Resolve keeps_files_extractVideoSegment keeps_files_captureFrame
  keeps_files_compressVideo : keeps.

Lemma keeps_files_split_loop fuel v d b n dpp :
  forall i parts, keeps_files (split_loop fuel v d b n dpp i parts).
Proof.
  induction fuel as [| fuel IH]; intros i parts; cbn [split_loop].
  - auto with keeps.
  - destruct (js_lt (num i) n); [| auto with keeps].
    repeat keeps_step.
Qed.

#[local] Hint Resolve keeps_files_split_loop : keeps.

(** X3: [splitVideo] removes the file it splits only at the very end.  When
    it returns, that file is gone; when it does not return (the probe, a size
    lookup, an extraction or the removal itself failed), a file that was
    there is still there, and so is every other file of the working
    directory. *)
Theorem splitVideo_removes_source_last :
  forall (fuel : nat) (videoPath originalFileName : string) (s : St),
    let r := splitVideo fuel videoPath originalFileName s in
    (forall arts, fst r = Returned arts -> files (snd r) !! videoPath = None)
    /\ ((forall arts, fst r <> Returned arts) ->
        forall p, is_Some (files s !! p) -> is_Some (files (snd r) !! p))
    /\ (forall p, p <> videoPath -> is_Some (files s !! p) ->
                  is_Some (files (snd r) !! p)).
Proof.
  intros fuel v o s r. subst r. unfold splitVideo.
  unfold mbind, M_bind, bind.
  destruct (analyzeVideo v s) as [[info | | | ] s1] eqn:E1; cbn [fst snd].
  2,3,4: pose proof (keeps_files_analyzeVideo v s) as K; rewrite E1 in K;
    cbn [snd] in K; (split; [intros ?; discriminate |]); split; auto.
  assert (K1 : forall p, is_Some (files s !! p) -> is_Some (files s1 !! p)).
  { intros p Hp. pose proof (keeps_files_analyzeVideo v s p Hp) as K.
    rewrite E1 in K. exact K. }
  destruct (getFileSize v s1) as [[fileSize | | | ] s2] eqn:E2; cbn [fst snd].
  2,3,4: pose proof (keeps_files_getFileSize v s1) as K; rewrite E2 in K;
    cbn [snd] in K; (split; [intros ?; discriminate |]); split; auto.
  assert (K2 : forall p, is_Some (files s !! p) -> is_Some (files s2 !! p)).
  { intros p Hp. pose proof (keeps_files_getFileSize v s1 p (K1 p Hp)) as K.
    rewrite E2 in K. exact K. }
  unfold get_this, temp_dir, get_env, ret, mbind, M_bind, bind.
  match goal with
  | |- context [ split_loop ?f ?a ?b ?c ?n ?d ?i ?ps s2 ] =>
      pose proof (keeps_files_split_loop f a b c n d i ps s2) as K3;
      destruct (split_loop f a b c n d i ps s2) as [[parts | | | ] s3]
  end; cbn [fst snd] in *.
  2,3,4: (split; [intros ?; discriminate |]); split; auto.
  unfold fs_remove, emit, delete_file, throw, mbind, M_bind, bind.
  destruct (remove_error v) as [message |]; cbn [fst snd files].
  - split; [intros ?; discriminate |]. split; auto.
  - split; [intros arts _; apply lookup_delete_eq |].
    split; [intros Hnot; exfalso; exact (Hnot parts eq_refl) |].
    intros p Hne Hp. rewrite lookup_delete_ne by congruence. auto.
Qed.

(** ** Numeric settings *)

Lemma digit_not_space (c : ascii) (d : Z) (r : string) :
  digit_in 10 c = Some d -> strip_space (String c r) = None.
Proof.
  destruct c as [[] [] [] [] [] [] [] []]; intros H; try reflexivity;
    vm_compute in H; discriminate H.
Qed.

Lemma skip_ws_no_space (s : string) : strip_space s = None -> skip_ws s = s.
Proof.
  intros H. unfold skip_ws. destruct s as [| c r]; [reflexivity |].
  cbn [String.length skip_ws_upto]. rewrite H. reflexivity.
Qed.

Lemma digit_not_sign (c : ascii) (d : Z) (r : string) :
  digit_in 10 c = Some d -> strip_sign (String c r) = (1, String c r).
Proof.
  destruct c as [[] [] [] [] [] [] [] []]; vm_compute; congruence.
Qed.

Lemma read_digits_tail (d tail : string) :
  all_digits d = true -> ends_number tail ->
  forall acc, read_digits 10 (d +:+ tail) acc = read_digits 10 d acc.
Proof.
  intros Hd Ht. induction d as [| c d IH]; intros acc.
  - change ("" +:+ tail) with tail. destruct tail as [| c r]; [reflexivity |].
    cbn [read_digits ends_number] in *. rewrite Ht. reflexivity.
  - cbn [all_digits] in Hd. change (String c d +:+ tail) with (String c (d +:+ tail)).
    cbn [read_digits]. destruct (digit_in 10 c); [| discriminate].
    apply IH. exact Hd.
Qed.

(** A decimal literal of value other than zero starts with a digit that is
    not ["0"]. *)
Lemma decimal_literal_first (d : string) (n : Z) :
  decimal_literal d = Some n -> n <> 0 ->
  exists c r v, d = String c r /\ digit_in 10 c = Some v /\ c <> "0"%char.
Proof.
  intros Hd Hn. pose proof (decimal_literal_digits d n Hd) as Hall.
  destruct d as [| c r]; [discriminate |].
  cbn [all_digits] in Hall. destruct (digit_in 10 c) as [v |] eqn:Hc;
    [| discriminate].
  exists c, r, v. split; [reflexivity |]. split; [exact Hc |].
  intros ->. unfold decimal_literal in Hd. destruct r as [| c' r'].
  - vm_compute in Hd. congruence.
  - cbn in Hd. discriminate.
Qed.

Lemma strip_hex_prefix_other (c : ascii) (r : string) :
  c <> "0"%char -> strip_hex_prefix (String c r) = (10, String c r).
Proof.
  intros Hc. destruct c as [[] [] [] [] [] [] [] []]; try reflexivity.
  contradiction Hc. reflexivity.
Qed.

Lemma decimal_literal_value (d : string) (n : Z) :
  decimal_literal d = Some n -> read_digits 10 d None = Some n.
Proof.
  unfold decimal_literal. destruct (has_leading_zero d); [discriminate |].
  destruct (all_digits d); [auto | discriminate].
Qed.

Lemma parseInt_decimal (d tail : string) (n : Z) :
  decimal_literal d = Some n -> n <> 0 -> ends_number tail ->
  parseInt_string (d +:+ tail) = js_int n
  /\ parseInt_string ("-" +:+ d +:+ tail) = js_int (- n).
Proof.
  intros Hd Hn Ht.
  destruct (decimal_literal_first d n Hd Hn) as (c & r & v & -> & Hc & H0).
  assert (Hread : read_digits 10 (String c r +:+ tail) None = Some n).
  { rewrite read_digits_tail; auto using decimal_literal_value.
    exact (decimal_literal_digits _ _ Hd). }
  change (String c r +:+ tail) with (String c (r +:+ tail)) in *.
  split; unfold parseInt_string.
  - rewrite (skip_ws_no_space _ (digit_not_space c v _ Hc)).
    rewrite (digit_not_sign c v _ Hc).
    rewrite strip_hex_prefix_other by exact H0. rewrite Hread.
    rewrite Z.mul_1_l. reflexivity.
  - change ("-" +:+ String c (r +:+ tail)) with (String "-" (String c (r +:+ tail))).
    rewrite (skip_ws_no_space (String "-" _) eq_refl).
    cbn [strip_sign]. rewrite strip_hex_prefix_other by exact H0. rewrite Hread.
    replace (-1 * n) with (- n) by lia. reflexivity.
Qed.

Lemma parseInt_zero (tail : string) :
  ends_number tail -> no_hex_mark tail -> parseInt_string ("0" +:+ tail) = num 0.
Proof.
  intros Ht Hx. change ("0" +:+ tail) with (String "0" tail).
  unfold parseInt_string.
  rewrite (skip_ws_no_space (String "0" tail) eq_refl).
  cbn [strip_sign].
  assert (E : strip_hex_prefix (String "0" tail) = (10, String "0" tail)).
  { destruct tail as [| c r]; [reflexivity |]. cbn [no_hex_mark] in Hx.
    destruct Hx as [Hx HX].
    destruct c as [[] [] [] [] [] [] [] []]; try reflexivity;
      exfalso; first [apply HX; reflexivity | apply Hx; reflexivity]. }
  rewrite E. cbn [read_digits].
  change (digit_in 10 "0") with (Some 0). cbn [default].
  destruct tail as [| c r]; [reflexivity |].
  cbn [read_digits ends_number] in *. rewrite Ht. reflexivity.
Qed.

(** The rounding of the opposite of a positive number. *)
Lemma nearest_opp (q : Q) :
  (0 < q)%Q ->
  nearest (- q) = match nearest q with
                  | Fin r => Fin (- r)
                  | PosInf => NegInf
                  | other => other
                  end.
Proof.
  intros Hq.
  assert (Hnz : ~ (q == 0)%Q) by (intros E; rewrite E in Hq; lra).
  assert (Hnz' : ~ (- q == 0)%Q) by (intros E; lra).
  assert (Eabs : Qabs (- q) = Qabs q).
  { destruct q as [a b]. unfold Qabs, Qopp. cbn [Qnum Qden].
    rewrite Z.abs_opp. reflexivity. }
  rewrite (nearest_unfold _ Hnz), (nearest_unfold _ Hnz'), Eabs.
  rewrite (Qis_neg_true (- q)), (Qis_neg_false q) by lra.
  destruct (Qle_bool _ _); [reflexivity |].
  rewrite Qred_opp. reflexivity.
Qed.

(** The Number nearest to an integer other than zero is not zero. *)
Lemma js_int_truthy (n : Z) : n <> 0 -> js_truthy_num (js_int n) = true.
Proof.
  intros Hn. unfold js_int.
  assert (Hpos : forall k, 0 < k -> js_truthy_num (nearest (inject_Z k)) = true
                            /\ js_truthy_num (nearest (- inject_Z k)) = true).
  { intros k Hk.
    assert (H1 : (1 <= inject_Z k)%Q).
    { change 1%Q with (inject_Z 1). rewrite <- Zle_Qle. lia. }
    rewrite nearest_opp by lra.
    destruct (nearest_positive _ H1) as [-> | (r & -> & Hr)];
      [split; reflexivity |].
    cbn [js_truthy_num]. rewrite !Qis_zero_false; [split; reflexivity | |].
    - intros E. lra.
    - intros E. rewrite E in Hr. lra. }
  destruct (Z_lt_le_dec 0 n) as [Hgt | Hle].
  - apply Hpos. exact Hgt.
  - replace n with (- (- n)) by lia. rewrite inject_Z_opp.
    apply Hpos. lia.
Qed.

Lemma js_or_num_js_int (n : Z) (d : jsnum) :
  n <> 0 -> js_or_num (js_int n) d = js_int n.
Proof. intros Hn. unfold js_or_num. rewrite js_int_truthy by exact Hn. reflexivity. Qed.

(** X4: the two numeric settings are read with [parseInt(...) || default].
    A value that starts with a decimal literal other than zero is stored as
    the Number nearest to that integer, which is the integer itself up to
    2^53, whatever text follows the digits; with a minus sign in front the
    Number nearest to the negative integer is stored; a value of zero is
    replaced by the default, 98 for the size ceiling and 2 for the capture
    time. *)
Theorem constructor_numeric_settings :
  forall (s0 : St) (d tail : string) (n : Z),
    decimal_literal d = Some n ->
    n <> 0 ->
    ends_number tail ->
    let self := this (snd (constructor s0)) in
    (env s0 !! "MAX_VIDEO_SIZE_MB" = Some (d +:+ tail) ->
     maxVideoSizeMB self = nearest (inject_Z n))
    /\ (env s0 !! "MAX_VIDEO_SIZE_MB" = Some ("-" +:+ d +:+ tail) ->
        maxVideoSizeMB self = nearest (inject_Z (- n)))
    /\ (no_hex_mark tail ->
        env s0 !! "MAX_VIDEO_SIZE_MB" = Some ("0" +:+ tail) ->
        maxVideoSizeMB self = num 98)
    /\ (env s0 !! "FRAME_CAPTURE_TIME" = Some (d +:+ tail) ->
        frameCaptureTime self = nearest (inject_Z n))
    /\ (env s0 !! "FRAME_CAPTURE_TIME" = Some ("-" +:+ d +:+ tail) ->
        frameCaptureTime self = nearest (inject_Z (- n)))
    /\ (no_hex_mark tail ->
        env s0 !! "FRAME_CAPTURE_TIME" = Some ("0" +:+ tail) ->
        frameCaptureTime self = num 2)
    /\ (n <= 2 ^ 53 ->
        nearest (inject_Z n) = num n /\ nearest (inject_Z (- n)) = num (- n)).
Proof.
  intros s0 d tail n Hd Hn Ht self.
  destruct (constructor_this s0) as [p E]. subst self. rewrite E.
  cbn [maxVideoSizeMB frameCaptureTime].
  destruct (parseInt_decimal d tail n Hd Hn Ht) as [Hpos Hneg].
  pose proof (decimal_literal_nonneg d n Hd) as Hn0.
  repeat split.
  - intros ->. cbn [parseInt]. rewrite Hpos. apply js_or_num_js_int, Hn.
  - intros ->. cbn [parseInt]. rewrite Hneg. apply js_or_num_js_int. lia.
  - intros Hx ->. cbn [parseInt]. rewrite parseInt_zero by assumption.
    reflexivity.
  - intros ->. cbn [parseInt]. rewrite Hpos. apply js_or_num_js_int, Hn.
  - intros ->. cbn [parseInt]. rewrite Hneg. apply js_or_num_js_int. lia.
  - intros Hx ->. cbn [parseInt]. rewrite parseInt_zero by assumption.
    reflexivity.
  - apply nearest_Z. lia.
  - apply nearest_Z. lia.
Qed.

(** ** The files behind the returned artifacts *)

Lemma string_length_app (a b : string) :
  String.length (a +:+ b) = (String.length a + String.length b)%nat.
Proof.
  induction a as [| c a IH]; [reflexivity |].
  change (String c a +:+ b) with (String c (a +:+ b)). cbn [String.length].
  rewrite IH. reflexivity.
Qed.

Lemma string_app_inv_tail (a b t : string) : a +:+ t = b +:+ t -> a = b.
Proof.
  revert b. induction a as [| c a IH]; intros [| c' b] H.
  - reflexivity.
  - apply (f_equal String.length) in H.
    change ("" +:+ t) with t in H. rewrite string_length_app in H.
    cbn [String.length] in H. lia.
  - apply (f_equal String.length) in H.
    change ("" +:+ t) with t in H. rewrite string_length_app in H.
    cbn [String.length] in H. lia.
  - change (String c (a +:+ t) = String c' (b +:+ t)) in H.
    injection H as -> H. f_equal. apply IH. exact H.
Qed.

Lemma part_name_inj (base : string) (i j : Z) :
  part_name base i = part_name base j -> i = j.
Proof.
  unfold part_name. intros H.
  apply String.app_inj in H. apply String.app_inj in H.
  apply string_app_inv_tail in H. apply pretty_Z_inj in H. lia.
Qed.

Lemma part_name_not_processed (base : string) (j : Z) :
  base +:+ "_processed.mp4" <> part_name base j.
Proof.
  unfold part_name. intros H. apply String.app_inj in H.
  change ("_part" +:+ pretty (j + 1) +:+ ".mp4")
    with (String "_" (String "p" (String "a" ("rt" +:+ pretty (j + 1) +:+ ".mp4"))))
    in H.
  discriminate H.
Qed.

Lemma bind_returned_state {A B} (c : M A) (k : A -> M B) (s s' : St) (b : B) :
  (c ≫= k) s = (Returned b, s') ->
  exists a s1, c s = (Returned a, s1) /\ k a s1 = (Returned b, s').
Proof.
  unfold mbind, M_bind, bind.
  destruct (c s) as [[a | msg | | ] s1]; try discriminate.
  intros H. eauto.
Qed.

(** A loop that returns has written every part it lists, with the size it
    lists, and has touched no file other than parts from its counter on. *)
Lemma split_loop_files (v dir base : string) (pn dpp : jsnum) :
  (forall a b,
     path_join dir (part_name base a) = path_join dir (part_name base b) ->
     a = b) ->
  forall (fuel : nat) (i : Z) (parts : list Artifact.t) (s s' : St)
         (arts : list Artifact.t),
    split_loop fuel v dir base pn dpp i parts s = (Returned arts, s') ->
    exists sizes : list Z,
      arts = parts ++ zip_with (part_artifact dir base pn)
                        (seqZ i (Z.of_nat (length sizes))) sizes
      /\ (forall (j : nat) sz,
            sizes !! j = Some sz ->
            files s' !! path_join dir (part_name base (i + Z.of_nat j)) = Some sz)
      /\ (forall q,
            (forall j, i <= j -> q <> path_join dir (part_name base j)) ->
            files s' !! q = files s !! q).
Proof.
  intros Hinj.
  induction fuel as [| fuel IH]; intros i parts s s' arts; cbn [split_loop].
  - discriminate.
  - destruct (js_lt (num i) pn).
    + unfold mbind, M_bind, bind. rewrite extractVideoSegment_run. cbv zeta.
      fold (part_name base i).
      destruct (extract _ _ _ _) as [err | sz]; [discriminate |].
      rewrite getFileSize_run. cbn [files put log].
      rewrite lookup_insert_eq.
      intros H. apply IH in H. destruct H as (sizes & Harts & Hon & Hoff).
      exists (sz :: sizes). cbn [length].
      rewrite seqZ_cons by lia.
      replace (Z.pred (Z.of_nat (S (length sizes))))
        with (Z.of_nat (length sizes)) by lia.
      replace (Z.succ i) with (i + 1) by lia.
      split; [rewrite Harts, <- app_assoc; reflexivity |]. split.
      * intros [| j] sz' Hj.
        -- injection Hj as <-. rewrite Z.add_0_r. rewrite Hoff.
           ++ cbn [files]. apply lookup_insert_eq.
           ++ intros j Hj E. apply Hinj in E. lia.
        -- cbn in Hj. replace (i + Z.of_nat (S j)) with (i + 1 + Z.of_nat j) by lia.
           apply Hon. exact Hj.
      * intros q Hq. rewrite Hoff.
        -- cbn [files]. apply lookup_insert_ne. intros E. apply (Hq i); [lia |].
           symmetry. exact E.
        -- intros j Hj. apply Hq. lia.
    + intros [= <- <-]. exists []. cbn. rewrite app_nil_r.
      split; [reflexivity |]. split; [intros j sz Hj; discriminate | reflexivity].
Qed.

Lemma splitVideo_files (fuel : nat) (v o : string) (s s' : St)
    (arts : list Artifact.t) :
  let dir := js_or_str (env s !! "TEMP_DIR") "temp" in
  (forall a b,
     path_join dir (part_name (path_parse_name o) a)
     = path_join dir (part_name (path_parse_name o) b) -> a = b) ->
  (forall j, v <> path_join dir (part_name (path_parse_name o) j)) ->
  splitVideo fuel v o s = (Returned arts, s') ->
  forall a, a ∈ arts -> files s' !! Artifact.path a = Some (Artifact.size a).
Proof.
  intros dir Hinj Hv. unfold splitVideo, mbind, M_bind, bind.
  pose proof (analyzeVideo_state v s) as Hs1.
  destruct (analyzeVideo v s) as [[info | | | ] s1]; try discriminate.
  cbn [snd] in Hs1. subst s1.
  rewrite getFileSize_run. cbn [files log].
  destruct (files s !! v) as [fileSize |]; [| discriminate].
  unfold get_this, temp_dir, get_env, ret, mbind, M_bind, bind.
  cbn [this env log]. fold dir.
  destruct (split_loop _ _ _ _ _ _ _ _ _) as [[parts | | | ] s3] eqn:Hloop;
    try discriminate.
  apply (split_loop_files v dir _ _ _ Hinj) in Hloop.
  destruct Hloop as (sizes & Hparts & Hon & _).
  unfold fs_remove, emit, delete_file, throw, mbind, M_bind, bind.
  destruct (remove_error v); [discriminate |].
  intros [= <- <-] a Ha. cbn [files]. cbn [app] in Hparts. subst parts.
  apply list_elem_of_lookup in Ha. destruct Ha as [j Hj].
  apply lookup_zip_with_Some in Hj. destruct Hj as (x & sz & -> & Hx & Hsz).
  apply lookup_seqZ in Hx. destruct Hx as [-> _].
  cbn [part_artifact Artifact.path Artifact.size].
  rewrite lookup_delete_ne by apply Hv.
  apply Hon. exact Hsz.
Qed.

(** X5: when [path.join] gives distinct paths to the distinct names the job
    generates in its working directory (<base>_thumbnail.jpg,
    <base>_processed.mp4 and the <base>_part<i>.mp4), every artifact of the
    list [processVideo] returns names a file that is in the working directory
    when the call returns, with exactly the size the artifact records: the
    unsplit transcoded file or each of the parts, and the thumbnail. *)
Theorem processVideo_artifacts_on_disk :
  forall (fuel : nat) (inputPath originalFileName : string) (s : St)
         (arts : list Artifact.t),
    (forall a b,
       job_name (path_parse_name originalFileName) a ->
       job_name (path_parse_name originalFileName) b ->
       path_join (js_or_str (env s !! "TEMP_DIR") "temp") a
       = path_join (js_or_str (env s !! "TEMP_DIR") "temp") b -> a = b) ->
    fst (processVideo fuel inputPath originalFileName s) = Returned arts ->
    forall a,
      a ∈ arts ->
      files (snd (processVideo fuel inputPath originalFileName s))
        !! Artifact.path a = Some (Artifact.size a).
Proof.
  intros fuel inputPath originalFileName s arts Hinj Hret.
  destruct (processVideo_cases fuel inputPath originalFileName s)
    as [(evs & rest & _ & _ & Hnot) | (sz1 & sz2 & Hr)];
    [exfalso; exact (Hnot arts Hret) |].
  cbv zeta in Hr. rewrite Hr in *. clear Hr.
  set (dir := js_or_str (env s !! "TEMP_DIR") "temp") in *.
  set (base := path_parse_name originalFileName) in *.
  set (processedPath := path_join dir (base +:+ "_processed.mp4")) in *.
  set (thumbnailPath := path_join dir (base +:+ "_thumbnail.jpg")) in *.
  set (s3 := put _ processedPath sz2) in *.
  rewrite try_catch_throw_snd.
  apply try_catch_throw_returned in Hret.
  match type of Hret with
  | fst (?body s3) = _ => destruct (body s3) as [out s'] eqn:Hbody
  end.
  cbn [fst snd] in *. subst out.
  apply bind_returned_state in Hbody.
  destruct Hbody as (videos & s4 & Hcheck & Hbody).
  apply bind_returned_state in Hbody.
  destruct Hbody as (tsz & s5 & Hstat & Hbody).
  injection Hbody as <- <-.
  rewrite getFileSize_run in Hstat.
  destruct (files s4 !! thumbnailPath) as [tsz' |] eqn:Hthumb; [| discriminate].
  injection Hstat as -> <-. cbn [files log].
  intros a Ha. apply elem_of_app in Ha. destruct Ha as [Ha | Ha].
  - rewrite checkAndSplitVideo_run in Hcheck.
    assert (Hfile : files s3 !! processedPath = Some sz2)
      by apply lookup_insert_eq.
    rewrite Hfile in Hcheck. destruct (js_le _ _).
    + injection Hcheck as <- <-. apply list_elem_of_singleton in Ha. subst a.
      exact Hfile.
    + apply (splitVideo_files fuel processedPath originalFileName _ s4 videos)
        with (a := a) in Hcheck; auto.
      * intros i j E. apply Hinj in E.
        -- exact (part_name_inj _ _ _ E).
        -- right. right. exists i. reflexivity.
        -- right. right. exists j. reflexivity.
      * intros j E. apply Hinj in E.
        -- exact (part_name_not_processed _ _ E).
        -- right. left. reflexivity.
        -- right. right. exists j. reflexivity.
  - apply list_elem_of_singleton in Ha. subst a. exact Hthumb.
Qed.

End ProcessorProperties.

(** * Properties of the services and scripts *)

(** ** What a step may change

    Frame lemmas: which calls a step adds to the trace and what it does to
    the local state and to the set of processed ids. *)

#[local] Instance any_preorder {X} : PreOrder (@any X).
Proof. split; intros ?; unfold any; auto. Qed.

Section Frames.
Context {host : Host} {cloud : Cloud}.
Context (Q : CloudEvent -> Prop) (L : St -> St -> Prop)
        (G : list jsval -> list jsval -> Prop).
Context {L_pre : PreOrder L} {G_pre : PreOrder G}.

Lemma confined_same {A} (c : C A) :
  (forall w, snd (c w) = w) -> confined Q L G c.
Proof.
  intros H w. rewrite H. split; [reflexivity |]. split; [reflexivity |].
  split; [reflexivity |]. exists []. rewrite app_nil_r. auto.
Qed.

Lemma confined_ret {A} (a : A) : confined Q L G (mret a).
Proof. apply confined_same. reflexivity. Qed.

Lemma confined_cthrow {A} (m : string) : confined Q L G (@cthrow A m).
Proof. apply confined_same. reflexivity. Qed.

Lemma confined_history : confined Q L G history.
Proof. apply confined_same. reflexivity. Qed.

Lemma confined_the_services : confined Q L G the_services.
Proof. apply confined_same. reflexivity. Qed.

Lemma confined_the_processed : confined Q L G the_processed.
Proof. apply confined_same. reflexivity. Qed.

Lemma confined_file_content p : confined Q L G (file_content p).
Proof.
  apply confined_same. intros w. unfold file_content.
  destruct (files (local w) !! p); reflexivity.
Qed.

Lemma confined_fs_pathExists p : confined Q L G (fs_pathExists p).
Proof. apply confined_same. reflexivity. Qed.

Lemma confined_trans {A B} (c : C A) (w : World) (r : outcome B * World) :
  confined Q L G c ->
  (L (local (snd (c w))) (local (snd r))
   /\ G (processedFileIds (snd (c w))) (processedFileIds (snd r))
   /\ services (snd r) = services (snd (c w))
   /\ exists new, calls (snd r) = calls (snd (c w)) ++ new /\ Forall Q new) ->
  L (local w) (local (snd r))
  /\ G (processedFileIds w) (processedFileIds (snd r))
  /\ services (snd r) = services w
  /\ exists new, calls (snd r) = calls w ++ new /\ Forall Q new.
Proof.
  intros Hc (HL & HG & HS & new2 & Hcalls & HQ).
  destruct (Hc w) as (HL1 & HG1 & HS1 & new1 & Hcalls1 & HQ1).
  split; [etransitivity; eassumption |].
  split; [etransitivity; eassumption |].
  split; [congruence |].
  exists (new1 ++ new2). rewrite Hcalls, Hcalls1, app_assoc.
  split; [reflexivity | apply Forall_app; auto].
Qed.

Lemma confined_bind {A B} (c : C A) (k : A -> C B) :
  confined Q L G c -> (forall a, confined Q L G (k a)) ->
  confined Q L G (c ≫= k).
Proof.
  intros Hc Hk w. unfold mbind, C_bind, cbind.
  pose proof (Hc w) as Hw.
  destruct (c w) as [[a | m | | ] w1] eqn:E; try exact Hw.
  pose proof (confined_trans c w (k a w1) Hc) as Ht. rewrite E in Ht.
  apply Ht. apply Hk.
Qed.

Lemma confined_ctry {A} (c : C A) (h : string -> C A) :
  confined Q L G c -> (forall m, confined Q L G (h m)) ->
  confined Q L G (ctry c h).
Proof.
  intros Hc Hh w. unfold ctry.
  pose proof (Hc w) as Hw.
  destruct (c w) as [[a | m | | ] w1] eqn:E; try exact Hw.
  pose proof (confined_trans c w (h m w1) Hc) as Ht. rewrite E in Ht.
  apply Ht. apply Hh.
Qed.

Lemma confined_bind_result {A B} (P : A -> Prop) (c : C A) (k : A -> C B) :
  confined Q L G c -> returns_only P c ->
  (forall a, P a -> confined Q L G (k a)) ->
  confined Q L G (c ≫= k).
Proof.
  intros Hc HP Hk w. unfold mbind, C_bind, cbind.
  pose proof (Hc w) as Hw. pose proof (HP w) as HPw.
  destruct (c w) as [[a | m | | ] w1] eqn:E; try exact Hw.
  pose proof (confined_trans c w (k a w1) Hc) as Ht. rewrite E in Ht.
  apply Ht. apply Hk. apply HPw. reflexivity.
Qed.

Lemma confined_record (e : CloudEvent) : Q e -> confined Q L G (record e).
Proof.
  intros He w. cbn. split; [reflexivity |]. split; [reflexivity |].
  split; [reflexivity |]. exists [e]. auto.
Qed.

Lemma confined_lift {A} (c : M A) :
  (forall s, L s (snd (c s))) -> confined Q L G (lift c).
Proof.
  intros Hc w. unfold lift. pose proof (Hc (local w)) as H.
  destruct (c (local w)) as [o s']. cbn in *.
  split; [exact H |]. split; [reflexivity |]. split; [reflexivity |].
  exists []. rewrite app_nil_r. auto.
Qed.

Create HintDb confined.
#[local] Hint Resolve confined_ret confined_cthrow confined_history
  confined_the_services confined_the_processed confined_file_content
  confined_fs_pathExists : confined.

Ltac confined_step :=
  repeat first
    [ solve [auto with confined]
    | apply confined_bind; [| intros ?]
    | apply confined_ctry; [| intros ?]
    | apply confined_record
    | match goal with
      | |- confined _ _ _ (match ?x with _ => _ end) => destruct x
      | |- confined _ _ _ (if ?x then _ else _) => destruct x
      end ].

Lemma confined_api_read {A} (e : CloudEvent)
    (answer : list CloudEvent -> string + A) :
  Q e -> confined Q L G (api_read e answer).
Proof. intros He. unfold api_read. confined_step. Qed.

Lemma confined_api_write (e : CloudEvent)
    (answer : list CloudEvent -> option string) :
  Q e -> confined Q L G (api_write e answer).
Proof. intros He. unfold api_write. confined_step. Qed.

#[local] Hint Resolve confined_api_read confined_api_write : confined.

(** *** The calls of GoogleSheetsService *)

Hypothesis Q_SpreadsheetsGet : forall i, Q (SpreadsheetsGet i).
Hypothesis Q_SpreadsheetsBatchUpdate :
  forall i r, Q (SpreadsheetsBatchUpdate i r).
Hypothesis Q_ValuesUpdate : forall i r v, Q (ValuesUpdate i r v).
Hypothesis Q_ValuesGet : forall i r b, Q (ValuesGet i r b).

Lemma confined_getSheetId : confined Q L G getSheetId.
Proof. unfold getSheetId. confined_step. Qed.

Lemma confined_createSheet : confined Q L G createSheet.
Proof. unfold createSheet. confined_step. Qed.

#[local] Hint Resolve confined_getSheetId confined_createSheet : confined.

Lemma confined_ensureHeaders : confined Q L G ensureHeaders.
Proof. unfold ensureHeaders. confined_step. Qed.

#[local] Hint Resolve confined_ensureHeaders : confined.

Lemma confined_initializeSheet : confined Q L G initializeSheet.
Proof. unfold initializeSheet. confined_step. Qed.

#[local] Hint Resolve confined_initializeSheet : confined.

Lemma confined_addVideoEntry (data : VideoData.t) :
  (forall i r now, Q (ValuesAppend i r [row_data now data])) ->
  confined Q L G (addVideoEntry data).
Proof. intros Hrow. unfold addVideoEntry. confined_step. Qed.

Lemma confined_getVideoEntries (limit : Z) :
  confined Q L G (getVideoEntries limit).
Proof. unfold getVideoEntries. confined_step. Qed.

Lemma confined_updateEntryStatus (fileId status : string)
    (additionalData : Additional.t) :
  confined Q L G (updateEntryStatus fileId status additionalData).
Proof. unfold updateEntryStatus. confined_step. Qed.

#[local] Hint Resolve confined_getVideoEntries confined_updateEntryStatus
  : confined.

(** *** The calls of GoogleDriveService and ImageKitService *)

Hypothesis Q_ReadClock : Q ReadClock.
Hypothesis Q_ReadFile : forall p, Q (ReadFile p).
Hypothesis Q_ImageKitUpload : forall r, Q (ImageKitUpload r).

Lemma confined_clock : confined Q L G clock.
Proof. unfold clock. confined_step. Qed.

Lemma confined_fs_readFile p : confined Q L G (fs_readFile p).
Proof. unfold fs_readFile. confined_step. Qed.

#[local] Hint Resolve confined_clock confined_fs_readFile : confined.

Lemma confined_elapsed_seconds t : confined Q L G (elapsed_seconds t).
Proof. unfold elapsed_seconds. confined_step. Qed.

Lemma confined_uploadVideo p n : confined Q L G (uploadVideo p n).
Proof. unfold uploadVideo. confined_step. Qed.

Lemma confined_uploadThumbnail p n : confined Q L G (uploadThumbnail p n).
Proof. unfold uploadThumbnail. confined_step. Qed.

#[local] Hint Resolve confined_elapsed_seconds confined_uploadVideo
  confined_uploadThumbnail : confined.

Lemma confined_uploadFile p n t : confined Q L G (uploadFile p n t).
Proof. unfold uploadFile. confined_step. Qed.

#[local] Hint Resolve confined_uploadFile : confined.

Lemma confined_upload_all (videos : list Artifact.t) :
  forall urls, confined Q L G (upload_all videos urls).
Proof.
  induction videos as [| video rest IH]; intros urls; cbn [upload_all];
    confined_step.
Qed.

Lemma confined_upload_videos (videos : list Artifact.t) :
  forall urls, confined Q L G (upload_videos videos urls).
Proof.
  induction videos as [| video rest IH]; intros urls; cbn [upload_videos];
    confined_step.
Qed.

#[local] Hint Resolve confined_upload_all confined_upload_videos : confined.

(** *** The steps that change the local files *)

Hypothesis L_any : forall s s', L s s'.
Hypothesis Q_DriveFilesGet : forall i, Q (DriveFilesGet i).
Hypothesis Q_DriveFilesList : forall q, Q (DriveFilesList q).
Hypothesis Q_ValuesAppend : forall i r v, Q (ValuesAppend i r v).

Lemma confined_lift_any {A} (c : M A) : confined Q L G (lift c).
Proof. apply confined_lift. intros s. apply L_any. Qed.

#[local] Hint Resolve confined_lift_any : confined.

Lemma confined_downloadFile i n : confined Q L G (downloadFile i n).
Proof. unfold downloadFile. confined_step. Qed.

Lemma confined_listFiles : confined Q L G listFiles.
Proof. unfold listFiles. confined_step. Qed.

Lemma confined_remove_if_exists p : confined Q L G (remove_if_exists p).
Proof. unfold remove_if_exists. confined_step. Qed.

#[local] Hint Resolve confined_downloadFile confined_listFiles
  confined_remove_if_exists : confined.

Lemma confined_remove_artifacts (videos : list Artifact.t) :
  confined Q L G (remove_artifacts videos).
Proof.
  induction videos as [| video rest IH]; cbn [remove_artifacts]; confined_step.
Qed.

Lemma confined_remove_all (videos : list Artifact.t) :
  confined Q L G (remove_all videos).
Proof.
  induction videos as [| video rest IH]; cbn [remove_all]; confined_step.
Qed.

#[local] Hint Resolve confined_remove_artifacts confined_remove_all : confined.

Lemma confined_script_cleanupFiles p videos :
  confined Q L G (script_cleanupFiles p videos).
Proof. unfold script_cleanupFiles. confined_step. Qed.

#[local] Hint Resolve confined_script_cleanupFiles : confined.

Lemma confined_catch_finally t i p videos m :
  confined Q L G (catch_finally t i p videos m).
Proof. unfold catch_finally. confined_step. Qed.

#[local] Hint Resolve confined_catch_finally : confined.

Lemma confined_guarded {A} t i p videos (c : C A) (k : A -> C JobResult.t) :
  confined Q L G c -> (forall a, confined Q L G (k a)) ->
  confined Q L G (guarded t i p videos c k).
Proof.
  intros Hc Hk w. unfold guarded.
  pose proof (Hc w) as Hw.
  destruct (c w) as [[a | m | | ] w1] eqn:E; try exact Hw.
  - pose proof (confined_trans c w (k a w1) Hc) as Ht. rewrite E in Ht.
    apply Ht. apply Hk.
  - pose proof (confined_trans c w (catch_finally t i p videos m w1) Hc)
      as Ht.
    rewrite E in Ht. apply Ht. apply confined_catch_finally.
Qed.

(** Steps 4 to 6 of the script's [processVideo]. *)
Lemma confined_upload_and_record (startTime : Z) (fileId fileName : string)
    (processedVideos : list Artifact.t) :
  confined Q L G
    (imageKitUrls ← upload_all processedVideos [];
     processingTime ← elapsed_seconds startTime;
     h ← history;
     addVideoEntry
       {| VideoData.fileName := fileName;
          VideoData.originalFileId := fileId;
          VideoData.processedVideos := imageKitUrls;
          VideoData.timestamp := Some (iso_now h);
          VideoData.processingTime := Some processingTime;
          VideoData.errorMessage := None |};;
     updateEntryStatus fileId "COMPLETED"
       {| Additional.processingTime := Some processingTime;
          Additional.errorMessage := None |};;
     mret {| JobResult.success := true;
             JobResult.processingTime := processingTime;
             JobResult.urls := imageKitUrls |}).
Proof. confined_step. Qed.

Lemma confined_script_processVideo fuel i n :
  confined Q L G (script_processVideo fuel i n).
Proof.
  unfold script_processVideo.
  apply confined_bind; [confined_step | intros t].
  repeat (apply confined_guarded; [| intros ?]); confined_step.
Qed.

(** *** The steps that change the set of processed ids *)

Hypothesis G_any : forall a b, G a b.
Hypothesis Q_Delay : forall ms, Q (Delay ms).
Hypothesis Q_CloudWarn : forall m, Q (CloudWarn m).

Lemma confined_add_processed (v : jsval) : confined Q L G (add_processed v).
Proof.
  intros w. cbn. split; [reflexivity |]. split; [apply G_any |].
  split; [reflexivity |]. exists []. rewrite app_nil_r. auto.
Qed.

Lemma confined_delay (ms : Z) : confined Q L G (delay ms).
Proof. unfold delay. confined_step. Qed.

#[local] Hint Resolve confined_add_processed confined_delay
  confined_script_processVideo : confined.

Lemma confined_add_entries (entries : list Entry.t) :
  confined Q L G (add_entries entries).
Proof.
  induction entries as [| entry rest IH]; cbn [add_entries]; confined_step.
Qed.

#[local] Hint Resolve confined_add_entries : confined.

Lemma confined_loadProcessedFileIds : confined Q L G loadProcessedFileIds.
Proof. unfold loadProcessedFileIds. confined_step. Qed.

Lemma confined_processNewVideos_from (fuel : nat) (videos : list DriveFile.t) :
  forall done, confined Q L G (processNewVideos_from fuel videos done).
Proof.
  induction videos as [| video rest IH]; intros done;
    cbn [processNewVideos_from]; confined_step.
Qed.

End Frames.

(** Applies a frame lemma; the side conditions on the relations and on the
    calls allowed are solved when they are trivial. *)
Ltac frame lemma :=
  apply lemma; try exact _; try (intros; exact I).

(** ** The status of an entry *)

Section SheetsProperties.
Context {host : Host} {cloud : Cloud}.

Lemma is_string_true (fileId : string) (cell : jsval) :
  is_string fileId cell = true <-> cell = JString fileId.
Proof.
  destruct cell; cbn; try (split; [discriminate | intros [=]]).
  rewrite String.eqb_eq. split; [intros -> | intros [= ->]]; reflexivity.
Qed.

Lemma find_row_none (fileId : string) (rows : list Row) :
  forall i,
    find_row rows fileId i = None
    <-> forall row, row ∈ rows -> row !! 2%nat <> Some (JString fileId).
Proof.
  induction rows as [| row rest IH]; intros i; cbn [find_row].
  - split; [intros _ row Hin; inversion Hin | reflexivity].
  - destruct (row !! 2%nat) as [cell |] eqn:Hcell.
    + destruct (is_string fileId cell) eqn:Hs.
      * apply is_string_true in Hs. subst cell. split; [discriminate |].
        intros H. exfalso. apply (H row); [left | exact Hcell].
      * rewrite IH. split.
        -- intros H row' Hin. apply elem_of_cons in Hin as [-> | Hin]; [| auto].
           rewrite Hcell. intros [= ->].
           assert (is_string fileId (JString fileId) = true)
             by (apply is_string_true; reflexivity).
           congruence.
        -- intros H row' Hin. apply H. right. exact Hin.
    + rewrite IH. split.
      * intros H row' Hin. apply elem_of_cons in Hin as [-> | Hin]; [| auto].
        rewrite Hcell. discriminate.
      * intros H row' Hin. apply H. right. exact Hin.
Qed.

Lemma find_row_first (fileId : string) (rows : list Row) :
  forall (i : Z) (j : nat) (row : Row),
    rows !! j = Some row ->
    row !! 2%nat = Some (JString fileId) ->
    (forall j' row', (j' < j)%nat -> rows !! j' = Some row' ->
                     row' !! 2%nat <> Some (JString fileId)) ->
    find_row rows fileId i = Some (i + Z.of_nat j + 1).
Proof.
  induction rows as [| first rest IH]; intros i j row Hj Hrow Hbefore.
  - discriminate.
  - cbn [find_row]. destruct j as [| j].
    + injection Hj as ->. rewrite Hrow.
      assert (is_string fileId (JString fileId) = true) as ->
        by (apply is_string_true; reflexivity).
      f_equal. lia.
    + assert (Hfirst : first !! 2%nat <> Some (JString fileId))
        by (apply (Hbefore O); [lia | reflexivity]).
      replace (i + Z.of_nat (S j) + 1) with (i + 1 + Z.of_nat j + 1) by lia.
      assert (Hrest : find_row rest fileId (i + 1)
                      = Some (i + 1 + Z.of_nat j + 1)).
      { apply (IH _ _ row); [exact Hj | exact Hrow |].
        intros j' row' Hlt Hj'. apply (Hbefore (S j')); [lia | exact Hj']. }
      destruct (first !! 2%nat) as [cell |]; [| exact Hrest].
      destruct (is_string fileId cell) eqn:Hs; [| exact Hrest].
      apply is_string_true in Hs. subst cell. contradiction.
Qed.

Lemma new_calls_called (w : World) (new : list CloudEvent) :
  new_calls w (called w new) = new.
Proof. unfold new_calls, called. cbn [calls]. apply drop_app_length. Qed.

Lemma called_called (w : World) (a b : list CloudEvent) :
  called (called w a) b = called w (a ++ b).
Proof. unfold called. cbn. rewrite app_assoc. reflexivity. Qed.

(** What [updateEntryStatus] does once the rows have been read. *)
Lemma updateEntryStatus_run (fileId status : string)
    (additionalData : Additional.t) (w : World) :
  let svc := services w in
  let range := sheetName svc +:+ "!A:C" in
  let lookup := ValuesGet (spreadsheetId svc) range false in
  let wrap := fun m => "Failed to update status in Google Sheets: " +:+ m in
  updateEntryStatus fileId status additionalData w
  = match values_get (calls w) (spreadsheetId svc) range false with
    | inl m => (Thrown (wrap m), called w [lookup])
    | inr values =>
        match find_row (default [] values) fileId 0 with
        | None =>
            (Thrown (wrap ("Entry not found for file ID: " +:+ fileId)),
             called w [lookup])
        | Some rowIndex =>
            let cell := fun column =>
              sheetName svc +:+ "!" +:+ column +:+ pretty rowIndex in
            let status_update :=
              ValuesUpdate (spreadsheetId svc) (cell "D") [[JString status]] in
            match values_update (calls w ++ [lookup]) (spreadsheetId svc)
                    (cell "D") [[JString status]] with
            | Some m => (Thrown (wrap m), called w [lookup; status_update])
            | None =>
                let time_update :=
                  match Additional.processingTime additionalData with
                  | Some t => [ValuesUpdate (spreadsheetId svc) (cell "I")
                                 [[JString (toFixed2 t)]]]
                  | None => []
                  end in
                let error_update :=
                  match Additional.errorMessage additionalData with
                  | Some m => [ValuesUpdate (spreadsheetId svc) (cell "J")
                                 [[JString m]]]
                  | None => []
                  end in
                let h0 := calls w ++ [lookup; status_update] in
                let first :=
                  Additional.processingTime additionalData ≫= fun t =>
                    values_update h0 (spreadsheetId svc) (cell "I")
                      [[JString (toFixed2 t)]] in
                let second :=
                  Additional.errorMessage additionalData ≫= fun m =>
                    values_update (h0 ++ time_update) (spreadsheetId svc)
                      (cell "J") [[JString m]] in
                (match settle_both first second
                         (first_fails_first
                            (h0 ++ time_update ++ error_update)) with
                 | Some m => Thrown (wrap m)
                 | None => Returned tt
                 end,
                 called w ([lookup; status_update] ++ time_update
                           ++ error_update))
            end
        end
    end.
Proof.
  cbv zeta. unfold updateEntryStatus, ctry, api_read, api_write.
  unfold mbind at 1, C_bind at 1, cbind at 1. cbn [the_services].
  unfold mbind at 1, C_bind at 1, cbind at 1.
  unfold mbind at 1, C_bind at 1, cbind at 1. cbn [history].
  unfold mbind at 1, C_bind at 1, cbind at 1. cbn [record].
  fold (called w [ValuesGet (spreadsheetId (services w))
                    (sheetName (services w) +:+ "!A:C") false]).
  destruct (values_get _ _ _ _) as [m | values]; [reflexivity |].
  cbn [mret C_ret cret].
  destruct (find_row _ _ _) as [rowIndex |]; [| reflexivity].
  unfold mbind at 1, C_bind at 1, cbind at 1.
  unfold mbind at 1, C_bind at 1, cbind at 1. cbn [history].
  unfold mbind at 1, C_bind at 1, cbind at 1. cbn [record called calls].
  destruct (values_update _ _ _ _) as [m |].
  { cbn [cthrow]. unfold called. cbn. rewrite <- app_assoc. reflexivity. }
  cbn [mret C_ret cret].
  unfold mbind, C_bind, cbind. cbn [history].
  destruct (Additional.processingTime additionalData) as [t |];
    destruct (Additional.errorMessage additionalData) as [e |];
    cbn [record mret C_ret cret calls local services processedFileIds
         option_bind app];
    rewrite <- ?app_assoc; cbn [app];
    match goal with
    | |- context [settle_both ?a ?b ?c] => destruct (settle_both a b c)
    end;
    unfold called; cbn; rewrite <- ?app_assoc; reflexivity.
Qed.

(** X6: when no row of the sheet holds the file id as a string in its
    third cell, [updateEntryStatus] rejects with the wrapped message
    "Entry not found for file ID: <id>" after the one read, and writes
    nothing. *)
Theorem updateEntryStatus_missing_entry :
  forall (fileId status : string) (additionalData : Additional.t) (w : World)
         (values : option (list Row)),
    values_get (calls w) (spreadsheetId (services w))
      (sheetName (services w) +:+ "!A:C") false = inr values ->
    (forall row, row ∈ default [] values ->
                 row !! 2%nat <> Some (JString fileId)) ->
    updateEntryStatus fileId status additionalData w
    = (Thrown ("Failed to update status in Google Sheets: "
               +:+ "Entry not found for file ID: " +:+ fileId),
       called w [ValuesGet (spreadsheetId (services w))
                   (sheetName (services w) +:+ "!A:C") false]).
Proof.
  intros fileId status additionalData w values Hget Hrows.
  rewrite updateEntryStatus_run. cbv zeta. rewrite Hget.
  apply (find_row_none fileId _ 0) in Hrows. rewrite Hrows. reflexivity.
Qed.

(** X7: when row number [j] (from 0, the header row included) is the first
    one whose third cell is the file id, the status goes to cell D of sheet
    row [j + 1], right after the read; every further call is an update of
    cell I or J of the same row, none is made when the status update
    fails, and the call is fulfilled or rejects with a message starting
    with "Failed to update status in Google Sheets: ". *)
Theorem updateEntryStatus_targets_first_match :
  forall (fileId status : string) (additionalData : Additional.t) (w : World)
         (values : option (list Row)) (j : nat) (row : Row),
    let svc := services w in
    let cell := fun column =>
      sheetName svc +:+ "!" +:+ column +:+ pretty (Z.of_nat j + 1) in
    let r := updateEntryStatus fileId status additionalData w in
    values_get (calls w) (spreadsheetId svc) (sheetName svc +:+ "!A:C") false
    = inr values ->
    default [] values !! j = Some row ->
    row !! 2%nat = Some (JString fileId) ->
    (forall j' row', (j' < j)%nat -> default [] values !! j' = Some row' ->
                     row' !! 2%nat <> Some (JString fileId)) ->
    exists rest,
      new_calls w (snd r)
      = ValuesGet (spreadsheetId svc) (sheetName svc +:+ "!A:C") false
        :: ValuesUpdate (spreadsheetId svc) (cell "D") [[JString status]]
        :: rest
      /\ Forall (fun e => exists column v,
                   e = ValuesUpdate (spreadsheetId svc) (cell column) v
                   /\ (column = "I" \/ column = "J")) rest
      /\ (is_Some (values_update
                     (calls w ++ [ValuesGet (spreadsheetId svc)
                                    (sheetName svc +:+ "!A:C") false])
                     (spreadsheetId svc) (cell "D") [[JString status]]) ->
          rest = [])
      /\ (fst r = Returned tt
          \/ exists m,
               fst r = Thrown ("Failed to update status in Google Sheets: "
                               +:+ m)).
Proof.
  intros fileId status additionalData w values j row svc cell r
         Hget Hj Hrow Hbefore.
  subst r. rewrite updateEntryStatus_run. cbv zeta. fold svc. rewrite Hget.
  rewrite (find_row_first fileId _ 0 j row Hj Hrow Hbefore).
  replace (0 + Z.of_nat j + 1) with (Z.of_nat j + 1) by lia.
  fold (cell "D"). fold (cell "I"). fold (cell "J").
  destruct (values_update _ _ (cell "D") _) as [m |].
  - exists []. cbn [fst snd]. rewrite new_calls_called.
    split; [reflexivity |]. split; [constructor |].
    split; [reflexivity | right; eauto].
  - eexists. cbn [fst snd]. rewrite new_calls_called.
    split; [reflexivity |]. split.
    + apply Forall_app. split.
      * destruct (Additional.processingTime additionalData); repeat constructor.
        exists "I". eauto.
      * destruct (Additional.errorMessage additionalData); repeat constructor.
        exists "J". eauto.
    + split; [intros [? [=]] |].
      destruct (settle_both _ _ _); [right; eauto | left; reflexivity].
Qed.

End SheetsProperties.

(** ** A job for a file the sheet does not list *)

Section ScriptProperties.
Context {host : Host} {cloud : Cloud}.

Lemma updateEntryStatus_not_found (fileId status : string)
    (additionalData : Additional.t) (w : World) (values : option (list Row)) :
  values_get (calls w) (spreadsheetId (services w))
    (sheetName (services w) +:+ "!A:C") false = inr values ->
  (forall row, row ∈ default [] values ->
               row !! 2%nat <> Some (JString fileId)) ->
  updateEntryStatus fileId status additionalData w
  = (Thrown ("Failed to update status in Google Sheets: "
             +:+ "Entry not found for file ID: " +:+ fileId),
     called w [ValuesGet (spreadsheetId (services w))
                 (sheetName (services w) +:+ "!A:C") false]).
Proof.
  intros Hget Hrows.
  rewrite updateEntryStatus_run. cbv zeta. rewrite Hget.
  apply (find_row_none fileId _ 0) in Hrows. rewrite Hrows. reflexivity.
Qed.

Lemma clock_run (w : World) :
  clock w = (Returned (date_now (calls w)), called w [ReadClock]).
Proof. reflexivity. Qed.

Lemma elapsed_seconds_run (startTime : Z) (w : World) :
  elapsed_seconds startTime w
  = (Returned (js_div (num (date_now (calls w) - startTime)) (num 1000)),
     called w [ReadClock]).
Proof. reflexivity. Qed.

Lemma record_run (e : CloudEvent) (w : World) :
  record e w = (Returned tt, called w [e]).
Proof. reflexivity. Qed.

Lemma cbind_run {A B} (c : C A) (k : A -> C B) (w : World) :
  (c ≫= k) w
  = match c w with
    | (Returned a, w') => k a w'
    | (Thrown m, w') => (Thrown m, w')
    | (Escaped, w') => (Escaped, w')
    | (OutOfFuel, w') => (OutOfFuel, w')
    end.
Proof. reflexivity. Qed.

(** X8: the script's [processVideo] sets the status to PROCESSING before
    anything else.  For a file id that no read of the sheet finds in the
    third cell of a row, it rejects with "Failed to update status in Google
    Sheets: Entry not found for file ID: <id>" after exactly two reads of
    the sheet, the second one made for the ERROR status: nothing is
    downloaded, processed, uploaded or appended, and the local files are
    untouched. *)
Theorem script_processVideo_needs_entry :
  forall (fuel : nat) (fileId fileName : string) (w : World),
    let lookup :=
      ValuesGet (spreadsheetId (services w))
        (sheetName (services w) +:+ "!A:C") false in
    (forall h, exists values,
        values_get h (spreadsheetId (services w))
          (sheetName (services w) +:+ "!A:C") false = inr values
        /\ forall row, row ∈ default [] values ->
                       row !! 2%nat <> Some (JString fileId)) ->
    script_processVideo fuel fileId fileName w
    = (Thrown ("Failed to update status in Google Sheets: "
               +:+ "Entry not found for file ID: " +:+ fileId),
       called w [ReadClock; lookup; ReadClock; lookup]).
Proof.
  intros fuel fileId fileName w lookup Hsheet.
  unfold script_processVideo. rewrite cbind_run, clock_run.
  unfold guarded at 1.
  destruct (Hsheet (calls (called w [ReadClock]))) as (values & Hget & Hrows).
  rewrite (updateEntryStatus_not_found _ _ _ _ values Hget Hrows).
  unfold catch_finally. rewrite cbind_run. unfold ctry at 1.
  rewrite cbind_run, elapsed_seconds_run, cbind_run.
  match goal with
  | |- context [updateEntryStatus fileId "ERROR" ?ad ?w'] =>
      destruct (Hsheet (calls w')) as (values' & Hget' & Hrows');
      rewrite (updateEntryStatus_not_found fileId "ERROR" ad w' values'
                 Hget' Hrows')
  end.
  cbn [mret C_ret cret]. rewrite cbind_run.
  cbn [script_cleanupFiles remove_artifacts ctry mret C_ret cret mbind C_bind
       cbind cthrow].
  rewrite !called_called. reflexivity.
Qed.

End ScriptProperties.

(** ** The cleanup of the script *)

Section CleanupProperties.
Context {host : Host} {cloud : Cloud}.

Lemma removes_within_skip (w : World) : removes_within [] w (Returned tt, w).
Proof.
  unfold removes_within. cbn [fst snd].
  split; [left; reflexivity |]. split; [reflexivity |].
  split; [auto |]. split; [auto |]. intros _ p Hp. inversion Hp.
Qed.

Lemma removes_within_weaken (targets targets' : list string) (w : World)
    (r : outcome unit * World) :
  (forall p, p ∈ targets -> p ∈ targets') ->
  (fst r = Returned tt ->
   forall p, p ∈ targets' -> p <> "" -> files (local (snd r)) !! p = None) ->
  removes_within targets w r -> removes_within targets' w r.
Proof.
  intros Hsub Hgone (Hout & Hcalls & Hshrink & Hout' & _).
  split.
  { destruct Hout as [? | (p & m & Hp & Hm & Hr)]; [left; assumption |].
    right. exists p, m. auto. }
  split; [exact Hcalls |]. split; [exact Hshrink |].
  split; [| exact Hgone].
  intros p Hp. apply Hout'. intros Hin. apply Hp, Hsub, Hin.
Qed.

Lemma removes_within_remove_if_exists (p : string) (w : World) :
  removes_within [p] w (remove_if_exists p w).
Proof.
  unfold remove_if_exists. destruct p as [| c p'].
  { cbn [mret C_ret cret]. unfold removes_within. cbn [fst snd].
    split; [left; reflexivity |]. split; [reflexivity |].
    split; [auto |]. split; [auto |].
    intros _ q Hq Hne. apply list_elem_of_singleton in Hq. contradiction. }
  set (p := String c p').
  rewrite cbind_run. cbn [fs_pathExists].
  destruct (files (local w) !! p) as [sz |] eqn:Hfile.
  - rewrite bool_decide_eq_true_2 by eauto.
    unfold lift, fs_remove, emit, delete_file, throw, mbind, M_bind, bind.
    unfold removes_within.
    destruct (remove_error p) as [m |] eqn:Hm; cbn [fst snd local calls files].
    + split; [right; exists p, m; repeat split; auto; left |].
      split; [reflexivity |]. split; [auto |]. split; [auto |]. discriminate.
    + split; [left; reflexivity |]. split; [reflexivity |].
      split.
      { intros q z Hq. destruct (decide (q = p)) as [-> | Hne].
        - rewrite lookup_delete_eq in Hq. discriminate.
        - rewrite lookup_delete_ne in Hq by congruence. exact Hq. }
      split.
      { intros q Hq. apply lookup_delete_ne. intros ->. apply Hq. left. }
      intros _ q Hq _. apply list_elem_of_singleton in Hq. subst q.
      apply lookup_delete_eq.
  - rewrite bool_decide_eq_false_2 by (intros [? [=]]).
    cbn [mret C_ret cret]. unfold removes_within. cbn [fst snd].
    split; [left; reflexivity |]. split; [reflexivity |].
    split; [auto |]. split; [auto |].
    intros _ q Hq _. apply list_elem_of_singleton in Hq. subst q. exact Hfile.
Qed.

Lemma removes_within_seq (a b : list string) (c1 c2 : C unit) (w : World) :
  removes_within a w (c1 w) ->
  (forall w1, removes_within b w1 (c2 w1)) ->
  removes_within (a ++ b) w ((c1;; c2) w).
Proof.
  intros H1 H2. rewrite cbind_run.
  destruct (c1 w) as [[[] | m | | ] w1] eqn:E.
  - destruct H1 as (_ & Hcalls1 & Hshrink1 & Hout1 & Hgone1).
    destruct (H2 w1) as (Hres2 & Hcalls2 & Hshrink2 & Hout2 & Hgone2).
    cbn [fst snd] in *.
    split.
    { destruct Hres2 as [? | (p & m & Hp & Hm & Hr)]; [left; assumption |].
      right. exists p, m. split; [apply elem_of_app; auto | auto]. }
    split; [congruence |].
    split; [intros p z Hp; apply Hshrink1, Hshrink2, Hp |].
    split.
    { intros p Hp. rewrite Hout2, Hout1; [reflexivity | |];
        intros Hin; apply Hp, elem_of_app; auto. }
    intros Hret p Hp Hne. apply elem_of_app in Hp as [Hp | Hp].
    + destruct (files (local (snd (c2 w1))) !! p) as [z |] eqn:Hz;
        [| reflexivity].
      apply Hshrink2 in Hz. rewrite Hgone1 in Hz by auto. discriminate.
    + apply Hgone2; auto.
  - apply (removes_within_weaken a); [intros p Hp; apply elem_of_app; auto | |].
    + discriminate.
    + exact H1.
  - destruct H1 as ([H | (p & m & _ & _ & H)] & _); discriminate.
  - destruct H1 as ([H | (p & m & _ & _ & H)] & _); discriminate.
Qed.

Lemma removes_within_remove_artifacts (videos : list Artifact.t) :
  forall w,
    removes_within (Artifact.path <$> videos) w (remove_artifacts videos w).
Proof.
  induction videos as [| video rest IH]; intros w; cbn [remove_artifacts fmap
    list_fmap].
  - apply removes_within_skip.
  - apply (removes_within_seq [Artifact.path video]).
    + apply removes_within_remove_if_exists.
    + exact IH.
Qed.

Lemma removes_within_cleanup (localPath : option string)
    (videos : list Artifact.t) (w : World) :
  removes_within (cleanup_targets localPath videos) w
    (((match localPath with
       | Some p => remove_if_exists p
       | None => mret tt
       end);;
      remove_artifacts videos) w).
Proof.
  unfold cleanup_targets. apply removes_within_seq.
  - destruct localPath as [p |]; cbn [option_list].
    + apply removes_within_remove_if_exists.
    + apply removes_within_skip.
  - apply removes_within_remove_artifacts.
Qed.

(** X9: the script's [cleanupFiles] never rejects and makes no remote call.
    It creates and changes no file and touches none but the downloaded file
    and the artifacts it is given; when none of their removals fails, none
    of them is left (a path that is the empty string is skipped). *)
Theorem script_cleanupFiles_effect :
  forall (localPath : option string) (processedVideos : list Artifact.t)
         (w : World),
    let r := script_cleanupFiles localPath processedVideos w in
    let targets := cleanup_targets localPath processedVideos in
    fst r = Returned tt
    /\ calls (snd r) = calls w
    /\ (forall p z, files (local (snd r)) !! p = Some z ->
                    files (local w) !! p = Some z)
    /\ (forall p, p ∉ targets ->
                  files (local (snd r)) !! p = files (local w) !! p)
    /\ ((forall p, p ∈ targets -> remove_error p = None) ->
        forall p, p ∈ targets -> p <> "" ->
                  files (local (snd r)) !! p = None).
Proof.
  intros localPath processedVideos w r targets. subst r.
  unfold script_cleanupFiles, ctry.
  pose proof (removes_within_cleanup localPath processedVideos w) as H.
  fold targets in H.
  match type of H with
  | removes_within _ _ (?body w) => destruct (body w) as [[[] | m | | ] w1]
  end;
    destruct H as (Hres & Hcalls & Hshrink & Hout & Hgone); cbn [fst snd] in *.
  - split; [reflexivity |]. split; [exact Hcalls |].
    split; [exact Hshrink |]. split; [exact Hout |].
    intros _. apply Hgone. reflexivity.
  - split; [reflexivity |]. split; [exact Hcalls |].
    split; [exact Hshrink |]. split; [exact Hout |].
    intros Hok. destruct Hres as [[=] | (p & m' & Hp & Hm & _)].
    rewrite (Hok p Hp) in Hm. discriminate.
  - destruct Hres as [[=] | (p & m' & _ & _ & [=])].
  - destruct Hres as [[=] | (p & m' & _ & _ & [=])].
Qed.

(** Where no removal fails, what is left after the cleanup was there before
    it and is none of the paths to remove, the empty path aside. *)
Lemma script_cleanupFiles_clears (localPath : option string)
    (processedVideos : list Artifact.t) (w : World) :
  (forall p, remove_error p = None) ->
  forall p z,
    files (local (snd (script_cleanupFiles localPath processedVideos w))) !! p
    = Some z ->
    files (local w) !! p = Some z
    /\ (p ∈ cleanup_targets localPath processedVideos -> p = "").
Proof.
  intros Hremove p z. unfold script_cleanupFiles, ctry.
  pose proof (removes_within_cleanup localPath processedVideos w) as H.
  match type of H with
  | removes_within _ _ (?body w) => destruct (body w) as [[[] | m | | ] w1]
  end;
    destruct H as (Hres & _ & Hshrink & _ & Hgone); cbn [fst snd] in *.
  - intros Hp. split; [apply Hshrink, Hp |].
    intros Hin. destruct (decide (p = "")) as [E | Hne]; [exact E |].
    rewrite (Hgone eq_refl p Hin Hne) in Hp. discriminate.
  - destruct Hres as [[=] | (q & m' & _ & Hm & _)].
    rewrite Hremove in Hm. discriminate.
  - destruct Hres as [[=] | (q & m' & _ & _ & [=])].
  - destruct Hres as [[=] | (q & m' & _ & _ & [=])].
Qed.

End CleanupProperties.

(** ** The files of a job *)

Section JobFiles.
Context {host : Host} {cloud : Cloud}.

(** A loop that returns lists every part it started from, gives every new
    part a path made by [path.join], and leaves no file behind other than
    the ones it found and the parts it lists. *)
Lemma split_loop_new_files (v dir base : string) (pn dpp : jsnum) :
  forall (fuel : nat) (i : Z) (parts : list Artifact.t) (s s' : St)
         (arts : list Artifact.t),
    split_loop fuel v dir base pn dpp i parts s = (Returned arts, s') ->
    (forall a, a ∈ parts -> a ∈ arts)
    /\ (forall a, a ∈ arts ->
                  a ∈ parts \/ exists n, Artifact.path a = path_join dir n)
    /\ (forall q z,
          files s' !! q = Some z ->
          files s !! q = Some z \/ exists a, a ∈ arts /\ Artifact.path a = q).
Proof.
  induction fuel as [| fuel IH]; intros i parts s s' arts; cbn [split_loop].
  - discriminate.
  - destruct (js_lt (num i) pn).
    + unfold mbind, M_bind, bind. rewrite extractVideoSegment_run. cbv zeta.
      fold (part_name base i).
      destruct (extract _ _ _ _) as [err | sz]; [discriminate |].
      rewrite getFileSize_run. cbn [files put log].
      rewrite lookup_insert_eq.
      intros H. apply IH in H. destruct H as (Hsub & Hform & Hfiles).
      split; [intros a Ha; apply Hsub, elem_of_app; auto |].
      split.
      * intros a Ha. apply Hform in Ha as [Ha | Ha]; [| auto].
        apply elem_of_app in Ha as [Ha | Ha]; [auto |].
        apply list_elem_of_singleton in Ha. subst a. right. eexists. reflexivity.
      * intros q z Hq. apply Hfiles in Hq as [Hq | Hq]; [| auto].
        unfold put, log in Hq. cbn [files] in Hq.
        destruct (decide (q = path_join dir (part_name base i))) as [-> | Hne].
        -- right. eexists.
           split; [apply Hsub, elem_of_app; right; left | reflexivity].
        -- rewrite lookup_insert_ne in Hq by congruence. auto.
    + intros [= <- <-]. split; [auto |]. split; auto.
Qed.

Lemma splitVideo_new_files (fuel : nat) (v o : string) (s s' : St)
    (arts : list Artifact.t) :
  splitVideo fuel v o s = (Returned arts, s') ->
  (forall a, a ∈ arts -> exists d n, Artifact.path a = path_join d n)
  /\ (forall q z,
        files s' !! q = Some z ->
        (q <> v /\ files s !! q = Some z)
        \/ exists a, a ∈ arts /\ Artifact.path a = q).
Proof.
  unfold splitVideo, mbind, M_bind, bind.
  pose proof (analyzeVideo_state v s) as Hs1.
  destruct (analyzeVideo v s) as [[info | | | ] s1]; try discriminate.
  cbn [snd] in Hs1. subst s1.
  rewrite getFileSize_run. cbn [files log].
  destruct (files s !! v) as [fileSize |]; [| discriminate].
  unfold get_this, temp_dir, get_env, ret, mbind, M_bind, bind.
  cbn [this env log].
  destruct (split_loop _ _ _ _ _ _ _ _ _) as [[parts | | | ] s3] eqn:Hloop;
    try discriminate.
  apply split_loop_new_files in Hloop. destruct Hloop as (_ & Hform & Hfiles).
  unfold fs_remove, emit, delete_file, throw, mbind, M_bind, bind.
  destruct (remove_error v); [discriminate |].
  intros [= <- <-]. cbn [files]. split.
  - intros a Ha. apply Hform in Ha as [Ha | [n Hn]]; [inversion Ha | eauto].
  - intros q z Hq. destruct (decide (q = v)) as [-> | Hne].
    + rewrite lookup_delete_eq in Hq. discriminate.
    + rewrite lookup_delete_ne in Hq by congruence.
      apply Hfiles in Hq as [Hq | Hq]; auto.
Qed.

(** Every file in the working directory after a job that returned was there
    before the job, unchanged, or is one of the artifacts; the path of every
    artifact was made by [path.join]. *)
Lemma processVideo_new_files (fuel : nat) (inputPath originalFileName : string)
    (s : St) (arts : list Artifact.t) :
  fst (processVideo fuel inputPath originalFileName s) = Returned arts ->
  (forall a, a ∈ arts -> exists d n, Artifact.path a = path_join d n)
  /\ (forall q z,
        files (snd (processVideo fuel inputPath originalFileName s)) !! q
        = Some z ->
        files s !! q = Some z \/ exists a, a ∈ arts /\ Artifact.path a = q).
Proof.
  intros Hret.
  destruct (processVideo_cases fuel inputPath originalFileName s)
    as [(evs & rest & _ & _ & Hnot) | (sz1 & sz2 & Hr)];
    [exfalso; exact (Hnot arts Hret) |].
  cbv zeta in Hr. rewrite Hr in *. clear Hr.
  set (dir := js_or_str (env s !! "TEMP_DIR") "temp") in *.
  set (base := path_parse_name originalFileName) in *.
  set (processedPath := path_join dir (base +:+ "_processed.mp4")) in *.
  set (thumbnailPath := path_join dir (base +:+ "_thumbnail.jpg")) in *.
  set (s3 := put _ processedPath sz2) in *.
  rewrite try_catch_throw_snd.
  apply try_catch_throw_returned in Hret.
  match type of Hret with
  | fst (?body s3) = _ => destruct (body s3) as [out s'] eqn:Hbody
  end.
  cbn [fst snd] in *. subst out.
  apply bind_returned_state in Hbody.
  destruct Hbody as (videos & s4 & Hcheck & Hbody).
  apply bind_returned_state in Hbody.
  destruct Hbody as (tsz & s5 & Hstat & Hbody).
  injection Hbody as <- <-.
  rewrite getFileSize_run in Hstat.
  destruct (files s4 !! thumbnailPath) as [tsz' |] eqn:Hthumb; [| discriminate].
  injection Hstat as -> <-. cbn [files log].
  set (thumbnail := {| Artifact.path := thumbnailPath |}).
  assert (Hold : forall q z,
             files s3 !! q = Some z ->
             q = processedPath \/ q = thumbnailPath \/ files s !! q = Some z).
  { intros q z Hq. subst s3. cbn [files put log] in Hq.
    destruct (decide (q = processedPath)) as [-> | Hne1]; [auto |].
    rewrite lookup_insert_ne in Hq by congruence.
    destruct (decide (q = thumbnailPath)) as [-> | Hne2]; [auto |].
    rewrite lookup_insert_ne in Hq by congruence. auto. }
  assert (Hthumbnail : thumbnail ∈ videos ++ [thumbnail])
    by (apply elem_of_app; right; left).
  rewrite checkAndSplitVideo_run in Hcheck.
  assert (Hfile : files s3 !! processedPath = Some sz2)
    by apply lookup_insert_eq.
  rewrite Hfile in Hcheck. destruct (js_le _ _).
  - injection Hcheck as <- <-. cbn [files log]. split.
    + intros a Ha. apply elem_of_app in Ha as [Ha | Ha];
        apply list_elem_of_singleton in Ha; subst a; eexists _, _; reflexivity.
    + intros q z Hq. apply Hold in Hq as [-> | [-> | Hq]]; [| | auto].
      * right. eexists. split; [left | reflexivity].
      * right. exists thumbnail. split; [exact Hthumbnail | reflexivity].
  - apply splitVideo_new_files in Hcheck. destruct Hcheck as (Hform & Hfiles).
    split.
    + intros a Ha. apply elem_of_app in Ha as [Ha | Ha]; [auto |].
      apply list_elem_of_singleton in Ha. subst a. eexists _, _. reflexivity.
    + intros q z Hq. apply Hfiles in Hq as [[Hne Hq] | (a & Ha & Hpath)].
      * cbn [files log] in Hq. apply Hold in Hq as [-> | [-> | Hq]];
          [contradiction | | auto].
        right. exists thumbnail. split; [exact Hthumbnail | reflexivity].
      * right. exists a. split; [apply elem_of_app; auto | exact Hpath].
Qed.

Lemma catch_finally_not_returned (startTime : Z) (fileId : string)
    (localPath : option string) (videos : list Artifact.t) (message : string)
    (w : World) (result : JobResult.t) :
  fst (catch_finally startTime fileId localPath videos message w)
  <> Returned result.
Proof.
  unfold catch_finally. rewrite cbind_run.
  match goal with
  | |- context [ctry ?c ?h w] => destruct (ctry c h w) as [[raised | | | ] w1]
  end; cbn [fst]; try discriminate.
  rewrite cbind_run.
  destruct (script_cleanupFiles localPath videos w1) as [[[] | | | ] w2];
    cbn [fst cthrow]; discriminate.
Qed.

Lemma guarded_returned {A} (startTime : Z) (fileId : string)
    (localPath : option string) (videos : list Artifact.t) (c : C A)
    (k : A -> C JobResult.t) (w : World) (result : JobResult.t) :
  fst (guarded startTime fileId localPath videos c k w) = Returned result ->
  exists a w1,
    c w = (Returned a, w1)
    /\ guarded startTime fileId localPath videos c k w = k a w1.
Proof.
  unfold guarded. destruct (c w) as [[a | m | | ] w1]; cbn [fst];
    try discriminate.
  - eauto.
  - intros H. exfalso. exact (catch_finally_not_returned _ _ _ _ _ _ _ H).
Qed.

(** What [downloadFile] does, step by step. *)
Lemma downloadFile_run (fileId fileName : string) (w : World) :
  let tempDir := js_or_str (env (local w) !! "TEMP_DIR") "temp" in
  let localPath :=
    path_join tempDir (pretty (date_now (calls w)) +:+ "-" +:+ fileName) in
  let w1 :=
    called (with_local w (log (local w) [EvEnsureDir tempDir])) [ReadClock] in
  let w2 := called w1 [DriveFilesGet fileId] in
  downloadFile fileId fileName w
  = match ensureDir tempDir with
    | Some m =>
        (Thrown ("Failed to download file from Google Drive: " +:+ m), w1)
    | None =>
        match drive_files_get (calls w ++ [ReadClock]) fileId with
        | inl m =>
            (Thrown ("Failed to download file from Google Drive: " +:+ m), w2)
        | inr (StreamDone written) =>
            (Returned localPath,
             with_local w2 (put (local w2) localPath written))
        | inr (StreamFailed m (Some written)) =>
            (Thrown ("Failed to download file: " +:+ m),
             with_local w2 (put (local w2) localPath written))
        | inr (StreamFailed m None) =>
            (Thrown ("Failed to download file: " +:+ m),
             with_local w2 (local w2))
        end
    end.
Proof.
  cbv zeta. unfold downloadFile. rewrite cbind_run. unfold ctry.
  rewrite cbind_run.
  unfold lift at 1, temp_dir, get_env, ret, mbind at 1, M_bind, bind.
  cbn [mret M_ret ret fst snd].
  rewrite cbind_run, clock_run, cbind_run.
  unfold lift at 1, fs_ensureDir, emit, mbind at 1, M_bind, bind.
  cbn [called local services calls processedFileIds].
  destruct (ensureDir _); cbn [throw ret fst snd cthrow]; [reflexivity |].
  rewrite cbind_run. unfold api_read. rewrite !cbind_run.
  cbn [history record calls local services processedFileIds fst snd].
  destruct (drive_files_get _ _) as [m | [written | m [written |]]];
    cbn [cthrow mret C_ret cret fst snd]; try reflexivity;
    rewrite cbind_run; reflexivity.
Qed.

(** A download that is fulfilled wrote the file it names, at a path made by
    [path.join], and touched no other file. *)
Lemma downloadFile_returned (fileId fileName : string) (w : World)
    (localPath : string) :
  fst (downloadFile fileId fileName w) = Returned localPath ->
  (exists d n, localPath = path_join d n)
  /\ exists written,
       files (local (snd (downloadFile fileId fileName w)))
       = <[localPath := written]> (files (local w)).
Proof.
  rewrite downloadFile_run. cbv zeta.
  destruct (ensureDir _); [discriminate |].
  destruct (drive_files_get _ _) as [m | [written | m [written |]]];
    try discriminate.
  cbn [fst snd]. intros [= <-]. split; [eexists _, _; reflexivity |].
  exists written. reflexivity.
Qed.

End JobFiles.

(** ** A fulfilled job leaves no file *)

Section JobProperties.
Context {host : Host} {cloud : Cloud}.

(** X10: where removing a file never fails and [path.join] never yields the
    empty path, a job of the script that is fulfilled leaves nothing
    behind: every file in place when it returns was there before the job,
    with the same content, so the download, the transcoded file, the parts
    and the thumbnail are all gone. *)
Theorem script_processVideo_leaves_no_files :
  forall (fuel : nat) (fileId fileName : string) (w : World)
         (result : JobResult.t),
    (forall p, remove_error p = None) ->
    (forall d n, path_join d n <> "") ->
    fst (script_processVideo fuel fileId fileName w) = Returned result ->
    forall p z,
      files (local (snd (script_processVideo fuel fileId fileName w))) !! p
      = Some z ->
      files (local w) !! p = Some z.
Proof.
  intros fuel fileId fileName w result Hremove Hjoin Hret p z Hp.
  unfold script_processVideo in Hret, Hp.
  rewrite cbind_run, clock_run in Hret, Hp.
  set (startTime := date_now (calls w)) in *.
  set (w0 := called w [ReadClock]) in *.
  destruct (guarded_returned _ _ _ _ _ _ _ _ Hret) as ([] & w1 & Hc1 & Hk1).
  rewrite Hk1 in Hret, Hp. clear Hk1.
  destruct (guarded_returned _ _ _ _ _ _ _ _ Hret)
    as (localPath & w2 & Hc2 & Hk2).
  rewrite Hk2 in Hret, Hp. clear Hk2.
  destruct (guarded_returned _ _ _ _ _ _ _ _ Hret) as (arts & w3 & Hc3 & Hk3).
  rewrite Hk3 in Hret, Hp. clear Hk3.
  destruct (guarded_returned _ _ _ _ _ _ _ _ Hret) as (res & w4 & Hc4 & Hk4).
  rewrite Hk4 in Hret, Hp. clear Hk4 Hret.
  (* the status update leaves the files alone *)
  assert (H1 : local w1 = local w).
  { pose proof (confined_updateEntryStatus (fun _ => True) eq eq
                  (fun _ _ _ => I) (fun _ _ _ => I)
                  fileId "PROCESSING" no_additional w0) as (HL & _).
    rewrite Hc1 in HL. cbn [snd] in HL. symmetry. exact HL. }
  (* the download writes one file *)
  assert (H2 : (exists d n, localPath = path_join d n)
               /\ exists written,
                    files (local w2) = <[localPath := written]> (files (local w1))).
  { pose proof (downloadFile_returned fileId fileName w1 localPath) as H.
    rewrite Hc2 in H. apply H. reflexivity. }
  destruct H2 as ((d & n & Hpath) & written & Hfiles2).
  (* the processor leaves the old files and the artifacts *)
  assert (H3 : (forall a, a ∈ arts -> exists d n, Artifact.path a = path_join d n)
               /\ forall q y,
                    files (local w3) !! q = Some y ->
                    files (local w2) !! q = Some y
                    \/ exists a, a ∈ arts /\ Artifact.path a = q).
  { unfold lift in Hc3.
    pose proof (processVideo_new_files fuel localPath fileName (local w2) arts)
      as H.
    destruct (processVideo fuel localPath fileName (local w2)) as [o s'].
    injection Hc3 as -> <-. cbn [fst snd local] in *. apply H. reflexivity. }
  destruct H3 as (Hform & Hfiles3).
  (* uploading and recording leave the files alone *)
  assert (H4 : local w4 = local w3).
  { pose proof (confined_upload_and_record (fun _ => True) eq eq
                  (fun _ => I) (fun _ _ => I) (fun _ _ _ => I)
                  (fun _ _ _ => I) I (fun _ => I) (fun _ => I)
                  (fun _ _ _ => I)
                  startTime fileId fileName arts w3) as (HL & _).
    rewrite Hc4 in HL. cbn [snd] in HL. symmetry. exact HL. }
  (* the cleanup removes the download and the artifacts *)
  rewrite cbind_run in Hp.
  assert (Hp5 : files (local (snd (script_cleanupFiles (Some localPath) arts
                                     w4))) !! p = Some z).
  { destruct (script_cleanupFiles (Some localPath) arts w4)
      as [[[] | | | ] w5]; exact Hp. }
  destruct (script_cleanupFiles_clears (Some localPath) arts w4 Hremove p z Hp5)
    as (Hp4 & Hempty).
  assert (Hnot : forall q, q ∈ cleanup_targets (Some localPath) arts -> q <> p).
  { intros q Hq ->. specialize (Hempty Hq). revert Hempty.
    apply elem_of_app in Hq as [Hq | Hq].
    - apply list_elem_of_singleton in Hq. subst p. rewrite Hpath. apply Hjoin.
    - apply list_elem_of_fmap in Hq as (a & -> & Ha).
      destruct (Hform a Ha) as (d' & n' & ->). apply Hjoin. }
  rewrite H4 in Hp4.
  apply Hfiles3 in Hp4 as [Hp3 | (a & Ha & Hpa)].
  - rewrite Hfiles2 in Hp3. rewrite lookup_insert_ne in Hp3.
    + rewrite H1 in Hp3. exact Hp3.
    + apply Hnot. apply elem_of_app. left. left.
  - exfalso. apply (Hnot p); [| reflexivity].
    apply elem_of_app. right. apply list_elem_of_fmap. exists a. auto.
Qed.

End JobProperties.

(** ** A batch of videos *)

Section BatchProperties.
Context {host : Host} {cloud : Cloud}.

Lemma delays_none (evs : list CloudEvent) :
  Forall (fun e => forall ms, e <> Delay ms) evs -> delays evs = [].
Proof.
  induction 1 as [| e evs He _ IH]; [reflexivity |].
  unfold delays in *. cbn [omap list_omap]. rewrite IH.
  destruct e; try reflexivity. exfalso. exact (He _ eq_refl).
Qed.

Lemma delays_app (a b : list CloudEvent) :
  delays (a ++ b) = delays a ++ delays b.
Proof. unfold delays. apply omap_app. Qed.

(** One job of the script waits for nothing and leaves the set of processed
    ids alone. *)
Lemma script_processVideo_frame (fuel : nat) (fileId fileName : string)
    (w : World) :
  processedFileIds (snd (script_processVideo fuel fileId fileName w))
  = processedFileIds w
  /\ exists new,
       calls (snd (script_processVideo fuel fileId fileName w)) = calls w ++ new
       /\ delays new = [].
Proof.
  destruct (confined_script_processVideo
              (fun e => forall ms, e <> Delay ms) any eq) with
    (fuel := fuel) (i := fileId) (n := fileName) (w := w)
    as (_ & HG & _ & new & Hcalls & Hnew);
    try (intros; discriminate); try (intros; exact I).
  split; [symmetry; exact HG |].
  exists new. split; [exact Hcalls | apply delays_none, Hnew].
Qed.

Lemma processNewVideos_from_outcomes (fuel : nat) (videos : list DriveFile.t) :
  forall (done : list VideoOutcome.t) (w : World),
    let r := processNewVideos_from fuel videos done w in
    (forall m, fst r <> Thrown m)
    /\ forall results,
         fst r = Returned results ->
         exists outs,
           results = done ++ outs
           /\ VideoOutcome.fileId <$> outs = DriveFile.id <$> videos
           /\ VideoOutcome.fileName <$> outs = DriveFile.name <$> videos
           /\ processedFileIds (snd r)
              = processedFileIds w
                ++ ((fun o => JString (VideoOutcome.fileId o))
                      <$> succeeded outs)
           /\ exists new,
                calls (snd r) = calls w ++ new
                /\ delays new
                   = replicate (length (succeeded outs)) 2000.
Proof.
  induction videos as [| video rest IH]; intros done w;
    cbn [processNewVideos_from].
  - cbn [mret C_ret cret fst snd]. split; [discriminate |].
    intros results [= <-]. exists []. rewrite !app_nil_r.
    repeat (split; [reflexivity |]). exists []. rewrite app_nil_r.
    split; reflexivity.
  - cbv zeta. rewrite cbind_run. unfold ctry. rewrite cbind_run.
    destruct (script_processVideo_frame fuel (DriveFile.id video)
                (DriveFile.name video) w) as (Hids & new1 & Hcalls1 & Hnew1).
    destruct (script_processVideo fuel (DriveFile.id video)
                (DriveFile.name video) w) as [[result | m | | ] w1];
      cbn [fst snd] in Hids, Hcalls1.
    + repeat first
        [ rewrite cbind_run
        | progress cbn [add_processed delay record mret C_ret cret fst snd] ].
      match goal with
      | |- context [processNewVideos_from fuel rest ?d ?w'] =>
          specialize (IH d w'); set (w2 := w') in *
      end.
      cbv zeta in IH. destruct IH as (Hnot & IH).
      split; [exact Hnot |].
      intros results Hret. destruct (IH results Hret)
        as (outs & -> & Hf & Hn & Hp & new2 & Hcalls2 & Hnew2).
      eexists (_ :: outs). rewrite <- app_assoc.
      split; [reflexivity |].
      split; [cbn [fmap list_fmap VideoOutcome.fileId]; f_equal; exact Hf |].
      split; [cbn [fmap list_fmap VideoOutcome.fileName]; f_equal; exact Hn |].
      split.
      * rewrite Hp. subst w2. cbn [processedFileIds]. rewrite Hids.
        rewrite <- app_assoc. reflexivity.
      * exists (new1 ++ [Delay 2000] ++ new2). rewrite Hcalls2. subst w2.
        cbn [calls]. rewrite Hcalls1, <- !app_assoc.
        split; [reflexivity |].
        rewrite !delays_app, Hnew1, Hnew2. reflexivity.
    + cbn [mret C_ret cret].
      match goal with
      | |- context [processNewVideos_from fuel rest ?d ?w'] =>
          specialize (IH d w')
      end.
      cbv zeta in IH. destruct IH as (Hnot & IH).
      split; [exact Hnot |].
      intros results Hret. destruct (IH results Hret)
        as (outs & -> & Hf & Hn & Hp & new2 & Hcalls2 & Hnew2).
      eexists (_ :: outs). rewrite <- app_assoc.
      split; [reflexivity |].
      split; [cbn [fmap list_fmap VideoOutcome.fileId]; f_equal; exact Hf |].
      split; [cbn [fmap list_fmap VideoOutcome.fileName]; f_equal; exact Hn |].
      split.
      * rewrite Hp, Hids. reflexivity.
      * exists (new1 ++ new2). rewrite Hcalls2, Hcalls1, <- app_assoc.
        split; [reflexivity |].
        rewrite delays_app, Hnew1, Hnew2. reflexivity.
    + cbn [fst]. split; [discriminate | discriminate].
    + cbn [fst]. split; [discriminate | discriminate].
Qed.


End BatchProperties.

(** ** Uploads *)

Section UploadProperties.
Context {host : Host} {cloud : Cloud}.

Lemma getFolderByExtension_images (extension : string) :
  getFolderByExtension extension
  = if bool_decide (extension ∈ image_extensions) then "thumbnails"
    else "videos".
Proof.
  unfold getFolderByExtension, folderMap. cbn [List.find fst snd].
  repeat match goal with
         | |- context [String.eqb ?a extension] =>
             destruct (String.eqb_spec a extension) as [<- | ?];
             [reflexivity |]
         end.
  rewrite bool_decide_eq_false_2; [reflexivity |].
  unfold image_extensions. intros H.
  repeat (apply elem_of_cons in H as [-> | H]; [congruence |]).
  inversion H.
Qed.

Lemma api_read_run {A} (e : CloudEvent)
    (answer : list CloudEvent -> string + A) (w : World) :
  api_read e answer w
  = match answer (calls w) with
    | inr a => (Returned a, called w [e])
    | inl m => (Thrown m, called w [e])
    end.
Proof.
  unfold api_read. rewrite !cbind_run. cbn [history record calls].
  destruct (answer (calls w)); reflexivity.
Qed.

Lemma fs_readFile_run (p : string) (w : World) :
  fs_readFile p w
  = match files (local w) !! p with
    | Some sz => (Returned sz, called w [ReadFile p])
    | None => (Thrown (read_error p), called w [ReadFile p])
    end.
Proof.
  unfold fs_readFile, file_content. rewrite cbind_run. cbn [record local].
  destruct (files (local w) !! p); reflexivity.
Qed.

(** X12: [uploadFile] reads the local file and, when it is there, makes one
    upload request, with the given name; the folder of the request is
    "thumbnails" exactly when the type is "thumbnail" or the lower-cased
    extension of the name is .jpg, .jpeg, .png or .gif, and "videos"
    otherwise.  When the file is missing no request is made.  Every
    rejection starts with "Failed to upload file to ImageKit: ". *)
Theorem uploadFile_folder :
  forall (filePath fileName : string) (fileType : option string) (w : World),
    let extension := toLowerCase (path_extname fileName) in
    let r := uploadFile filePath fileName fileType w in
    (match files (local w) !! filePath with
     | Some size =>
         exists request,
           new_calls w (snd r) = [ReadFile filePath; ImageKitUpload request]
           /\ UploadRequest.file request = size
           /\ UploadRequest.fileName request = fileName
           /\ UploadRequest.folder request
              = if String.eqb (default "video" fileType) "thumbnail"
                   || bool_decide (extension ∈ image_extensions)
                then "thumbnails" else "videos"
     | None => new_calls w (snd r) = [ReadFile filePath]
     end)
    /\ ((exists url, fst r = Returned url)
        \/ exists m, fst r = Thrown ("Failed to upload file to ImageKit: "
                                     +:+ m)).
Proof.
  intros filePath fileName fileType w extension r. subst r extension.
  unfold uploadFile, uploadVideo, uploadThumbnail.
  remember (toLowerCase (path_extname fileName)) as extension eqn:Hext.
  clear Hext. unfold ctry at 1.
  destruct (String.eqb (default "video" fileType) "thumbnail"
            || String.eqb extension ".jpg" || String.eqb extension ".png")
    eqn:Hbranch.
  - assert (Hfolder :
      (if String.eqb (default "video" fileType) "thumbnail"
          || bool_decide (extension ∈ image_extensions)
       then "thumbnails" else "videos") = "thumbnails").
    { destruct (String.eqb (default "video" fileType) "thumbnail");
        [reflexivity |].
      cbn [orb] in Hbranch |- *.
      destruct (String.eqb_spec extension ".jpg") as [E | _];
        [rewrite E; reflexivity |].
      destruct (String.eqb_spec extension ".png") as [E | _];
        [rewrite E; reflexivity | discriminate]. }
    rewrite Hfolder.
    unfold ctry. rewrite cbind_run, fs_readFile_run.
    destruct (files (local w) !! filePath) as [size |].
    + rewrite api_read_run. cbn [called calls].
      destruct (imagekit_upload _ _) as [m | url];
        cbn [cthrow fst snd]; rewrite called_called, new_calls_called;
        (split; [eexists; split; [reflexivity | repeat split] | eauto]).
    + cbn [cthrow fst snd]. rewrite new_calls_called. eauto.
  - assert (Htype : String.eqb (default "video" fileType) "thumbnail" = false)
      by (destruct (String.eqb (default "video" fileType) "thumbnail");
          [discriminate | reflexivity]).
    rewrite Htype. cbn [orb].
    unfold ctry. rewrite cbind_run, fs_readFile_run.
    rewrite getFolderByExtension_images.
    destruct (files (local w) !! filePath) as [size |].
    + rewrite api_read_run. cbn [called calls].
      destruct (imagekit_upload _ _) as [m | url];
        cbn [cthrow fst snd]; rewrite called_called, new_calls_called;
        (split; [eexists; split; [reflexivity | repeat split] | eauto]).
    + cbn [cthrow fst snd]. rewrite new_calls_called. eauto.
Qed.

End UploadProperties.

(** ** The route of the server *)

Section RouteProperties.
Context {host : Host} {cloud : Cloud}.

Lemma returns_only_ret {A} (P : A -> Prop) (a : A) :
  P a -> returns_only P (mret a).
Proof. intros Ha w b [= <-]. exact Ha. Qed.

Lemma returns_only_bind {A B} (P : B -> Prop) (c : C A) (k : A -> C B) :
  (forall a, returns_only P (k a)) -> returns_only P (c ≫= k).
Proof.
  intros Hk w b. rewrite cbind_run.
  destruct (c w) as [[a | m | | ] w1]; cbn [fst]; try discriminate.
  apply Hk.
Qed.

Lemma upload_videos_untyped (videos : list Artifact.t) :
  forall urls,
    (forall u, u ∈ urls -> Uploaded.type u = None) ->
    returns_only (fun all => forall u, u ∈ all -> Uploaded.type u = None)
      (upload_videos videos urls).
Proof.
  induction videos as [| video rest IH]; intros urls Hurls;
    cbn [upload_videos].
  - apply returns_only_ret. exact Hurls.
  - apply returns_only_bind. intros url. apply IH.
    intros u Hu. apply elem_of_app in Hu as [Hu | Hu]; [auto |].
    apply list_elem_of_singleton in Hu. subst u. reflexivity.
Qed.

Lemma filter_is_type_untyped (t : string) (l : list Uploaded.t) :
  (forall u, u ∈ l -> Uploaded.type u = None) ->
  List.filter (is_type t) l = [].
Proof.
  induction l as [| u l IH]; intros H; [reflexivity |].
  cbn [List.filter]. unfold is_type at 1. rewrite (H u) by left.
  apply IH. intros u' Hu'. apply H. right. exact Hu'.
Qed.

Lemma row_data_untyped (now : string) (data : VideoData.t) :
  (forall u, u ∈ VideoData.processedVideos data -> Uploaded.type u = None) ->
  lists_no_media (ValuesAppend None "" [row_data now data]).
Proof.
  intros H. cbn [lists_no_media]. eexists. split; [reflexivity |].
  unfold row_data. rewrite !(filter_is_type_untyped _ _ H).
  repeat split.
Qed.

(** The services and the operations on files always settle. *)
Lemma settles_ret {A} (P : string -> Prop) (a : A) : settles P (mret a).
Proof. intros w. exact I. Qed.

Lemma settles_bind {A B} (P : string -> Prop) (c : C A) (k : A -> C B) :
  settles P c -> (forall a, settles P (k a)) -> settles P (c ≫= k).
Proof.
  intros Hc Hk w. rewrite cbind_run. specialize (Hc w).
  destruct (c w) as [[a | m | | ] w1]; cbn [fst] in *; try exact Hc.
  apply Hk.
Qed.

Lemma settles_ctry {A} (P : string -> Prop) (c : C A) (h : string -> C A) :
  settles (fun _ => True) c -> (forall m, settles P (h m)) ->
  settles P (ctry c h).
Proof.
  intros Hc Hh w. unfold ctry. specialize (Hc w).
  destruct (c w) as [[a | m | | ] w1]; cbn [fst] in *; try exact Hc.
  apply Hh.
Qed.

Lemma settles_quiet {A} (P : string -> Prop) (c : C A) :
  (forall w, exists a w', c w = (Returned a, w')) -> settles P c.
Proof. intros H w. destruct (H w) as (a & w' & ->). exact I. Qed.

Lemma settles_cthrow {A} (m : string) : settles (fun _ => True) (@cthrow A m).
Proof. intros w. exact I. Qed.

Lemma settles_api_read {A} (e : CloudEvent)
    (answer : list CloudEvent -> string + A) :
  settles (fun _ => True) (api_read e answer).
Proof. intros w. rewrite api_read_run. destruct (answer _); exact I. Qed.

Lemma api_write_settles (e : CloudEvent)
    (answer : list CloudEvent -> option string) :
  settles (fun _ => True) (api_write e answer).
Proof.
  intros w. unfold api_write. rewrite cbind_run. cbn [history].
  rewrite cbind_run, record_run. destruct (answer _); exact I.
Qed.

Lemma settles_fs_readFile (p : string) :
  settles (fun _ => True) (fs_readFile p).
Proof.
  intros w. unfold fs_readFile. rewrite cbind_run, record_run.
  unfold file_content. cbn [local called]. destruct (files _ !! p); exact I.
Qed.

Lemma settles_lift_fs_remove (p : string) :
  settles (fun _ => True) (lift (fs_remove p)).
Proof.
  intros w. unfold lift, fs_remove, emit, delete_file, throw, mbind, M_bind,
    bind.
  destruct (remove_error p); exact I.
Qed.

Lemma settles_downloadFile (fileId fileName : string) :
  settles (fun _ => True) (downloadFile fileId fileName).
Proof.
  intros w. rewrite downloadFile_run. cbv zeta.
  destruct (ensureDir _); [exact I |].
  destruct (drive_files_get _ _) as [e | [written | e [written |]]]; exact I.
Qed.

Ltac settles_step :=
  first
    [ apply settles_ret
    | apply settles_cthrow
    | apply settles_api_read
    | apply api_write_settles
    | apply settles_fs_readFile
    | apply settles_lift_fs_remove
    | apply settles_downloadFile
    | apply settles_quiet; intros ?; eexists _, _; reflexivity
    | apply settles_bind; [| intros ?]
    | apply settles_ctry; [| intros ?]
    | match goal with
      | |- settles _ (match ?x with _ => _ end) => destruct x
      | |- settles _ (if ?b then _ else _) => destruct b
      end
    | progress cbv zeta ].

Lemma settles_getSheetId : settles (fun _ => True) getSheetId.
Proof. unfold getSheetId. repeat settles_step. Qed.

Lemma settles_createSheet : settles (fun _ => True) createSheet.
Proof. unfold createSheet. repeat settles_step. Qed.

Lemma settles_ensureHeaders : settles (fun _ => True) ensureHeaders.
Proof.
  unfold ensureHeaders.
  apply settles_ctry; [| intros ?; apply settles_cthrow].
  apply settles_bind; [settles_step | intros svc]. cbv zeta.
  apply settles_bind; [apply api_write_settles | intros _].
  apply settles_bind; [apply settles_getSheetId | intros sheetId].
  apply api_write_settles.
Qed.

Lemma settles_initializeSheet : settles (fun _ => True) initializeSheet.
Proof.
  unfold initializeSheet.
  apply settles_ctry; [| intros ?; apply settles_cthrow].
  apply settles_bind; [settles_step | intros svc].
  apply settles_bind; [apply settles_api_read | intros sheets]. cbv zeta.
  apply settles_bind; [| intros _; apply settles_ensureHeaders].
  destruct (existsb _ _); [apply settles_ret | apply settles_createSheet].
Qed.

Lemma settles_addVideoEntry (data : VideoData.t) :
  settles (fun _ => True) (addVideoEntry data).
Proof.
  unfold addVideoEntry.
  apply settles_ctry; [| intros ?; apply settles_cthrow].
  apply settles_bind; [apply settles_initializeSheet | intros _].
  repeat settles_step.
Qed.

Lemma settles_uploadVideo (p n : string) :
  settles (fun _ => True) (uploadVideo p n).
Proof. unfold uploadVideo. repeat settles_step. Qed.

Lemma settles_upload_videos (videos : list Artifact.t) :
  forall urls, settles (fun _ => True) (upload_videos videos urls).
Proof.
  induction videos as [| video rest IH]; intros urls; cbn [upload_videos].
  - apply settles_ret.
  - apply settles_bind; [apply settles_uploadVideo | intros url; apply IH].
Qed.

Lemma settles_remove_all (videos : list Artifact.t) :
  settles (fun _ => True) (remove_all videos).
Proof.
  induction videos as [| video rest IH]; cbn [remove_all].
  - apply settles_ret.
  - apply settles_bind; [apply settles_lift_fs_remove | intros _; exact IH].
Qed.


End RouteProperties.

(** ** The scan of the Drive folder *)

Section ScanProperties.
Context {host : Host} {cloud : Cloud}.

Lemma add_entries_run (entries : list Entry.t) :
  forall w,
    add_entries entries w
    = (Returned tt,
       with_processed w
         (processedFileIds w
          ++ List.filter js_truthy (Entry.originalFileId <$> entries))).
Proof.
  induction entries as [| entry rest IH]; intros w; cbn [add_entries].
  - cbn [mret C_ret cret fmap list_fmap List.filter]. rewrite app_nil_r.
    destruct w. reflexivity.
  - rewrite cbind_run. cbn [fmap list_fmap List.filter].
    destruct (js_truthy (Entry.originalFileId entry)).
    + cbn [add_processed]. rewrite IH. unfold with_processed.
      cbn [local services calls processedFileIds].
      rewrite <- app_assoc. reflexivity.
    + cbn [mret C_ret cret]. apply IH.
Qed.

Lemma getVideoEntries_run (limit : Z) (w : World) :
  let range := sheetName (services w) +:+ "!A2:J" +:+ pretty (limit + 1) in
  getVideoEntries limit w
  = match values_get (calls w) (spreadsheetId (services w)) range true with
    | inr values =>
        (Returned (entry_of_row <$> default [] values),
         called w [ValuesGet (spreadsheetId (services w)) range true])
    | inl m =>
        (Thrown ("Failed to get entries from Google Sheets: " +:+ m),
         called w [ValuesGet (spreadsheetId (services w)) range true])
    end.
Proof.
  cbv zeta. unfold getVideoEntries, ctry. rewrite cbind_run.
  cbn [the_services]. rewrite cbind_run, api_read_run.
  destruct (values_get _ _ _ _); reflexivity.
Qed.

Lemma recorded_ids_entries (rows : list Row) :
  List.filter js_truthy (Entry.originalFileId <$> (entry_of_row <$> rows))
  = recorded_ids rows.
Proof.
  unfold recorded_ids. rewrite <- list_fmap_compose. reflexivity.
Qed.

Lemma loadProcessedFileIds_run (w : World) :
  let range := sheetName (services w) +:+ "!A2:J1001" in
  let lookup := ValuesGet (spreadsheetId (services w)) range true in
  loadProcessedFileIds w
  = match values_get (calls w) (spreadsheetId (services w)) range true with
    | inr values =>
        (Returned tt,
         with_processed (called w [lookup])
           (processedFileIds w ++ recorded_ids (default [] values)))
    | inl m =>
        (Returned tt,
         called w [lookup;
                   CloudWarn ("Failed to load processed file IDs: "
                              +:+ "Failed to get entries from Google Sheets: "
                              +:+ m)])
    end.
Proof.
  cbv zeta. unfold loadProcessedFileIds, ctry. rewrite cbind_run.
  rewrite getVideoEntries_run. cbv zeta.
  change (pretty (1000 + 1)) with "1001".
  destruct (values_get _ _ _ _) as [m | values].
  - unfold record, called. cbn [calls local services processedFileIds].
    rewrite <- app_assoc. reflexivity.
  - rewrite add_entries_run, recorded_ids_entries. reflexivity.
Qed.

(** X14: [loadProcessedFileIds] never rejects.  When the read of rows 2 to
    1001 of the sheet fails, it logs a warning and leaves the set of
    processed ids as it is; otherwise it adds the third cell of every row
    read in which that cell is truthy, and nothing else. *)
Theorem loadProcessedFileIds_never_rejects :
  forall (w : World),
    let range := sheetName (services w) +:+ "!A2:J1001" in
    let r := loadProcessedFileIds w in
    fst r = Returned tt
    /\ local (snd r) = local w
    /\ match values_get (calls w) (spreadsheetId (services w)) range true with
       | inr values =>
           processedFileIds (snd r)
           = processedFileIds w ++ recorded_ids (default [] values)
           /\ new_calls w (snd r)
              = [ValuesGet (spreadsheetId (services w)) range true]
       | inl m =>
           processedFileIds (snd r) = processedFileIds w
           /\ new_calls w (snd r)
              = [ValuesGet (spreadsheetId (services w)) range true;
                 CloudWarn ("Failed to load processed file IDs: "
                            +:+ "Failed to get entries from Google Sheets: "
                            +:+ m)]
       end.
Proof.
  intros w range r. subst r range. rewrite loadProcessedFileIds_run. cbv zeta.
  destruct (values_get _ _ _ _) as [m | values]; cbn [fst snd].
  - rewrite new_calls_called. auto.
  - unfold with_processed, new_calls, called.
    cbn [local processedFileIds calls].
    rewrite drop_app_length. auto.
Qed.

Lemma checkForNewVideos_run (w : World) :
  let q := "'" +:+ default "undefined" (folderId (services w))
           +:+ "' in parents" in
  checkForNewVideos w
  = match drive_files_list (calls w) q with
    | inr listed =>
        (Returned
           (List.filter
              (fun file =>
                 negb (has_processed (processedFileIds w) (DriveFile.id file)))
              (List.filter (fun file => isVideoFile (DriveFile.name file))
                 listed)),
         called w [DriveFilesList q])
    | inl m =>
        (Thrown ("Failed to list files: " +:+ m), called w [DriveFilesList q])
    end.
Proof.
  cbv zeta. unfold checkForNewVideos, listFiles, ctry. rewrite cbind_run.
  rewrite cbind_run. cbn [the_services]. rewrite api_read_run.
  destruct (drive_files_list _ _); reflexivity.
Qed.

Lemma has_processed_elem (ids : list jsval) (id : string) :
  JString id ∈ ids -> has_processed ids id = true.
Proof.
  intros H. unfold has_processed. apply existsb_exists.
  exists (JString id). split.
  - apply list_elem_of_In. exact H.
  - apply is_string_true. reflexivity.
Qed.

(** X15: a scan that follows the loading of the processed ids proposes only
    files whose name has a video extension, and none whose id is listed, as
    a non-empty string, in the third cell of one of the rows that were
    read. *)
Theorem checkForNewVideos_skips_recorded :
  forall (w : World) (rows : list Row) (videos : list DriveFile.t),
    values_get (calls w) (spreadsheetId (services w))
      (sheetName (services w) +:+ "!A2:J1001") true = inr (Some rows) ->
    fst (checkForNewVideos (snd (loadProcessedFileIds w))) = Returned videos ->
    forall file,
      file ∈ videos ->
      isVideoFile (DriveFile.name file) = true
      /\ (DriveFile.id file <> "" ->
          forall row, row ∈ rows ->
                      row !! 2%nat <> Some (JString (DriveFile.id file))).
Proof.
  intros w rows videos Hget. rewrite loadProcessedFileIds_run. cbv zeta.
  rewrite Hget. cbn [snd default]. rewrite checkForNewVideos_run. cbv zeta.
  destruct (drive_files_list _ _) as [m | listed]; [discriminate |].
  cbn [fst]. intros [= <-] file Hfile.
  apply list_elem_of_In, filter_In in Hfile as [Hfile Hnew].
  apply filter_In in Hfile as [_ Hvideo].
  split; [exact Hvideo |].
  intros Hid row Hrow Hcell.
  apply negb_true_iff in Hnew.
  rewrite has_processed_elem in Hnew; [discriminate |].
  unfold with_processed. cbn [processedFileIds]. apply elem_of_app. right.
  unfold recorded_ids. apply list_elem_of_In, filter_In. split.
  - apply list_elem_of_In, list_elem_of_fmap. exists row.
    rewrite Hcell. cbn [or_empty js_truthy].
    destruct (DriveFile.id file); [contradiction | auto].
  - destruct (DriveFile.id file); [contradiction | reflexivity].
Qed.

End ScanProperties.

(** ** A run of the script, the upload filter and the download *)

Section RunProperties.
Context {host : Host} {cloud : Cloud}.

Lemma loadProcessedFileIds_returns (w : World) :
  fst (loadProcessedFileIds w) = Returned tt.
Proof.
  rewrite loadProcessedFileIds_run. cbv zeta.
  destruct (values_get _ _ _ _); reflexivity.
Qed.

(** X16: a run of check-and-process never rejects, and a video that fails
    does not make it fail: when the listing of the Drive folder fails,
    [process.exit(1)] is called straight after it, and when the listing
    succeeds the run never calls [process.exit], whatever happens to the
    videos. *)
Theorem run_exits_only_when_listing_fails :
  forall (fuel : nat) (w : World),
    let w1 := snd (loadProcessedFileIds w) in
    let q := "'" +:+ default "undefined" (folderId (services w))
             +:+ "' in parents" in
    let r := run fuel w in
    (forall m, fst r <> Thrown m)
    /\ match drive_files_list (calls w1) q with
       | inl m =>
           fst r = Escaped
           /\ snd r = called w1 [DriveFilesList q; ProcessExit 1]
       | inr listed => Forall keeps_running (new_calls w (snd r))
       end.
Proof.
  intros fuel w w1 q r. subst r. unfold run, ctry. rewrite cbind_run.
  pose proof (loadProcessedFileIds_returns w) as Hload.
  destruct (confined_loadProcessedFileIds keeps_running any any) with (w := w)
    as (_ & _ & Hsvc & new1 & Hcalls1 & Hnew1);
    try exact _; try (intros; exact I); try (intros; discriminate).
  fold w1 in Hsvc, Hcalls1.
  destruct (loadProcessedFileIds w) as [o w1'] eqn:E. cbn [fst snd] in *.
  subst o w1. rewrite cbind_run, checkForNewVideos_run. cbv zeta.
  rewrite Hsvc. fold q.
  destruct (drive_files_list (calls w1') q) as [m | listed].
  - split; [discriminate |]. unfold process_exit.
    rewrite cbind_run, record_run, called_called. split; reflexivity.
  - match goal with
    | |- context [match ?l with [] => _ | _ :: _ => _ end] =>
        destruct l as [| video rest]
    end.
    + cbn [mret C_ret cret fst snd]. split; [discriminate |].
      unfold new_calls, called. cbn [calls]. rewrite Hcalls1, <- app_assoc.
      rewrite drop_app_length. apply Forall_app. split; [exact Hnew1 |].
      repeat constructor. discriminate.
    + rewrite cbind_run. unfold processNewVideos.
      set (w2 := called w1' [DriveFilesList q]).
      destruct (processNewVideos_from_outcomes fuel (video :: rest) [] w2)
        as (Hnot & _).
      destruct (confined_processNewVideos_from keeps_running any any)
        with (fuel := fuel) (videos := video :: rest)
             (done := @nil VideoOutcome.t) (w := w2)
        as (_ & _ & _ & new3 & Hcalls3 & Hnew3);
        try exact _; try (intros; exact I); try (intros; discriminate).
      destruct (processNewVideos_from fuel (video :: rest) [] w2)
        as [[results | m | | ] w3]; cbn [mret C_ret cret fst snd] in *.
      * split; [discriminate |].
        unfold new_calls. rewrite Hcalls3. subst w2. unfold called.
        cbn [calls]. rewrite Hcalls1, <- !app_assoc, drop_app_length.
        apply Forall_app. split; [exact Hnew1 |].
        apply Forall_cons. split; [discriminate | exact Hnew3].
      * exfalso. exact (Hnot m eq_refl).
      * split; [discriminate |].
        unfold new_calls. rewrite Hcalls3. subst w2. unfold called.
        cbn [calls]. rewrite Hcalls1, <- !app_assoc, drop_app_length.
        apply Forall_app. split; [exact Hnew1 |].
        apply Forall_cons. split; [discriminate | exact Hnew3].
      * split; [discriminate |].
        unfold new_calls. rewrite Hcalls3. subst w2. unfold called.
        cbn [calls]. rewrite Hcalls1, <- !app_assoc, drop_app_length.
        apply Forall_app. split; [exact Hnew1 |].
        apply Forall_cons. split; [discriminate | exact Hnew3].
Qed.

(** X17: every file name that the scan of the Drive folder takes for a
    video passes the extension test of the upload filter, so that the
    filter accepts it as soon as its MIME type passes too. *)
Theorem fileFilter_accepts_scanned_videos :
  forall (originalname mimetype : string),
    isVideoFile originalname = true ->
    allowedTypes_test mimetype = true ->
    fileFilter originalname mimetype = None.
Proof.
  intros originalname mimetype Hvideo Hmime.
  unfold fileFilter. rewrite Hmime. unfold isVideoFile in Hvideo.
  remember (toLowerCase (path_extname originalname)) as extension eqn:E.
  clear E. cbn [andb].
  assert (Hext : allowedTypes_test extension = true).
  { revert Hvideo. unfold videoExtensions. cbn [existsb].
    repeat match goal with
           | |- context [String.eqb extension ?a] =>
               destruct (String.eqb_spec extension a) as [E | _];
               [intros _; rewrite E; reflexivity |]
           end.
    discriminate. }
  rewrite Hext. reflexivity.
Qed.

(** X18: what [downloadFile] does, cause by cause.  The path of the
    download is made from the working directory, the clock and the file
    name.  When the directory cannot be made, the method is rejected with
    'Failed to download file from Google Drive: ' and the error, with no
    request made and no file written; when the request fails, likewise,
    after the request.  When the stream ends well the method is fulfilled
    with the path, where the download then is.  When the stream fails the
    method is rejected with 'Failed to download file: ' and the error of the
    stream, which the [catch] of the method does not wrap, and what the
    stream had written is at the path.  No file other than the one at that
    path is ever touched. *)
Theorem downloadFile_outcomes :
  forall (fileId fileName : string) (w : World),
    let tempDir := js_or_str (env (local w) !! "TEMP_DIR") "temp" in
    let localPath :=
      path_join tempDir (pretty (date_now (calls w)) +:+ "-" +:+ fileName) in
    let r := downloadFile fileId fileName w in
    (forall p, p <> localPath ->
               files (local (snd r)) !! p = files (local w) !! p)
    /\ match ensureDir tempDir with
       | Some m =>
           fst r = Thrown ("Failed to download file from Google Drive: " +:+ m)
           /\ new_calls w (snd r) = [ReadClock]
           /\ files (local (snd r)) = files (local w)
       | None =>
           new_calls w (snd r) = [ReadClock; DriveFilesGet fileId]
           /\ match drive_files_get (calls w ++ [ReadClock]) fileId with
              | inl m =>
                  fst r = Thrown ("Failed to download file from Google Drive: "
                                  +:+ m)
                  /\ files (local (snd r)) = files (local w)
              | inr (StreamDone written) =>
                  fst r = Returned localPath
                  /\ files (local (snd r)) !! localPath = Some written
              | inr (StreamFailed m written) =>
                  fst r = Thrown ("Failed to download file: " +:+ m)
                  /\ files (local (snd r)) !! localPath
                     = match written with
                       | Some sz => Some sz
                       | None => files (local w) !! localPath
                       end
              end
       end.
Proof.
  intros fileId fileName w tempDir localPath r. subst r.
  rewrite downloadFile_run. cbv zeta. fold tempDir. fold localPath.
  unfold new_calls.
  destruct (ensureDir tempDir) as [m |]; cbn [fst snd].
  { split; [reflexivity |]. split; [reflexivity |].
    cbn [calls called with_local]. rewrite drop_app_length.
    split; reflexivity. }
  destruct (drive_files_get _ _) as [m | [written | m [written |]]];
    cbn [fst snd with_local local called put files log calls];
    rewrite <- ?app_assoc, ?drop_app_length.
  - repeat split.
  - split; [intros p Hp; apply lookup_insert_ne; congruence |].
    split; [reflexivity |]. split; [reflexivity |]. apply lookup_insert_eq.
  - split; [intros p Hp; apply lookup_insert_ne; congruence |].
    split; [reflexivity |]. split; [reflexivity |]. apply lookup_insert_eq.
  - repeat split.
Qed.

End RunProperties.

(** ** The input of a job is kept *)

Section InputKept.
Context {host : Host}.

Lemma splitVideo_keeps_others (fuel : nat) (v o : string) (s : St)
    (p : string) :
  p <> v -> is_Some (files s !! p) ->
  is_Some (files (snd (splitVideo fuel v o s)) !! p).
Proof.
  intros Hne Hp. unfold splitVideo.
  unfold mbind, M_bind, bind.
  pose proof (keeps_files_analyzeVideo v s p Hp) as K1.
  destruct (analyzeVideo v s) as [[info | | | ] s1]; cbn [fst snd] in *;
    try exact K1.
  pose proof (keeps_files_getFileSize v s1 p K1) as K2.
  destruct (getFileSize v s1) as [[fileSize | | | ] s2]; cbn [fst snd] in *;
    try exact K2.
  unfold get_this, temp_dir, get_env, ret, mbind, M_bind, bind.
  match goal with
  | |- context [ split_loop ?f ?a ?b ?c ?n ?d ?i ?ps s2 ] =>
      pose proof (keeps_files_split_loop f a b c n d i ps s2 p K2) as K3;
      destruct (split_loop f a b c n d i ps s2) as [[parts | | | ] s3]
  end; cbn [fst snd] in *; try exact K3.
  unfold fs_remove, emit, delete_file, throw, mbind, M_bind, bind.
  destruct (remove_error v) as [message |]; cbn [fst snd files];
    [exact K3 |].
  rewrite lookup_delete_ne by congruence. exact K3.
Qed.

Lemma checkAndSplitVideo_keeps_others (fuel : nat) (v o : string) (s : St)
    (p : string) :
  p <> v -> is_Some (files s !! p) ->
  is_Some (files (snd (checkAndSplitVideo fuel v o s)) !! p).
Proof.
  intros Hne Hp. rewrite checkAndSplitVideo_run.
  destruct (files s !! v) as [fileSize |]; [| exact Hp].
  destruct (js_le _ _); [exact Hp |].
  apply splitVideo_keeps_others; [exact Hne | exact Hp].
Qed.

(** The stages of a job up to the transcoding either fail, having removed
    nothing, or leave the thumbnail and the transcoded file. *)
Lemma processVideo_stages (fuel : nat) (inputPath originalFileName : string)
    (s : St) :
  let dir := js_or_str (env s !! "TEMP_DIR") "temp" in
  let base := path_parse_name originalFileName in
  let thumbnailPath := path_join dir (base +:+ "_thumbnail.jpg") in
  let processedPath := path_join dir (base +:+ "_processed.mp4") in
  let r := processVideo fuel inputPath originalFileName s in
  (forall p, is_Some (files s !! p) -> is_Some (files (snd r) !! p))
  \/ (exists sz1 sz2,
        let s3 :=
          put (log (put (log s (take 3 (stage_events inputPath originalFileName s)))
                      thumbnailPath sz1)
                 (take 2 (drop 3 (stage_events inputPath originalFileName s))))
            processedPath sz2 in
        r = try_catch
              (processedVideos ← checkAndSplitVideo fuel processedPath
                                   originalFileName;
               thumbnailSize ← getFileSize thumbnailPath;
               mret (processedVideos ++
                     [ {| Artifact.path := thumbnailPath;
                          Artifact.name := base +:+ "_thumbnail.jpg";
                          Artifact.type := "thumbnail";
                          Artifact.size := thumbnailSize;
                          Artifact.part := None;
                          Artifact.totalParts := None |} ]))
              (fun message => throw ("Failed to process video: " +:+ message))
              s3).
Proof.
  intros dir base thumbnailPath processedPath r.
  unfold stage_events. fold dir. fold base. fold processedPath.
  cbn [take drop].
  assert (Hr : r = processVideo fuel inputPath originalFileName s)
    by reflexivity.
  clearbody r.
  unfold processVideo, try_catch in Hr.
  unfold mbind at 1, M_bind at 1, bind at 1 in Hr.
  pose proof (analyzeVideo_state inputPath s) as Hs1.
  destruct (analyzeVideo inputPath s) as [[info | msg | | ] s1];
    cbn [snd] in Hs1; subst s1.
  2,3,4: left; subst r; cbn [throw fst snd log put files]; auto.
  unfold mbind at 1, M_bind at 1, bind at 1 in Hr.
  rewrite captureFrame_run in Hr. cbv zeta in Hr. cbn [env this log] in Hr.
  fold dir in Hr. fold base in Hr. fold thumbnailPath in Hr.
  destruct (ensureDir dir) as [msg |] eqn:Hdir.
  { left. subst r. cbn [throw fst snd log put files]. auto. }
  destruct (screenshots _ _ _ _ _) as [err | sz1].
  { left. subst r. cbn [throw fst snd log put files]. auto. }
  unfold mbind at 1, M_bind at 1, bind at 1 in Hr.
  rewrite compressVideo_run in Hr. cbv zeta in Hr.
  cbn [env this log put] in Hr. fold dir in Hr. fold base in Hr.
  fold processedPath in Hr. rewrite Hdir in Hr.
  destruct (read_videoCodec_error _) as [message |].
  { left. subst r. cbn [throw fst snd log put files].
    intros p Hp. apply lookup_insert_is_Some'. auto. }
  destruct (transcode _ _ _) as [err | sz2].
  { left. subst r. cbn [throw fst snd log put files].
    intros p Hp. apply lookup_insert_is_Some'. auto. }
  right. exists sz1, sz2. cbv zeta. rewrite Hr, log_log. reflexivity.
Qed.

(** X19: whatever its outcome, [processVideo] removes no file but the
    transcoded one, <base>_processed.mp4 in the working directory: every
    other file that was there before the job, the input among them, is
    still there after it. *)
Theorem processVideo_removes_only_transcoded :
  forall (fuel : nat) (inputPath originalFileName : string) (s : St)
         (p : string),
    p <> path_join (js_or_str (env s !! "TEMP_DIR") "temp")
           (path_parse_name originalFileName +:+ "_processed.mp4") ->
    is_Some (files s !! p) ->
    is_Some (files (snd (processVideo fuel inputPath originalFileName s)) !! p).
Proof.
  intros fuel inputPath originalFileName s p Hne Hp.
  destruct (processVideo_stages fuel inputPath originalFileName s)
    as [Hkept | (sz1 & sz2 & Hr)]; [apply Hkept, Hp |].
  cbv zeta in Hr. rewrite Hr. clear Hr.
  set (dir := js_or_str (env s !! "TEMP_DIR") "temp") in *.
  set (base := path_parse_name originalFileName) in *.
  set (processedPath := path_join dir (base +:+ "_processed.mp4")) in *.
  set (thumbnailPath := path_join dir (base +:+ "_thumbnail.jpg")) in *.
  set (s3 := put _ processedPath sz2) in *.
  rewrite try_catch_throw_snd.
  assert (H3 : is_Some (files s3 !! p)).
  { subst s3. cbn [files put log]. apply lookup_insert_is_Some'. right.
    apply lookup_insert_is_Some'. right. exact Hp. }
  unfold mbind, M_bind, bind.
  pose proof (checkAndSplitVideo_keeps_others fuel processedPath
                originalFileName s3 p Hne H3) as H4.
  destruct (checkAndSplitVideo fuel processedPath originalFileName s3)
    as [[videos | | | ] s4]; cbn [fst snd] in *; try exact H4.
  pose proof (keeps_files_getFileSize thumbnailPath s4 p H4) as H5.
  destruct (getFileSize thumbnailPath s4) as [[tsz | | | ] s5];
    cbn [fst snd mret M_ret ret] in *; exact H5.
Qed.

End InputKept.


(** ** The messages of a rejected job of the script *)

Section JobFailures.
Context {host : Host} {cloud : Cloud}.

Lemma rejects_only_bind {A B} (P : string -> Prop) (c : C A) (k : A -> C B) :
  rejects_only P c -> (forall a, rejects_only P (k a)) ->
  rejects_only P (c ≫= k).
Proof.
  intros Hc Hk w m. rewrite cbind_run. specialize (Hc w).
  destruct (c w) as [[a | m' | | ] w1]; cbn [fst] in *; try discriminate.
  - apply Hk.
  - intros [= <-]. apply Hc. reflexivity.
Qed.

Lemma rejects_only_ret {A} (P : string -> Prop) (a : A) :
  rejects_only P (mret a).
Proof. intros w m. discriminate. Qed.

(** A [catch] that wraps every error lets only wrapped errors out. *)
Lemma rejects_only_wrap {A} (P : string -> Prop) (c : C A)
    (f : string -> string) :
  (forall m, P (f m)) -> rejects_only P (ctry c (fun m => cthrow (f m))).
Proof.
  intros Hf w m. unfold ctry.
  destruct (c w) as [[a | m' | | ] w1]; cbn [fst cthrow]; try discriminate.
  intros [= <-]. apply Hf.
Qed.

Lemma job_failure_prefix (prefix inner : string) :
  prefix ∈ job_failure_prefixes -> job_failure (prefix +:+ inner).
Proof. intros H. exists prefix, inner. auto. Qed.

Lemma rejects_only_updateEntryStatus (fileId status : string)
    (additionalData : Additional.t) :
  rejects_only job_failure (updateEntryStatus fileId status additionalData).
Proof.
  unfold updateEntryStatus. apply rejects_only_wrap. intros m.
  apply job_failure_prefix. left.
Qed.

Lemma rejects_only_downloadFile (fileId fileName : string) :
  rejects_only job_failure (downloadFile fileId fileName).
Proof.
  intros w m. rewrite downloadFile_run. cbv zeta.
  destruct (ensureDir _); cbn [fst].
  { intros [= <-]. apply job_failure_prefix. right. left. }
  destruct (drive_files_get _ _) as [e | [written | e [written |]]];
    cbn [fst]; try discriminate; intros [= <-]; apply job_failure_prefix.
  - right. left.
  - right. right. left.
  - right. right. left.
Qed.

Lemma rejects_only_processVideo (fuel : nat) (inputPath name : string) :
  rejects_only job_failure (lift (processVideo fuel inputPath name)).
Proof.
  intros w m. unfold lift, processVideo, try_catch.
  match goal with
  | |- context [let (_, _) := ?body (local w) in _] =>
      destruct (body (local w)) as [[arts | e | | ] s1]
  end; cbn [fst throw]; try discriminate.
  intros [= <-]. apply job_failure_prefix. do 3 right. left.
Qed.

Lemma rejects_only_uploadFile (p n : string) (t : option string) :
  rejects_only job_failure (uploadFile p n t).
Proof.
  unfold uploadFile. apply rejects_only_wrap. intros m.
  apply job_failure_prefix. do 4 right. left.
Qed.

Lemma rejects_only_upload_all (videos : list Artifact.t) :
  forall urls, rejects_only job_failure (upload_all videos urls).
Proof.
  induction videos as [| video rest IH]; intros urls; cbn [upload_all].
  - apply rejects_only_ret.
  - apply rejects_only_bind; [apply rejects_only_uploadFile | intros url].
    apply IH.
Qed.

Lemma rejects_only_addVideoEntry (data : VideoData.t) :
  rejects_only job_failure (addVideoEntry data).
Proof.
  unfold addVideoEntry. apply rejects_only_wrap. intros m.
  apply job_failure_prefix. do 5 right. left.
Qed.

Lemma script_cleanupFiles_returns (localPath : option string)
    (videos : list Artifact.t) (w : World) :
  fst (script_cleanupFiles localPath videos w) = Returned tt.
Proof.
  unfold script_cleanupFiles, ctry.
  pose proof (removes_within_cleanup localPath videos w) as H.
  match type of H with
  | removes_within _ _ (?body w) => destruct (body w) as [[[] | m | | ] w1]
  end; destruct H as (Hres & _); cbn [fst] in *.
  - reflexivity.
  - reflexivity.
  - destruct Hres as [[=] | (p & m' & _ & _ & [=])].
  - destruct Hres as [[=] | (p & m' & _ & _ & [=])].
Qed.

(** The outcome of the [catch] and [finally] blocks for a caught error. *)
Lemma catch_finally_outcome (startTime : Z) (fileId : string)
    (localPath : option string) (videos : list Artifact.t) (caught : string)
    (w : World) :
  fst (catch_finally startTime fileId localPath videos caught w)
  = match fst (updateEntryStatus fileId "ERROR"
                 {| Additional.processingTime :=
                      Some (js_div (num (date_now (calls w) - startTime))
                              (num 1000));
                    Additional.errorMessage := Some caught |}
                 (called w [ReadClock])) with
    | Returned _ => Thrown caught
    | Thrown other => Thrown other
    | Escaped => Escaped
    | OutOfFuel => OutOfFuel
    end.
Proof.
  unfold catch_finally. rewrite cbind_run. unfold ctry.
  rewrite cbind_run, elapsed_seconds_run, cbind_run.
  destruct (updateEntryStatus fileId "ERROR" _ _) as [[[] | e | | ] w1];
    cbn [fst mret C_ret cret]; try reflexivity.
  - rewrite cbind_run.
    pose proof (script_cleanupFiles_returns localPath videos w1) as Hc.
    destruct (script_cleanupFiles localPath videos w1) as [o w2].
    cbn [fst] in Hc. subst o. reflexivity.
  - rewrite cbind_run.
    pose proof (script_cleanupFiles_returns localPath videos w1) as Hc.
    destruct (script_cleanupFiles localPath videos w1) as [o w2].
    cbn [fst] in Hc. subst o. reflexivity.
Qed.

Lemma has_prefix_job_failure (prefix m : string) :
  prefix ∈ job_failure_prefixes -> has_prefix prefix m -> job_failure m.
Proof. intros Hin [inner ->]. exists prefix, inner. auto. Qed.

Lemma prefix_updateEntryStatus (fileId status : string)
    (additionalData : Additional.t) :
  rejects_only (has_prefix "Failed to update status in Google Sheets: ")
    (updateEntryStatus fileId status additionalData).
Proof.
  unfold updateEntryStatus. apply rejects_only_wrap. intros m. eexists.
  reflexivity.
Qed.

Lemma prefix_downloadFile (fileId fileName : string) :
  rejects_only
    (fun m => has_prefix "Failed to download file from Google Drive: " m
              \/ has_prefix "Failed to download file: " m)
    (downloadFile fileId fileName).
Proof.
  intros w m. rewrite downloadFile_run. cbv zeta.
  destruct (ensureDir _); cbn [fst].
  { intros [= <-]. left. eexists. reflexivity. }
  destruct (drive_files_get _ _) as [e | [written | e [written |]]];
    cbn [fst]; try discriminate; intros [= <-];
    [left | right | right]; eexists; reflexivity.
Qed.

Lemma prefix_processVideo (fuel : nat) (inputPath name : string) :
  rejects_only (has_prefix "Failed to process video: ")
    (lift (processVideo fuel inputPath name)).
Proof.
  intros w m. unfold lift, processVideo, try_catch.
  match goal with
  | |- context [let (_, _) := ?body (local w) in _] =>
      destruct (body (local w)) as [[arts | e | | ] s1]
  end; cbn [fst throw]; try discriminate.
  intros [= <-]. eexists. reflexivity.
Qed.

Lemma prefix_upload_all (videos : list Artifact.t) :
  forall urls,
    rejects_only (has_prefix "Failed to upload file to ImageKit: ")
      (upload_all videos urls).
Proof.
  induction videos as [| video rest IH]; intros urls; cbn [upload_all].
  - apply rejects_only_ret.
  - apply rejects_only_bind; [| intros url; apply IH].
    unfold uploadFile. apply rejects_only_wrap. intros m. eexists.
    reflexivity.
Qed.

Lemma prefix_addVideoEntry (data : VideoData.t) :
  rejects_only (has_prefix "Failed to add entry to Google Sheets: ")
    (addVideoEntry data).
Proof.
  unfold addVideoEntry. apply rejects_only_wrap. intros m. eexists.
  reflexivity.
Qed.

Lemma rejects_only_job_steps (fuel : nat) (fileId fileName : string)
    (startTime : Z) :
  rejects_only job_failure (job_steps fuel fileId fileName startTime).
Proof.
  unfold job_steps.
  apply rejects_only_bind; [apply rejects_only_updateEntryStatus | intros _].
  apply rejects_only_bind; [apply rejects_only_downloadFile | intros localPath].
  apply rejects_only_bind; [apply rejects_only_processVideo | intros videos].
  apply rejects_only_bind; [apply rejects_only_upload_all | intros urls].
  apply rejects_only_bind.
  { intros w' m'. rewrite elapsed_seconds_run. discriminate. }
  intros processingTime.
  apply rejects_only_bind; [intros w' m'; discriminate | intros h].
  apply rejects_only_bind; [apply rejects_only_addVideoEntry | intros _].
  apply rejects_only_bind; [apply rejects_only_updateEntryStatus | intros _].
  apply rejects_only_ret.
Qed.

(** X20: the outcome of a job of the script is the outcome of the steps of
    its [try] block run one after the other: fulfilled with their result, or
    rejected with the error of the first step that fails, unless reporting
    the ERROR status fails, whose error then replaces it; the cleanup never
    changes the outcome.  Each step rejects with its own prefix: the update
    of the status, the download (request or stream), the processing, an
    upload, the new row of the sheet; so that the message of a rejected job
    starts with one of them. *)
Theorem script_processVideo_rejection_message :
  forall (fuel : nat) (fileId fileName : string) (w : World),
    let startTime := date_now (calls w) in
    let r := script_processVideo fuel fileId fileName w in
    fst r
    = match job_steps fuel fileId fileName startTime (called w [ReadClock]) with
      | (Returned result, _) => Returned result
      | (Thrown caught, w1) =>
          match fst (updateEntryStatus fileId "ERROR"
                       {| Additional.processingTime :=
                            Some (js_div
                                    (num (date_now (calls w1) - startTime))
                                    (num 1000));
                          Additional.errorMessage := Some caught |}
                       (called w1 [ReadClock])) with
          | Returned _ => Thrown caught
          | Thrown other => Thrown other
          | Escaped => Escaped
          | OutOfFuel => OutOfFuel
          end
      | (Escaped, _) => Escaped
      | (OutOfFuel, _) => OutOfFuel
      end
    /\ (forall m, fst r = Thrown m -> job_failure m)
    /\ (forall status additionalData,
          rejects_only
            (has_prefix "Failed to update status in Google Sheets: ")
            (updateEntryStatus fileId status additionalData))
    /\ rejects_only
         (fun m => has_prefix "Failed to download file from Google Drive: " m
                   \/ has_prefix "Failed to download file: " m)
         (downloadFile fileId fileName)
    /\ (forall localPath,
          rejects_only (has_prefix "Failed to process video: ")
            (lift (processVideo fuel localPath fileName)))
    /\ (forall videos urls,
          rejects_only (has_prefix "Failed to upload file to ImageKit: ")
            (upload_all videos urls))
    /\ (forall data,
          rejects_only (has_prefix "Failed to add entry to Google Sheets: ")
            (addVideoEntry data)).
Proof.
  intros fuel fileId fileName w startTime r.
  assert (Hsteps :
    fst r
    = match job_steps fuel fileId fileName startTime (called w [ReadClock]) with
      | (Returned result, _) => Returned result
      | (Thrown caught, w1) =>
          match fst (updateEntryStatus fileId "ERROR"
                       {| Additional.processingTime :=
                            Some (js_div
                                    (num (date_now (calls w1) - startTime))
                                    (num 1000));
                          Additional.errorMessage := Some caught |}
                       (called w1 [ReadClock])) with
          | Returned _ => Thrown caught
          | Thrown other => Thrown other
          | Escaped => Escaped
          | OutOfFuel => OutOfFuel
          end
      | (Escaped, _) => Escaped
      | (OutOfFuel, _) => OutOfFuel
      end).
  { subst r. unfold script_processVideo, job_steps.
    rewrite cbind_run, clock_run. fold startTime.
    set (w0 := called w [ReadClock]).
    unfold guarded at 1. rewrite (cbind_run (updateEntryStatus _ _ _)).
    destruct (updateEntryStatus fileId "PROCESSING" no_additional w0)
      as [[[] | m | | ] w1]; try reflexivity;
      [| apply catch_finally_outcome].
    unfold guarded at 1. rewrite (cbind_run (downloadFile _ _)).
    destruct (downloadFile fileId fileName w1) as [[localPath | m | | ] w2];
      try reflexivity; [| apply catch_finally_outcome].
    unfold guarded at 1. rewrite (cbind_run (lift _)).
    destruct (lift (processVideo fuel localPath fileName) w2)
      as [[videos | m | | ] w3]; try reflexivity;
      [| apply catch_finally_outcome].
    unfold guarded at 1.
    match goal with
    | |- context [ match ?c w3 with _ => _ end ] =>
        destruct (c w3) as [[result | m | | ] w4]
    end; try reflexivity; [| apply catch_finally_outcome].
    rewrite cbind_run.
    pose proof (script_cleanupFiles_returns (Some localPath) videos w4) as Hc.
    destruct (script_cleanupFiles (Some localPath) videos w4) as [o w5].
    cbn [fst] in Hc. subst o. reflexivity. }
  split; [exact Hsteps |].
  split.
  { intros m. rewrite Hsteps.
    pose proof (rejects_only_job_steps fuel fileId fileName startTime
                  (called w [ReadClock])) as Hj.
    destruct (job_steps fuel fileId fileName startTime (called w [ReadClock]))
      as [[result | caught | | ] w1]; cbn [fst] in Hj; try discriminate.
    match goal with
    | |- context [updateEntryStatus fileId "ERROR" ?ad ?w'] =>
        pose proof (rejects_only_updateEntryStatus fileId "ERROR" ad w') as Hu;
        destruct (updateEntryStatus fileId "ERROR" ad w') as [[[] | e | | ] w2]
    end; cbn [fst] in *; try discriminate.
    - intros [= <-]. apply Hj. reflexivity.
    - intros [= <-]. apply Hu. reflexivity. }
  split; [intros; apply prefix_updateEntryStatus |].
  split; [apply prefix_downloadFile |].
  split; [intros; apply prefix_processVideo |].
  split; [intros; apply prefix_upload_all | intros; apply prefix_addVideoEntry].
Qed.

End JobFailures.

(** ** What a fulfilled job records *)

Section RecordedMedia.
Context {host : Host} {cloud : Cloud}.

(** The list of a job that returns is video artifacts followed by the
    thumbnail. *)
Lemma processVideo_types (fuel : nat) (inputPath originalFileName : string)
    (s : St) (arts : list Artifact.t) :
  fst (processVideo fuel inputPath originalFileName s) = Returned arts ->
  exists videos thumbnail,
    arts = videos ++ [thumbnail]
    /\ Forall (fun a => Artifact.type a = "video") videos
    /\ Artifact.type thumbnail = "thumbnail".
Proof.
  intros Hret.
  destruct (processVideo_cases fuel inputPath originalFileName s)
    as [(evs & rest & _ & _ & Hnot) | (sz1 & sz2 & Hr)];
    [exfalso; exact (Hnot arts Hret) |].
  cbv zeta in Hr. rewrite Hr in Hret. clear Hr.
  apply try_catch_throw_returned in Hret.
  apply bind_returned in Hret. destruct Hret as (videos & s4 & Hcheck & Hret).
  apply bind_returned in Hret. destruct Hret as (tsz & s5 & _ & Hret).
  cbn in Hret. injection Hret as <-.
  eexists videos, _. split; [reflexivity |]. split; [| reflexivity].
  rewrite checkAndSplitVideo_run in Hcheck.
  destruct (files _ !! _) as [fileSize |]; [| discriminate].
  destruct (js_le _ _).
  - injection Hcheck as <- _. repeat constructor.
  - apply splitVideo_shape in Hcheck. destruct Hcheck as (dir & pn & sizes & ->).
    apply Forall_lookup. intros i a H. apply part_artifact_lookup in H. tauto.
Qed.

Lemma cbind_returned {A B} (c : C A) (k : A -> C B) (w w' : World) (b : B) :
  (c ≫= k) w = (Returned b, w') ->
  exists a w1, c w = (Returned a, w1) /\ k a w1 = (Returned b, w').
Proof.
  rewrite cbind_run. destruct (c w) as [[a | m | | ] w1]; try discriminate.
  eauto.
Qed.

Lemma ctry_returned {A} (c : C A) (f : string -> string) (w w' : World)
    (a : A) :
  ctry c (fun m => cthrow (f m)) w = (Returned a, w') ->
  c w = (Returned a, w').
Proof.
  unfold ctry. destruct (c w) as [[a' | m | | ] w1]; cbn [cthrow];
    try discriminate.
  auto.
Qed.

(** The uploads of the script keep the order and the types of the
    artifacts. *)
Lemma upload_all_returned (videos : list Artifact.t) :
  forall (done urls : list Uploaded.t) (w w' : World),
    upload_all videos done w = (Returned urls, w') ->
    exists uploaded,
      urls = done ++ uploaded /\ Forall2 typed_as videos uploaded.
Proof.
  induction videos as [| video rest IH]; intros done urls w w';
    cbn [upload_all].
  - intros [= <- <-]. exists []. rewrite app_nil_r. split; constructor.
  - intros H. apply cbind_returned in H. destruct H as (url & w1 & _ & H).
    apply IH in H. destruct H as (uploaded & -> & Htyped).
    eexists (_ :: uploaded). rewrite <- app_assoc. split; [reflexivity |].
    constructor; [reflexivity | exact Htyped].
Qed.

Lemma later_refl (w : World) : later w w.
Proof. split; [reflexivity |]. exists []. rewrite app_nil_r. reflexivity. Qed.

Lemma later_trans (w1 w2 w3 : World) : later w1 w2 -> later w2 w3 -> later w1 w3.
Proof.
  intros (Hs1 & n1 & Hc1) (Hs2 & n2 & Hc2). split; [congruence |].
  exists (n1 ++ n2). rewrite Hc2, Hc1, app_assoc. reflexivity.
Qed.

Lemma confined_later {A} (c : C A) (w : World) :
  confined (fun _ => True) any any c -> later w (snd (c w)).
Proof.
  intros Hc. destruct (Hc w) as (_ & _ & Hs & new & Hcalls & _).
  split; [exact Hs | eauto].
Qed.

Lemma later_called (w : World) (new : list CloudEvent) : later w (called w new).
Proof. split; [reflexivity | eauto]. Qed.

Lemma later_lift {A} (c : M A) (w : World) : later w (snd (lift c w)).
Proof.
  unfold lift. destruct (c (local w)) as [o s']. cbn [snd].
  split; [reflexivity |]. exists []. cbn [calls]. rewrite app_nil_r.
  reflexivity.
Qed.

(** A new row that was accepted is the last call of [addVideoEntry]. *)
Lemma addVideoEntry_returned (data : VideoData.t) (w w' : World) :
  addVideoEntry data w = (Returned tt, w') ->
  exists before now,
    calls w'
    = calls w ++ before
      ++ [ValuesAppend (spreadsheetId (services w))
            (sheetName (services w) +:+ "!A:J") [row_data now data]].
Proof.
  unfold addVideoEntry. intros H. apply ctry_returned in H.
  apply cbind_returned in H. destruct H as ([] & w1 & Hinit & H).
  assert (Hlater : later w w1).
  { pose proof (confined_later initializeSheet w) as Hl. rewrite Hinit in Hl.
    apply Hl. frame @confined_initializeSheet. }
  destruct Hlater as (Hsvc & before & Hcalls).
  unfold api_write in H.
  repeat (rewrite cbind_run in H; cbn [the_services history record] in H).
  cbn [calls] in H.
  destruct (values_append _ _ _ _); [discriminate |].
  cbn [mret C_ret cret] in H. injection H as <-. cbn [calls].
  exists before, (iso_now (calls w1)).
  rewrite Hcalls, Hsvc, <- app_assoc. reflexivity.
Qed.

Lemma filter_is_type_all (t : string) (l : list Uploaded.t) :
  Forall (fun u => Uploaded.type u = Some t) l -> List.filter (is_type t) l = l.
Proof.
  induction 1 as [| u l Hu _ IH]; [reflexivity |].
  cbn [List.filter]. unfold is_type at 1. rewrite Hu, String.eqb_refl, IH.
  reflexivity.
Qed.

Lemma filter_is_type_other (t t' : string) (l : list Uploaded.t) :
  t' <> t ->
  Forall (fun u => Uploaded.type u = Some t') l -> List.filter (is_type t) l = [].
Proof.
  intros Hne. induction 1 as [| u l Hu _ IH]; [reflexivity |].
  cbn [List.filter]. unfold is_type at 1. rewrite Hu.
  destruct (String.eqb_spec t' t); [contradiction | exact IH].
Qed.

(** The row made from video files followed by one thumbnail. *)
Lemma row_data_media (now : string) (data : VideoData.t)
    (videos : list Uploaded.t) (thumbnail : Uploaded.t) :
  VideoData.processedVideos data = videos ++ [thumbnail] ->
  Forall (fun u => Uploaded.type u = Some "video") videos ->
  Uploaded.type thumbnail = Some "thumbnail" ->
  row_data now data !! 2%nat = Some (JString (VideoData.originalFileId data))
  /\ row_data now data !! 4%nat
     = Some (JNumber (num (Z.of_nat (length videos))))
  /\ row_data now data !! 5%nat
     = Some (JString (join " | " (Uploaded.url <$> videos)))
  /\ row_data now data !! 6%nat = Some (JString (Uploaded.url thumbnail)).
Proof.
  intros Hlist Hvideos Hthumbnail. unfold row_data. rewrite Hlist.
  rewrite !List.filter_app.
  rewrite (filter_is_type_all "video" videos Hvideos).
  rewrite (filter_is_type_other "thumbnail" "video" videos) by
    (try discriminate; exact Hvideos).
  cbn [List.filter]. unfold is_type. rewrite Hthumbnail.
  cbn [String.eqb Ascii.eqb Bool.eqb app]. rewrite app_nil_r.
  repeat split.
Qed.

(** X21: a job of the script that is fulfilled returns the uploaded video
    files followed by the uploaded thumbnail, and has appended to the sheet
    a row for the file id that counts exactly these video files, lists
    their URLs joined by " | " and holds the URL of the thumbnail. *)
Theorem script_processVideo_records_media :
  forall (fuel : nat) (fileId fileName : string) (w : World)
         (result : JobResult.t),
    fst (script_processVideo fuel fileId fileName w) = Returned result ->
    exists videos thumbnail row,
      JobResult.urls result = videos ++ [thumbnail]
      /\ Forall (fun u => Uploaded.type u = Some "video") videos
      /\ Uploaded.type thumbnail = Some "thumbnail"
      /\ ValuesAppend (spreadsheetId (services w))
           (sheetName (services w) +:+ "!A:J") [row]
         ∈ new_calls w (snd (script_processVideo fuel fileId fileName w))
      /\ row !! 2%nat = Some (JString fileId)
      /\ row !! 4%nat = Some (JNumber (num (Z.of_nat (length videos))))
      /\ row !! 5%nat = Some (JString (join " | " (Uploaded.url <$> videos)))
      /\ row !! 6%nat = Some (JString (Uploaded.url thumbnail)).
Proof.
  intros fuel fileId fileName w result Hret.
  unfold script_processVideo in *.
  rewrite cbind_run, clock_run in *.
  set (startTime := date_now (calls w)) in *.
  set (w0 := called w [ReadClock]) in *.
  destruct (guarded_returned _ _ _ _ _ _ _ _ Hret) as ([] & w1 & Hc1 & Hk1).
  rewrite Hk1 in *. clear Hk1.
  destruct (guarded_returned _ _ _ _ _ _ _ _ Hret)
    as (localPath & w2 & Hc2 & Hk2).
  rewrite Hk2 in *. clear Hk2.
  destruct (guarded_returned _ _ _ _ _ _ _ _ Hret) as (arts & w3 & Hc3 & Hk3).
  rewrite Hk3 in *. clear Hk3.
  destruct (guarded_returned _ _ _ _ _ _ _ _ Hret) as (res & w4 & Hc4 & Hk4).
  rewrite Hk4 in *. clear Hk4.
  (* the states of the job follow one another *)
  assert (L0 : later w w0) by apply later_called.
  assert (L1 : later w0 w1).
  { pose proof (confined_later
                  (updateEntryStatus fileId "PROCESSING" no_additional) w0)
      as Hl.
    rewrite Hc1 in Hl. apply Hl. frame @confined_updateEntryStatus. }
  assert (L2 : later w1 w2).
  { pose proof (confined_later (downloadFile fileId fileName) w1) as Hl.
    rewrite Hc2 in Hl. apply Hl. frame @confined_downloadFile. }
  assert (L3 : later w2 w3).
  { pose proof (later_lift (processVideo fuel localPath fileName) w2) as Hl.
    rewrite Hc3 in Hl. exact Hl. }
  (* the artifacts and their uploads *)
  assert (Harts : exists videos thumbnail,
             arts = videos ++ [thumbnail]
             /\ Forall (fun a => Artifact.type a = "video") videos
             /\ Artifact.type thumbnail = "thumbnail").
  { unfold lift in Hc3.
    pose proof (processVideo_types fuel localPath fileName (local w2) arts)
      as H.
    destruct (processVideo fuel localPath fileName (local w2)) as [o s'].
    injection Hc3 as -> _. apply H. reflexivity. }
  destruct Harts as (vs & th & -> & Hvs & Hth).
  apply cbind_returned in Hc4. destruct Hc4 as (urls & w3a & Hup & Hc4).
  assert (L3a : later w3 w3a).
  { pose proof (confined_later (upload_all (vs ++ [th]) []) w3) as Hl.
    rewrite Hup in Hl. apply Hl. frame @confined_upload_all. }
  apply upload_all_returned in Hup. destruct Hup as (uploaded & -> & Htyped).
  cbn [app] in *.
  apply Forall2_app_inv_l in Htyped.
  destruct Htyped as (videos & last & Hvideos & Hlast & ->).
  apply Forall2_cons_inv_l in Hlast.
  destruct Hlast as (thumbnail & rest & Hthumbnail & Hrest & ->).
  apply Forall2_nil_inv_l in Hrest. subst rest.
  assert (Hvideo : Forall (fun u => Uploaded.type u = Some "video") videos).
  { clear -Hvideos Hvs. induction Hvideos as [| a u l l' Hau _ IH];
      [constructor |].
    apply Forall_cons in Hvs as [Ha Hl]. constructor; [| apply IH, Hl].
    unfold typed_as in Hau. rewrite Hau, Ha. reflexivity. }
  assert (Hthumb : Uploaded.type thumbnail = Some "thumbnail").
  { unfold typed_as in Hthumbnail. rewrite Hthumbnail, Hth. reflexivity. }
  (* the row and the status *)
  rewrite cbind_run, elapsed_seconds_run in Hc4.
  set (processingTime := js_div _ _) in Hc4.
  set (w3b := called w3a [ReadClock]) in Hc4.
  assert (L3b : later w3a w3b) by apply later_called.
  rewrite cbind_run in Hc4. cbn [history] in Hc4.
  apply cbind_returned in Hc4. destruct Hc4 as ([] & w3c & Hadd & Hc4).
  apply addVideoEntry_returned in Hadd.
  destruct Hadd as (before & now & Hrow).
  apply cbind_returned in Hc4. destruct Hc4 as ([] & w3d & Hdone & Hc4).
  assert (L3d : later w3c w3d).
  { match type of Hdone with
    | ?c w3c = _ => pose proof (confined_later c w3c) as Hl
    end.
    rewrite Hdone in Hl. apply Hl. frame @confined_updateEntryStatus. }
  cbn [mret C_ret cret] in Hc4. injection Hc4 as <- <-.
  (* the cleanup makes no call *)
  rewrite cbind_run in Hret |- *.
  pose proof (script_cleanupFiles_returns (Some localPath) (vs ++ [th]) w3d)
    as Hclean.
  destruct (confined_script_cleanupFiles (fun _ => False) any any)
    with (p := Some localPath) (videos := vs ++ [th]) (w := w3d)
    as (_ & _ & _ & none & Hcalls5 & Hnone);
    try exact _; try (intros; exact I).
  destruct (script_cleanupFiles (Some localPath) (vs ++ [th]) w3d)
    as [o w5]. cbn [fst snd] in *. subst o.
  cbn [mret C_ret cret fst snd] in Hret |- *. injection Hret as <-.
  destruct none as [| e none]; [| exfalso; inversion Hnone; assumption].
  rewrite app_nil_r in Hcalls5.
  exists videos, thumbnail, (row_data now
    {| VideoData.fileName := fileName;
       VideoData.originalFileId := fileId;
       VideoData.processedVideos := videos ++ [thumbnail];
       VideoData.timestamp := Some (iso_now (calls w3b));
       VideoData.processingTime := Some processingTime;
       VideoData.errorMessage := None |}).
  split; [reflexivity |]. split; [exact Hvideo |]. split; [exact Hthumb |].
  split.
  - pose proof (later_trans _ _ _ L0
                  (later_trans _ _ _ L1
                     (later_trans _ _ _ L2
                        (later_trans _ _ _ L3
                           (later_trans _ _ _ L3a L3b))))) as (Hsvc & pre & Hpre).
    destruct L3d as (_ & post & Hpost).
    unfold new_calls. rewrite Hcalls5, Hpost, Hrow, Hpre, Hsvc.
    rewrite <- !app_assoc, drop_app_length.
    apply elem_of_app. right. apply elem_of_app. right.
    apply elem_of_app. left. left.
  - match goal with
    | |- context [row_data now ?data] =>
        exact (row_data_media now data videos thumbnail eq_refl Hvideo Hthumb)
    end.
Qed.

End RecordedMedia.

(** ** The set-up of the sheet *)

Section SheetSetup.
Context {cloud : Cloud}.

Lemma api_write_run (e : CloudEvent)
    (answer : list CloudEvent -> option string) (w : World) :
  api_write e answer w
  = match answer (calls w) with
    | None => (Returned tt, called w [e])
    | Some m => (Thrown m, called w [e])
    end.
Proof.
  unfold api_write. rewrite !cbind_run. cbn [history record calls].
  destruct (answer (calls w)); reflexivity.
Qed.

Lemma createSheet_run (w : World) :
  let request :=
    SpreadsheetsBatchUpdate (spreadsheetId (services w))
      (AddSheet (sheetName (services w))) in
  createSheet w
  = match spreadsheets_batchUpdate (calls w) (spreadsheetId (services w))
            (AddSheet (sheetName (services w))) with
    | None => (Returned tt, called w [request])
    | Some m =>
        (Thrown ("Failed to create Google Sheet: " +:+ m), called w [request])
    end.
Proof.
  cbv zeta. unfold createSheet, ctry. rewrite cbind_run.
  cbn [the_services]. rewrite api_write_run.
  destruct (spreadsheets_batchUpdate _ _ _); reflexivity.
Qed.

Lemma confined_ensureHeaders_no_sheet :
  confined adds_no_sheet any any ensureHeaders.
Proof.
  unfold ensureHeaders.
  frame @confined_ctry; [| intros m; frame @confined_cthrow].
  frame @confined_bind; [frame @confined_the_services | intros svc].
  frame @confined_bind.
  { frame @confined_api_write. intros i title. discriminate. }
  intros _.
  frame @confined_bind.
  { frame @confined_getSheetId. intros ? ? ?. discriminate. }
  intros sheetId. frame @confined_api_write. intros i title. discriminate.
Qed.

(** X22: once the sheets of the spreadsheet are known, [initializeSheet]
    asks for a new sheet named after the service exactly when none has that
    title, straight after the read, and nowhere else; when that request
    fails the headers are not written and the call rejects with "Failed to
    initialize Google Sheet: Failed to create Google Sheet: <error>". *)
Theorem initializeSheet_creates_missing_sheet :
  forall (w : World) (sheets : list SheetProps.t),
    let svc := services w in
    let found :=
      existsb (fun sh => String.eqb (SheetProps.title sh) (sheetName svc))
        sheets in
    let request :=
      SpreadsheetsBatchUpdate (spreadsheetId svc) (AddSheet (sheetName svc)) in
    let r := initializeSheet w in
    spreadsheets_get (calls w) (spreadsheetId svc) = inr sheets ->
    exists rest,
      new_calls w (snd r)
      = SpreadsheetsGet (spreadsheetId svc)
        :: (if found then [] else [request]) ++ rest
      /\ Forall adds_no_sheet rest
      /\ (found = false ->
          forall m,
            spreadsheets_batchUpdate
              (calls w ++ [SpreadsheetsGet (spreadsheetId svc)])
              (spreadsheetId svc) (AddSheet (sheetName svc)) = Some m ->
            rest = []
            /\ fst r = Thrown ("Failed to initialize Google Sheet: "
                               +:+ "Failed to create Google Sheet: " +:+ m)).
Proof.
  intros w sheets svc found request r Hget. subst r.
  unfold initializeSheet, ctry. rewrite cbind_run. cbn [the_services].
  rewrite cbind_run, api_read_run. fold svc. rewrite Hget.
  fold found. rewrite cbind_run.
  set (w1 := called w [SpreadsheetsGet (spreadsheetId svc)]).
  destruct found.
  - cbn [mret C_ret cret].
    destruct (confined_ensureHeaders_no_sheet w1)
      as (_ & _ & _ & rest & Hcalls & Hrest).
    exists rest.
    assert (Hnew : new_calls w (snd (ensureHeaders w1))
                   = SpreadsheetsGet (spreadsheetId svc) :: rest).
    { unfold new_calls. rewrite Hcalls. subst w1. unfold called. cbn [calls].
      rewrite <- app_assoc, drop_app_length. reflexivity. }
    destruct (ensureHeaders w1) as [[[] | m | | ] w2]; cbn [fst snd cthrow] in *;
      (split; [exact Hnew |]); (split; [exact Hrest | discriminate]).
  - rewrite createSheet_run. cbv zeta. subst w1.
    cbn [called services calls]. fold svc.
    destruct (spreadsheets_batchUpdate _ _ _) as [m |] eqn:Hcreate.
    + exists []. cbn [fst snd cthrow].
      fold (called w [SpreadsheetsGet (spreadsheetId svc)]).
      rewrite called_called, new_calls_called.
      split; [reflexivity |]. split; [constructor |].
      intros _ m' [= <-]. split; reflexivity.
    + set (w2 := called _ _).
      destruct (confined_ensureHeaders_no_sheet w2)
        as (_ & _ & _ & rest & Hcalls & Hrest).
      exists rest.
      assert (Hnew : new_calls w (snd (ensureHeaders w2))
                     = SpreadsheetsGet (spreadsheetId svc) :: [request] ++ rest).
      { unfold new_calls. rewrite Hcalls. subst w2. unfold called. cbn [calls].
        rewrite <- !app_assoc, drop_app_length. reflexivity. }
      destruct (ensureHeaders w2) as [[[] | m | | ] w3];
        cbn [fst snd cthrow] in *;
        (split; [exact Hnew |]); (split; [exact Hrest |]);
        intros _ m' [=].
Qed.

End SheetSetup.

(** ** A second scan *)

Section Rescan.
Context {host : Host} {cloud : Cloud}.

Lemma has_processed_false (ids : list jsval) (id : string) :
  has_processed ids id = false -> JString id ∉ ids.
Proof.
  intros H Hin. rewrite has_processed_elem in H by exact Hin. discriminate.
Qed.


End Rescan.

(** * Concrete runs of the further properties *)

Lemma posix_join_nonempty (d n : string) : posix_join d n <> "".
Proof. unfold posix_join. destruct d; discriminate. Qed.

Lemma cleanupFiles_best_effort_witness :
  let s := put (put (put (@fresh host_locked) "temp/a.mp4" 10)
                  "temp/locked.mp4" 20) "temp/c.mp4" 30 in
  let r := @cleanupFiles host_locked
             ["temp/a.mp4"; "temp/locked.mp4"; "temp/c.mp4"] s in
  fst r = Returned tt
  /\ files (snd r) !! "temp/a.mp4" = None
  /\ files (snd r) !! "temp/locked.mp4" = Some 20
  /\ files (snd r) !! "temp/c.mp4" = None.
Proof.
  intros s r.
  destruct (@cleanupFiles_best_effort host_locked
              ["temp/a.mp4"; "temp/locked.mp4"; "temp/c.mp4"] s)
    as (Hret & _ & _ & Hgone & Hkept).
  split; [exact Hret |]. split; [| split].
  - apply Hgone; [left | reflexivity].
  - fold r in Hkept. rewrite (Hkept "temp/locked.mp4").
    + vm_compute. reflexivity.
    + right. eexists. reflexivity.
  - apply Hgone; [right; right; left | reflexivity].
Defined.


Lemma splitVideo_removes_source_last_witness :
  let s := put (@fresh host_large) "temp/clip_processed.mp4" (250 * MB) in
  let r := @splitVideo host_large 10 "temp/clip_processed.mp4" "clip.mp4" s in
  files s !! "temp/clip_processed.mp4" = Some (250 * MB)
  /\ files (snd r) !! "temp/clip_processed.mp4" = None.
Proof.
  intros s r. split; [vm_compute; reflexivity |].
  destruct (@splitVideo_removes_source_last host_large 10
              "temp/clip_processed.mp4" "clip.mp4" s) as (Hgone & _ & _).
  fold r in Hgone.
  destruct (fst r) as [arts | | | ] eqn:Hr;
    try (vm_compute in Hr; discriminate Hr).
  exact (Hgone arts eq_refl).
Defined.

(** "50MB" is stored as 50; an integer above 2^53 that binary64 does not
    have is stored as its neighbour. *)
Lemma constructor_numeric_settings_witness :
  maxVideoSizeMB
    (this (snd (@constructor host_large
                  (boot (<["MAX_VIDEO_SIZE_MB" := "50MB"]> ∅))))) = num 50
  /\ maxVideoSizeMB
       (this (snd (@constructor host_large
                     (boot (<["MAX_VIDEO_SIZE_MB" := "9007199254740993"]> ∅)))))
     = num 9007199254740992.
Proof.
  split.
  - destruct (@constructor_numeric_settings host_large
                (boot (<["MAX_VIDEO_SIZE_MB" := "50MB"]> ∅)) "50" "MB" 50)
      as (Hmax & _ & _ & _ & _ & _ & Hexact).
    + vm_compute. reflexivity.
    + lia.
    + vm_compute. reflexivity.
    + rewrite Hmax by (vm_compute; reflexivity). apply Hexact. lia.
  - destruct (@constructor_numeric_settings host_large
                (boot (<["MAX_VIDEO_SIZE_MB" := "9007199254740993"]> ∅))
                "9007199254740993" "" 9007199254740993)
      as (Hmax & _).
    + vm_compute. reflexivity.
    + lia.
    + vm_compute. exact I.
    + rewrite Hmax by (vm_compute; reflexivity). vm_compute. reflexivity.
Defined.

Lemma processVideo_artifacts_on_disk_witness :
  let r := @processVideo host_large 10 "in/clip.mp4" "clip.mp4"
             (@fresh host_large) in
  exists arts,
    fst r = Returned arts
    /\ length arts = 4%nat
    /\ forall a, a ∈ arts ->
                 files (snd r) !! Artifact.path a = Some (Artifact.size a).
Proof.
  intros r.
  destruct (fst r) as [arts | | | ] eqn:Hr;
    try (vm_compute in Hr; discriminate Hr).
  exists arts. split; [reflexivity |]. split.
  - vm_compute in Hr. injection Hr as <-. reflexivity.
  - apply (@processVideo_artifacts_on_disk host_large 10 "in/clip.mp4"
             "clip.mp4" (@fresh host_large) arts); [| exact Hr].
    intros a b _ _ H. vm_compute in H. injection H as H. exact H.
Defined.

Lemma updateEntryStatus_missing_entry_witness :
  @updateEntryStatus cloud_recorded "vid-9" "PROCESSING" no_additional
    (start (@fresh host_small))
  = (Thrown ("Failed to update status in Google Sheets: "
             +:+ "Entry not found for file ID: vid-9"),
     called (start (@fresh host_small))
       [ValuesGet (Some "sheet-1") "VideoProcessing!A:C" false]).
Proof.
  apply (@updateEntryStatus_missing_entry cloud_recorded "vid-9" "PROCESSING"
           no_additional (start (@fresh host_small))
           (Some [header_row; recorded_row "vid-1" "clip.mp4"])).
  - vm_compute. reflexivity.
  - intros row Hrow. cbn [default] in Hrow.
    apply elem_of_cons in Hrow as [-> | Hrow]; [vm_compute; discriminate |].
    apply elem_of_cons in Hrow as [-> | Hrow]; [vm_compute; discriminate |].
    inversion Hrow.
Defined.

Lemma updateEntryStatus_targets_first_match_witness :
  let w := start (@fresh host_small) in
  let r := @updateEntryStatus cloud_recorded "vid-1" "COMPLETED"
             {| Additional.processingTime := Some (num 9);
                Additional.errorMessage := None |} w in
  exists rest,
    new_calls w (snd r)
    = ValuesGet (Some "sheet-1") "VideoProcessing!A:C" false
      :: ValuesUpdate (Some "sheet-1") "VideoProcessing!D2"
           [[JString "COMPLETED"]]
      :: rest.
Proof.
  intros w r.
  destruct (@updateEntryStatus_targets_first_match cloud_recorded "vid-1"
              "COMPLETED"
              {| Additional.processingTime := Some (num 9);
                 Additional.errorMessage := None |} w
              (Some [header_row; recorded_row "vid-1" "clip.mp4"]) 1%nat
              (recorded_row "vid-1" "clip.mp4"))
    as (rest & Hcalls & _).
  - vm_compute. reflexivity.
  - reflexivity.
  - reflexivity.
  - intros j' row' Hlt Hrow'. destruct j' as [| j']; [| lia].
    injection Hrow' as <-. vm_compute. discriminate.
  - exists rest. exact Hcalls.
Defined.

Lemma script_processVideo_needs_entry_witness :
  let w := start (@fresh host_small) in
  let lookup := ValuesGet (Some "sheet-1") "VideoProcessing!A:C" false in
  @script_processVideo host_small cloud_blank 10 "vid-9" "clip.mp4" w
  = (Thrown ("Failed to update status in Google Sheets: "
             +:+ "Entry not found for file ID: vid-9"),
     called w [ReadClock; lookup; ReadClock; lookup]).
Proof.
  intros w lookup.
  apply (@script_processVideo_needs_entry host_small cloud_blank 10 "vid-9"
           "clip.mp4" w).
  intros h. exists (Some [header_row]). split; [reflexivity |].
  intros row Hrow. cbn [default] in Hrow.
  apply elem_of_cons in Hrow as [-> | Hrow]; [vm_compute; discriminate |].
  inversion Hrow.
Defined.

Lemma script_cleanupFiles_effect_witness :
  let w := start (put (put (@fresh host_locked) "temp/1-clip.mp4" 700)
                    "temp/locked.mp4" 20) in
  let r := @script_cleanupFiles host_locked (Some "temp/1-clip.mp4") [] w in
  fst r = Returned tt
  /\ files (local (snd r)) !! "temp/1-clip.mp4" = None
  /\ files (local (snd r)) !! "temp/locked.mp4" = Some 20.
Proof.
  intros w r.
  destruct (@script_cleanupFiles_effect host_locked (Some "temp/1-clip.mp4")
              [] w) as (Hret & _ & _ & Hout & Hgone).
  split; [exact Hret |]. split.
  - apply Hgone.
    + intros p Hp. apply list_elem_of_singleton in Hp. subst p. reflexivity.
    + left.
    + discriminate.
  - fold r in Hout. rewrite (Hout "temp/locked.mp4").
    + vm_compute. reflexivity.
    + intros Hp. apply list_elem_of_singleton in Hp. discriminate Hp.
Defined.

Lemma script_processVideo_leaves_no_files_witness :
  let w := start (@fresh host_small) in
  let r := @script_processVideo host_small cloud_recorded 10 "vid-1"
             "clip.mp4" w in
  exists result,
    fst r = Returned result
    /\ forall p z, files (local (snd r)) !! p = Some z ->
                   files (local w) !! p = Some z.
Proof.
  intros w r.
  destruct (fst r) as [result | | | ] eqn:Hr;
    try (vm_compute in Hr; discriminate Hr).
  exists result. split; [reflexivity |].
  apply (@script_processVideo_leaves_no_files host_small cloud_recorded 10
           "vid-1" "clip.mp4" w result).
  - intros p. reflexivity.
  - apply posix_join_nonempty.
  - exact Hr.
Defined.



Lemma checkForNewVideos_skips_recorded_witness :
  let w := start (@fresh host_small) in
  exists videos,
    fst (@checkForNewVideos cloud_recorded
           (snd (@loadProcessedFileIds cloud_recorded w))) = Returned videos
    /\ forall file,
         file ∈ videos ->
         @isVideoFile cloud_recorded (DriveFile.name file) = true
         /\ DriveFile.id file <> "vid-1".
Proof.
  intros w.
  destruct (fst (@checkForNewVideos cloud_recorded
                   (snd (@loadProcessedFileIds cloud_recorded w))))
    as [videos | | | ] eqn:Hr; try (vm_compute in Hr; discriminate Hr).
  exists videos. split; [reflexivity |].
  intros file Hfile.
  destruct (@checkForNewVideos_skips_recorded cloud_recorded w
              [recorded_row "vid-1" "clip.mp4"] videos eq_refl Hr file Hfile)
    as (Hvideo & Hnew).
  split; [exact Hvideo |].
  intros Hid. apply (Hnew ltac:(rewrite Hid; discriminate)
                       (recorded_row "vid-1" "clip.mp4")); [left |].
  rewrite Hid. reflexivity.
Defined.

Lemma run_exits_only_when_listing_fails_witness :
  let w := start (@fresh host_small) in
  Forall keeps_running (new_calls w (snd (@run host_small cloud_recorded 10 w)))
  /\ fst (@run host_small cloud_no_listing 10 w) = Escaped.
Proof.
  intros w. split.
  - destruct (@run_exits_only_when_listing_fails host_small cloud_recorded 10 w)
      as (_ & H).
    exact H.
  - destruct (@run_exits_only_when_listing_fails host_small cloud_no_listing
                10 w) as (_ & H).
    exact (proj1 H).
Defined.

Lemma fileFilter_accepts_scanned_videos_witness :
  @fileFilter cloud_recorded "Holiday.MOV" "video/quicktime-mov" = None.
Proof.
  apply (@fileFilter_accepts_scanned_videos cloud_recorded);
    vm_compute; reflexivity.
Defined.

(** The four ways a download ends: the stream ends well; the directory
    cannot be made; the request is refused; the stream breaks after 3 MB. *)
Lemma downloadFile_outcomes_witness :
  (let w := start (@fresh host_small) in
   let r := @downloadFile host_small cloud_recorded "vid-1" "clip.mp4" w in
   fst r = Returned "temp/1714557600000-clip.mp4"
   /\ files (local (snd r)) !! "temp/1714557600000-clip.mp4" = Some (700 * MB)
   /\ files (local (snd r)) !! "temp/clip_processed.mp4" = None)
  /\ (let w := start (@fresh host_no_directory) in
      let r := @downloadFile host_no_directory cloud_recorded "vid-1"
                 "clip.mp4" w in
      fst r = Thrown ("Failed to download file from Google Drive: "
                      +:+ "EACCES: permission denied, mkdir 'temp'")
      /\ new_calls w (snd r) = [ReadClock])
  /\ (let w := start (@fresh host_small) in
      let r := @downloadFile host_small cloud_download_refused "vid-1"
                 "clip.mp4" w in
      fst r = Thrown ("Failed to download file from Google Drive: "
                      +:+ "File not found: vid-1.")
      /\ files (local (snd r)) = files (local w))
  /\ (let w := start (@fresh host_small) in
      let r := @downloadFile host_small cloud_stream_broken "vid-1"
                 "clip.mp4" w in
      fst r = Thrown "Failed to download file: socket hang up"
      /\ files (local (snd r)) !! "temp/1714557600000-clip.mp4"
         = Some (3 * MB)).
Proof.
  split; [| split; [| split]]; intros w r.
  - destruct (@downloadFile_outcomes host_small cloud_recorded "vid-1"
                "clip.mp4" w) as (Hother & _ & Hret & Hfile).
    fold r in Hother, Hret, Hfile.
    split; [exact Hret |]. split; [exact Hfile |].
    rewrite Hother; [vm_compute; reflexivity | vm_compute; discriminate].
  - destruct (@downloadFile_outcomes host_no_directory cloud_recorded "vid-1"
                "clip.mp4" w) as (_ & Hret & Hcalls & _).
    split; [exact Hret | exact Hcalls].
  - destruct (@downloadFile_outcomes host_small cloud_download_refused "vid-1"
                "clip.mp4" w) as (_ & _ & Hret & Hfiles).
    split; [exact Hret | exact Hfiles].
  - destruct (@downloadFile_outcomes host_small cloud_stream_broken "vid-1"
                "clip.mp4" w) as (_ & _ & Hret & Hfile).
    split; [exact Hret | exact Hfile].
Defined.

Lemma processVideo_removes_only_transcoded_witness :
  let s := put (@fresh host_second_segment_fails) "in/clip.mp4" (700 * MB) in
  let r := @processVideo host_second_segment_fails 10 "in/clip.mp4"
             "clip.mp4" s in
  (exists m, fst r = Thrown m)
  /\ is_Some (files (snd r) !! "in/clip.mp4").
Proof.
  intros s r. split; [eexists; vm_compute; reflexivity |].
  apply (@processVideo_removes_only_transcoded host_second_segment_fails).
  - vm_compute. discriminate.
  - vm_compute. eauto.
Defined.

(** Two rejected jobs.  With no row for the file in the sheet the first
    step fails, the report of the ERROR status fails as well and its error
    is the one that leaves the job.  With a row in the sheet and a download
    that is refused, the error of the download leaves the job. *)
Lemma script_processVideo_rejection_message_witness :
  fst (@script_processVideo host_small cloud_recorded 10 "vid-9" "clip.mp4"
         (start (@fresh host_small)))
  = Thrown ("Failed to update status in Google Sheets: "
            +:+ "Entry not found for file ID: vid-9")
  /\ fst (@script_processVideo host_small cloud_download_refused 10 "vid-1"
            "clip.mp4" (start (@fresh host_small)))
     = Thrown ("Failed to download file from Google Drive: "
               +:+ "File not found: vid-1.")
  /\ job_failure ("Failed to download file from Google Drive: "
                  +:+ "File not found: vid-1.").
Proof.
  destruct (@script_processVideo_rejection_message host_small cloud_recorded
              10 "vid-9" "clip.mp4" (start (@fresh host_small)))
    as (Hfirst & _).
  destruct (@script_processVideo_rejection_message host_small
              cloud_download_refused 10 "vid-1" "clip.mp4"
              (start (@fresh host_small)))
    as (Hsecond & Hfailure & _).
  split; [rewrite Hfirst; vm_compute; reflexivity |].
  split; [rewrite Hsecond; vm_compute; reflexivity |].
  apply Hfailure. rewrite Hsecond. vm_compute. reflexivity.
Defined.

Lemma script_processVideo_records_media_witness :
  let w := start (@fresh host_large) in
  let r := @script_processVideo host_large cloud_recorded 10 "vid-1"
             "clip.mp4" w in
  exists result videos thumbnail row,
    fst r = Returned result
    /\ JobResult.urls result = videos ++ [thumbnail]
    /\ length videos = 3%nat
    /\ ValuesAppend (Some "sheet-1") "VideoProcessing!A:J" [row]
       ∈ new_calls w (snd r)
    /\ row !! 4%nat = Some (JNumber (num 3)).
Proof.
  intros w r.
  destruct (fst r) as [result | | | ] eqn:Hr;
    try (vm_compute in Hr; discriminate Hr).
  destruct (@script_processVideo_records_media host_large cloud_recorded 10
              "vid-1" "clip.mp4" w result Hr)
    as (videos & thumbnail & row & Hurls & _ & _ & Hin & _ & Hcount & _).
  assert (Hlen : length videos = 3%nat).
  { vm_compute in Hr. injection Hr as <-. cbn [JobResult.urls] in Hurls.
    apply (f_equal length) in Hurls. rewrite length_app in Hurls.
    cbn in Hurls. lia. }
  exists result, videos, thumbnail, row.
  split; [reflexivity |]. split; [exact Hurls |]. split; [exact Hlen |].
  split; [exact Hin |]. rewrite Hcount, Hlen. reflexivity.
Defined.

(** A spreadsheet without the sheet of the service: the sheet is asked
    for straight after the read and the headers are then written; when the
    request is refused the call rejects and nothing more is asked. *)
Lemma initializeSheet_creates_missing_sheet_witness :
  (let w := start (@fresh host_small) in
   let r := @initializeSheet cloud_no_sheet w in
   fst r = Returned tt
   /\ exists rest,
        new_calls w (snd r)
        = SpreadsheetsGet (Some "sheet-1")
          :: SpreadsheetsBatchUpdate (Some "sheet-1")
               (AddSheet "VideoProcessing")
          :: rest
        /\ rest <> []
        /\ Forall adds_no_sheet rest)
  /\ (let w := start (@fresh host_small) in
      let r := @initializeSheet cloud_sheet_refused w in
      fst r = Thrown ("Failed to initialize Google Sheet: "
                      +:+ "Failed to create Google Sheet: "
                      +:+ "The caller does not have permission")
      /\ new_calls w (snd r)
         = [ SpreadsheetsGet (Some "sheet-1");
             SpreadsheetsBatchUpdate (Some "sheet-1")
               (AddSheet "VideoProcessing") ]).
Proof.
  split; intros w r.
  - destruct (@initializeSheet_creates_missing_sheet cloud_no_sheet w
                [ {| SheetProps.title := "Sheet1"; SheetProps.sheetId := 0 |} ]
                eq_refl)
      as (rest & Hcalls & Hrest & _).
    fold r in Hcalls. split; [vm_compute; reflexivity |].
    exists rest. split; [exact Hcalls |]. split; [| exact Hrest].
    intros ->. vm_compute in Hcalls. discriminate Hcalls.
  - destruct (@initializeSheet_creates_missing_sheet cloud_sheet_refused w
                [ {| SheetProps.title := "Sheet1"; SheetProps.sheetId := 0 |} ]
                eq_refl)
      as (rest & Hcalls & _ & Hfail).
    fold r in Hcalls, Hfail.
    destruct (Hfail eq_refl "The caller does not have permission" eq_refl)
      as [-> Hret].
    split; [exact Hret | exact Hcalls].
Defined.

